(* ===== verification/_CoqProject ===== *)
-Q . S2P
Prelude.v
PolicyFile.v
Ebitmap.v
EbitmapFacts.v
EbitmapIter.v
EbitmapIO.v
EbitmapSpec.v
Hashtab.v
HashtabFacts.v
HashtabSpec.v
Avtab.v
AvtabFacts.v
AvtabSpec.v
Mls.v
Policydb.v
MlsPolicy.v
MlsFacts.v
MlsSpec.v
MlsString.v
Sidtab.v
SidtabSpec.v
SidtabMap.v
Rpn.v
Conditional.v
ConditionalFacts.v
ConditionalNorm.v
ConditionalSpec.v
Context.v
ContextSpec.v
Constraint.v
ConstraintFacts.v
ConstraintSpec.v
Services.v
ServicesFacts.v
ServicesSpec.v
ObjectSid.v
ObjectSidSpec.v
LoadPolicySpec.v
UserSidsSpec.v
Optimize.v
OptimizeTypes.v
OptimizeFacts.v
OptimizeTable.v
OptimizeCond.v
OptimizeSpec.v
Validate.v
ValidateFacts.v
ValidateRules.v
ValidateSpec.v
PolicySetters.v
ReadPolicy.v
IndexPolicy.v
PolicydbRead.v
PolicydbInit.v
ReadFacts.v
ReadRulesFacts.v
ExpandFacts.v
IndexFacts.v
PolicyReadFacts.v
PolicyInitFacts.v
PolicyReadSpec.v
