(* ===== verification/Prelude.v ===== *)
(** * libsepol: the SELinux policy library

    ** The program

    The repository holds the SELinux userspace: [libsepol] (the policy database,
    the security server that answers from it, the compilers that produce it),
    [libselinux], [libsemanage], [checkpolicy] and tools.  This development
    models the binary policy of [src/libsepol] and the security server over it.
    All paths below are relative to [src/libsepol].

    The policy database ([policydb_t]) is built of bitmaps ([ebitmap_t]), hash
    tables of symbols, a table of type enforcement rules ([avtab_t]), a second
    one whose rules conditional expressions switch, and lists of constraints,
    role rules and object contexts.  A security context is a user, a role, a type
    and an MLS range.  The security server ([src/services.c]) maps contexts to
    identifiers in a table ([sidtab_t]) and answers, from a policy and such a
    table, which permissions a pair of contexts has, which label a new object
    gets, and how the identifiers carry over when another policy is loaded.

    ** The model

    The code is translated function by function; definitions have the names of
    the C functions, and helper definitions are loops or parts of the function
    their comment names.

    - Integers are [Z], with the conversions of the C types written out
      ([u8], [u16], [u32], [u64], [s32]).
    - A function that allocates is a program of the monad [M]: a heap with a
      counter of addresses and a script of the answers of [malloc] (an exhausted
      script never fails), so that a theorem over all heaps covers every pattern
      of allocation failures.  [None] is undefined behaviour, an access outside
      an array, a null or dangling pointer, or exhausted fuel; [wp] proves its
      absence.
    - Functions without allocation that can reach undefined behaviour return
      [option]; [get] embeds them in [M].
    - An array is a list accessed with [aget] and [aset], which fail outside it.
      A linked list owned by one structure is a list.  Nodes of a rule table
      carry their address, because conditional lists point at them.
    - Static variables of [src/services.c] are the fields of the records
      [services] and [text_state], which are threaded through the calls.

    ** The files

    - [Prelude]: integers, error codes, the monad, its rules and tactics, C
      strings, and the lemmas on lists and bits that the components share.
    - [PolicyFile]: [struct policy_file], [next_entry], [put_entry], [str_read]
      ([src/services.c]) on memory, on a stream and counting only.
    - [Ebitmap] ([src/ebitmap.c], [ebitmap_write] of [src/write.c]);
      [EbitmapFacts], [EbitmapIter], [EbitmapIO] and [EbitmapSpec]: every
      operation on the set of bits, iteration, the binary form.
    - [Hashtab] ([src/hashtab.c], [src/symtab.c]); [HashtabFacts],
      [HashtabSpec]: the invariant and the refinement to finite maps.
    - [Avtab] ([src/avtab.c]); [AvtabFacts], [AvtabSpec]: the sorted chains,
      insertion, lookup, enumeration, sizes, reading.
    - [Mls] ([mls_types.h], [context.h]), [MlsPolicy] ([src/mls.c]); [MlsFacts],
      [MlsSpec], [MlsString]: dominance, derived ranges, validity, text.
    - [Policydb] ([policydb.h], [constraint.h], [conditional.h]): the records of
      the policy.
    - [Sidtab] ([src/sidtab.c]); [SidtabSpec], [SidtabMap]: identifiers stay
      bound to their contexts; iteration and cloning.
    - [Rpn]: the reference machine for expressions in reverse Polish notation.
    - [Conditional] ([src/conditional.c]); [ConditionalFacts],
      [ConditionalNorm], [ConditionalSpec]: evaluation, switching of rules,
      normalisation, comparison, reading.
    - [Context] ([src/context.c], [src/context_record.c]); [ContextSpec]:
      validity and text of contexts.
    - [Constraint] (the constraint evaluator of [src/services.c],
      [src/util.c]); [ConstraintFacts], [ConstraintSpec]: the value of a
      constraint and its explanation.
    - [Services] (decisions and labels of [src/services.c]); [ServicesFacts],
      [ServicesSpec]: decisions against the relation [granted].
    - [ObjectSid] (the rest of [src/services.c]); [ObjectSidSpec],
      [LoadPolicySpec], [UserSidsSpec]: labels of objects, validation of
      transitions, change of policy, sessions of a user.
    - [Optimize] ([src/optimize.c]); [OptimizeTypes], [OptimizeFacts],
      [OptimizeTable], [OptimizeCond], [OptimizeSpec]: removing covered rules
      changes no decision.
    - [Validate] ([src/policydb_validate.c]); [ValidateFacts], [ValidateRules],
      [ValidateSpec]: exactly the valid policies are accepted.
    - [PolicySetters] (writes to fields of the policy), [ReadPolicy] (the readers
      of symbols, rules and contexts of [src/policydb.c]), [IndexPolicy] (arrays
      and caches; [type_set_expand] and [role_set_expand] of [src/expand.c]),
      [PolicydbRead] ([policydb_read] for kernel policies), [PolicydbInit]
      ([policydb_init], [symtab_insert], [sepol_policydb_create],
      [policydb_from_image]).
    - [ReadFacts] (a logic for readers: what holds of the result, for every file
      and every pattern of allocation failures), [ReadRulesFacts], [ExpandFacts],
      [IndexFacts], [PolicyReadFacts], [PolicyInitFacts], [PolicyReadSpec]: a
      policy is created, read, indexed and validated.

    ** What the theorems show

    - Containers: bitmaps implement sets and keep their invariant on every
      branch, whatever the allocator does; hash tables refine finite maps over
      any sequence of operations; rule tables find exactly the rules of a key.
    - Readers of untrusted bytes ([avtab_read], [cond_read_list], and the whole of
      [policydb_read]) return on every input, never leave the input, and accept only
      well-formed data; one kind of file for which this fails is stated and shown.
      Bitmaps read back what was written.
    - Validation accepts exactly the policies whose symbols, rules and expressions
      are in order; what is read and accepted satisfies what loading a policy and
      the validity of contexts rely on, and its conditionals are decided under every
      setting of the booleans.
    - MLS: dominance is a partial order; derived ranges are ordered and inside
      the clearance of the user; text and structure convert both ways.
    - Expressions: the stack machines of conditionals and constraints compute the
      value of the expression, including their limits and error paths.
    - Decisions: the permissions of a decision are exactly those a rule in force
      allows and no constraint, role rule or bound takes away; bounded types
      hold no more than their bounds; labels of new objects are valid.
    - State: identifiers keep their meaning through allocation, lookup and the
      change to another policy; the optimiser preserves every decision in every
      state of the booleans.

    ** Bounds and fuel

    Recursion follows the data, except for loops whose end depends on values.
    Binary search has the length of the vector as fuel, since the interval
    shrinks in every round.  Iteration over a bitmap has fuel for each of its
    bits.  Type bounds are followed at most once per type, and the chain of
    bounds of a policy is finite by hypothesis ([height]).  Loops over a count run for that count, which the
    code read or computed before.  In each case a theorem states that the result
    is reached.  Stack depths (10 for conditionals, 5 for
    constraints) and buffer sizes are those of the code.

    ** Not modelled

    Modules: their part of [policydb_read] ([read_header] gives no result for
    one), linking, and expansion but for the sets of types and roles.  Writing a
    policy ([src/write.c], but for bitmaps), the checks over unexpanded rules
    ([src/assertion.c], [src/hierarchy.c]), converters to text, the CIL compiler
    and [checkpolicy], which work on the unexpanded form of a policy.  Functions
    that only free memory, print statistics or pass a field through.
    [libselinux], [libsemanage], the tools and daemons, which are interfaces to the
    kernel, files and processes.  [sepol_load_policy] takes the policy read as an
    argument. *)

From Stdlib Require Export ZArith Lia Bool Sorted Btauto Ascii.
From stdpp Require Export base numbers option tactics strings gmap list.

#[global] Open Scope Z_scope.

(** ** Machine integers

    A C unsigned integer of width [w] is a [Z]; every operation that can leave
    the range is followed by the conversion the C type performs. *)

Definition u8 (x : Z) : Z := x mod 2 ^ 8.
Definition u16 (x : Z) : Z := x mod 2 ^ 16.
Definition u32 (x : Z) : Z := x mod 2 ^ 32.
Definition u64 (x : Z) : Z := x mod 2 ^ 64.

(** The conversion to a 32-bit [int]. *)
Definition s32 (x : Z) : Z := let y := u32 x in if y <? 2 ^ 31 then y else y - 2 ^ 32.

Definition UINT_MAX : Z := 2 ^ 32 - 1.

(** C truth values. *)
Definition b2z (b : bool) : Z := if b then 1 else 0.
Definition nz (x : Z) : bool := negb (x =? 0).

(** ** Error codes ([errno.h], [sepol/errcodes.h], [debug.h]) *)

Definition EPERM : Z := 1.
Definition ENOENT : Z := 2.
Definition ENOMEM : Z := 12.
Definition EACCES : Z := 13.
Definition EEXIST : Z := 17.
Definition EINVAL : Z := 22.
Definition EOVERFLOW : Z := 75.
Definition STATUS_SUCCESS : Z := 0.
Definition STATUS_ERR : Z := -1.
Definition SEPOL_OK : Z := 0.
Definition SEPOL_ENOMEM : Z := - ENOMEM.
Definition SEPOL_EEXIST : Z := - EEXIST.
Definition SEPOL_ENOENT : Z := - ENOENT.

(** ** The allocator and the execution monad

    [hp_next] is the next fresh address; [hp_oom] scripts the outcome of the
    coming allocations: [true] makes the next one return [NULL], and the empty
    script lets every allocation succeed.  A computation that has no defined C
    result (an access outside an array, a dereference of [NULL], a shift by the
    width or more, a loop that outlives its fuel) is [None]. *)

Record heap := Heap { hp_next : Z; hp_oom : list bool }.

Definition M (A : Type) : Type := heap → option (A * heap).

#[global] Instance M_ret : MRet M := λ A a h, Some (a, h).
#[global] Instance M_bind : MBind M := λ A B f m h,
  match m h with
  | Some (a, h') => f a h'
  | None => None
  end.

(** Undefined behaviour. *)
Definition ub {A} : M A := λ _, None.

(** A partial access: [None] is undefined behaviour. *)
Definition get {A} (o : option A) : M A :=
  match o with Some a => mret a | None => ub end.

Definition malloc : M (option Z) := λ h,
  match hp_oom h with
  | true :: r => Some (None, Heap (hp_next h) r)
  | false :: r => Some (Some (hp_next h), Heap (hp_next h + 1) r)
  | [] => Some (Some (hp_next h), Heap (hp_next h + 1) [])
  end.

(** [array[i]] for a C array of [Z] indices. *)
Definition aget {A} (l : list A) (i : Z) : option A :=
  if i <? 0 then None else l !! Z.to_nat i.

(** [array[i] = x]. *)
Definition aset {A} (l : list A) (i : Z) (x : A) : option (list A) :=
  if (0 <=? i) && (i <? Z.of_nat (length l)) then Some (<[Z.to_nat i := x]> l) else None.

(** ** Weakest preconditions *)

Definition wp {A} (m : M A) (h : heap) (Q : A → heap → Prop) : Prop :=
  match m h with Some (a, h') => Q a h' | None => False end.

(** A later heap: addresses only grow, and an allocator that never fails keeps
    never failing. *)
Definition heap_le (h h' : heap) : Prop :=
  hp_next h ≤ hp_next h' ∧ (hp_oom h = [] → hp_oom h' = []).

#[global] Instance heap_le_preorder : PreOrder heap_le.
Proof. split; [done|]. intros ??? [??] [??]; split; [lia|auto]. Qed.

Lemma heap_le_oom h h' : heap_le h h' → hp_oom h' ≠ [] → hp_oom h ≠ [].
Proof. unfold heap_le. naive_solver. Qed.

Lemma heap_le_nil h h' : heap_le h h' → hp_oom h = [] → hp_oom h' = [].
Proof. intros Hle Ho. destruct (decide (hp_oom h' = [])) as [|Hne]; [done|]. by destruct (heap_le_oom _ _ Hle Hne). Qed.

Section wp_rules.
Context {A B : Type}.
Implicit Types (Q : A → heap → Prop).

Lemma wp_ret (a : A) h Q : Q a h → wp (mret a) h Q.
Proof. done. Qed.

Lemma wp_bind (m : M A) (f : A → M B) h (Q : B → heap → Prop) :
  wp m h (λ a h', wp (f a) h' Q) → wp (m ≫= f) h Q.
Proof. unfold wp, mbind, M_bind. by destruct (m h) as [[??]|]. Qed.

Lemma wp_mono (m : M A) h Q Q' :
  wp m h Q → (∀ a h', Q a h' → Q' a h') → wp m h Q'.
Proof. unfold wp. destruct (m h) as [[??]|]; auto. Qed.

Lemma wp_get (o : option A) (a : A) h Q : o = Some a → Q a h → wp (get o) h Q.
Proof. by intros ->. Qed.

Lemma wp_malloc h (Q : option Z → heap → Prop) :
  (∀ h', heap_le h h' → hp_oom h ≠ [] → Q None h') →
  (∀ h', heap_le h h' → hp_next h < hp_next h' → Q (Some (hp_next h)) h') →
  wp malloc h Q.
Proof.
  intros HN HS. unfold wp, malloc.
  destruct (hp_oom h) as [|[] r] eqn:E; [apply HS|apply HN|apply HS];
    unfold heap_le; simpl; rewrite ?E; try lia; try done; split; done || lia.
Qed.

Lemma wp_run (m : M A) h Q :
  wp m h Q ↔ ∃ a h', m h = Some (a, h') ∧ Q a h'.
Proof.
  unfold wp. destruct (m h) as [[a h']|]; [|split; [done|by intros (?&?&?&?)]].
  split; [eauto|]. intros (?&?&[= -> ->]&?). done.
Qed.
End wp_rules.

Lemma wp_any_malloc h (Q : option Z → heap → Prop) : (∀ r h', Q r h') → wp malloc h Q.
Proof. intros HQ. apply wp_malloc; auto. Qed.

Lemma bind_get {A B} (x : A) (f : A → M B) h : (get (Some x) ≫= f) h = f x h.
Proof. done. Qed.

Lemma wp_result {A} (m : M A) x h h' (Q : A → heap → Prop) : m h = Some (x, h') → Q x h' → wp m h Q.
Proof. intros H HQ. unfold wp. by rewrite H. Qed.

Lemma bind_run {A B} (m : M A) (f : A → M B) x h h' : m h = Some (x, h') → (m ≫= f) h = f x h'.
Proof. intros H. unfold mbind, M_bind. by rewrite H. Qed.

Lemma wp_malloc_ok h (Q : option Z → heap → Prop) :
  hp_oom h = [] → (∀ h', hp_oom h' = [] → Q (Some (hp_next h)) h') → wp malloc h Q.
Proof.
  intros Ho HQ. apply wp_malloc; [by rewrite Ho|]. intros h' [_ Hle] _. auto.
Qed.

(** Symbolic execution of the monad: unfold one bind, return or allocation. *)
Ltac wp_step :=
  lazymatch goal with
  | |- wp (_ ≫= _) _ _ => apply wp_bind
  | |- wp (mret _) _ _ => apply wp_ret
  | |- wp malloc _ _ => apply wp_malloc; intros
  | |- wp (get (Some _)) _ _ => apply wp_ret
  | |- wp (if ?b then _ else _) _ _ => let E := fresh "E" in destruct b eqn:E
  | |- wp (match ?x with _ => _ end) _ _ => let E := fresh "E" in destruct x eqn:E
  | |- wp (let '(_, _) := ?x in _) _ _ => let E := fresh "E" in destruct x eqn:E
  end.

(** ** Machine integers in range *)

Lemma u32_id i : 0 ≤ i < 2 ^ 32 → u32 i = i.
Proof. intros. unfold u32. by apply Z.mod_small. Qed.

(** ** Reflection of the boolean tests the code uses *)

Ltac zbool :=
  repeat
    match goal with
    | H : (_ && _)%bool = true |- _ => apply andb_true_iff in H as [? ?]
    | H : (_ || _)%bool = false |- _ => apply orb_false_iff in H as [? ?]
    | H : (_ =? _) = true |- _ => apply Z.eqb_eq in H
    | H : (_ =? _) = false |- _ => apply Z.eqb_neq in H
    | H : (_ <? _) = true |- _ => apply Z.ltb_lt in H
    | H : (_ <? _) = false |- _ => apply Z.ltb_ge in H
    | H : (_ <=? _) = true |- _ => apply Z.leb_le in H
    | H : (_ <=? _) = false |- _ => apply Z.leb_gt in H
    | H : (_ >? _) = true |- _ => rewrite Z.gtb_ltb in H; apply Z.ltb_lt in H
    | H : (_ >? _) = false |- _ => rewrite Z.gtb_ltb in H; apply Z.ltb_ge in H
    | H : negb _ = true |- _ => apply negb_true_iff in H
    | H : negb _ = false |- _ => apply negb_false_iff in H
    end.

(** Case split on the tests of the goal. *)
Ltac ztests :=
  repeat
    match goal with
    | |- context [?a =? ?b] => destruct (Z.eqb_spec a b)
    | |- context [?a <? ?b] => destruct (Z.ltb_spec a b)
    | |- context [?a <=? ?b] => destruct (Z.leb_spec a b)
    | |- context [?a >? ?b] => rewrite (Z.gtb_ltb a b)
    end.

(** ** Bits of words *)

Create HintDb bits.

Lemma testbit_out w x i : 0 ≤ x < 2 ^ w → 0 ≤ w ≤ i → Z.testbit x i = false.
Proof.
  intros Hx Hi. rewrite <- (Z.mod_small x (2 ^ w)) by done.
  apply Z.mod_pow2_bits_high. lia.
Qed.

Lemma testbit_neg_ind x i : i < 0 → Z.testbit x i = false.
Proof. intros. by apply Z.testbit_neg_r. Qed.

(** A word is zero exactly when all its bits are. *)
Lemma word_zero w x : 0 ≤ w → 0 ≤ x < 2 ^ w →
  (∀ i, 0 ≤ i < w → Z.testbit x i = false) → x = 0.
Proof.
  intros Hw Hx Hb. apply Z.bits_inj'; intros i Hi. rewrite Z.bits_0.
  destruct (decide (i < w)); [auto with lia|]. by apply (testbit_out w); lia.
Qed.

Lemma word_ext w x y : 0 ≤ w → 0 ≤ x < 2 ^ w → 0 ≤ y < 2 ^ w →
  (∀ i, 0 ≤ i < w → Z.testbit x i = Z.testbit y i) → x = y.
Proof.
  intros Hw Hx Hy Hb. apply Z.bits_inj'; intros i Hi.
  destruct (decide (i < w)); [auto with lia|].
  by rewrite !(testbit_out w) by lia.
Qed.

Lemma word_nonzero w x : 0 ≤ w → 0 < x < 2 ^ w →
  ∃ i, 0 ≤ i < w ∧ Z.testbit x i = true.
Proof.
  intros Hw Hx. exists (Z.log2 x). split; [|by apply Z.bit_log2; lia].
  split; [apply Z.log2_nonneg|]. apply Z.log2_lt_pow2; lia.
Qed.

Section word_bounds.
Context (w : Z) (Hw : 0 ≤ w).

Lemma bits_bound x : 0 ≤ x → (∀ i, w ≤ i → Z.testbit x i = false) → x < 2 ^ w.
Proof using Hw.
  intros Hx Hb. destruct (decide (x = 0)) as [->|Hne]; [apply Z.pow_pos_nonneg; lia|].
  apply Z.log2_lt_pow2; [lia|]. destruct (decide (Z.log2 x < w)); [done|].
  specialize (Hb (Z.log2 x)). rewrite Z.bit_log2 in Hb by lia. naive_solver lia.
Qed.

Lemma lor_bound x y : 0 ≤ x < 2 ^ w → 0 ≤ y < 2 ^ w → 0 ≤ Z.lor x y < 2 ^ w.
Proof using Hw.
  intros Hx Hy. assert (0 ≤ Z.lor x y) by (apply Z.lor_nonneg; lia).
  split; [done|]. apply bits_bound; [done|]. intros i Hi.
  rewrite Z.lor_spec, !(testbit_out w) by lia. done.
Qed.

Lemma land_bound x y : 0 ≤ x < 2 ^ w → 0 ≤ Z.land x y < 2 ^ w.
Proof using Hw.
  intros Hx. assert (0 ≤ Z.land x y) by (apply Z.land_nonneg; lia).
  split; [done|]. apply bits_bound; [done|]. intros i Hi.
  by rewrite Z.land_spec, (testbit_out w) by lia.
Qed.

Lemma lxor_bound x y : 0 ≤ x < 2 ^ w → 0 ≤ y < 2 ^ w → 0 ≤ Z.lxor x y < 2 ^ w.
Proof using Hw.
  intros Hx Hy. assert (0 ≤ Z.lxor x y) by (apply Z.lxor_nonneg; lia).
  split; [done|]. apply bits_bound; [done|]. intros i Hi.
  rewrite Z.lxor_spec, !(testbit_out w) by lia. done.
Qed.

(** The complement of a [w]-bit word. *)
Lemma testbit_wnot x i : 0 ≤ i →
  Z.testbit (Z.lnot x mod 2 ^ w) i = (i <? w) && negb (Z.testbit x i).
Proof using Hw.
  intros Hi. destruct (Z.ltb_spec i w).
  - rewrite Z.mod_pow2_bits_low, Z.lnot_spec by lia. done.
  - by rewrite Z.mod_pow2_bits_high by lia.
Qed.
End word_bounds.

Lemma testbit_shiftl_1 k i : 0 ≤ k → 0 ≤ i → Z.testbit (Z.shiftl 1 k) i = (i =? k).
Proof.
  intros. rewrite Z.shiftl_spec by lia. destruct (Z.eqb_spec i k) as [->|].
  - by rewrite Z.sub_diag.
  - destruct (decide (i < k)); [by apply Z.testbit_neg_r; lia|].
    change 1 with (2 ^ 0). rewrite Z.pow2_bits_false by lia. done.
Qed.

(** [x & (1 << k)] is the test of bit [k]. *)
Lemma land_bit x k : 0 ≤ k → (Z.land x (Z.shiftl 1 k) =? 0) = negb (Z.testbit x k).
Proof.
  intros Hk. destruct (Z.testbit x k) eqn:E; simpl.
  - apply Z.eqb_neq. intros Hz. assert (Z.testbit (Z.land x (Z.shiftl 1 k)) k = true) as Ht.
    { rewrite Z.land_spec, testbit_shiftl_1, E, Z.eqb_refl by lia. done. }
    by rewrite Hz, Z.bits_0 in Ht.
  - apply Z.eqb_eq, Z.bits_inj'. intros i Hi.
    rewrite Z.land_spec, testbit_shiftl_1, Z.bits_0 by lia.
    destruct (Z.eqb_spec i k) as [->|]; [by rewrite E|by rewrite andb_false_r].
Qed.

(** ** Lists *)

Lemma length_filter_fmap {A B} (f : A → B) (P : B → Prop) (Q : A → Prop)
    `{∀ x, Decision (P x)} `{∀ x, Decision (Q x)} l :
  (∀ x, x ∈ l → P (f x) ↔ Q x) → length (filter P (f <$> l)) = length (filter Q l).
Proof.
  induction l as [|x l IH]; intros Hpq; [done|].
  assert (P (f x) ↔ Q x) by (apply Hpq; left).
  rewrite fmap_cons, !filter_cons. do 2 case_decide; try tauto; cbn [length]; rewrite IH; try done;
    intros; apply Hpq; by right.
Qed.

(** ** Lists *)

Lemma sorted_app {A} (R : A → A → Prop) l1 l2 :
  StronglySorted R (l1 ++ l2) ↔
  (∀ a b, a ∈ l1 → b ∈ l2 → R a b) ∧ StronglySorted R l1 ∧ StronglySorted R l2.
Proof.
  induction l1 as [|x l1 IH]; simpl.
  { split; [|tauto]. intros Hs. split; [by intros ?? ?%elem_of_nil|]. split; [constructor|done]. }
  split.
  - intros [Hs Hx]%StronglySorted_inv. apply IH in Hs as (Hr & Hs1 & Hs2).
    apply Forall_app in Hx as [Hx1 Hx2]. split_and!; [|by constructor|done].
    intros a b [->|Ha]%elem_of_cons Hb; [|by apply Hr]. rewrite Forall_forall in Hx2. by apply Hx2.
  - intros (Hr & [Hs1 Hx]%StronglySorted_inv & Hs2). constructor.
    + apply IH. split_and!; [|done..]. intros a b Ha. apply Hr. by apply elem_of_cons; right.
    + apply Forall_app. split; [done|]. apply Forall_forall. intros b Hb. apply Hr; [|done].
      apply elem_of_cons. by left.
Qed.

Lemma sublist_Forall {A} (P : A → Prop) l l' : l' `sublist_of` l → Forall P l → Forall P l'.
Proof. rewrite !Forall_forall. intros Hsub Hl x Hx. apply Hl. by eapply elem_of_sublist. Qed.

Lemma sublist_sorted {A} (R : A → A → Prop) l l' : l' `sublist_of` l → StronglySorted R l → StronglySorted R l'.
Proof.
  induction 1 as [|x l1 l2 Hsub IH|x l1 l2 Hsub IH]; [done| |].
  - intros [Hs Hf]%StronglySorted_inv. constructor; [auto|]. by eapply sublist_Forall.
  - intros [Hs _]%StronglySorted_inv. auto.
Qed.

Lemma sorted_lookup l i j (y z : Z) :
  StronglySorted Z.lt l → l !! i = Some y → l !! j = Some z → (i < j)%nat → y < z.
Proof.
  intros Hs. revert i j. induction Hs as [|x l Hs IH Hx]; intros i j Hi Hj Hij; [done|].
  destruct j as [|j]; [lia|]. destruct i as [|i]; [|apply (IH i j); [done|done|lia]].
  injection Hi as <-. rewrite Forall_forall in Hx. by eapply Hx, list_elem_of_lookup_2.
Qed.

Lemma sorted_lt_NoDup l : StronglySorted Z.lt l → NoDup l.
Proof.
  induction 1 as [|x l Hs IH Hx]; constructor; [|done]. intros Hin. rewrite Forall_forall in Hx. specialize (Hx _ Hin). simpl in Hx. lia.
Qed.

(** A list of lists with one element replaced. *)
Lemma concat_slot {A} (t : list (list A)) i c :
  t !! i = Some c → concat t = concat (take i t) ++ c ++ concat (drop (S i) t).
Proof. intros Hi. rewrite <- (take_drop_middle t i c Hi) at 1. by rewrite concat_app. Qed.

Lemma concat_slot_insert {A} (t : list (list A)) i c :
  (i < length t)%nat → concat (<[i := c]> t) = concat (take i t) ++ c ++ concat (drop (S i) t).
Proof.
  intros Hi. rewrite (concat_slot (<[i := c]> t) i c) by by apply list_lookup_insert_eq.
  by rewrite take_insert_ge, drop_insert_lt by lia.
Qed.

Lemma elem_of_concat {A} (x : A) t : x ∈ concat t ↔ ∃ i c, t !! i = Some c ∧ x ∈ c.
Proof.
  induction t as [|c t IH]; simpl.
  { split; [by intros ?%elem_of_nil|]. by intros (i & c & ? & _). }
  rewrite elem_of_app, IH. split.
  - intros [Hx|(i & c' & Hi & Hx)]; [by exists 0%nat, c|by exists (S i), c'].
  - intros ([|i] & c' & Hi & Hx); [left; by injection Hi as ->|right; by exists i, c'].
Qed.

(** Replacing one element of a list of lists by a permutation of it with one
    more entry. *)
Lemma concat_insert_perm {A} (t : list (list A)) i c c' x :
  t !! i = Some c → c' ≡ₚ x :: c → concat (<[i := c']> t) ≡ₚ x :: concat t.
Proof.
  revert i. induction t as [|d t IH]; intros [|i] Hi Hc; simpl in *; [done..| |].
  - injection Hi as ->. by rewrite Hc.
  - rewrite (IH _ Hi Hc). by rewrite Permutation_middle.
Qed.

Lemma concat_replicate_nil {A} n : concat (replicate n ([] : list A)) = [].
Proof. by induction n. Qed.

Lemma filter_none {A} (P : A → Prop) `{!∀ x, Decision (P x)} l :
  Forall (λ x, ¬ P x) l → filter P l = [].
Proof. induction 1 as [|x l Hx _ IH]; [done|]. by rewrite filter_cons_False. Qed.

(** ** Strings *)

Lemma str_app_cons c s1 s2 : (String c s1 +:+ s2 = String c (s1 +:+ s2))%string.
Proof. done. Qed.

Lemma str_app_nil_l s : ("" +:+ s = s)%string.
Proof. done. Qed.

Lemma str_app_assoc s1 s2 s3 : ((s1 +:+ s2) +:+ s3 = s1 +:+ s2 +:+ s3)%string.
Proof. induction s1 as [|c s1 IH]; [done|]. by rewrite !str_app_cons, IH. Qed.

Lemma str_app_nil_r s : (s +:+ "" = s)%string.
Proof. induction s as [|c s IH]; [done|]. by rewrite str_app_cons, IH. Qed.

Lemma str_length_app s1 s2 : String.length (s1 +:+ s2) = (String.length s1 + String.length s2)%nat.
Proof. induction s1 as [|c s1 IH]; [done|]. rewrite str_app_cons. simpl. by rewrite IH. Qed.
