(* ===== verification/PolicyFile.v ===== *)
(** * Policy files

    [struct policy_file] of [include/sepol/policydb/policydb.h] and the
    primitives [next_entry], [put_entry] and [str_read] of [src/services.c] that
    read and write the binary policy.  All multi-byte fields of the binary
    policy are little-endian ([le32_to_cpu] and its siblings of
    [src/private.h]), so the model works on the bytes of the file. *)

From S2P Require Import Prelude.

(** ** Little-endian encoding *)

Fixpoint le_bytes (n : nat) (x : Z) : list Z :=
  match n with
  | O => []
  | S n => x mod 256 :: le_bytes n (x / 256)
  end.

Definition le_val (l : list Z) : Z := foldr (λ b acc, b + 256 * acc) 0 l.

(** ** The file *)

Inductive pf_kind := PF_USE_MEMORY | PF_USE_STDIO | PF_LEN | PF_OTHER.

(** [pf_data] holds the bytes in front of the read position (the memory region
    at [data], or the rest of the stream), [pf_len] the [len] field (for a
    stream, the room left on the device), and [pf_out] the bytes written so
    far. *)
Record policy_file := PolicyFile {
  pf_type : pf_kind;
  pf_data : list Z;
  pf_len : Z;
  pf_out : list Z
}.

(** [next_entry(buf, fp, bytes)]: the bytes read, or [None] for the return
    value [-1].  [fread] of one item of [bytes] bytes consumes the rest of a
    stream that is too short, and returns 0 for an item of size 0.  Reading a
    memory region past its real end is undefined. *)
Definition next_entry (fp : policy_file) (bytes : Z) : M (option (list Z) * policy_file) :=
  match pf_type fp with
  | PF_USE_STDIO =>
     if bytes =? 0 then mret (None, fp)
     else if bytes <=? Z.of_nat (length (pf_data fp)) then
       mret (Some (take (Z.to_nat bytes) (pf_data fp)),
             PolicyFile (pf_type fp) (drop (Z.to_nat bytes) (pf_data fp))
               (pf_len fp) (pf_out fp))
     else mret (None, PolicyFile (pf_type fp) [] (pf_len fp) (pf_out fp))
  | PF_USE_MEMORY =>
     if bytes >? pf_len fp then mret (None, fp)
     else if bytes <=? Z.of_nat (length (pf_data fp)) then
       mret (Some (take (Z.to_nat bytes) (pf_data fp)),
             PolicyFile (pf_type fp) (drop (Z.to_nat bytes) (pf_data fp))
               (pf_len fp - bytes) (pf_out fp))
     else ub
  | _ => mret (None, fp)
  end.

(** [put_entry(ptr, size, n, fp)] with [ptr] given as the [n] items of [size]
    bytes it points to: the number of items written. *)
Definition put_entry (items : list (list Z)) (size : Z) (fp : policy_file) : M (Z * policy_file) :=
  let n := Z.of_nat (length items) in
  let bytes := size * n in
  match pf_type fp with
  | PF_USE_STDIO =>
     let k := Z.min n (pf_len fp / size) in
     mret (k, PolicyFile (pf_type fp) (pf_data fp) (pf_len fp - size * k)
                (pf_out fp ++ concat (take (Z.to_nat k) items)))
  | PF_USE_MEMORY =>
     if bytes >? pf_len fp then mret (0, fp)
     else mret (n, PolicyFile (pf_type fp) (pf_data fp) (pf_len fp - bytes)
                     (pf_out fp ++ concat items))
  | PF_LEN => mret (n, PolicyFile (pf_type fp) (pf_data fp) (pf_len fp + bytes) (pf_out fp))
  | PF_OTHER => mret (0, fp)
  end.

(** [str_read(strp, fp, len)]: the return code, and the string when it is 0.
    [zero_or_saturated] tests a [size_t], so the length is taken at 64 bits. *)
Definition str_read (fp : policy_file) (len : Z) : M (Z * option (list Z) * policy_file) :=
  if (len =? 0) || (len =? 2 ^ 64 - 1) then mret (-1, None, fp)
  else
    str ← malloc;
    match str with
    | None => mret (-1, None, fp)
    | Some _ =>
       '(r, fp') ← next_entry fp len;
       match r with
       | None => mret (-1, None, fp')
       | Some l => mret (0, Some l, fp')
       end
    end.

(** An array of 32-bit fields read from the file. *)
Fixpoint le32s (n : nat) (l : list Z) : list Z :=
  match n with
  | O => []
  | S n => le_val (take 4 l) :: le32s n (drop 4 l)
  end.

(** ** Facts *)

Lemma length_le_bytes n x : length (le_bytes n x) = n.
Proof. revert x. induction n; intros; simpl; auto. Qed.

(** Decoding inverts encoding, up to the width of the field. *)
Lemma le_val_bytes n x : le_val (le_bytes n x) = x mod 256 ^ Z.of_nat n.
Proof.
  revert x. induction n as [|n IH]; intros x; [simpl; by rewrite Z.mod_1_r|].
  cbn [le_bytes le_val foldr]. fold (le_val (le_bytes n (x / 256))). rewrite IH.
  rewrite Nat2Z.inj_succ, Z.pow_succ_r by lia. symmetry. apply Z.rem_mul_r; [lia|].
  apply Z.pow_pos_nonneg; lia.
Qed.

Lemma le_val_bytes_small n x :
  0 ≤ x < 256 ^ Z.of_nat n → le_val (le_bytes n x) = x.
Proof. intros. rewrite le_val_bytes. by apply Z.mod_small. Qed.

Definition is_byte (b : Z) : Prop := 0 ≤ b < 256.

Lemma le_bytes_bytes n x : Forall is_byte (le_bytes n x).
Proof.
  revert x. induction n as [|n IH]; intros x; simpl; constructor; auto.
  apply Z.mod_pos_bound. lia.
Qed.

Lemma le_val_bound l : Forall is_byte l → 0 ≤ le_val l < 256 ^ Z.of_nat (length l).
Proof.
  induction 1 as [|b l Hb _ IH]; [simpl; lia|].
  unfold is_byte in Hb. cbn [le_val foldr length]. fold (le_val l).
  rewrite Nat2Z.inj_succ, Z.pow_succ_r by lia. lia.
Qed.

Lemma le_val_take n l : Forall is_byte l → 0 ≤ le_val (take n l) < 256 ^ Z.of_nat n.
Proof.
  intros Hl. pose proof (le_val_bound (take n l) (Forall_take _ n l Hl)) as Hb.
  pose proof (Z.pow_le_mono_r 256 (Z.of_nat (length (take n l))) (Z.of_nat n)) as Hp.
  rewrite length_take in *. lia.
Qed.

(** Reading what is in front of the position. *)
Definition readable (fp : policy_file) : Prop :=
  pf_type fp = PF_USE_STDIO ∨
  pf_type fp = PF_USE_MEMORY ∧ pf_len fp = Z.of_nat (length (pf_data fp)).

Definition pf_advance (n : nat) (fp : policy_file) : policy_file :=
  PolicyFile (pf_type fp) (drop n (pf_data fp))
    (match pf_type fp with PF_USE_MEMORY => pf_len fp - Z.of_nat n | _ => pf_len fp end)
    (pf_out fp).

Lemma readable_advance n fp :
  readable fp → (n ≤ length (pf_data fp))%nat → readable (pf_advance n fp).
Proof.
  intros [Ht|[Ht Hl]] Hn; [left; done|right]. unfold pf_advance; simpl.
  rewrite Ht. split; [done|]. rewrite length_drop. lia.
Qed.

(** On a readable file [next_entry] never leaves the file: it delivers exactly
    the next bytes, or fails. *)
Lemma next_entry_readable fp n h :
  readable fp → 0 < n →
  (n ≤ Z.of_nat (length (pf_data fp)) ∧
   next_entry fp n h =
     Some ((Some (take (Z.to_nat n) (pf_data fp)), pf_advance (Z.to_nat n) fp), h)) ∨
  (Z.of_nat (length (pf_data fp)) < n ∧
   ∃ fp', next_entry fp n h = Some ((None, fp'), h)).
Proof.
  intros Hr Hn. unfold next_entry, pf_advance.
  destruct Hr as [Ht|[Ht Hl]]; rewrite Ht.
  - destruct (Z.eqb_spec n 0); [lia|].
    destruct (Z.leb_spec n (Z.of_nat (length (pf_data fp)))); [left|right]; eauto.
  - rewrite Z.gtb_ltb, Hl.
    destruct (Z.ltb_spec (Z.of_nat (length (pf_data fp))) n); [right; eauto|].
    left. split; [lia|]. rewrite (proj2 (Z.leb_le _ _)) by lia.
    by rewrite Z2Nat.id by lia.
Qed.

Lemma wp_next_entry fp n h Q :
  readable fp → 0 < n →
  (n ≤ Z.of_nat (length (pf_data fp)) →
   Q (Some (take (Z.to_nat n) (pf_data fp)), pf_advance (Z.to_nat n) fp) h) →
  (∀ fp', Q (None, fp') h) →
  wp (next_entry fp n) h Q.
Proof.
  intros Hr Hn HS HN. unfold wp.
  destruct (next_entry_readable fp n h Hr Hn) as [[? ->]|[? [fp' ->]]]; auto.
Qed.

(** Reading a known field. *)
Lemma wp_next_bytes fp n a rest h Q :
  readable fp → 0 < n → pf_data fp = a ++ rest → Z.of_nat (length a) = n →
  (pf_data (pf_advance (Z.to_nat n) fp) = rest → readable (pf_advance (Z.to_nat n) fp) →
   Q (Some a, pf_advance (Z.to_nat n) fp) h) →
  wp (next_entry fp n) h Q.
Proof.
  intros Hr Hn Hd Hl HQ. unfold wp.
  destruct (next_entry_readable fp n h Hr Hn) as [[Hle ->]|[Hlt _]];
    [|rewrite Hd, length_app in Hlt; lia].
  rewrite Hd, take_app_length' by lia. apply HQ; [|apply readable_advance; [done|lia]].
  unfold pf_advance; simpl. rewrite Hd. apply drop_app_length'. lia.
Qed.

(** A sink with room for [n] more bytes. *)
Definition room (n : Z) (fp : policy_file) : Prop :=
  (pf_type fp = PF_USE_STDIO ∨ pf_type fp = PF_USE_MEMORY) ∧ n ≤ pf_len fp.

Definition pf_append (l : list Z) (fp : policy_file) : policy_file :=
  PolicyFile (pf_type fp) (pf_data fp) (pf_len fp - Z.of_nat (length l)) (pf_out fp ++ l).

Lemma wp_put_entry items size fp h Q :
  0 < size → Forall (λ i, Z.of_nat (length i) = size) items →
  room (size * Z.of_nat (length items)) fp →
  Q (Z.of_nat (length items), pf_append (concat items) fp) h →
  wp (put_entry items size fp) h Q.
Proof.
  intros Hs Hall [Ht Hlen] HQ.
  assert (Z.of_nat (length (concat items)) = size * Z.of_nat (length items)) as Hc.
  { clear -Hall. induction Hall as [|i l Hi _ IH]; simpl; [lia|]. rewrite length_app. lia. }
  unfold wp, put_entry, pf_append in *.
  destruct Ht as [Ht|Ht]; rewrite Ht in *.
  - rewrite Z.min_l by (apply Z.div_le_lower_bound; lia).
    rewrite Nat2Z.id, take_ge by lia. by rewrite <- Hc.
  - rewrite Z.gtb_ltb, (proj2 (Z.ltb_ge _ _)) by lia. by rewrite <- Hc.
Qed.

Lemma room_append n l fp :
  room n fp → room (n - Z.of_nat (length l)) (pf_append l fp).
Proof. intros [Ht Hl]. split; [done|]. simpl. lia. Qed.

Lemma room_le n m fp : room n fp → m ≤ n → room m fp.
Proof. intros [Ht Hl] ?. split; [done|]. lia. Qed.

Lemma length_le32s n l : length (le32s n l) = n.
Proof. revert l. induction n; intros l; simpl; auto. Qed.

(** Reading keeps the file readable, and its bytes bytes. *)
Definition file_ok (fp : policy_file) : Prop := readable fp ∧ Forall is_byte (pf_data fp).

Lemma wp_next_ok fp n h Q :
  file_ok fp → 0 < n →
  (∀ b fp', Forall is_byte b → Z.of_nat (length b) = n → file_ok fp' →
     Z.of_nat (length (pf_data fp')) = Z.of_nat (length (pf_data fp)) - n → Q (Some b, fp') h) →
  (∀ fp', Q (None, fp') h) →
  wp (next_entry fp n) h Q.
Proof.
  intros [Hr Hb] Hn HS HN. apply wp_next_entry; [done..| |done]. intros Hle. apply HS.
  - by apply Forall_take.
  - rewrite length_take. lia.
  - split; [apply readable_advance; [done|lia]|]. by apply Forall_drop.
  - simpl. rewrite length_drop. lia.
Qed.
