(* ===== verification/Ebitmap.v ===== *)
(** * Extensible bitmaps

    [src/ebitmap.c] and [include/sepol/policydb/ebitmap.h]: a set of 32-bit
    indices as a list of 64-bit words, sorted by the index of their first bit.
    The nodes are owned by their bitmap, so the linked list is a Rocq list; a
    destination that the code initialises itself ([dst]) is part of the result,
    paired with the return code. *)

From S2P Require Import Prelude PolicyFile.

(** ** Data *)

Definition MAPSIZE : Z := 64.

Record ebitmap_node := Node { startbit : Z; nmap : Z }.
Record ebitmap := Ebitmap { e_node : list ebitmap_node; e_highbit : Z }.

#[global] Instance ebitmap_node_eq_dec : EqDecision ebitmap_node.
Proof. solve_decision. Defined.
#[global] Instance ebitmap_eq_dec : EqDecision ebitmap.
Proof. solve_decision. Defined.

Definition ebitmap_init : ebitmap := Ebitmap [] 0.
Definition ebitmap_destroy (e : ebitmap) : ebitmap := Ebitmap [] 0.
Definition ebitmap_is_empty (e : ebitmap) : bool := e_highbit e =? 0.
Definition ebitmap_length (e : ebitmap) : Z := e_highbit e.
Definition ebitmap_startbit (e : ebitmap) : Z :=
  match e_node e with n :: _ => startbit n | [] => 0 end.

(** The complement of a 64-bit word. *)
Definition not64 (x : Z) : Z := u64 (Z.lnot x).
Definition ones64 : Z := 2 ^ 64 - 1.

(** Append a freshly built node in front of the nodes built after it. *)
Definition link {A} (x : A) (m : M (option (list A))) : M (option (list A)) :=
  r ← m; mret (cons x <$> r).

(** [prev ? prev->startbit + MAPSIZE : unset]. *)
Definition high_of (ns : list ebitmap_node) : Z :=
  match last ns with Some n => u32 (startbit n + MAPSIZE) | None => 0 end.

(** ** Set operations *)

(** The [while (n1 || n2)] loop of [ebitmap_or]: the nodes linked to [dst], or
    [None] when an allocation failed and [dst] was destroyed. *)
Fixpoint ebitmap_or_loop (n1 : list ebitmap_node) :
    list ebitmap_node → M (option (list ebitmap_node)) :=
  fix inner (n2 : list ebitmap_node) : M (option (list ebitmap_node)) :=
    match n1, n2 with
    | [], [] => mret (Some [])
    | a :: n1', [] =>
       new ← malloc;
       match new with
       | None => mret None
       | Some _ => link (Node (startbit a) (nmap a)) (ebitmap_or_loop n1' [])
       end
    | [], b :: n2' =>
       new ← malloc;
       match new with
       | None => mret None
       | Some _ => link (Node (startbit b) (nmap b)) (inner n2')
       end
    | a :: n1', b :: n2' =>
       new ← malloc;
       match new with
       | None => mret None
       | Some _ =>
          if startbit a =? startbit b then
            link (Node (startbit a) (Z.lor (nmap a) (nmap b))) (ebitmap_or_loop n1' n2')
          else if startbit a <? startbit b then
            link (Node (startbit a) (nmap a)) (ebitmap_or_loop n1' n2)
          else
            link (Node (startbit b) (nmap b)) (inner n2')
       end
    end.

Definition ebitmap_or (e1 e2 : ebitmap) : M (Z * ebitmap) :=
  r ← ebitmap_or_loop (e_node e1) (e_node e2);
  match r with
  | None => mret (- ENOMEM, ebitmap_init)
  | Some ns =>
     mret (0, Ebitmap ns (if e_highbit e1 >? e_highbit e2 then e_highbit e1 else e_highbit e2))
  end.

(** [dst] is untouched when the union cannot be built. *)
Definition ebitmap_union (dst e1 : ebitmap) : M (Z * ebitmap) :=
  '(rc, tmp) ← ebitmap_or dst e1;
  if nz rc then mret (-1, dst) else mret (0, Ebitmap (e_node tmp) (e_highbit tmp)).

Fixpoint ebitmap_and_loop (n1 : list ebitmap_node) :
    list ebitmap_node → M (option (list ebitmap_node)) :=
  fix inner (n2 : list ebitmap_node) : M (option (list ebitmap_node)) :=
    match n1, n2 with
    | a :: n1', b :: n2' =>
       if startbit a =? startbit b then
         if nz (Z.land (nmap a) (nmap b)) then
           new ← malloc;
           match new with
           | None => mret None
           | Some _ =>
              link (Node (startbit a) (Z.land (nmap a) (nmap b))) (ebitmap_and_loop n1' n2')
           end
         else ebitmap_and_loop n1' n2'
       else if startbit a >? startbit b then inner n2'
       else ebitmap_and_loop n1' n2
    | _, _ => mret (Some [])
    end.

Definition ebitmap_and (e1 e2 : ebitmap) : M (Z * ebitmap) :=
  r ← ebitmap_and_loop (e_node e1) (e_node e2);
  match r with
  | None => mret (- ENOMEM, ebitmap_init)
  | Some ns => mret (0, Ebitmap ns (high_of ns))
  end.

(** One iteration of [ebitmap_xor] after the choice of [startbit] and [map]. *)
Definition emit (s m : Z) (rest : M (option (list ebitmap_node))) :
    M (option (list ebitmap_node)) :=
  if nz m then
    new ← malloc;
    match new with
    | None => mret None
    | Some _ => link (Node s m) rest
    end
  else rest.

Fixpoint ebitmap_xor_loop (n1 : list ebitmap_node) :
    list ebitmap_node → M (option (list ebitmap_node)) :=
  fix inner (n2 : list ebitmap_node) : M (option (list ebitmap_node)) :=
    match n1, n2 with
    | [], [] => mret (Some [])
    | a :: n1', [] => emit (startbit a) (nmap a) (ebitmap_xor_loop n1' [])
    | [], b :: n2' => emit (startbit b) (nmap b) (inner n2')
    | a :: n1', b :: n2' =>
       if startbit a =? startbit b then
         emit (startbit a) (Z.lxor (nmap a) (nmap b)) (ebitmap_xor_loop n1' n2')
       else if startbit a <? startbit b then
         emit (startbit a) (nmap a) (ebitmap_xor_loop n1' n2)
       else
         emit (startbit b) (nmap b) (inner n2')
    end.

Definition ebitmap_xor (e1 e2 : ebitmap) : M (Z * ebitmap) :=
  r ← ebitmap_xor_loop (e_node e1) (e_node e2);
  match r with
  | None => mret (- ENOMEM, ebitmap_init)
  | Some ns => mret (0, Ebitmap ns (high_of ns))
  end.

(** The [for] loop of [ebitmap_not]; [cur_startbit] is a [uint32_t]. *)
Fixpoint ebitmap_not_loop (fuel : nat) (n : list ebitmap_node) (maxbit cur_startbit : Z) :
    M (option (list ebitmap_node)) :=
  match fuel with
  | O => ub
  | S fuel =>
     if cur_startbit <? maxbit then
       let hit := match n with a :: _ => startbit a =? cur_startbit | [] => false end in
       let map := if hit then match n with a :: _ => not64 (nmap a) | [] => 0 end else ones64 in
       let n' := if hit then tail n else n in
       let map :=
         if maxbit - cur_startbit <? MAPSIZE
         then Z.land map (Z.shiftl 1 (maxbit - cur_startbit) - 1) else map in
       emit cur_startbit map (ebitmap_not_loop fuel n' maxbit (u32 (cur_startbit + MAPSIZE)))
     else mret (Some [])
  end.

Definition ebitmap_not_fuel (maxbit : Z) : nat := Z.to_nat (maxbit / MAPSIZE + 2).

Definition ebitmap_not (e1 : ebitmap) (maxbit : Z) : M (Z * ebitmap) :=
  r ← ebitmap_not_loop (ebitmap_not_fuel maxbit) (e_node e1) maxbit 0;
  match r with
  | None => mret (- ENOMEM, ebitmap_init)
  | Some ns => mret (0, Ebitmap ns (high_of ns))
  end.

Definition ebitmap_andnot (e1 e2 : ebitmap) (maxbit : Z) : M (Z * ebitmap) :=
  '(rc, e3) ← ebitmap_not e2 maxbit;
  if rc <? 0 then mret (rc, ebitmap_init)
  else
    '(rc, dst) ← ebitmap_and e1 e3;
    if rc <? 0 then mret (rc, dst) else mret (0, dst).

(** [__builtin_popcountll]. *)
Fixpoint popcount_pos (p : positive) : Z :=
  match p with
  | xH => 1
  | xO p => popcount_pos p
  | xI p => 1 + popcount_pos p
  end.
Definition popcountll (x : Z) : Z :=
  match x with Zpos p => popcount_pos p | _ => 0 end.

Definition ebitmap_cardinality (e1 : ebitmap) : Z :=
  foldl (λ count n, u32 (count + popcountll (nmap n))) 0 (e_node e1).

(** ** Comparisons *)

Fixpoint ebitmap_cmp_loop (n1 n2 : list ebitmap_node) : bool :=
  match n1, n2 with
  | a :: n1', b :: n2' =>
     if (startbit a =? startbit b) && (nmap a =? nmap b) then ebitmap_cmp_loop n1' n2'
     else false
  | [], [] => true
  | _, _ => false
  end.

Definition ebitmap_cmp (e1 e2 : ebitmap) : bool :=
  if negb (e_highbit e1 =? e_highbit e2) then false
  else ebitmap_cmp_loop (e_node e1) (e_node e2).

(** The [int] result: [-1] when the difference cannot be built. *)
Definition ebitmap_hamming_distance (e1 e2 : ebitmap) : M Z :=
  if ebitmap_cmp e1 e2 then mret 0
  else
    '(rc, tmp) ← ebitmap_xor e1 e2;
    if rc <? 0 then mret (-1) else mret (ebitmap_cardinality tmp).

Fixpoint ebitmap_cpy_loop (n : list ebitmap_node) : M (option (list ebitmap_node)) :=
  match n with
  | [] => mret (Some [])
  | a :: n' =>
     new ← malloc;
     match new with
     | None => mret None
     | Some _ => link (Node (startbit a) (nmap a)) (ebitmap_cpy_loop n')
     end
  end.

Definition ebitmap_cpy (src : ebitmap) : M (Z * ebitmap) :=
  r ← ebitmap_cpy_loop (e_node src);
  match r with
  | None => mret (- ENOMEM, ebitmap_init)
  | Some ns => mret (0, Ebitmap ns (e_highbit src))
  end.

Fixpoint ebitmap_contains_loop (n1 : list ebitmap_node) : list ebitmap_node → bool :=
  fix inner (n2 : list ebitmap_node) : bool :=
    match n1, n2 with
    | _, [] => true
    | [], _ :: _ => false
    | a :: n1', b :: n2' =>
       if startbit a <=? startbit b then
         if startbit a <? startbit b then ebitmap_contains_loop n1' n2
         else if negb (Z.land (nmap a) (nmap b) =? nmap b) then false
         else ebitmap_contains_loop n1' n2'
       else false
    end.

Definition ebitmap_contains (e1 e2 : ebitmap) : bool :=
  if e_highbit e1 <? e_highbit e2 then false
  else ebitmap_contains_loop (e_node e1) (e_node e2).

Fixpoint ebitmap_match_any_loop (n1 : list ebitmap_node) : list ebitmap_node → bool :=
  fix inner (n2 : list ebitmap_node) : bool :=
    match n1, n2 with
    | a :: n1', b :: n2' =>
       if startbit a <? startbit b then ebitmap_match_any_loop n1' n2
       else if startbit b <? startbit a then inner n2'
       else if nz (Z.land (nmap a) (nmap b)) then true
       else ebitmap_match_any_loop n1' n2'
    | _, _ => false
    end.

Definition ebitmap_match_any (e1 e2 : ebitmap) : bool :=
  ebitmap_match_any_loop (e_node e1) (e_node e2).

(** ** Single bits *)

(** [n->startbit + MAPSIZE] is computed at the width of [size_t]. *)
Fixpoint ebitmap_get_bit_loop (n : list ebitmap_node) (bit : Z) : bool :=
  match n with
  | a :: n' =>
     if startbit a <=? bit then
       if startbit a + MAPSIZE >? bit then
         nz (Z.land (nmap a) (Z.shiftl 1 (bit - startbit a)))
       else ebitmap_get_bit_loop n' bit
     else false
  | [] => false
  end.

Definition ebitmap_get_bit (e : ebitmap) (bit : Z) : bool :=
  if e_highbit e <? bit then false else ebitmap_get_bit_loop (e_node e) bit.

(** The loop and the insertion of [ebitmap_set_bit]: return code, node list and
    [highbit] of [e].  [prev] is the node in front of the list. *)
Fixpoint ebitmap_set_bit_loop (prev : option ebitmap_node) (n : list ebitmap_node)
    (hb bit : Z) (value : bool) (startbit' highbit' : Z) :
    M (Z * list ebitmap_node * Z) :=
  let insert :=
    if negb value then mret (0, n, hb)
    else
      new ← malloc;
      match new with
      | None => mret (- ENOMEM, n, hb)
      | Some _ =>
         mret (0, Node startbit' (Z.shiftl 1 (bit - startbit')) :: n,
               match n with [] => highbit' | _ :: _ => hb end)
      end in
  match n with
  | a :: n' =>
     if startbit a <=? bit then
       if startbit a + MAPSIZE >? bit then
         if value then
           mret (0, Node (startbit a) (Z.lor (nmap a) (Z.shiftl 1 (bit - startbit a))) :: n', hb)
         else
           let map := Z.land (nmap a) (not64 (Z.shiftl 1 (bit - startbit a))) in
           if nz map then mret (0, Node (startbit a) map :: n', hb)
           else
             let hb' :=
               match n' with
               | [] =>
                  match prev with
                  | Some p => u32 (startbit p + MAPSIZE)
                  | None => 0
                  end
               | _ :: _ => hb
               end in
             mret (0, n', hb')
       else
         '(rc, n'', hb') ← ebitmap_set_bit_loop (Some a) n' hb bit value startbit' highbit';
         mret (rc, a :: n'', hb')
     else insert
  | [] => insert
  end.

Definition ebitmap_set_bit (e : ebitmap) (bit : Z) (value : bool) : M (Z * ebitmap) :=
  let startbit' := Z.land bit (u32 (Z.lnot (MAPSIZE - 1))) in
  let highbit' := u32 (startbit' + MAPSIZE) in
  if highbit' =? 0 then mret (- EINVAL, e)
  else
    '(rc, n, hb) ← ebitmap_set_bit_loop None (e_node e) (e_highbit e) bit value startbit' highbit';
    mret (rc, Ebitmap n hb).

(** The [for] loop of [ebitmap_init_range].  The flag says whether an
    allocation failed; the nodes linked so far stay in [e]. *)
Fixpoint ebitmap_init_range_loop (fuel : nat)
    (minbit maxbit minstartbit maxstartbit startbit' : Z) :
    M (bool * list ebitmap_node) :=
  match fuel with
  | O => ub
  | S fuel =>
     if startbit' <=? maxstartbit then
       new ← malloc;
       match new with
       | None => mret (false, [])
       | Some _ =>
          let map :=
            if negb (startbit' =? minstartbit) && negb (startbit' =? maxstartbit) then ones64
            else if negb (startbit' =? maxstartbit) then
              u64 (Z.shiftl ones64 (minbit - startbit'))
            else if negb (startbit' =? minstartbit) then
              Z.shiftr ones64 (MAPSIZE - (maxbit - startbit' + 1))
            else
              u64 (Z.shiftl (Z.shiftr ones64 (MAPSIZE - (maxbit - minbit + 1)))
                     (minbit - startbit')) in
          '(ok, ns) ← ebitmap_init_range_loop fuel minbit maxbit minstartbit maxstartbit
                        (u32 (startbit' + MAPSIZE));
          mret (ok, Node startbit' map :: ns)
       end
     else mret (true, [])
  end.

Definition ebitmap_init_range (minbit maxbit : Z) : M (Z * ebitmap) :=
  let minstartbit := Z.land minbit (u32 (Z.lnot (MAPSIZE - 1))) in
  let maxstartbit := Z.land maxbit (u32 (Z.lnot (MAPSIZE - 1))) in
  let minhighbit := u32 (minstartbit + MAPSIZE) in
  let maxhighbit := u32 (maxstartbit + MAPSIZE) in
  if minbit >? maxbit then mret (- EINVAL, ebitmap_init)
  else if (minhighbit =? 0) || (maxhighbit =? 0) then mret (- EOVERFLOW, ebitmap_init)
  else
    '(ok, ns) ← ebitmap_init_range_loop (Z.to_nat ((maxstartbit - minstartbit) / MAPSIZE + 2))
                  minbit maxbit minstartbit maxstartbit minstartbit;
    if (ok : bool) then mret (0, Ebitmap ns maxhighbit) else mret (- ENOMEM, Ebitmap ns 0).

(** [while (map >>= 1) pos++]: at most 64 shifts of a 64-bit word. *)
Fixpoint highest_pos (fuel : nat) (map pos : Z) : Z :=
  match fuel with
  | O => pos
  | S fuel =>
     let map := Z.shiftr map 1 in
     if nz map then highest_pos fuel map (pos + 1) else pos
  end.

Definition ebitmap_highest_set_bit (e : ebitmap) : Z :=
  match last (e_node e) with
  | None => 0
  | Some n => u32 (startbit n + highest_pos 64 (nmap n) 0)
  end.

(** ** Iteration

    [ebitmap_for_each_bit(e, n, bit)]: the pairs of a node and a bit the loop
    body runs on.  The node pointer is the list from that node on.
    [ebitmap_next] dereferences it. *)

Definition ebitmap_next (n : list ebitmap_node) (bit : Z) : option (list ebitmap_node * Z) :=
  match n with
  | [] => None
  | a :: n' =>
     match n' with
     | b :: _ =>
        if bit =? startbit a + MAPSIZE - 1 then Some (n', startbit b)
        else Some (n, u32 (bit + 1))
     | [] => Some (n, u32 (bit + 1))
     end
  end.

(** [ebitmap_node_get_bit(n, bit)]; a shift by 64 or more is undefined. *)
Definition ebitmap_node_get_bit (n : list ebitmap_node) (bit : Z) : option bool :=
  match n with
  | [] => None
  | a :: _ =>
     let k := u32 (bit - startbit a) in
     if k <? 64 then Some (nz (Z.land (nmap a) (Z.shiftl 1 k))) else None
  end.

Fixpoint ebitmap_for_each_bit_loop (fuel : nat) (n : list ebitmap_node) (bit len : Z) :
    option (list (Z * bool)) :=
  match fuel with
  | O => None
  | S fuel =>
     if bit <? len then
       v ← ebitmap_node_get_bit n bit;
       p ← ebitmap_next n bit;
       rest ← ebitmap_for_each_bit_loop fuel p.1 p.2 len;
       Some ((bit, v) :: rest)
     else Some []
  end.

Definition for_each_fuel (e : ebitmap) : nat := S (64 * length (e_node e)).

(** The bits visited by [ebitmap_for_each_bit], each with the value of
    [ebitmap_node_get_bit] there. *)
Definition ebitmap_for_each_bit (e : ebitmap) : option (list (Z * bool)) :=
  ebitmap_for_each_bit_loop (for_each_fuel e) (e_node e) (ebitmap_startbit e) (ebitmap_length e).

(** The bits on which the body of [ebitmap_for_each_positive_bit] runs. *)
Definition ebitmap_for_each_positive_bit (e : ebitmap) : option (list Z) :=
  match ebitmap_for_each_bit e with
  | Some l => Some (fst <$> filter (λ p : Z * bool, p.2 = true) l)
  | None => None
  end.

(** ** The binary representation *)

(** The [for] loop of [ebitmap_read] over the [count] nodes.  [l] is the last
    node linked to [e]; the result is the return code with [e] destroyed when it
    is not 0. *)
Fixpoint ebitmap_read_loop (fuel : nat) (fp : policy_file) (highbit i count : Z)
    (l : option ebitmap_node) (acc : list ebitmap_node) :
    M (Z * list ebitmap_node * policy_file) :=
  if i <? count then
    match fuel with
    | O => ub
    | S fuel =>
       '(r, fp) ← next_entry fp 4;
       match r with
       | None => mret (-1, [], fp)
       | Some buf =>
          n ← malloc;
          match n with
          | None => mret (- ENOMEM, [], fp)
          | Some _ =>
             let s := le_val buf in
             if nz (Z.land s (MAPSIZE - 1)) then mret (- EINVAL, [], fp)
             else if s >? u64 (highbit - MAPSIZE) then mret (- EINVAL, [], fp)
             else
               '(r, fp) ← next_entry fp 8;
               match r with
               | None => mret (-1, [], fp)
               | Some buf =>
                  let m := le_val buf in
                  if m =? 0 then mret (- EINVAL, [], fp)
                  else if match l with Some p => s <=? startbit p | None => false end then
                    mret (- EINVAL, [], fp)
                  else
                    ebitmap_read_loop fuel fp highbit (i + 1) count (Some (Node s m))
                      (acc ++ [Node s m])
               end
          end
       end
    end
  else
    match l with
    | Some p =>
       if negb (startbit p + MAPSIZE =? highbit) then mret (- EINVAL, [], fp)
       else mret (0, acc, fp)
    | None => mret (0, acc, fp)
    end.

Definition ebitmap_read (fp : policy_file) : M (Z * ebitmap * policy_file) :=
  '(r, fp) ← next_entry fp 12;
  match r with
  | None => mret (-1, ebitmap_init, fp)
  | Some buf =>
     let mapsize := le_val (take 4 buf) in
     let highbit := le_val (take 4 (drop 4 buf)) in
     let count := le_val (take 4 (drop 8 buf)) in
     if negb (mapsize =? MAPSIZE) then mret (- EINVAL, ebitmap_init, fp)
     else if highbit =? 0 then mret (0, ebitmap_init, fp)
     else if nz (Z.land highbit (MAPSIZE - 1)) then mret (- EINVAL, ebitmap_init, fp)
     else if count =? 0 then mret (- EINVAL, ebitmap_init, fp)
     else
       '(rc, ns, fp) ← ebitmap_read_loop (S (length (pf_data fp))) fp highbit 0 count None [];
       if nz rc then mret (rc, ebitmap_init, fp) else mret (0, Ebitmap ns highbit, fp)
  end.

Definition POLICYDB_SUCCESS : Z := 0.
Definition POLICYDB_ERROR : Z := -1.

(** [ebitmap_write] of [src/write.c]. *)
Fixpoint ebitmap_write_loop (n : list ebitmap_node) (fp : policy_file) : M (Z * policy_file) :=
  match n with
  | [] => mret (POLICYDB_SUCCESS, fp)
  | a :: n' =>
     '(items, fp) ← put_entry [le_bytes 4 (startbit a)] 4 fp;
     if negb (items =? 1) then mret (POLICYDB_ERROR, fp)
     else
       '(items, fp) ← put_entry [le_bytes 8 (nmap a)] 8 fp;
       if negb (items =? 1) then mret (POLICYDB_ERROR, fp)
       else ebitmap_write_loop n' fp
  end.

Definition ebitmap_write (e : ebitmap) (fp : policy_file) : M (Z * policy_file) :=
  let count := u32 (Z.of_nat (length (e_node e))) in
  '(items, fp) ← put_entry [le_bytes 4 MAPSIZE; le_bytes 4 (e_highbit e); le_bytes 4 count] 4 fp;
  if negb (items =? 3) then mret (POLICYDB_ERROR, fp)
  else ebitmap_write_loop (e_node e) fp.
