(* ===== verification/EbitmapFacts.v ===== *)
(** * Extensible bitmaps: correctness

    The invariant of [ebitmap_t], its reading as a set of bits, and the proof
    that every operation of [src/ebitmap.c] preserves the invariant and
    implements the set operation it is named after, whatever the allocator
    does. *)

From S2P Require Import Prelude PolicyFile Ebitmap.

(** ** The invariant *)

(** Nodes are aligned, sorted, disjoint, not empty, and below the overflow of
    [highbit]. *)
Definition node_ok (n : ebitmap_node) : Prop :=
  0 ≤ startbit n ∧ startbit n mod 64 = 0 ∧ startbit n + 64 < 2 ^ 32 ∧
  0 < nmap n < 2 ^ 64.

Fixpoint nodes_ok (lo : Z) (ns : list ebitmap_node) : Prop :=
  match ns with
  | [] => True
  | n :: r => lo ≤ startbit n ∧ node_ok n ∧ nodes_ok (startbit n + 64) r
  end.

Definition wf (e : ebitmap) : Prop :=
  nodes_ok 0 (e_node e) ∧ e_highbit e = high_of (e_node e).

(** The word that starts at bit [s]. *)
Fixpoint word (ns : list ebitmap_node) (s : Z) : Z :=
  match ns with
  | [] => 0
  | n :: r => if startbit n =? s then nmap n else word r s
  end.

Definition align (i : Z) : Z := 64 * (i / 64).

(** ** Words *)

Lemma align_le i : align i ≤ i < align i + 64.
Proof. unfold align. pose proof (Z.div_mod i 64). pose proof (Z.mod_pos_bound i 64). lia. Qed.

Lemma align_mod i : align i mod 64 = 0.
Proof. unfold align. rewrite Z.mul_comm. apply Z.mod_mul. lia. Qed.

Lemma align_of s i : s mod 64 = 0 → s ≤ i < s + 64 → align i = s.
Proof.
  intros Hs Hi. unfold align. pose proof (Z.div_mod s 64). pose proof (Z.div_mod i 64).
  pose proof (Z.mod_pos_bound i 64). lia.
Qed.

Lemma mult64_lt a b : a mod 64 = 0 → b mod 64 = 0 → a < b → a + 64 ≤ b.
Proof. intros. pose proof (Z.div_mod a 64). pose proof (Z.div_mod b 64). lia. Qed.

Lemma align_mono i j : i ≤ j → align i ≤ align j.
Proof. unfold align. intros. pose proof (Z.div_le_mono i j 64). lia. Qed.

Lemma align_ge s i : s mod 64 = 0 → s ≤ i → s ≤ align i.
Proof. intros Hs Hi. rewrite <- (align_of s s) by lia. by apply align_mono. Qed.

Lemma mod64_add s : s mod 64 = 0 → (s + 64) mod 64 = 0.
Proof. intros. replace (s + 64) with (s + 1 * 64) by lia. by rewrite Z.mod_add. Qed.

Lemma align_land bit :
  0 ≤ bit < 2 ^ 32 → Z.land bit (u32 (Z.lnot (MAPSIZE - 1))) = align bit.
Proof.
  intros Hb. change (u32 (Z.lnot (MAPSIZE - 1))) with (2 ^ 32 - 64).
  apply (word_ext 32); [lia|apply land_bound; lia| |].
  { pose proof (align_le bit). unfold align in *. pose proof (Z.div_pos bit 64). lia. }
  intros i Hi. rewrite Z.land_spec. unfold align.
  replace (64 * (bit / 64)) with (Z.shiftl (Z.shiftr bit 6) 6)
    by (rewrite Z.shiftl_mul_pow2, Z.shiftr_div_pow2 by lia; change (2 ^ 6) with 64; lia).
  replace (2 ^ 32 - 64) with (Z.shiftl (Z.ones 26) 6) by reflexivity.
  rewrite !Z.shiftl_spec by lia. destruct (decide (i < 6)).
  - rewrite !(Z.testbit_neg_r _ (i - 6)) by lia. by rewrite andb_false_r.
  - rewrite Z.shiftr_spec, Z.ones_spec_low by lia. rewrite andb_true_r. f_equal. lia.
Qed.

Lemma nodes_ok_weaken lo lo' ns : lo' ≤ lo → nodes_ok lo ns → nodes_ok lo' ns.
Proof. destruct ns; simpl; intuition lia. Qed.

Lemma word_lo lo ns s : nodes_ok lo ns → s < lo → word ns s = 0.
Proof.
  revert lo. induction ns as [|n r IH]; intros lo; simpl; [done|].
  intros (Hlo & _ & Hr) Hs. destruct (Z.eqb_spec (startbit n) s); [lia|].
  apply (IH (startbit n + 64)); [done|lia].
Qed.

Lemma word_bound lo ns s : nodes_ok lo ns → 0 ≤ word ns s < 2 ^ 64.
Proof.
  revert lo. induction ns as [|n r IH]; intros lo; simpl; [lia|].
  intros (_ & (_&_&_&?) & Hr). case_match; [lia|eauto].
Qed.

Lemma word_head n r lo : nodes_ok lo (n :: r) → word (n :: r) (startbit n) = nmap n.
Proof. simpl. by rewrite Z.eqb_refl. Qed.

Lemma word_skip n r s : startbit n ≠ s → word (n :: r) s = word r s.
Proof. intros. simpl. by rewrite (proj2 (Z.eqb_neq _ _)). Qed.

Lemma word_nonzero_node lo ns s :
  nodes_ok lo ns → word ns s ≠ 0 → s mod 64 = 0 ∧ lo ≤ s ∧ 0 ≤ s ∧ s + 64 < 2 ^ 32.
Proof.
  revert lo. induction ns as [|n r IH]; intros lo; simpl; [done|].
  intros (Hlo & (?&?&?&?) & Hr) Hw. destruct (Z.eqb_spec (startbit n) s) as [<-|]; [lia|].
  apply (IH _ Hr) in Hw. lia.
Qed.

(** Two node lists with the same words are the same list: the representation is
    canonical. *)
Lemma nodes_ext lo a b :
  nodes_ok lo a → nodes_ok lo b → (∀ s, word a s = word b s) → a = b.
Proof.
  revert lo b. induction a as [|n a IH]; intros lo [|m b]; simpl; [done| | |].
  - intros _ (?&(?&?&?&?)&?) Hw. specialize (Hw (startbit m)). rewrite Z.eqb_refl in Hw. lia.
  - intros (?&(?&?&?&?)&?) _ Hw. specialize (Hw (startbit n)). rewrite Z.eqb_refl in Hw. lia.
  - intros (Hn & (?&?&?&?) & Ha) (Hm & (?&?&?&?) & Hb) Hw.
    assert (startbit n = startbit m) as Hs.
    { destruct (Z.lt_trichotomy (startbit n) (startbit m)) as [Hlt|[?|Hlt]]; [|done|].
      - specialize (Hw (startbit n)). rewrite Z.eqb_refl in Hw.
        rewrite (proj2 (Z.eqb_neq _ _)), (word_lo _ _ _ Hb) in Hw by lia. lia.
      - specialize (Hw (startbit m)). rewrite Z.eqb_refl in Hw.
        rewrite (proj2 (Z.eqb_neq _ _)), (word_lo _ _ _ Ha) in Hw by lia. lia. }
    assert (nmap n = nmap m) as Hmap.
    { specialize (Hw (startbit n)). by rewrite Hs, !Z.eqb_refl in Hw. }
    destruct n as [sn xn], m as [sm xm]; simpl in *; subst sm xm.
    f_equal. eapply IH; [done..|]. intros s. specialize (Hw s).
    destruct (Z.eqb_spec sn s) as [Heq|]; [|done].
    by rewrite (word_lo _ _ _ Ha), (word_lo _ _ _ Hb) by lia.
Qed.

(** ** Reading a bit *)

Lemma get_bit_loop_word lo ns i :
  nodes_ok lo ns →
  ebitmap_get_bit_loop ns i = Z.testbit (word ns (align i)) (i - align i).
Proof.
  revert lo. induction ns as [|n r IH]; intros lo; simpl; [by rewrite Z.bits_0|].
  intros (_ & (?&?&?&?) & Hr). unfold MAPSIZE. pose proof (align_le i).
  rewrite Z.gtb_ltb. destruct (Z.leb_spec (startbit n) i).
  - destruct (Z.ltb_spec i (startbit n + 64)).
    + rewrite (align_of (startbit n) i), Z.eqb_refl by lia.
      unfold nz. by rewrite land_bit, negb_involutive by lia.
    + destruct (Z.eqb_spec (startbit n) (align i)); [lia|eauto].
  - destruct (Z.eqb_spec (startbit n) (align i)); [lia|].
    rewrite (word_lo _ _ _ Hr) by lia. by rewrite Z.bits_0.
Qed.

(** ** The highest bit *)

Lemma high_of_cons n r : high_of (n :: r) = match r with [] => u32 (startbit n + 64) | _ => high_of r end.
Proof. unfold high_of. destruct r; [done|]. by rewrite last_cons_cons. Qed.

Lemma high_of_spec lo ns :
  nodes_ok lo ns → ns ≠ [] →
  lo + 64 ≤ high_of ns < 2 ^ 32 ∧ word ns (high_of ns - 64) ≠ 0 ∧
  ∀ s, high_of ns ≤ s → word ns s = 0.
Proof.
  revert lo. induction ns as [|n r IH]; intros lo; [done|].
  rewrite high_of_cons. simpl. intros (Hlo & (?&?&?&?) & Hr) _. destruct r as [|m r].
  - unfold u32. rewrite Z.mod_small by lia. split; [lia|].
    rewrite (proj2 (Z.eqb_eq _ _)) by lia. split; [lia|]. intros s Hs.
    by rewrite (proj2 (Z.eqb_neq _ _)) by lia.
  - destruct (IH _ Hr) as (? & Hw & Hz); [done|]. split; [lia|].
    split.
    + destruct (Z.eqb_spec (startbit n) (high_of (m :: r) - 64)); lia.
    + intros s Hs. rewrite (proj2 (Z.eqb_neq _ _)) by lia. auto.
Qed.

Lemma high_of_unique lo ns H :
  nodes_ok lo ns → (∀ s, H ≤ s → word ns s = 0) → word ns (H - 64) ≠ 0 →
  high_of ns = H.
Proof.
  intros Hok Hz Hnz. assert (ns ≠ []) as Hne by (by intros ->).
  destruct (high_of_spec _ _ Hok Hne) as (_ & Hnz' & Hz').
  destruct (Z.lt_trichotomy (high_of ns) H) as [Hlt|[?|Hlt]]; [|done|].
  - apply (word_nonzero_node _ _ _ Hok) in Hnz as ?.
    apply (word_nonzero_node _ _ _ Hok) in Hnz' as ?.
    pose proof (mult64_lt (high_of ns - 64) (H - 64)). rewrite Hz' in Hnz by lia. done.
  - apply (word_nonzero_node _ _ _ Hok) in Hnz as ?.
    apply (word_nonzero_node _ _ _ Hok) in Hnz' as ?.
    pose proof (mult64_lt (H - 64) (high_of ns - 64)). rewrite Hz in Hnz' by lia. done.
Qed.

Lemma high_of_nonneg lo ns : nodes_ok lo ns → 0 ≤ lo → 0 ≤ high_of ns < 2 ^ 32.
Proof.
  intros Hok Hlo. destruct ns as [|n r]; [done|].
  destruct (high_of_spec lo (n :: r)) as (? & _); [done..|lia].
Qed.

Lemma high_of_mod lo ns : nodes_ok lo ns → high_of ns mod 64 = 0.
Proof.
  intros Hok. destruct (decide (ns = [])) as [->|Hne]; [done|].
  destruct (high_of_spec _ _ Hok Hne) as (_ & Hnz & _).
  apply (word_nonzero_node _ _ _ Hok) in Hnz as (Hm & _).
  replace (high_of ns) with ((high_of ns - 64) + 1 * 64) by lia.
  by rewrite Z.mod_add by lia.
Qed.

(** Reading a bit of a well-formed bitmap is reading the bit of its word. *)
Lemma get_bit_word e i :
  wf e → ebitmap_get_bit e i = Z.testbit (word (e_node e) (align i)) (i - align i).
Proof.
  intros [Hok Hh]. unfold ebitmap_get_bit. rewrite Hh.
  destruct (Z.ltb_spec (high_of (e_node e)) i) as [Hlt|]; [|by eapply get_bit_loop_word].
  destruct (decide (e_node e = [])) as [->|Hne]; [simpl; by rewrite Z.bits_0|].
  destruct (high_of_spec _ _ Hok Hne) as (? & Hnz & Hz).
  apply (word_nonzero_node _ _ _ Hok) in Hnz as ?.
  rewrite Hz; [by rewrite Z.bits_0|].
  rewrite <- (align_of (high_of (e_node e)) (high_of (e_node e))).
  - apply align_mono; lia.
  - by eapply high_of_mod.
  - lia.
Qed.

Lemma wf_init : wf ebitmap_init.
Proof. done. Qed.

(** Bits of a bitmap lie below the overflow bound. *)
Lemma get_bit_range e i : wf e → ebitmap_get_bit e i = true → 0 ≤ i < e_highbit e.
Proof.
  intros Hwf Hb. rewrite (get_bit_word _ _ Hwf) in Hb. destruct Hwf as [Hok Hh].
  assert (word (e_node e) (align i) ≠ 0) as Hnz by (intros Hz; by rewrite Hz, Z.bits_0 in Hb).
  assert (e_node e ≠ []) as Hne by (intros He; by rewrite He in Hnz).
  destruct (high_of_spec _ _ Hok Hne) as (? & Hnz' & Hz).
  apply (word_nonzero_node _ _ _ Hok) in Hnz as ?.
  apply (word_nonzero_node _ _ _ Hok) in Hnz' as ?. pose proof (align_le i).
  split; [lia|]. rewrite Hh. destruct (decide (high_of (e_node e) ≤ align i)).
  - rewrite Hz in Hnz by lia. done.
  - pose proof (mult64_lt (align i) (high_of (e_node e)) (align_mod i) (high_of_mod _ _ Hok)).
    lia.
Qed.

(** Equal bits everywhere mean equal words. *)
Lemma word_of_bits e1 e2 : wf e1 → wf e2 →
  (∀ i, 0 ≤ i < 2 ^ 32 → ebitmap_get_bit e1 i = ebitmap_get_bit e2 i) →
  ∀ s, word (e_node e1) s = word (e_node e2) s.
Proof.
  intros H1 H2 Hb s. destruct H1 as [Hok1 ?] eqn:?, H2 as [Hok2 ?] eqn:?.
  destruct (decide (word (e_node e1) s = 0 ∧ word (e_node e2) s = 0)) as [[-> ->]|Hnz]; [done|].
  assert (s mod 64 = 0 ∧ 0 ≤ s ∧ s + 64 < 2 ^ 32) as (Hm & ? & ?).
  { destruct (decide (word (e_node e1) s = 0)) as [|Hz].
    - destruct (decide (word (e_node e2) s = 0)) as [|Hz]; [tauto|].
      apply (word_nonzero_node _ _ _ Hok2) in Hz. tauto.
    - apply (word_nonzero_node _ _ _ Hok1) in Hz. tauto. }
  apply (word_ext 64); [lia|by eapply word_bound..|]. intros i Hi.
  specialize (Hb (s + i)). rewrite !get_bit_word, (align_of s) in Hb by (done || lia).
  replace (s + i - s) with i in Hb by lia. auto with lia.
Qed.

(** A well-formed bitmap is determined by its bits. *)
Lemma wf_ext e1 e2 : wf e1 → wf e2 →
  (∀ i, 0 ≤ i < 2 ^ 32 → ebitmap_get_bit e1 i = ebitmap_get_bit e2 i) → e1 = e2.
Proof.
  intros H1 H2 Hb. pose proof (word_of_bits _ _ H1 H2 Hb) as Hw.
  destruct H1 as [Hok1 Hh1], H2 as [Hok2 Hh2].
  pose proof (nodes_ext _ _ _ Hok1 Hok2 Hw) as Hn.
  destruct e1, e2; simpl in *. by subst.
Qed.

(** ** Loops that build a node list

    [built h P] is the outcome of such a loop started in heap [h]: the node list
    satisfies [P], or some allocation failed. *)

Definition built (h : heap) (P : list ebitmap_node → Prop)
    (r : option (list ebitmap_node)) (h' : heap) : Prop :=
  heap_le h h' ∧ match r with Some ns => P ns | None => hp_oom h ≠ [] end.

Lemma built_later h h1 P r h' : heap_le h h1 → built h1 P r h' → built h P r h'.
Proof.
  intros Hle [? HP]. split; [by etrans|]. destruct r; [done|]. destruct Hle; naive_solver.
Qed.

Lemma wp_link x m h (P P' : list ebitmap_node → Prop) :
  wp m h (built h P') → (∀ ns, P' ns → P (x :: ns)) → wp (link x m) h (built h P).
Proof.
  intros Hm HP. unfold link. wp_step. eapply wp_mono; [done|].
  intros r h' [? Hr]. wp_step. split; [done|]. destruct r; simpl; auto.
Qed.

Lemma wp_alloc m h P :
  (∀ h', heap_le h h' → wp m h' (built h' P)) →
  wp (new ← malloc; match new with Some _ => m | None => mret None end) h (built h P).
Proof.
  intros Hm. do 2 wp_step; [by split|].
  eapply wp_mono; [by apply Hm|]. intros. by eapply built_later.
Qed.

Lemma wp_emit s x m h (P P' : list ebitmap_node → Prop) :
  (∀ h', heap_le h h' → wp m h' (built h' P')) →
  (∀ ns, P' ns → P (if nz x then Node s x :: ns else ns)) →
  wp (emit s x m) h (built h P).
Proof.
  intros Hm HP. unfold emit. destruct (nz x).
  - apply wp_alloc. intros. by apply (wp_link _ _ _ _ P'); [apply Hm|].
  - eapply wp_mono; [by apply (Hm h)|]. intros r ? [? Hr]. split; [done|]. destruct r; auto.
Qed.

(** [ns] is the wordwise image of [n1] and [n2] under [f], from [lo] on. *)
Definition wordwise (f : Z → Z → Z) (lo : Z) (n1 n2 ns : list ebitmap_node) : Prop :=
  nodes_ok lo ns ∧ ∀ s, word ns s = f (word n1 s) (word n2 s).

(** One step of a wordwise loop: the word at [s] comes out of [x] and [y], and
    the remaining words are those of the rest. *)
Lemma wordwise_step f lo n1 n2 n1' n2' s x ns :
  node_ok (Node s x) ∨ x = 0 → lo ≤ s →
  wordwise f (s + 64) n1' n2' ns →
  x = f (word n1 s) (word n2 s) →
  (∀ t, t ≠ s → f (word n1 t) (word n2 t) = f (word n1' t) (word n2' t)) →
  f (word n1' s) (word n2' s) = 0 →
  wordwise f lo n1 n2 (if nz x then Node s x :: ns else ns).
Proof.
  intros Hx Hlo [Hok Hw] Hs Ht H0. unfold nz.
  destruct (Z.eqb_spec x 0) as [Hz|Hnz]; simpl.
  - split; [by eapply nodes_ok_weaken; [|done]; lia|]. intros t. rewrite Hw.
    destruct (decide (t = s)) as [->|]; [|by rewrite Ht]. congruence.
  - destruct Hx as [Hx|]; [|done]. split; [done|]. intros t. simpl.
    destruct (Z.eqb_spec s t) as [<-|]; [done|]. by rewrite Hw, Ht by done.
Qed.

Lemma node_ok_map n x : node_ok n → 0 ≤ x < 2 ^ 64 → node_ok (Node (startbit n) x) ∨ x = 0.
Proof.
  unfold node_ok; simpl. intros (?&?&?&?) ?. destruct (decide (x = 0)); [auto|left].
  repeat split; lia.
Qed.

Lemma nz_true x : x ≠ 0 → nz x = true.
Proof. unfold nz. by destruct (Z.eqb_spec x 0). Qed.

(** Facts about the words of the lists a loop is at. *)
Ltac words :=
  repeat
    match goal with
    | |- context [?a =? ?a] => rewrite (Z.eqb_refl a)
    | H : nodes_ok ?lo ?l |- context [word ?l ?s] =>
       rewrite (word_lo lo l s H) by lia
    | |- context [?a =? ?b] => rewrite (proj2 (Z.eqb_neq a b)) by lia
    end.

Section merge.
(** The loops of [ebitmap_or] and [ebitmap_xor] walk the two lists in the same
    way; [f] is the operation on words. *)
Context (f : Z → Z → Z).
Hypothesis f_bound : ∀ x y, 0 ≤ x < 2 ^ 64 → 0 ≤ y < 2 ^ 64 → 0 ≤ f x y < 2 ^ 64.
Hypothesis f_0_0 : f 0 0 = 0.
Hypothesis f_0_l : ∀ x, f 0 x = x.
Hypothesis f_0_r : ∀ x, f x 0 = x.

Lemma merge_both lo a b n1 n2 ns :
  nodes_ok lo (a :: n1) → nodes_ok lo (b :: n2) → startbit a = startbit b →
  wordwise f (startbit a + 64) n1 n2 ns →
  wordwise f lo (a :: n1) (b :: n2)
    (if nz (f (nmap a) (nmap b)) then Node (startbit a) (f (nmap a) (nmap b)) :: ns else ns).
Proof using f_bound f_0_0.
  intros (?&Ha&?) (?&Hb&?) E Hw. rewrite <- E in *.
  apply (wordwise_step _ _ _ _ n1 n2); try done; simpl.
  - apply node_ok_map; [done|]. destruct Ha as (?&?&?&?), Hb as (?&?&?&?). apply f_bound; lia.
  - by rewrite <- E, Z.eqb_refl.
  - intros t Ht. by rewrite <- E, (proj2 (Z.eqb_neq (startbit a) t)) by done.
  - by words.
Qed.

Lemma merge_left lo a n1 n2 ns :
  nodes_ok lo (a :: n1) → nodes_ok (startbit a + 64) n2 →
  wordwise f (startbit a + 64) n1 n2 ns →
  wordwise f lo (a :: n1) n2 (if nz (nmap a) then Node (startbit a) (nmap a) :: ns else ns).
Proof using f_0_l f_0_r.
  intros (?&Ha&?) ? Hw. apply (wordwise_step _ _ _ _ n1 n2); try done; simpl.
  - destruct Ha as (?&?&?&?). left. by repeat split; simpl; lia.
  - words. by rewrite f_0_r.
  - intros t Ht. by rewrite (proj2 (Z.eqb_neq (startbit a) t)) by done.
  - words. by rewrite f_0_l.
Qed.

Lemma merge_right lo b n1 n2 ns :
  nodes_ok (startbit b + 64) n1 → nodes_ok lo (b :: n2) →
  wordwise f (startbit b + 64) n1 n2 ns →
  wordwise f lo n1 (b :: n2) (if nz (nmap b) then Node (startbit b) (nmap b) :: ns else ns).
Proof using f_0_l f_0_r.
  intros ? (?&Hb&?) Hw. apply (wordwise_step _ _ _ _ n1 n2); try done; simpl.
  - destruct Hb as (?&?&?&?). left. by repeat split; simpl; lia.
  - words. by rewrite f_0_l.
  - intros t Ht. by rewrite (proj2 (Z.eqb_neq (startbit b) t)) by done.
  - words. by rewrite f_0_l.
Qed.
End merge.

(** The list after the first node starts beyond it, also when the other list is
    ahead. *)
Lemma nodes_ok_ahead lo a b n2 :
  node_ok a → nodes_ok lo (b :: n2) → startbit a < startbit b →
  nodes_ok (startbit a + 64) (b :: n2).
Proof.
  intros (?&?&?&?) (?&Hb&?) ?. split_and!; try done.
  destruct Hb as (?&?&?&?). by apply mult64_lt.
Qed.

Lemma xor_loop_spec n1 n2 lo h :
  nodes_ok lo n1 → nodes_ok lo n2 →
  wp (ebitmap_xor_loop n1 n2) h (built h (wordwise Z.lxor lo n1 n2)).
Proof.
  assert (∀ x y, 0 ≤ x < 2 ^ 64 → 0 ≤ y < 2 ^ 64 → 0 ≤ Z.lxor x y < 2 ^ 64) as Hb
    by (intros; by apply lxor_bound).
  revert n2 lo h. induction n1 as [|a n1 IH1].
  - induction n2 as [|b n2 IH2]; intros lo h _ Hn2; [by split|].
    eapply wp_emit; [intros; eapply (IH2 (startbit b + 64)); [done|apply Hn2]|].
    intros ns Hns. by eapply merge_right; eauto using Z.lxor_0_l, Z.lxor_0_r.
  - induction n2 as [|b n2 IH2]; intros lo h Hn1 Hn2.
    + eapply wp_emit; [intros; eapply (IH1 [] (startbit a + 64)); [apply Hn1|done]|].
      intros ns Hns. by eapply merge_left; eauto using Z.lxor_0_l, Z.lxor_0_r.
    + simpl. destruct (Z.eqb_spec (startbit a) (startbit b)) as [E|Hne].
      * eapply wp_emit; [intros; eapply (IH1 n2 (startbit a + 64)); [apply Hn1|rewrite E; apply Hn2]|].
        intros ns Hns. by eapply merge_both; eauto using Z.lxor_0_l, Z.lxor_0_r.
      * destruct (Z.ltb_spec (startbit a) (startbit b)).
        -- assert (nodes_ok (startbit a + 64) (b :: n2)) as Hn2'
             by (eapply nodes_ok_ahead; [apply Hn1|done..]).
           eapply wp_emit; [intros; eapply (IH1 (b :: n2) (startbit a + 64)); [apply Hn1|done]|].
           intros ns Hns. by eapply merge_left; eauto using Z.lxor_0_l, Z.lxor_0_r.
        -- assert (nodes_ok (startbit b + 64) (a :: n1)) as Hn1'
             by (eapply nodes_ok_ahead; [apply Hn2|done|lia]).
           eapply wp_emit; [intros; eapply (IH2 (startbit b + 64)); [done|apply Hn2]|].
           intros ns Hns. by eapply merge_right; eauto using Z.lxor_0_l, Z.lxor_0_r.
Qed.

Lemma wp_alloc_node s x m h (P P' : list ebitmap_node → Prop) :
  x ≠ 0 → (∀ h', heap_le h h' → wp m h' (built h' P')) →
  (∀ ns, P' ns → P (if nz x then Node s x :: ns else ns)) →
  wp (new ← malloc; match new with Some _ => link (Node s x) m | None => mret None end)
    h (built h P).
Proof.
  intros Hx Hm HP. apply wp_alloc. intros. apply (wp_link _ _ _ _ P'); [by apply Hm|].
  intros ns Hns. specialize (HP ns Hns). by rewrite nz_true in HP.
Qed.

Lemma node_map_nonzero lo n r : nodes_ok lo (n :: r) → nmap n ≠ 0.
Proof. intros (_&(?&?&?&?)&_). lia. Qed.

Lemma or_loop_spec n1 n2 lo h :
  nodes_ok lo n1 → nodes_ok lo n2 →
  wp (ebitmap_or_loop n1 n2) h (built h (wordwise Z.lor lo n1 n2)).
Proof.
  assert (∀ x y, 0 ≤ x < 2 ^ 64 → 0 ≤ y < 2 ^ 64 → 0 ≤ Z.lor x y < 2 ^ 64) as Hb
    by (intros; by apply lor_bound).
  revert n2 lo h. induction n1 as [|a n1 IH1].
  - induction n2 as [|b n2 IH2]; intros lo h _ Hn2; [by split|].
    eapply wp_alloc_node; [by eapply node_map_nonzero|
      intros; eapply (IH2 (startbit b + 64)); [done|apply Hn2]|].
    intros ns Hns. by eapply merge_right; eauto using Z.lor_0_l, Z.lor_0_r.
  - induction n2 as [|b n2 IH2]; intros lo h Hn1 Hn2;
      pose proof (node_map_nonzero _ _ _ Hn1).
    + eapply wp_alloc_node; [done|intros; eapply (IH1 [] (startbit a + 64)); [apply Hn1|done]|].
      intros ns Hns. by eapply merge_left; eauto using Z.lor_0_l, Z.lor_0_r.
    + pose proof (node_map_nonzero _ _ _ Hn2). simpl.
      destruct (Z.eqb_spec (startbit a) (startbit b)) as [E|Hne].
      * eapply wp_alloc_node; [by intros [??]%Z.lor_eq_0_iff|
          intros; eapply (IH1 n2 (startbit a + 64)); [apply Hn1|rewrite E; apply Hn2]|].
        intros ns Hns. by eapply merge_both; eauto using Z.lor_0_l, Z.lor_0_r.
      * destruct (Z.ltb_spec (startbit a) (startbit b)).
        -- assert (nodes_ok (startbit a + 64) (b :: n2)) as Hn2'
             by (eapply nodes_ok_ahead; [apply Hn1|done..]).
           eapply wp_alloc_node; [done|
             intros; eapply (IH1 (b :: n2) (startbit a + 64)); [apply Hn1|done]|].
           intros ns Hns. by eapply merge_left; eauto using Z.lor_0_l, Z.lor_0_r.
        -- assert (nodes_ok (startbit b + 64) (a :: n1)) as Hn1'
             by (eapply nodes_ok_ahead; [apply Hn2|done|lia]).
           eapply wp_alloc_node; [done|
             intros; eapply (IH2 (startbit b + 64)); [done|apply Hn2]|].
           intros ns Hns. by eapply merge_right; eauto using Z.lor_0_l, Z.lor_0_r.
Qed.

Lemma and_loop_spec n1 n2 lo h :
  nodes_ok lo n1 → nodes_ok lo n2 →
  wp (ebitmap_and_loop n1 n2) h (built h (wordwise Z.land lo n1 n2)).
Proof.
  assert (∀ n2, wordwise Z.land lo [] n2 []) as Hnil by done.
  revert n2 lo h Hnil. induction n1 as [|a n1 IH1]; [by intros []; split|].
  induction n2 as [|b n2 IH2]; intros lo h Hnil Hn1 Hn2.
  { split; [done|]. split; [done|]. intros s. simpl. by rewrite Z.land_0_r. }
  simpl. destruct (Z.eqb_spec (startbit a) (startbit b)) as [E|Hne].
  - change (wp (emit (startbit a) (Z.land (nmap a) (nmap b)) (ebitmap_and_loop n1 n2)) h
              (built h (wordwise Z.land lo (a :: n1) (b :: n2)))).
    eapply wp_emit; [intros; apply (IH1 n2 (startbit a + 64)); [done|apply Hn1|rewrite E; apply Hn2]|].
    intros ns Hns. apply merge_both; try done.
    intros; by apply land_bound.
  - rewrite Z.gtb_ltb. destruct (Z.ltb_spec (startbit b) (startbit a)).
    + assert (nodes_ok (startbit b + 64) (a :: n1)) as Hn1'
        by (eapply nodes_ok_ahead; [apply Hn2|done|lia]).
      eapply wp_mono; [apply (IH2 (startbit b + 64)); [done|done|apply Hn2]|].
      intros r h' [? Hr]. split; [done|]. destruct r as [ns|]; [|done].
      destruct Hr as [Hok Hw], Hn2 as (?&?&?).
      split; [by eapply nodes_ok_weaken; [|done]; lia|]. intros s. rewrite Hw.
      destruct (decide (startbit b = s)) as [<-|].
      * by rewrite (word_lo _ (a :: n1) _ Hn1') by lia.
      * simpl. by rewrite (proj2 (Z.eqb_neq (startbit b) s)) by done.
    + assert (nodes_ok (startbit a + 64) (b :: n2)) as Hn2'
        by (eapply nodes_ok_ahead; [apply Hn1|done|lia]).
      eapply wp_mono; [apply (IH1 (b :: n2) (startbit a + 64)); [done|apply Hn1|done]|].
      intros r h' [? Hr]. split; [done|]. destruct r as [ns|]; [|done].
      destruct Hr as [Hok Hw], Hn1 as (?&?&?).
      split; [by eapply nodes_ok_weaken; [|done]; lia|]. intros s. rewrite Hw.
      destruct (decide (startbit a = s)) as [<-|].
      * by rewrite (word_lo _ (b :: n2) _ Hn2'), !Z.land_0_r by lia.
      * simpl. by rewrite (proj2 (Z.eqb_neq (startbit a) s)) by done.
Qed.

(** ** The set operations *)

(** The outcome of an operation that builds the set [S]: the set, or
    [-ENOMEM] and the empty bitmap, which needs a failing allocation. *)
Definition set_outcome (h : heap) (S : Z → bool) (r : Z * ebitmap) (h' : heap) : Prop :=
  heap_le h h' ∧ wf r.2 ∧
  ((r.1 = 0 ∧ ∀ i, 0 ≤ i < 2 ^ 32 → ebitmap_get_bit r.2 i = S i) ∨
   (r.1 = - ENOMEM ∧ r.2 = ebitmap_init ∧ hp_oom h ≠ [])).

(** A wordwise image under an operation that acts on bits. *)
Lemma wordwise_bits f g e1 e2 ns hb i :
  (∀ x y k, 0 ≤ k → Z.testbit (f x y) k = g (Z.testbit x k) (Z.testbit y k)) →
  wf e1 → wf e2 → wordwise f 0 (e_node e1) (e_node e2) ns → hb = high_of ns →
  wf (Ebitmap ns hb) ∧
  ebitmap_get_bit (Ebitmap ns hb) i = g (ebitmap_get_bit e1 i) (ebitmap_get_bit e2 i).
Proof.
  intros Hf H1 H2 [Hok Hw] ->. assert (wf (Ebitmap ns (high_of ns))) as Hwf by done.
  split; [done|]. rewrite !get_bit_word by done. simpl. rewrite Hw. apply Hf.
  pose proof (align_le i). lia.
Qed.

Lemma wp_set_outcome f g e1 e2 (loop : M (option (list ebitmap_node)))
    (hb : list ebitmap_node → Z) h :
  (∀ x y k, 0 ≤ k → Z.testbit (f x y) k = g (Z.testbit x k) (Z.testbit y k)) →
  wf e1 → wf e2 →
  wp loop h (built h (wordwise f 0 (e_node e1) (e_node e2))) →
  (∀ ns, wordwise f 0 (e_node e1) (e_node e2) ns → hb ns = high_of ns) →
  wp (r ← loop; match r with
                | None => mret (- ENOMEM, ebitmap_init)
                | Some ns => mret (0, Ebitmap ns (hb ns))
                end) h
    (set_outcome h (λ i, g (ebitmap_get_bit e1 i) (ebitmap_get_bit e2 i))).
Proof.
  intros Hf H1 H2 Hl Hhb. wp_step. eapply wp_mono; [done|].
  intros [ns|] h' [Hle Hr]; (split; [done|]); simpl.
  - split; [eapply (wordwise_bits f g e1 e2 ns _ 0); eauto|].
    left. split; [done|]. intros i _. eapply (wordwise_bits f g); eauto.
  - split; [apply wf_init|]. auto.
Qed.

Lemma high_of_lor e1 e2 ns :
  wf e1 → wf e2 → wordwise Z.lor 0 (e_node e1) (e_node e2) ns →
  (if e_highbit e1 >? e_highbit e2 then e_highbit e1 else e_highbit e2) = high_of ns.
Proof.
  intros [Hok1 ->] [Hok2 ->] [Hok Hw]. rewrite Z.gtb_ltb. symmetry.
  destruct (decide (e_node e1 = [])) as [E1|Hne1].
  - rewrite E1 in *. f_equal. assert (ns = e_node e2) as ->.
    { eapply nodes_ext; [done..|]. intros s. by rewrite Hw. }
    change (high_of []) with 0. pose proof (high_of_nonneg _ _ Hok2).
    by rewrite (proj2 (Z.ltb_ge _ _)) by lia.
  - destruct (high_of_spec _ _ Hok1 Hne1) as (? & Hn1 & Hz1).
    destruct (decide (e_node e2 = [])) as [E2|Hne2].
    { rewrite E2 in *. assert (ns = e_node e1) as ->.
      { eapply nodes_ext; [done..|]. intros s. by rewrite Hw, Z.lor_0_r. }
      change (high_of []) with 0. by rewrite (proj2 (Z.ltb_lt _ _)) by lia. }
    destruct (high_of_spec _ _ Hok2 Hne2) as (? & Hn2 & Hz2).
    destruct (Z.ltb_spec (high_of (e_node e2)) (high_of (e_node e1))) as [Hlt|Hge];
      (eapply high_of_unique; [done| |]).
    + intros s Hs. rewrite Hw, Hz1, Hz2 by lia. done.
    + rewrite Hw. by intros [? _]%Z.lor_eq_0_iff.
    + intros s Hs. rewrite Hw, Hz1, Hz2 by lia. done.
    + rewrite Hw. by intros [_ ?]%Z.lor_eq_0_iff.
Qed.

Lemma or_spec e1 e2 h :
  wf e1 → wf e2 →
  wp (ebitmap_or e1 e2) h (set_outcome h (λ i, ebitmap_get_bit e1 i || ebitmap_get_bit e2 i)).
Proof.
  intros. eapply (wp_set_outcome Z.lor orb _ _ _ (λ _, _)); eauto using high_of_lor.
  - intros. apply Z.lor_spec.
  - destruct H, H0. by apply or_loop_spec.
Qed.

Lemma and_spec e1 e2 h :
  wf e1 → wf e2 →
  wp (ebitmap_and e1 e2) h (set_outcome h (λ i, ebitmap_get_bit e1 i && ebitmap_get_bit e2 i)).
Proof.
  intros. eapply (wp_set_outcome Z.land andb _ _ _ high_of); eauto.
  - intros. apply Z.land_spec.
  - destruct H, H0. by apply and_loop_spec.
Qed.

Lemma xor_spec e1 e2 h :
  wf e1 → wf e2 →
  wp (ebitmap_xor e1 e2) h
    (set_outcome h (λ i, xorb (ebitmap_get_bit e1 i) (ebitmap_get_bit e2 i))).
Proof.
  intros. eapply (wp_set_outcome Z.lxor xorb _ _ _ high_of); eauto.
  - intros. apply Z.lxor_spec.
  - destruct H, H0. by apply xor_loop_spec.
Qed.

(** *** Complement *)

Definition not_word (maxbit w s : Z) : Z :=
  if maxbit - s <? MAPSIZE then Z.land (not64 w) (Z.shiftl 1 (maxbit - s) - 1) else not64 w.

Lemma not_word_testbit maxbit w s i :
  s < maxbit → 0 ≤ i < 64 →
  Z.testbit (not_word maxbit w s) i = (s + i <? maxbit) && negb (Z.testbit w i).
Proof.
  intros Hs Hi. unfold not_word, not64, u64, MAPSIZE.
  replace (Z.shiftl 1 (maxbit - s) - 1) with (Z.ones (maxbit - s)) by (unfold Z.ones; lia).
  destruct (Z.ltb_spec (maxbit - s) 64).
  - rewrite Z.land_spec, testbit_wnot, Z.testbit_ones_nonneg by lia.
    rewrite (proj2 (Z.ltb_lt i 64)) by lia. simpl. rewrite andb_comm.
    f_equal. destruct (Z.ltb_spec i (maxbit - s)), (Z.ltb_spec (s + i) maxbit); lia || done.
  - rewrite testbit_wnot by lia. by rewrite !(proj2 (Z.ltb_lt _ _)) by lia.
Qed.

Lemma not_word_bound maxbit w s : s < maxbit → 0 ≤ not_word maxbit w s < 2 ^ 64.
Proof.
  intros Hs. unfold not_word, not64, u64.
  assert (0 ≤ Z.lnot w mod 2 ^ 64 < 2 ^ 64) by (by apply Z.mod_pos_bound).
  case_match; [by apply land_bound|done].
Qed.

(** The words the complement loop emits from [cur] on. *)
Definition complemented (maxbit cur : Z) (n ns : list ebitmap_node) : Prop :=
  nodes_ok cur ns ∧
  ∀ s, word ns s =
    if (cur <=? s) && (s <? maxbit) && (s mod 64 =? 0) then not_word maxbit (word n s) s else 0.

Lemma not_loop_spec fuel n maxbit cur h :
  nodes_ok cur n → 0 ≤ cur → cur mod 64 = 0 → maxbit ≤ 2 ^ 32 - 64 →
  (0 < fuel)%nat → maxbit ≤ cur + 64 * (Z.of_nat fuel - 1) →
  wp (ebitmap_not_loop fuel n maxbit cur) h (built h (complemented maxbit cur n)).
Proof.
  revert n cur h. induction fuel as [|fuel IH]; intros n cur h Hn Hc Hm Hmax Hf Hfuel; [lia|].
  simpl. destruct (Z.ltb_spec cur maxbit) as [Hlt|Hge]; cycle 1.
  { split; [done|]. split; [done|]. intros s. simpl.
    destruct (Z.leb_spec cur s); simpl; [|done].
    by rewrite (proj2 (Z.ltb_ge s maxbit)) by lia. }
  pose proof (mult64_lt cur (2 ^ 32 - 64)).
  assert (u32 (cur + MAPSIZE) = cur + 64) as -> by (unfold u32, MAPSIZE; rewrite Z.mod_small; lia).
  pose proof (mod64_add cur Hm) as Hm'.
  set (n' := if match n with [] => false | a :: _ => startbit a =? cur end then tail n else n).
  assert (nodes_ok (cur + 64) n' ∧ ∀ s, s ≠ cur → word n' s = word n s) as [Hn' Hw'].
  { subst n'. destruct n as [|a n]; [done|]. simpl in *. destruct Hn as (?&(?&?&?&?)&?).
    destruct (Z.eqb_spec (startbit a) cur) as [<-|]; simpl.
    - split; [done|]. intros s Hs. by rewrite (proj2 (Z.eqb_neq _ _)) by lia.
    - split; [|done]. pose proof (mult64_lt cur (startbit a)). split_and!; try done. lia. }
  assert (∀ x, (if match n with [] => false | a :: _ => startbit a =? cur end
                then match n with [] => x | a :: _ => not64 (nmap a) end else ones64)
               = not64 (word n cur)) as ->.
  { intros x. destruct n as [|a n]; [done|]. simpl. destruct (Z.eqb_spec (startbit a) cur); [done|].
    simpl in Hn. destruct Hn as (?&(?&?&?&?)&Hr). by rewrite (word_lo _ _ _ Hr) by lia. }
  change (wp (emit cur (not_word maxbit (word n cur) cur) (ebitmap_not_loop fuel n' maxbit (cur + 64)))
            h (built h (complemented maxbit cur n))).
  pose proof (not_word_bound maxbit (word n cur) cur Hlt).
  eapply wp_emit; [intros; apply IH; try done; lia|]. intros ns [Hok Hw].
  assert (word ns cur = 0) as Hw0 by (eapply word_lo; [done|lia]).
  assert (∀ s, s ≠ cur → word ns s =
    if (cur <=? s) && (s <? maxbit) && (s mod 64 =? 0) then not_word maxbit (word n s) s else 0) as Hws.
  { intros s Hs. rewrite Hw. destruct (Z.eqb_spec (s mod 64) 0) as [Hs0|]; rewrite ?andb_false_r; [|done].
    pose proof (mult64_lt cur s Hm Hs0).
    destruct (Z.leb_spec (cur + 64) s), (Z.leb_spec cur s); simpl; try lia; try done.
    by rewrite Hw'. }
  unfold nz. destruct (Z.eqb_spec (not_word maxbit (word n cur) cur) 0) as [Hz|Hnz]; simpl.
  - split; [by eapply nodes_ok_weaken; [|done]; lia|]. intros s.
    destruct (decide (s = cur)) as [->|]; [|auto]. rewrite Hw0, Hz. by case_match.
  - split; [repeat split; simpl; try done; lia|]. intros s. simpl.
    destruct (Z.eqb_spec cur s) as [<-|]; [|auto].
    rewrite Hm, (proj2 (Z.leb_le _ _)), (proj2 (Z.ltb_lt _ _)) by lia. done.
Qed.

Lemma not_spec e maxbit h :
  wf e → 0 ≤ maxbit ≤ 2 ^ 32 - 64 →
  wp (ebitmap_not e maxbit) h
    (set_outcome h (λ i, (i <? maxbit) && negb (ebitmap_get_bit e i))).
Proof.
  intros Hwf Hmax. pose proof Hwf as [Hok _]. unfold ebitmap_not. wp_step.
  eapply wp_mono.
  - apply not_loop_spec; [done..|lia| |]; unfold ebitmap_not_fuel, MAPSIZE;
      pose proof (Z.div_mod maxbit 64); pose proof (Z.mod_pos_bound maxbit 64);
      pose proof (Z.div_pos maxbit 64); lia.
  - intros [ns|] h' [Hle Hr]; (split; [done|]); simpl; [|split; [apply wf_init|]; auto].
    destruct Hr as [Hok' Hw]. assert (wf (Ebitmap ns (high_of ns))) as Hwf' by done.
    split; [done|]. left. split; [done|]. intros i Hi.
    rewrite !get_bit_word by done. simpl. rewrite Hw, align_mod, andb_true_r.
    pose proof (align_le i).
    rewrite (proj2 (Z.leb_le 0 (align i))) by (unfold align; pose proof (Z.div_pos i 64); lia).
    simpl. destruct (Z.ltb_spec (align i) maxbit).
    + rewrite not_word_testbit by lia. do 2 f_equal. lia.
    + rewrite Z.bits_0, (proj2 (Z.ltb_ge i maxbit)) by lia. done.
Qed.

Lemma andnot_spec e1 e2 maxbit h :
  wf e1 → wf e2 → 0 ≤ maxbit ≤ 2 ^ 32 - 64 →
  wp (ebitmap_andnot e1 e2 maxbit) h
    (set_outcome h (λ i, ebitmap_get_bit e1 i && ((i <? maxbit) && negb (ebitmap_get_bit e2 i)))).
Proof.
  intros H1 H2 Hmax. unfold ebitmap_andnot. wp_step.
  eapply wp_mono; [by apply not_spec|]. intros [rc e3] h1 (Hle & Hwf3 & Hr). simpl in *.
  destruct Hr as [[-> Hb]|(-> & -> & Hoom)]; simpl.
  - wp_step. eapply wp_mono; [by apply and_spec|].
    intros [rc dst] h2 (Hle' & Hwf & Hr). simpl in *.
    assert (heap_le h h2) by (by etrans).
    destruct Hr as [[-> Hb']|(-> & -> & Hoom)]; simpl; (split; [done|]); simpl.
    + split; [done|]. left. split; [done|]. intros i Hi. rewrite Hb' by done. f_equal. auto.
    + split; [done|]. right. destruct Hle. split_and!; naive_solver.
  - split; [done|]. simpl. auto.
Qed.

(** *** Setting a bit *)

(** [highbit] of a bitmap whose nodes end with [n], [prev] in front of it. *)
Definition high_after (prev : option ebitmap_node) (n : list ebitmap_node) : Z :=
  match n with
  | [] => match prev with Some p => u32 (startbit p + MAPSIZE) | None => 0 end
  | _ :: _ => high_of n
  end.

Lemma high_after_cons prev a n : high_after prev (a :: n) = high_after (Some a) n.
Proof. unfold high_after. rewrite high_of_cons. by destruct n. Qed.

Definition set_word (w k : Z) (value : bool) : Z :=
  if value then Z.lor w (Z.shiftl 1 k) else Z.land w (not64 (Z.shiftl 1 k)).

Lemma set_word_testbit w k value i :
  0 ≤ k < 64 → 0 ≤ i < 64 →
  Z.testbit (set_word w k value) i = if i =? k then value else Z.testbit w i.
Proof.
  intros Hk Hi. unfold set_word, not64, u64. destruct value.
  - rewrite Z.lor_spec, testbit_shiftl_1 by lia. destruct (i =? k); btauto.
  - rewrite Z.land_spec, testbit_wnot, testbit_shiftl_1, (proj2 (Z.ltb_lt i 64)) by lia.
    destruct (i =? k); btauto.
Qed.

Lemma set_word_bound w k value : 0 ≤ k < 64 → 0 ≤ w < 2 ^ 64 → 0 ≤ set_word w k value < 2 ^ 64.
Proof.
  intros Hk Hw. unfold set_word. case_match; [|by apply land_bound].
  apply lor_bound; [lia|done|]. rewrite Z.shiftl_mul_pow2, Z.mul_1_l by lia.
  split; [apply Z.pow_nonneg; lia|apply Z.pow_lt_mono_r; lia].
Qed.

Lemma set_word_nonzero w k : 0 ≤ k < 64 → set_word w k true ≠ 0.
Proof.
  intros Hk Hz. pose proof (set_word_testbit w k true k Hk Hk) as Ht.
  by rewrite Hz, Z.eqb_refl, Z.bits_0 in Ht.
Qed.

(** [n'] is [n] with the bit changed. *)
Definition bit_changed (lo bit : Z) (value : bool) (n n' : list ebitmap_node) : Prop :=
  nodes_ok lo n' ∧
  ∀ s, word n' s =
    if s =? align bit then set_word (word n s) (bit - align bit) value else word n s.

Definition set_bit_outcome (h : heap) (lo bit : Z) (value : bool) (prev : option ebitmap_node)
    (n : list ebitmap_node) (hb : Z) (r : Z * list ebitmap_node * Z) (h' : heap) : Prop :=
  let '(rc, n', hb') := r in
  heap_le h h' ∧
  ((rc = 0 ∧ bit_changed lo bit value n n' ∧ hb' = high_after prev n') ∨
   (rc = - ENOMEM ∧ n' = n ∧ hb' = hb ∧ value = true ∧ hp_oom h ≠ [])).

(** No node covers [bit] and the list is ahead of it: the insertion. *)
Lemma set_bit_insert prev n hb bit value lo h :
  0 ≤ bit → bit + 64 < 2 ^ 32 → lo ≤ align bit → nodes_ok lo n → nodes_ok (align bit + 64) n →
  hb = high_after prev n →
  wp (if negb value then mret (0, n, hb)
      else
        new ← malloc;
        match new with
        | None => mret (- ENOMEM, n, hb)
        | Some _ =>
           mret (0, Node (align bit) (Z.shiftl 1 (bit - align bit)) :: n,
                 match n with [] => u32 (align bit + MAPSIZE) | _ :: _ => hb end)
        end) h
    (set_bit_outcome h lo bit value prev n hb).
Proof.
  intros Hb1 Hb2 Hlo Hn Hn' Hhb. pose proof (align_le bit) as Ha.
  assert (word n (align bit) = 0) as Hw0 by (eapply word_lo; [done|lia]).
  assert (0 ≤ align bit) by (unfold align; pose proof (Z.div_pos bit 64); lia).
  destruct value; simpl.
  - do 2 wp_step; [by split; [|right]|]. split; [done|]. left. split; [done|]. split.
    + pose proof (set_word_bound 0 (bit - align bit) true).
      pose proof (set_word_nonzero 0 (bit - align bit)). unfold set_word in *.
      rewrite Z.lor_0_l in *. split.
      * repeat split; simpl; try done; try lia. apply align_mod.
      * intros s. simpl. rewrite (Z.eqb_sym s).
        destruct (Z.eqb_spec (align bit) s) as [<-|]; [|done]. by rewrite Hw0, Z.lor_0_l.
    + subst hb. unfold high_after. rewrite high_of_cons. by destruct n.
  - split; [done|]. left. split; [done|]. split; [|done]. split; [done|]. intros s.
    destruct (Z.eqb_spec s (align bit)) as [->|]; [|done]. by rewrite Hw0.
Qed.

Lemma set_bit_loop_spec prev n hb bit value lo h :
  0 ≤ bit → bit + 64 < 2 ^ 32 → lo ≤ align bit → nodes_ok lo n → hb = high_after prev n →
  wp (ebitmap_set_bit_loop prev n hb bit value (align bit) (u32 (align bit + MAPSIZE))) h
    (set_bit_outcome h lo bit value prev n hb).
Proof.
  intros Hb1 Hb2. revert prev lo h hb.
  induction n as [|a n IH]; intros prev lo h hb Hlo Hn Hhb; [by apply set_bit_insert|].
  pose proof Hn as (Hla & Hna & Hr). pose proof Hna as (?&?&?&?). pose proof (align_le bit).
  simpl. destruct (Z.leb_spec (startbit a) bit); cycle 1.
  { apply set_bit_insert; try done. simpl. split_and!; try done.
    apply mult64_lt; [apply align_mod|done|lia]. }
  unfold MAPSIZE at 1. rewrite Z.gtb_ltb. destruct (Z.ltb_spec bit (startbit a + 64)) as [Hin|Hout].
  - assert (align bit = startbit a) as Hal by (apply align_of; lia).
    pose proof (set_word_bound (nmap a) (bit - startbit a) value).
    destruct value.
    + split; [done|]. left. split; [done|]. split; [split|].
      * pose proof (set_word_nonzero (nmap a) (bit - startbit a)). unfold set_word in *.
        repeat split; simpl; try done; lia.
      * intros s. simpl. rewrite Hal, (Z.eqb_sym s). by destruct (Z.eqb_spec (startbit a) s).
      * rewrite Hhb, !high_after_cons. done.
    + change (Z.land (nmap a) (not64 (Z.shiftl 1 (bit - startbit a))))
        with (set_word (nmap a) (bit - startbit a) false) in *.
      assert (∀ s, s ≠ startbit a →
        word (a :: n) s = word n s) as Hskip
        by (intros s Hs; simpl; by rewrite (proj2 (Z.eqb_neq _ _)) by done).
      unfold nz. destruct (Z.eqb_spec (set_word (nmap a) (bit - startbit a) false) 0) as [Hz|Hnz];
        simpl negb; cbn iota.
      * split; [done|]. left. split; [done|]. split; [split|].
        -- by eapply nodes_ok_weaken; [|done]; lia.
        -- intros s. rewrite Hal. destruct (Z.eqb_spec s (startbit a)) as [->|Hs].
           ++ rewrite (word_head a n lo Hn), Hz. eapply word_lo; [done|lia].
           ++ by rewrite Hskip.
        -- rewrite Hhb. unfold high_after. rewrite high_of_cons. by destruct n.
      * split; [done|]. left. split; [done|]. split; [split|].
        -- repeat split; cbn [startbit nmap]; try done; lia.
        -- intros s. rewrite Hal. destruct (Z.eqb_spec s (startbit a)) as [->|Hs].
           ++ rewrite (word_head a n lo Hn). simpl. by rewrite Z.eqb_refl.
           ++ rewrite Hskip by done. simpl. by rewrite (proj2 (Z.eqb_neq _ _)) by done.
        -- rewrite Hhb, !high_after_cons. done.
  - assert (startbit a + 64 ≤ align bit) by (by apply align_ge; [apply mod64_add|]).
    wp_step. eapply wp_mono; [apply (IH (Some a) (startbit a + 64)); try done|].
    { by rewrite Hhb, high_after_cons. }
    intros [[rc n'] hb'] h' (Hle & Hr'). wp_step. split; [done|].
    destruct Hr' as [(-> & [Hok Hw] & ->)|(-> & -> & -> & Hv & Hoom)]; [left|right; done].
    split; [done|]. split; [split|by rewrite high_after_cons].
    + by split_and!.
    + intros s. simpl. rewrite Hw. destruct (Z.eqb_spec (startbit a) s) as [<-|]; [|done].
      by rewrite (proj2 (Z.eqb_neq _ _)) by lia.
Qed.

(** What [ebitmap_set_bit] does: it rejects a bit whose word would overflow
    [highbit], and otherwise changes exactly that bit, or fails to allocate and
    leaves the bitmap as it was. *)
Lemma set_bit_spec e bit value h :
  wf e → 0 ≤ bit < 2 ^ 32 →
  wp (ebitmap_set_bit e bit value) h (λ r h',
    heap_le h h' ∧ wf r.2 ∧
    ((r.1 = 0 ∧ bit < 2 ^ 32 - 64 ∧
      ∀ i, 0 ≤ i < 2 ^ 32 →
        ebitmap_get_bit r.2 i = if i =? bit then value else ebitmap_get_bit e i) ∨
     (r = (- EINVAL, e) ∧ 2 ^ 32 - 64 ≤ bit) ∨
     (r = (- ENOMEM, e) ∧ value = true ∧ hp_oom h ≠ []))).
Proof.
  intros Hwf Hbit. pose proof Hwf as [Hok Hhb]. unfold ebitmap_set_bit.
  rewrite align_land by done. pose proof (align_le bit) as Ha.
  destruct (decide (bit < 2 ^ 32 - 64)) as [Hb|Hb]; cycle 1.
  { assert (align bit = 2 ^ 32 - 64) as -> by (apply align_of; [done|lia]).
    split; [done|]. split; [done|]. auto with lia. }
  assert (0 ≤ align bit) by (unfold align; pose proof (Z.div_pos bit 64); lia).
  destruct (Z.eqb_spec (u32 (align bit + MAPSIZE)) 0) as [Hz|_].
  { unfold u32, MAPSIZE in Hz. rewrite Z.mod_small in Hz by lia. lia. }
  wp_step. eapply wp_mono; [apply (set_bit_loop_spec _ _ _ _ _ 0); try done; try lia|].
  { rewrite Hhb. by destruct (e_node e). }
  intros [[rc n'] hb'] h' (Hle & Hr). wp_step. split; [done|]. simpl.
  destruct Hr as [(-> & [Hok' Hw] & ->)|(-> & -> & -> & Hv & Hoom)].
  - assert (wf (Ebitmap n' (high_after None n'))) as Hwf' by (split; [done|]; by destruct n').
    split; [done|]. left. split_and!; [done..|]. intros i Hi.
    rewrite !get_bit_word by done. simpl. rewrite Hw. pose proof (align_le i).
    destruct (Z.eqb_spec (align i) (align bit)) as [Hal|].
    + rewrite set_word_testbit by lia. rewrite Hal.
      destruct (Z.eqb_spec (i - align bit) (bit - align bit)), (Z.eqb_spec i bit); lia || done.
    + destruct (Z.eqb_spec i bit) as [->|]; done.
  - destruct e; simpl in *. split; [done|]. auto.
Qed.

(** ** Comparisons *)

Lemma cmp_loop_eq n1 n2 : ebitmap_cmp_loop n1 n2 = true ↔ n1 = n2.
Proof.
  revert n2. induction n1 as [|[s x] n1 IH]; intros [|[t y] n2]; simpl; try done.
  destruct (Z.eqb_spec s t), (Z.eqb_spec x y); simpl; rewrite ?IH; naive_solver.
Qed.

Lemma cmp_eq e1 e2 : ebitmap_cmp e1 e2 = true ↔ e1 = e2.
Proof.
  destruct e1 as [n1 h1], e2 as [n2 h2]. unfold ebitmap_cmp; simpl.
  destruct (Z.eqb_spec h1 h2); simpl; rewrite ?cmp_loop_eq; naive_solver.
Qed.

Lemma cmp_refl e : ebitmap_cmp e e = true.
Proof. by apply cmp_eq. Qed.

Lemma contains_loop_words n1 n2 lo :
  nodes_ok lo n1 → nodes_ok lo n2 →
  ebitmap_contains_loop n1 n2 = true ↔ ∀ s, Z.land (word n1 s) (word n2 s) = word n2 s.
Proof.
  revert n2 lo. induction n1 as [|a n1 IH1]; intros [|b n2] lo Hn1 Hn2.
  - done.
  - split; [done|]. intros HH. specialize (HH (startbit b)).
    rewrite (word_head b n2 lo Hn2), Z.land_0_l in HH. destruct Hn2 as (_&(?&?&?&?)&_). lia.
  - split; [|done]. intros _ s. by rewrite Z.land_0_r.
  - pose proof Hn1 as (?&Ha&Hr1). pose proof Hn2 as (?&Hb&Hr2).
    pose proof Ha as (?&?&?&?). pose proof Hb as (?&?&?&?). simpl ebitmap_contains_loop.
    destruct (Z.leb_spec (startbit a) (startbit b)); cycle 1.
    { split; [done|]. intros HH. specialize (HH (startbit b)).
      rewrite (word_head b n2 lo Hn2), (word_lo (startbit a) (a :: n1)), Z.land_0_l in HH
        by (done || lia). lia. }
    destruct (Z.ltb_spec (startbit a) (startbit b)) as [Hlt|Hge].
    + assert (nodes_ok (startbit a + 64) (b :: n2)) as Hn2' by (by eapply nodes_ok_ahead).
      rewrite (IH1 _ _ Hr1 Hn2'). apply forall_proper; intros s.
      destruct (decide (startbit a = s)) as [<-|].
      * by rewrite (word_lo _ _ _ Hn2'), !Z.land_0_r by lia.
      * by rewrite (word_skip a n1 s).
    + assert (startbit a = startbit b) as E by lia. rewrite E in Hr1.
      destruct (Z.eqb_spec (Z.land (nmap a) (nmap b)) (nmap b)) as [Hl|Hl]; simpl.
      * rewrite (IH1 _ _ Hr1 Hr2). apply forall_proper; intros s. rewrite E.
        destruct (Z.eqb_spec (startbit b) s) as [<-|]; [|done].
        by rewrite (word_lo _ _ _ Hr2), Z.land_0_r by lia.
      * split; [done|]. intros HH. specialize (HH (startbit b)).
        by rewrite E, Z.eqb_refl in HH.
Qed.

Lemma match_any_loop_words n1 n2 lo :
  nodes_ok lo n1 → nodes_ok lo n2 →
  ebitmap_match_any_loop n1 n2 = true ↔ ∃ s, Z.land (word n1 s) (word n2 s) ≠ 0.
Proof.
  revert n2 lo. induction n1 as [|a n1 IH1].
  { intros [|b n2] lo _ _; (split; [done|]); intros (s & Hs); by rewrite Z.land_0_l in Hs. }
  induction n2 as [|b n2 IH2]; intros lo Hn1 Hn2.
  { split; [done|]. intros (s & Hs). by rewrite Z.land_0_r in Hs. }
  pose proof Hn1 as (?&Ha&Hr1). pose proof Hn2 as (?&Hb&Hr2). simpl ebitmap_match_any_loop.
  destruct (Z.ltb_spec (startbit a) (startbit b)) as [Hlt|Hge].
  - assert (nodes_ok (startbit a + 64) (b :: n2)) as Hn2' by (by eapply nodes_ok_ahead).
    rewrite (IH1 _ _ Hr1 Hn2'). apply exist_proper; intros s.
    destruct (decide (startbit a = s)) as [<-|].
    + by rewrite (word_lo _ _ _ Hn2'), !Z.land_0_r by lia.
    + by rewrite (word_skip a n1 s).
  - destruct (Z.ltb_spec (startbit b) (startbit a)) as [Hlt|Hge'].
    + assert (nodes_ok (startbit b + 64) (a :: n1)) as Hn1' by (by eapply nodes_ok_ahead).
      rewrite (IH2 _ Hn1' Hr2). apply exist_proper; intros s.
      destruct (decide (startbit b = s)) as [<-|].
      * by rewrite (word_lo _ _ _ Hn1') by lia.
      * by rewrite (word_skip b n2 s).
    + assert (startbit a = startbit b) as E by lia. unfold nz.
      destruct (Z.eqb_spec (Z.land (nmap a) (nmap b)) 0) as [Hz|Hnz]; simpl.
      * rewrite E in Hr1. rewrite (IH1 _ _ Hr1 Hr2). apply exist_proper; intros s. rewrite E.
        destruct (Z.eqb_spec (startbit b) s) as [<-|]; [|done].
        by rewrite Hz, (word_lo _ _ _ Hr2), Z.land_0_r by lia.
      * split; [|done]. intros _. exists (startbit b). by rewrite E, Z.eqb_refl.
Qed.

(** A relation between the words of two bitmaps, read bit by bit. *)
Lemma words_bits e1 e2 (Q : bool → bool → Prop) :
  wf e1 → wf e2 → Q false false →
  (∀ s, ∀ k, 0 ≤ k < 64 → Q (Z.testbit (word (e_node e1) s) k) (Z.testbit (word (e_node e2) s) k)) ↔
  ∀ i, 0 ≤ i < 2 ^ 32 → Q (ebitmap_get_bit e1 i) (ebitmap_get_bit e2 i).
Proof.
  intros H1 H2 HQ. split.
  - intros H i Hi. rewrite !get_bit_word by done. apply H. pose proof (align_le i). lia.
  - intros H s k Hk. destruct H1 as [Hok1 ?] eqn:?, H2 as [Hok2 ?] eqn:?.
    destruct (decide (word (e_node e1) s = 0)) as [Hz1|Hz1];
    destruct (decide (word (e_node e2) s = 0)) as [Hz2|Hz2];
      [by rewrite Hz1, Hz2, !Z.bits_0|..];
      [apply (word_nonzero_node _ _ _ Hok2) in Hz2 as Hs
      |apply (word_nonzero_node _ _ _ Hok1) in Hz1 as Hs
      |apply (word_nonzero_node _ _ _ Hok1) in Hz1 as Hs];
      specialize (H (s + k)); rewrite !get_bit_word, (align_of s) in H by (done || lia);
      replace (s + k - s) with k in H by lia; apply H; lia.
Qed.

Lemma contains_subset e1 e2 :
  wf e1 → wf e2 →
  ebitmap_contains e1 e2 = true ↔
  ∀ i, 0 ≤ i < 2 ^ 32 → ebitmap_get_bit e2 i = true → ebitmap_get_bit e1 i = true.
Proof.
  intros H1 H2. pose proof H1 as [Hok1 Hh1]. pose proof H2 as [Hok2 Hh2].
  assert ((∀ s, Z.land (word (e_node e1) s) (word (e_node e2) s) = word (e_node e2) s) ↔
    ∀ i, 0 ≤ i < 2 ^ 32 → ebitmap_get_bit e2 i = true → ebitmap_get_bit e1 i = true) as Hiff.
  { rewrite <- (words_bits e1 e2 (λ a b, b = true → a = true)) by done.
    apply forall_proper; intros s. split.
    - intros Hl k Hk Hb. rewrite <- Hl, Z.land_spec in Hb. apply andb_true_iff in Hb. tauto.
    - intros Hl. apply (word_ext 64); [lia|apply land_bound; [lia|]; by eapply word_bound
        |by eapply word_bound|].
      intros k Hk. rewrite Z.land_spec. specialize (Hl k Hk).
      destruct (Z.testbit (word (e_node e2) s) k); [by rewrite Hl|by rewrite andb_false_r]. }
  unfold ebitmap_contains. destruct (Z.ltb_spec (e_highbit e1) (e_highbit e2)) as [Hlt|_];
    [|rewrite <- Hiff; by apply (contains_loop_words _ _ 0)].
  split; [done|]. intros HH. pose proof (proj2 Hiff HH) as Hw. exfalso. rewrite Hh1, Hh2 in Hlt.
  pose proof (high_of_nonneg _ _ Hok1). assert (e_node e2 ≠ []) as Hne.
  { intros E. rewrite E in Hlt. change (high_of []) with 0 in Hlt. lia. }
  destruct (high_of_spec _ _ Hok2 Hne) as (? & Hn2 & _).
  pose proof (Hw (high_of (e_node e2) - 64)) as Hs.
  assert (word (e_node e1) (high_of (e_node e2) - 64) = 0) as Hz; [|rewrite Hz, Z.land_0_l in Hs; congruence].
  destruct (decide (e_node e1 = [])) as [->|Hne1]; [done|].
  destruct (high_of_spec _ _ Hok1 Hne1) as (? & _ & Hz1). apply Hz1.
  pose proof (mult64_lt _ _ (high_of_mod _ _ Hok1) (high_of_mod _ _ Hok2) Hlt). lia.
Qed.

Lemma match_any_overlap e1 e2 :
  wf e1 → wf e2 →
  ebitmap_match_any e1 e2 = true ↔
  ∃ i, 0 ≤ i < 2 ^ 32 ∧ ebitmap_get_bit e1 i = true ∧ ebitmap_get_bit e2 i = true.
Proof.
  intros H1 H2. pose proof H1 as [Hok1 _]. pose proof H2 as [Hok2 _].
  unfold ebitmap_match_any. rewrite match_any_loop_words by done. split.
  - intros (s & Hs).
    assert (word (e_node e1) s ≠ 0) as Hz by (intros E; by rewrite E in Hs).
    apply (word_nonzero_node _ _ _ Hok1) in Hz as (?&?&?&?).
    destruct (word_nonzero 64 (Z.land (word (e_node e1) s) (word (e_node e2) s))) as (k & Hk & Hb);
      [lia| |].
    { pose proof (land_bound 64 ltac:(lia) _ (word (e_node e2) s) (word_bound _ _ s Hok1)). lia. }
    rewrite Z.land_spec in Hb. apply andb_true_iff in Hb as [??].
    exists (s + k). rewrite !get_bit_word, (align_of s) by (done || lia).
    replace (s + k - s) with k by lia. split_and!; [lia|lia|done..].
  - intros (i & Hi & Hb1 & Hb2). rewrite get_bit_word in Hb1, Hb2 by done.
    exists (align i). intros Hz. pose proof (align_le i).
    assert (Z.testbit (Z.land (word (e_node e1) (align i)) (word (e_node e2) (align i))) (i - align i) = true)
      as Hb by (by rewrite Z.land_spec, Hb1, Hb2). by rewrite Hz, Z.bits_0 in Hb.
Qed.

(** ** Copies *)

Lemma cpy_loop_spec n h : wp (ebitmap_cpy_loop n) h (built h (λ ns, ns = n)).
Proof.
  revert h. induction n as [|[s x] n IH]; intros h; [by split|].
  apply wp_alloc. intros h' _. apply (wp_link _ _ _ _ (λ ns, ns = n)); [apply IH|by intros ? ->].
Qed.

(** A copy is the source, whatever the source is. *)
Lemma cpy_spec src h :
  wp (ebitmap_cpy src) h (λ r h', heap_le h h' ∧
    (r = (0, src) ∨ r = (- ENOMEM, ebitmap_init) ∧ hp_oom h ≠ [])).
Proof.
  unfold ebitmap_cpy. wp_step. eapply wp_mono; [apply cpy_loop_spec|].
  intros [ns|] h' [Hle Hr]; split; try done; [left|by right]. subst. by destruct src.
Qed.

Lemma union_spec dst e1 h :
  wf dst → wf e1 →
  wp (ebitmap_union dst e1) h (λ r h', heap_le h h' ∧ wf r.2 ∧
    ((r.1 = 0 ∧ ∀ i, 0 ≤ i < 2 ^ 32 →
        ebitmap_get_bit r.2 i = ebitmap_get_bit dst i || ebitmap_get_bit e1 i) ∨
     r = (-1, dst) ∧ hp_oom h ≠ [])).
Proof.
  intros Hd He. unfold ebitmap_union. wp_step. eapply wp_mono; [by apply or_spec|].
  intros [rc tmp] h' (Hle & Hwf & Hr). simpl in *.
  destruct Hr as [[-> Hb]|(-> & -> & Hoom)]; simpl; split; try done.
  - destruct tmp. split; [done|]. by left.
  - split; [done|]. by right.
Qed.
