(* ===== verification/EbitmapIter.v ===== *)
(** * Extensible bitmaps: iteration, counting, ranges and the binary form

    Proofs about the rest of [src/ebitmap.c]: [ebitmap_for_each_bit] visits the
    bits of a well-formed bitmap without undefined behaviour and ends,
    [ebitmap_cardinality] counts them, [ebitmap_init_range] builds intervals,
    and [ebitmap_read] inverts [ebitmap_write]. *)

From S2P Require Import Prelude PolicyFile Ebitmap EbitmapFacts.

(** ** Iteration *)

(** The positions and bits of one node. *)
Definition node_bits (a : ebitmap_node) (k len : Z) : list (Z * bool) :=
  (λ t, (startbit a + t, Z.testbit (nmap a) t)) <$> seqZ k len.

Lemma node_get_bit_in a n k :
  node_ok a → 0 ≤ k < 64 →
  ebitmap_node_get_bit (a :: n) (startbit a + k) = Some (Z.testbit (nmap a) k).
Proof.
  intros (?&?&?&?) Hk. unfold ebitmap_node_get_bit, u32.
  replace (startbit a + k - startbit a) with k by lia. rewrite Z.mod_small by lia.
  rewrite (proj2 (Z.ltb_lt k 64)) by lia. unfold nz. by rewrite land_bit, negb_involutive by lia.
Qed.

(** Where the loop goes after the last bit of a node. *)
Definition after_node (fuel : nat) (a : ebitmap_node) (n : list ebitmap_node) (len : Z) :
    option (list (Z * bool)) :=
  match n with
  | [] => ebitmap_for_each_bit_loop fuel [a] (startbit a + 64) len
  | b :: _ => ebitmap_for_each_bit_loop fuel n (startbit b) len
  end.

Lemma for_each_node a n len j fuel :
  node_ok a → startbit a + 64 ≤ len → (0 < j ≤ 64)%nat →
  ebitmap_for_each_bit_loop (j + fuel) (a :: n) (startbit a + (64 - Z.of_nat j)) len =
    match after_node fuel a n len with
    | Some rest => Some (node_bits a (64 - Z.of_nat j) (Z.of_nat j) ++ rest)
    | None => None
    end.
Proof.
  intros Ha Hlen. pose proof Ha as (?&?&?&?). induction j as [|j IH]; intros Hj; [lia|].
  cbn [Nat.add ebitmap_for_each_bit_loop].
  rewrite (proj2 (Z.ltb_lt _ len)) by lia. rewrite node_get_bit_in by (done || lia).
  cbn [mbind option_bind].
  unfold node_bits. rewrite seqZ_cons by lia. cbn [fmap list_fmap].
  replace (Z.pred (Z.of_nat (S j))) with (Z.of_nat j) by lia.
  replace (Z.succ (64 - Z.of_nat (S j))) with (64 - Z.of_nat j) by lia.
  destruct (decide (j = 0%nat)) as [->|Hj0].
  - change (Z.of_nat 1) with 1. change (0 + fuel)%nat with fuel.
    replace (startbit a + (64 - 1)) with (startbit a + 63) by lia.
    unfold after_node, ebitmap_next, MAPSIZE.
    destruct n as [|b n]; cbn [mbind option_bind fst snd].
    + unfold u32. rewrite Z.mod_small by lia.
      replace (startbit a + 63 + 1) with (startbit a + 64) by lia.
      by destruct (ebitmap_for_each_bit_loop _ _ _ _).
    + rewrite (proj2 (Z.eqb_eq _ _)) by lia. cbn [fst snd].
      by destruct (ebitmap_for_each_bit_loop _ _ _ _).
  - assert (ebitmap_next (a :: n) (startbit a + (64 - Z.of_nat (S j))) =
              Some (a :: n, startbit a + (64 - Z.of_nat j))) as ->.
    { unfold ebitmap_next, MAPSIZE, u32. rewrite Z.mod_small by lia.
      rewrite (proj2 (Z.eqb_neq _ _)) by lia.
      replace (startbit a + (64 - Z.of_nat (S j)) + 1) with (startbit a + (64 - Z.of_nat j)) by lia.
      by destruct n. }
    cbn [mbind option_bind fst snd]. rewrite IH by lia. by destruct (after_node _ _ _ _).
Qed.

Lemma for_each_nodes ns lo fuel :
  nodes_ok lo ns → (fuel = S (64 * length ns))%nat →
  ebitmap_for_each_bit_loop fuel ns (match ns with n :: _ => startbit n | [] => 0 end) (high_of ns) =
    Some (concat ((λ a, node_bits a 0 64) <$> ns)).
Proof.
  intros Hok ->. revert lo Hok. induction ns as [|a ns IH]; intros lo Hok; [done|].
  pose proof Hok as (?&Ha&Hr). pose proof Ha as (?&?&?&?).
  assert (startbit a + 64 ≤ high_of (a :: ns)) as Hle.
  { destruct (high_of_spec (startbit a) (a :: ns)) as (?&_&_); [|done|lia].
    by split_and!. }
  replace (S (64 * length (a :: ns)))%nat with (64 + S (64 * length ns))%nat by (simpl; lia).
  replace (startbit a) with (startbit a + (64 - Z.of_nat 64)) by lia.
  rewrite for_each_node by (done || lia). unfold after_node. rewrite high_of_cons.
  destruct ns as [|b ns].
  - unfold u32. rewrite Z.mod_small by lia. simpl. rewrite Z.ltb_irrefl. done.
  - rewrite (IH _ Hr). done.
Qed.

(** [ebitmap_for_each_bit] on a well-formed bitmap: it stays inside the nodes,
    ends, and visits the 64 bits of every node in order. *)
Lemma for_each_bit_spec e :
  wf e → ebitmap_for_each_bit e = Some (concat ((λ a, node_bits a 0 64) <$> e_node e)).
Proof.
  intros [Hok Hh]. unfold ebitmap_for_each_bit, ebitmap_length, ebitmap_startbit.
  rewrite Hh. by eapply for_each_nodes.
Qed.

(** The set bits of a node, in order. *)
Definition node_set_bits (a : ebitmap_node) : list Z :=
  (λ t, startbit a + t) <$> filter (λ t, Z.testbit (nmap a) t = true) (seqZ 0 64).

Definition set_bits (ns : list ebitmap_node) : list Z := concat (node_set_bits <$> ns).

Lemma filter_node_bits a k len :
  fst <$> filter (λ p : Z * bool, p.2 = true) (node_bits a k len) =
  (λ t, startbit a + t) <$> filter (λ t, Z.testbit (nmap a) t = true) (seqZ k len).
Proof.
  unfold node_bits. induction (seqZ k len) as [|t l IH]; [done|].
  rewrite fmap_cons, !filter_cons. cbn [snd].
  case_decide; rewrite ?fmap_cons; by rewrite IH.
Qed.

Lemma positive_bits_set_bits e :
  wf e → ebitmap_for_each_positive_bit e = Some (set_bits (e_node e)).
Proof.
  intros Hwf. unfold ebitmap_for_each_positive_bit. rewrite for_each_bit_spec by done.
  f_equal. unfold set_bits. induction (e_node e) as [|a ns IH]; [done|].
  rewrite !fmap_cons. cbn [concat]. rewrite filter_app, fmap_app, IH. f_equal.
  apply filter_node_bits.
Qed.

Lemma elem_of_node_set_bits a i :
  node_ok a → i ∈ node_set_bits a ↔
  startbit a ≤ i < startbit a + 64 ∧ Z.testbit (nmap a) (i - startbit a) = true.
Proof.
  intros Ha. unfold node_set_bits. rewrite list_elem_of_fmap. split.
  - intros (t & -> & [Ht Hin]%list_elem_of_filter). apply elem_of_seqZ in Hin.
    replace (startbit a + t - startbit a) with t by lia. split; [lia|done].
  - intros [Hi Hb]. exists (i - startbit a). split; [lia|].
    apply list_elem_of_filter. split; [done|]. apply elem_of_seqZ. lia.
Qed.

Lemma elem_of_set_bits lo ns i :
  nodes_ok lo ns → i ∈ set_bits ns ↔ Z.testbit (word ns (align i)) (i - align i) = true.
Proof.
  revert lo. induction ns as [|a ns IH]; intros lo Hok.
  { unfold set_bits; simpl. rewrite Z.bits_0. split; [by intros ?%not_elem_of_nil|done]. }
  destruct Hok as (?&Ha&Hr). pose proof Ha as (?&?&?&?). pose proof (align_le i).
  unfold set_bits. rewrite fmap_cons. cbn [concat].
  rewrite elem_of_app, (elem_of_node_set_bits _ _ Ha). fold (set_bits ns).
  rewrite (IH _ Hr). simpl. destruct (Z.eqb_spec (startbit a) (align i)) as [Heq|Hne].
  - rewrite (word_lo _ _ _ Hr), Z.bits_0, Heq by lia. intuition (done || lia).
  - split; [|auto]. intros [[??]|?]; [|done]. exfalso. apply Hne. symmetry.
    apply align_of; lia.
Qed.

Lemma set_bits_lower lo ns i : nodes_ok lo ns → i ∈ set_bits ns → lo ≤ i.
Proof.
  revert lo. induction ns as [|a ns IH]; intros lo Hok; [by intros ?%not_elem_of_nil|].
  destruct Hok as (?&Ha&Hr). unfold set_bits. rewrite fmap_cons. cbn [concat].
  rewrite elem_of_app, (elem_of_node_set_bits _ _ Ha). fold (set_bits ns).
  intros [[??]|Hin]; [lia|]. apply (IH _ Hr) in Hin. lia.
Qed.

Lemma seqZ_sorted k n : StronglySorted Z.lt (seqZ k n).
Proof.
  unfold seqZ. set (f := λ i : nat, Z.of_nat i + k).
  assert (∀ m s, StronglySorted Z.lt (f <$> seq s m)) as H; [|apply H].
  induction m as [|m IH]; intros s; simpl; constructor; [done|].
  apply Forall_fmap, Forall_forall. intros x Hx%elem_of_seq. unfold f. simpl. lia.
Qed.

Lemma sorted_filter (P : Z → Prop) `{∀ x, Decision (P x)} l :
  StronglySorted Z.lt l → StronglySorted Z.lt (filter P l).
Proof.
  induction 1 as [|x l Hl IH Hx]; [constructor|]. rewrite filter_cons. case_decide; [|done].
  constructor; [done|]. rewrite Forall_forall in *. intros y [_ Hy]%list_elem_of_filter. auto.
Qed.

Lemma sorted_shift c l : StronglySorted Z.lt l → StronglySorted Z.lt ((λ t, c + t) <$> l).
Proof.
  induction 1 as [|x l Hl IH Hx]; simpl; constructor; [done|].
  apply Forall_fmap. eapply Forall_impl; [done|]. simpl. lia.
Qed.

Lemma set_bits_sorted lo ns : nodes_ok lo ns → StronglySorted Z.lt (set_bits ns).
Proof.
  revert lo. induction ns as [|a ns IH]; intros lo Hok; [constructor|].
  destruct Hok as (?&Ha&Hr). unfold set_bits. rewrite fmap_cons. cbn [concat].
  apply sorted_app. split_and!; [|apply sorted_shift, sorted_filter, seqZ_sorted|by eapply IH].
  - intros x y Hx Hy. apply (elem_of_node_set_bits _ _ Ha) in Hx.
    apply (set_bits_lower _ _ _ Hr) in Hy. lia.
Qed.

(** The positive bits of a well-formed bitmap: the loop ends, and its body runs
    once on every set bit, in increasing order. *)
Lemma positive_bits_spec e :
  wf e → ∃ l, ebitmap_for_each_positive_bit e = Some l ∧ StronglySorted Z.lt l ∧
    ∀ i, i ∈ l ↔ ebitmap_get_bit e i = true.
Proof.
  intros Hwf. exists (set_bits (e_node e)). split; [by apply positive_bits_set_bits|].
  pose proof Hwf as [Hok _]. split; [by eapply set_bits_sorted|].
  intros i. by rewrite get_bit_word, (elem_of_set_bits 0) by done.
Qed.

(** ** Counting *)

Definition count_bits (n : nat) (x : Z) : nat :=
  length (filter (λ t, Z.testbit x t = true) (seqZ 0 (Z.of_nat n))).

Lemma count_bits_succ n x :
  count_bits (S n) x = ((if Z.odd x then 1 else 0) + count_bits n (Z.div2 x))%nat.
Proof.
  unfold count_bits. rewrite seqZ_cons by lia. rewrite filter_cons.
  replace (Z.pred (Z.of_nat (S n))) with (Z.of_nat n) by lia.
  assert (length (filter (λ t, Z.testbit x t = true) (seqZ (Z.succ 0) (Z.of_nat n))) =
          length (filter (λ t, Z.testbit (Z.div2 x) t = true) (seqZ 0 (Z.of_nat n)))) as Hl.
  { change (Z.succ 0) with (1 + 0). rewrite <- (fmap_add_seqZ 1 0).
    apply length_filter_fmap. intros t Ht%elem_of_seqZ.
    by rewrite Z.div2_spec, Z.shiftr_spec, Z.add_comm by lia. }
  rewrite Z.bit0_odd. destruct (Z.odd x); case_decide; simpl; (congruence || lia).
Qed.

Lemma popcountll_count n x : 0 ≤ x < 2 ^ Z.of_nat n → popcountll x = Z.of_nat (count_bits n x).
Proof.
  revert x. induction n as [|n IH]; intros x Hx.
  { assert (x = 0) as -> by (change (2 ^ Z.of_nat 0) with 1 in Hx; lia). done. }
  rewrite count_bits_succ. rewrite Nat2Z.inj_succ, Z.pow_succ_r in Hx by lia.
  assert (0 ≤ Z.div2 x < 2 ^ Z.of_nat n) as Hd
    by (rewrite Z.div2_div; pose proof (Z.div_mod x 2); pose proof (Z.mod_pos_bound x 2); lia).
  rewrite Nat2Z.inj_add, <- (IH _ Hd). by destruct x as [|[]|]; simpl; lia.
Qed.

Lemma length_set_bits_cons a ns :
  node_ok a →
  Z.of_nat (length (set_bits (a :: ns))) = popcountll (nmap a) + Z.of_nat (length (set_bits ns)).
Proof.
  intros (?&?&?&?). unfold set_bits. rewrite fmap_cons. cbn [concat]. rewrite length_app, Nat2Z.inj_add.
  f_equal. unfold node_set_bits. rewrite length_fmap.
  by rewrite (popcountll_count 64) by (change (Z.of_nat 64) with 64; lia).
Qed.

Lemma node_set_bits_le a : (length (node_set_bits a) ≤ 64)%nat.
Proof.
  unfold node_set_bits. rewrite length_fmap. etrans; [apply length_filter|].
  rewrite length_seqZ. lia.
Qed.

Lemma set_bits_le ns : (length (set_bits ns) ≤ 64 * length ns)%nat.
Proof.
  unfold set_bits. induction ns as [|a ns IH]; [done|]. rewrite fmap_cons. cbn [concat length].
  rewrite length_app. pose proof (node_set_bits_le a). lia.
Qed.

Lemma nodes_length lo ns : nodes_ok lo ns → 0 ≤ lo → lo + 64 * Z.of_nat (length ns) < 2 ^ 32 ∨ ns = [].
Proof.
  revert lo. induction ns as [|a ns IH]; intros lo; [auto|]. simpl. intros (?&(?&?&?&?)&Hr) ?. left.
  destruct (IH _ Hr) as [| ->]; [lia|lia|]. simpl. lia.
Qed.

Lemma cardinality_fold c ns lo :
  nodes_ok lo ns → 0 ≤ c → c + Z.of_nat (length (set_bits ns)) < 2 ^ 32 →
  foldl (λ count n, u32 (count + popcountll (nmap n))) c ns = c + Z.of_nat (length (set_bits ns)).
Proof.
  revert c lo. induction ns as [|a ns IH]; intros c lo; [simpl; lia|].
  intros (?&Ha&Hr) Hc. rewrite (length_set_bits_cons _ _ Ha). intros Hlt. simpl.
  assert (0 ≤ popcountll (nmap a)) by (destruct Ha as (?&?&?&?);
    rewrite (popcountll_count 64) by (change (Z.of_nat 64) with 64; lia); lia).
  unfold u32 at 2. rewrite Z.mod_small by lia. rewrite (IH _ _ Hr) by lia. lia.
Qed.

(** [ebitmap_cardinality] is the number of positive bits; the 32-bit counter
    does not wrap. *)
Lemma cardinality_spec e :
  wf e → ebitmap_cardinality e = Z.of_nat (length (set_bits (e_node e))).
Proof.
  intros [Hok _]. unfold ebitmap_cardinality. rewrite (cardinality_fold 0 _ 0); [lia|done..|].
  pose proof (set_bits_le (e_node e)). destruct (nodes_length _ _ Hok) as [| ->]; [lia|lia|done].
Qed.

(** Sorted lists with the same elements are equal. *)
Lemma sorted_lt_ext (l1 l2 : list Z) :
  StronglySorted Z.lt l1 → StronglySorted Z.lt l2 → (∀ i, i ∈ l1 ↔ i ∈ l2) → l1 = l2.
Proof.
  intros H1. revert l2. induction H1 as [|x l1 Hl1 IH Hx]; intros l2 H2 Hin.
  - destruct l2 as [|y l2]; [done|]. exfalso. eapply not_elem_of_nil, Hin. left.
  - destruct H2 as [|y l2 Hl2 Hy]; [exfalso; eapply not_elem_of_nil, Hin; left|].
    rewrite Forall_forall in Hx, Hy. assert (x = y) as ->.
    { assert (x ∈ y :: l2) as [->|Hxl]%elem_of_cons by (apply Hin; left); [done|].
      assert (y ∈ x :: l1) as [->|Hyl]%elem_of_cons by (apply Hin; left); [done|].
      specialize (Hx _ Hyl). specialize (Hy _ Hxl). lia. }
    f_equal. apply IH; [done|]. intros i. specialize (Hin i). rewrite !elem_of_cons in Hin.
    split; intros Hi.
    + destruct (proj1 Hin (or_intror Hi)) as [->|]; [|done]. specialize (Hx _ Hi). lia.
    + destruct (proj2 Hin (or_intror Hi)) as [->|]; [|done]. specialize (Hy _ Hi). lia.
Qed.

(** ** Ranges *)

(** The word at [s] of the interval [minbit..maxbit]. *)
Definition range_map (minbit maxbit minstart maxstart s : Z) : Z :=
  if negb (s =? minstart) && negb (s =? maxstart) then ones64
  else if negb (s =? maxstart) then u64 (Z.shiftl ones64 (minbit - s))
  else if negb (s =? minstart) then Z.shiftr ones64 (MAPSIZE - (maxbit - s + 1))
  else u64 (Z.shiftl (Z.shiftr ones64 (MAPSIZE - (maxbit - minbit + 1))) (minbit - s)).

Lemma ones64_testbit i : 0 ≤ i → Z.testbit ones64 i = (i <? 64).
Proof.
  intros. change ones64 with (Z.ones 64). by rewrite Z.testbit_ones_nonneg by lia.
Qed.

Lemma range_map_testbit minbit maxbit s i :
  0 ≤ minbit ≤ maxbit → s mod 64 = 0 → align minbit ≤ s ≤ align maxbit → 0 ≤ i < 64 →
  Z.testbit (range_map minbit maxbit (align minbit) (align maxbit) s) i =
    (minbit <=? s + i) && (s + i <=? maxbit).
Proof.
  intros Hr Hs Hsr Hi. pose proof (align_le minbit). pose proof (align_le maxbit).
  unfold range_map, u64, MAPSIZE. pose proof (mult64_lt s (align maxbit) Hs (align_mod _)).
  pose proof (mult64_lt (align minbit) s (align_mod _) Hs).
  destruct (Z.eqb_spec s (align minbit)), (Z.eqb_spec s (align maxbit)); simpl.
  - rewrite Z.mod_pow2_bits_low, Z.shiftl_spec by lia.
    destruct (decide (i < minbit - s)).
    + rewrite Z.testbit_neg_r by lia. by rewrite (proj2 (Z.leb_gt _ _)) by lia.
    + rewrite Z.shiftr_spec, ones64_testbit, (proj2 (Z.leb_le minbit _)) by lia. simpl.
      destruct (Z.ltb_spec (i - (minbit - s) + (64 - (maxbit - minbit + 1))) 64),
        (Z.leb_spec (s + i) maxbit); lia || done.
  - rewrite Z.mod_pow2_bits_low, Z.shiftl_spec by lia.
    rewrite (proj2 (Z.leb_le (s + i) maxbit)), andb_true_r by lia.
    destruct (decide (i < minbit - s)).
    + rewrite Z.testbit_neg_r by lia. by rewrite (proj2 (Z.leb_gt _ _)) by lia.
    + rewrite ones64_testbit by lia. by rewrite (proj2 (Z.ltb_lt _ _)), (proj2 (Z.leb_le _ _)) by lia.
  - rewrite Z.shiftr_spec, ones64_testbit by lia.
    rewrite (proj2 (Z.leb_le minbit _)) by lia. simpl.
    destruct (Z.ltb_spec (i + (64 - (maxbit - s + 1))) 64), (Z.leb_spec (s + i) maxbit); lia || done.
  - rewrite ones64_testbit by lia.
    by rewrite (proj2 (Z.ltb_lt _ _)), !(proj2 (Z.leb_le _ _)) by lia.
Qed.

Lemma range_map_bound minbit maxbit minstart maxstart s :
  0 ≤ minbit ≤ maxbit → maxbit < maxstart + 64 → maxbit < s + 64 ∨ s ≠ maxstart →
  minbit - s < 64 →
  0 ≤ range_map minbit maxbit minstart maxstart s < 2 ^ 64.
Proof.
  intros ??? ?. unfold range_map, u64.
  repeat case_match; try (by apply Z.mod_pos_bound); [done|].
  unfold MAPSIZE. assert (s = maxstart) as ->.
  { destruct (Z.eqb_spec s maxstart); [done|]. destruct (Z.eqb_spec s minstart); simpl in *; done. }
  rewrite Z.shiftr_div_pow2 by lia. assert (0 < 2 ^ (64 - (maxbit - maxstart + 1))) by (apply Z.pow_pos_nonneg; lia).
  unfold ones64. split; [apply Z.div_pos; lia|].
  apply Z.div_lt_upper_bound; nia.
Qed.

Definition range_words (minbit maxbit s : Z) (ns : list ebitmap_node) : Prop :=
  nodes_ok s ns ∧
  ∀ t, word ns t =
    if (s <=? t) && (t <=? align maxbit) && (t mod 64 =? 0)
    then range_map minbit maxbit (align minbit) (align maxbit) t else 0.

Lemma range_node_ok minbit maxbit s :
  0 ≤ minbit ≤ maxbit → s mod 64 = 0 → align minbit ≤ s ≤ align maxbit →
  align maxbit + 64 < 2 ^ 32 →
  node_ok (Node s (range_map minbit maxbit (align minbit) (align maxbit) s)).
Proof.
  intros Hr Hs Hsr Hmax. pose proof (align_le minbit). pose proof (align_le maxbit).
  assert (0 ≤ align minbit) by (unfold align; pose proof (Z.div_pos minbit 64); lia).
  assert (0 ≤ range_map minbit maxbit (align minbit) (align maxbit) s < 2 ^ 64) as Hb.
  { apply range_map_bound; lia. }
  assert (range_map minbit maxbit (align minbit) (align maxbit) s ≠ 0) as Hnz.
  { intros Hz. pose proof (range_map_testbit minbit maxbit s (Z.max minbit s - s) Hr Hs Hsr) as Ht.
    pose proof (mult64_lt s (align maxbit) Hs (align_mod _)).
    pose proof (mult64_lt (align minbit) s (align_mod _) Hs).
    rewrite Hz, Z.bits_0, !(proj2 (Z.leb_le _ _)) in Ht by lia. discriminate Ht. lia. }
  repeat split; cbn [startbit nmap]; lia || done.
Qed.

Lemma init_range_loop_spec fuel minbit maxbit s h :
  0 ≤ minbit ≤ maxbit → s mod 64 = 0 → align minbit ≤ s ≤ align maxbit + 64 →
  align maxbit + 64 < 2 ^ 32 → (0 < fuel)%nat → align maxbit < s + 64 * (Z.of_nat fuel - 1) →
  wp (ebitmap_init_range_loop fuel minbit maxbit (align minbit) (align maxbit) s) h (λ r h',
    heap_le h h' ∧ if r.1 then range_words minbit maxbit s r.2 else hp_oom h ≠ []).
Proof.
  intros Hr. revert s h. induction fuel as [|fuel IH]; intros s h Hs Hsr Hmax Hf Hfuel; [lia|].
  simpl. destruct (Z.leb_spec s (align maxbit)) as [Hle|Hgt]; cycle 1.
  { split; [done|]. split; [done|]. intros t. simpl.
    destruct (Z.leb_spec s t); simpl; [|done]. by rewrite (proj2 (Z.leb_gt _ _)) by lia. }
  do 2 wp_step; [by split|].
  assert (0 ≤ s) by (assert (0 ≤ align minbit) by (unfold align; pose proof (Z.div_pos minbit 64); lia); lia).
  assert (u32 (s + MAPSIZE) = s + 64) as -> by (unfold u32, MAPSIZE; rewrite Z.mod_small; lia).
  wp_step. eapply wp_mono.
  { apply (IH (s + 64)); try (done || lia). by apply mod64_add. }
  intros [ok ns] h'' [Hle' Hok]. wp_step. split; [by etrans|]. simpl in Hok |- *.
  destruct ok; [|by eapply heap_le_oom].
  destruct Hok as [Hok Hw]. change (range_words minbit maxbit s
    (Node s (range_map minbit maxbit (align minbit) (align maxbit) s) :: ns)).
  split; [split_and!; [simpl; lia|apply range_node_ok; done || lia|done]|]. intros t. simpl.
  destruct (Z.eqb_spec s t) as [<-|Hne].
  - by rewrite Hs, !(proj2 (Z.leb_le _ _)) by lia.
  - rewrite Hw. destruct (Z.eqb_spec (t mod 64) 0) as [Ht|]; rewrite ?andb_false_r; [|done].
    pose proof (mult64_lt s t Hs Ht).
    by destruct (Z.leb_spec (s + 64) t), (Z.leb_spec s t); simpl; lia || done.
Qed.

(** [ebitmap_init_range]: the interval, or one of its three errors.  After a
    failed allocation [highbit] is still 0. *)
Lemma init_range_spec minbit maxbit h :
  0 ≤ minbit < 2 ^ 32 → 0 ≤ maxbit < 2 ^ 32 →
  wp (ebitmap_init_range minbit maxbit) h (λ r h', heap_le h h' ∧
    ((r.1 = 0 ∧ minbit ≤ maxbit < 2 ^ 32 - 64 ∧ wf r.2 ∧
      ∀ i, 0 ≤ i < 2 ^ 32 → ebitmap_get_bit r.2 i = (minbit <=? i) && (i <=? maxbit)) ∨
     (r = (- EINVAL, ebitmap_init) ∧ maxbit < minbit) ∨
     (r = (- EOVERFLOW, ebitmap_init) ∧ minbit ≤ maxbit ∧ 2 ^ 32 - 64 ≤ maxbit) ∨
     (r.1 = - ENOMEM ∧ e_highbit r.2 = 0 ∧ hp_oom h ≠ []))).
Proof.
  intros Hmin Hmax. unfold ebitmap_init_range. rewrite !align_land by done.
  rewrite Z.gtb_ltb. destruct (Z.ltb_spec maxbit minbit); [split; [done|auto]|].
  pose proof (align_le minbit). pose proof (align_le maxbit).
  pose proof (align_mono minbit maxbit).
  assert (0 ≤ align minbit) by (unfold align; pose proof (Z.div_pos minbit 64); lia).
  destruct (decide (maxbit < 2 ^ 32 - 64)) as [Hb|Hb]; cycle 1.
  { assert (align maxbit = 2 ^ 32 - 64) as -> by (apply align_of; [done|lia]).
    change (u32 (2 ^ 32 - 64 + MAPSIZE)) with 0. rewrite orb_true_r.
    split; [done|]. right. right. left. split; [done|lia]. }
  pose proof (mult64_lt (align maxbit) (2 ^ 32 - 64) (align_mod _) eq_refl).
  assert (∀ b, 0 ≤ b ≤ align maxbit → u32 (b + MAPSIZE) = b + 64) as Hu
    by (intros; unfold u32, MAPSIZE; rewrite Z.mod_small; lia).
  rewrite !Hu by lia. rewrite !(proj2 (Z.eqb_neq _ 0)) by lia. simpl.
  wp_step. eapply wp_mono.
  { apply init_range_loop_spec; try (done || lia); [apply align_mod|..];
      unfold MAPSIZE; pose proof (Z.div_mod (align maxbit - align minbit) 64);
      pose proof (Z.mod_pos_bound (align maxbit - align minbit) 64);
      pose proof (Z.div_pos (align maxbit - align minbit) 64); lia. }
  intros [ok ns] h' [Hle Hok]. simpl in Hok. destruct ok; (split; [done|]); simpl; [left|by right; right; right].
  destruct Hok as [Hok Hw]. split; [done|]. split; [lia|].
  assert (wf (Ebitmap ns (align maxbit + 64))) as Hwf.
  { split; [by eapply nodes_ok_weaken; [|done]; lia|]. symmetry. eapply high_of_unique; [done| |].
    - cbn [e_highbit]. intros t Ht. rewrite Hw, (proj2 (Z.leb_gt t _)), andb_false_r by lia. done.
    - cbn [e_highbit e_node]. rewrite Hw. replace (align maxbit + 64 - 64) with (align maxbit) by lia.
      rewrite align_mod, !(proj2 (Z.leb_le _ _)) by lia. simpl.
      destruct (range_node_ok minbit maxbit (align maxbit)) as (?&?&?&?); try lia; [apply align_mod|].
      cbn [nmap] in *. lia. }
  split; [done|]. intros i Hi. rewrite get_bit_word by done. simpl. rewrite Hw, align_mod, andb_true_r.
  pose proof (align_le i).
  destruct (Z.leb_spec (align minbit) (align i)), (Z.leb_spec (align i) (align maxbit)); simpl;
    [|rewrite Z.bits_0; symmetry; apply andb_false_iff..].
  - rewrite range_map_testbit by (done || lia || apply align_mod). f_equal; f_equal; lia.
  - right. apply Z.leb_gt. pose proof (align_mono i maxbit). lia.
  - left. apply Z.leb_gt. pose proof (align_mono minbit i). lia.
  - lia.
Qed.

(** ** The highest bit *)

Lemma highest_pos_spec fuel m pos :
  0 < m < 2 ^ (Z.of_nat fuel + 1) → highest_pos fuel m pos = pos + Z.log2 m.
Proof.
  revert m pos. induction fuel as [|fuel IH]; intros m pos Hm.
  { assert (m = 1) as -> by (change (2 ^ (Z.of_nat 0 + 1)) with 2 in Hm; lia). simpl. lia. }
  rewrite Nat2Z.inj_succ, Z.add_succ_l, Z.pow_succ_r in Hm by lia.
  simpl. rewrite Z.shiftr_div_pow2 by lia. change (2 ^ 1) with 2. unfold nz.
  pose proof (Z.div_mod m 2). pose proof (Z.mod_pos_bound m 2).
  destruct (Z.eqb_spec (m / 2) 0) as [Hz|Hnz]; simpl.
  - assert (m = 1) as -> by lia. simpl. lia.
  - pose proof (Z.div_pos m 2). rewrite IH by lia.
    pose proof (Z.log2_shiftr m 1) as Hl. rewrite Z.shiftr_div_pow2 in Hl by lia.
    change (2 ^ 1) with 2 in Hl. pose proof (Z.log2_le_mono 2 m) as H2.
    change (Z.log2 2) with 1 in H2. lia.
Qed.

Lemma last_node_ok lo ns n : nodes_ok lo ns → last ns = Some n → node_ok n ∧ high_of ns = startbit n + 64.
Proof.
  revert lo. induction ns as [|a [|b r] IH]; intros lo Hok Hl; [done|..].
  - injection Hl as <-. destruct Hok as (? & Hn & _). split; [done|]. destruct Hn as (? & ? & ? & ?).
    unfold high_of, u32, MAPSIZE. simpl. rewrite Z.mod_small; lia.
  - destruct Hok as (? & ? & Hok). rewrite high_of_cons. by eapply IH.
Qed.

Lemma last_word lo ns n : nodes_ok lo ns → last ns = Some n → word ns (startbit n) = nmap n.
Proof.
  revert lo. induction ns as [|a [|b r] IH]; intros lo Hok Hl; [done|..].
  - injection Hl as <-. by eapply word_head.
  - pose proof (high_of_cons a (b :: r)). destruct Hok as (? & ? & Hok).
    destruct (last_node_ok _ _ _ Hok Hl) as [Hn _].
    rewrite <- (IH _ Hok Hl). simpl. destruct (Z.eqb_spec (startbit a) (startbit n)) as [He|]; [|done].
    assert (word (b :: r) (startbit n) ≠ 0) as Hz.
    { rewrite (IH _ Hok Hl). destruct Hn as (?&?&?&?). lia. }
    apply (word_nonzero_node _ _ _ Hok) in Hz. lia.
Qed.

(** [ebitmap_highest_set_bit] is the largest bit of a non-empty bitmap. *)
Lemma highest_set_bit_spec e :
  wf e → e_node e ≠ [] →
  0 ≤ ebitmap_highest_set_bit e < 2 ^ 32 ∧
  ebitmap_get_bit e (ebitmap_highest_set_bit e) = true ∧
  ∀ i, ebitmap_highest_set_bit e < i < 2 ^ 32 → ebitmap_get_bit e i = false.
Proof.
  intros Hwf Hne. unfold ebitmap_highest_set_bit.
  destruct (last (e_node e)) as [n|] eqn:Hl; [|by apply last_None in Hl].
  destruct Hwf as [Hok Hh]. destruct (last_node_ok _ _ _ Hok Hl) as [Hn Hhi].
  pose proof Hn as (? & Hmod & ? & ?).
  rewrite highest_pos_spec by (change (Z.of_nat 64 + 1) with 65; lia).
  pose proof (Z.log2_spec (nmap n)) as Hlog. pose proof (Z.log2_lt_pow2 (nmap n) 64).
  pose proof (Z.log2_nonneg (nmap n)).
  assert (u32 (startbit n + (0 + Z.log2 (nmap n))) = startbit n + Z.log2 (nmap n)) as ->
    by (unfold u32; rewrite Z.mod_small; lia).
  assert (∀ i, startbit n ≤ i < startbit n + 64 →
    ebitmap_get_bit e i = Z.testbit (nmap n) (i - startbit n)) as Hbit.
  { intros i Hi. rewrite get_bit_word by done.
    rewrite (align_of (startbit n) i), (last_word _ _ _ Hok Hl) by (done || lia). done. }
  split; [lia|]. split.
  - rewrite Hbit by lia. replace (startbit n + _ - _) with (Z.log2 (nmap n)) by lia.
    apply Z.bit_log2. lia.
  - intros i Hi. destruct (decide (i < startbit n + 64)).
    + rewrite Hbit by lia. apply Z.bits_above_log2; lia.
    + destruct (ebitmap_get_bit e i) eqn:Hg; [|done].
      apply get_bit_range in Hg; [|done]. lia.
Qed.
