(* ===== verification/EbitmapIO.v ===== *)
(** * Reading and writing extensible bitmaps

    [ebitmap_read] accepts only images of well-formed bitmaps and never reads
    outside the file; it inverts [ebitmap_write]. *)

From S2P Require Import Prelude PolicyFile Ebitmap EbitmapFacts.

Lemma nodes_ok_forall lo ns : nodes_ok lo ns → Forall node_ok ns.
Proof.
  revert lo. induction ns as [|n r IH]; intros lo; [done|]. intros (? & ? & ?). constructor; eauto.
Qed.

Lemma nodes_ok_snoc lo ns n :
  nodes_ok lo ns → node_ok n →
  match last ns with Some p => startbit p + 64 | None => lo end ≤ startbit n →
  nodes_ok lo (ns ++ [n]).
Proof.
  revert lo. induction ns as [|a [|b r] IH]; intros lo Hok Hn Hl.
  - by split_and!.
  - destruct Hok as (? & ? & _). by split_and!.
  - destruct Hok as (? & ? & Hok). split_and!; [done..|]. apply (IH _ Hok Hn).
    rewrite last_cons_cons in Hl. destruct (last (b :: r)) eqn:E; [done|]. by apply last_None in E.
Qed.

(** The conditions [ebitmap_read] checks make the node well-formed. *)
Lemma read_node_ok s m highbit :
  0 ≤ s → 0 ≤ m < 2 ^ 64 → 64 ≤ highbit < 2 ^ 32 → nz (Z.land s (MAPSIZE - 1)) = false →
  (s >? u64 (highbit - MAPSIZE)) = false → (m =? 0) = false → node_ok (Node s m).
Proof.
  intros Hs Hm Hh Hal Hle Hnz. unfold nz in Hal. apply negb_false_iff, Z.eqb_eq in Hal.
  change (MAPSIZE - 1) with (Z.ones 6) in Hal. rewrite Z.land_ones in Hal by lia.
  unfold u64, MAPSIZE in Hle. rewrite Z.mod_small in Hle by lia.
  apply Z.eqb_neq in Hnz. rewrite Z.gtb_ltb in Hle. apply Z.ltb_ge in Hle.
  repeat split; cbn [startbit nmap]; try lia; done.
Qed.

Definition read_result (highbit : Z) (r : Z * list ebitmap_node * policy_file) : Prop :=
  (r.1.1 = 0 ∧ nodes_ok 0 r.1.2 ∧ high_of r.1.2 = highbit ∧ file_ok r.2) ∨ (r.1.1 < 0 ∧ r.1.2 = []).

Lemma read_loop_spec fuel fp highbit i count l acc h :
  64 ≤ highbit < 2 ^ 32 → readable fp → Forall is_byte (pf_data fp) →
  nodes_ok 0 acc → last acc = l → (l = None → i < count) →
  (length (pf_data fp) < fuel)%nat →
  wp (ebitmap_read_loop fuel fp highbit i count l acc) h (λ r _, read_result highbit r).
Proof.
  intros Hh. revert fp i l acc h.
  induction fuel as [|fuel IH]; intros fp i l acc h Hr Hby Hok Hl Hne Hf; [lia|]. simpl.
  destruct (Z.ltb_spec i count) as [Hlt|Hge]; cycle 1.
  { destruct l as [p|]; [|specialize (Hne eq_refl); lia].
    destruct (Z.eqb_spec (startbit p + MAPSIZE) highbit) as [He|]; simpl; [left|by right].
    split_and!; [done..| |done]. cbn [fst snd]. unfold high_of. rewrite Hl. unfold u32. rewrite Z.mod_small; lia. }
  wp_step. apply wp_next_entry; [done|lia| |by right]. intros Hn1. simpl.
  wp_step. apply wp_malloc; intros h' _ _; [by right|].
  case_match; [by right|]. case_match; [by right|].
  assert (readable (pf_advance 4 fp)) as Hr1 by (apply readable_advance; [done|lia]).
  wp_step. apply wp_next_entry; [done|lia| |by right]. intros Hn2. simpl.
  case_match eqn:Hm; [by right|]. case_match eqn:Hlast; [by right|].
  change (Z.to_nat 4) with 4%nat in *. change (Z.to_nat 8) with 8%nat in *.
  assert (Forall is_byte (drop 4 (pf_data fp))) as Hby1 by by apply Forall_drop.
  pose proof (le_val_take 4 _ Hby). pose proof (le_val_take 8 _ Hby1).
  assert (node_ok (Node (le_val (take 4 (pf_data fp))) (le_val (take 8 (drop 4 (pf_data fp)))))) as Hn
    by (eapply read_node_ok; done || lia).
  simpl in Hn2. rewrite length_drop in Hn2.
  apply IH; [apply readable_advance; [done|simpl; rewrite ?length_drop; lia]|by apply Forall_drop| |..].
  - apply nodes_ok_snoc; [done..|]. rewrite Hl. cbn [startbit].
    destruct l as [p|]; [|lia]. apply Z.leb_gt in Hlast.
    apply last_Some in Hl as [acc' ->]. destruct Hn as (_ & Hmod & _). cbn [startbit] in Hmod.
    apply nodes_ok_forall, Forall_app in Hok as [_ Hok].
    apply Forall_singleton in Hok as (_ & Hp & _).
    pose proof (mult64_lt (startbit p) (le_val (take 4 (pf_data fp)))). lia.
  - apply last_snoc.
  - done.
  - simpl. rewrite !length_drop. lia.
Qed.

(** [ebitmap_read] on any file: it terminates, stays inside the file, and either
    delivers a well-formed bitmap or fails and leaves an empty one. *)
Lemma read_spec fp h :
  readable fp → Forall is_byte (pf_data fp) →
  wp (ebitmap_read fp) h (λ r _,
    (r.1.1 = 0 ∧ wf r.1.2 ∧ file_ok r.2) ∨ (r.1.1 < 0 ∧ r.1.2 = ebitmap_init)).
Proof.
  intros Hr Hby. unfold ebitmap_read. wp_step.
  apply wp_next_entry; [done|lia| |by right]. intros Hn. cbn beta iota zeta.
  case_match; [by right|]. assert (file_ok (pf_advance (Z.to_nat 12) fp)) as Hf1.
  { split; [apply readable_advance; [done|lia]|by apply Forall_drop]. }
  case_match eqn:Hz; [left; split; [done|split; [apply wf_init|done]]|].
  case_match eqn:Hal; [by right|]. case_match eqn:Hc; [by right|]. wp_step.
  assert (Forall is_byte (take (Z.to_nat 12) (pf_data fp))) as Hby' by by apply Forall_take.
  eapply wp_mono; [apply read_loop_spec|].
  - pose proof (le_val_take 4 _ (Forall_drop _ 4 _ Hby')) as Hb.
    unfold nz in Hal. apply negb_false_iff, Z.eqb_eq in Hal.
    change (MAPSIZE - 1) with (Z.ones 6) in Hal. rewrite Z.land_ones in Hal by lia.
    change (2 ^ 6) with 64 in Hal.
    match type of Hal with ?x mod 64 = 0 => set (hb := x) in * end.
    apply Z.eqb_neq in Hz. pose proof (mult64_lt 0 hb eq_refl Hal). change (256 ^ Z.of_nat 4) with (2 ^ 32) in Hb. lia.
  - apply readable_advance; [done|lia].
  - by apply Forall_drop.
  - done.
  - done.
  - intros _. apply Z.eqb_neq in Hc.
    pose proof (le_val_take 4 _ (Forall_drop _ 8 _ Hby')). lia.
  - lia.
  - intros [[rc ns] fp'] h' [(Hrc & Hok & Hhi & Hf')|[Hrc Hns]]; simpl in *; unfold nz.
    + rewrite Hrc. simpl. left. split_and!; [done|by split|done].
    + destruct (Z.eqb_spec rc 0); [lia|]. simpl. by right.
Qed.

(** ** The image of a bitmap *)

Definition node_bytes (n : ebitmap_node) : list Z := le_bytes 4 (startbit n) ++ le_bytes 8 (nmap n).

Definition ebitmap_bytes (e : ebitmap) : list Z :=
  concat [le_bytes 4 MAPSIZE; le_bytes 4 (e_highbit e);
          le_bytes 4 (Z.of_nat (length (e_node e)))] ++
  concat (node_bytes <$> e_node e).

Lemma nodes_ok_length lo ns : nodes_ok lo ns → ns ≠ [] → lo + 64 * Z.of_nat (length ns) ≤ high_of ns.
Proof.
  revert lo. induction ns as [|a [|b r] IH]; intros lo Hok Hne; [done|..].
  - destruct (high_of_spec _ _ Hok Hne). simpl. lia.
  - destruct Hok as (? & ? & Hok). rewrite high_of_cons. specialize (IH _ Hok). simpl in *. 
    assert (b :: r ≠ []) as Hne' by done. specialize (IH Hne'). lia.
Qed.

Lemma wf_length e : wf e → Z.of_nat (length (e_node e)) < 2 ^ 32.
Proof.
  intros [Hok _]. destruct (e_node e) as [|a r] eqn:E; [done|].
  assert (a :: r ≠ []) as Hne by done.
  pose proof (nodes_ok_length _ _ Hok Hne). destruct (high_of_spec _ _ Hok Hne). lia.
Qed.

Lemma length_node_bytes ns : length (concat (node_bytes <$> ns)) = (12 * length ns)%nat.
Proof.
  induction ns as [|n r IH]; [done|]. cbn [fmap list_fmap concat]. unfold node_bytes at 1.
  rewrite !length_app, IH, !length_le_bytes. simpl. lia.
Qed.

Lemma pf_append_app a b fp : pf_append b (pf_append a fp) = pf_append (a ++ b) fp.
Proof. unfold pf_append; simpl. rewrite length_app, app_assoc. f_equal. lia. Qed.

Lemma pf_append_nil fp : pf_append [] fp = fp.
Proof. destruct fp. unfold pf_append; simpl. rewrite app_nil_r. f_equal. lia. Qed.

(** One field of one item. *)
Lemma wp_put_field n x fp h Q :
  (0 < n)%nat → room (Z.of_nat n) fp → Q (1, pf_append (le_bytes n x) fp) h →
  wp (put_entry [le_bytes n x] (Z.of_nat n) fp) h Q.
Proof.
  intros Hn Hr HQ. apply wp_put_entry; [lia| |by rewrite Z.mul_1_r|].
  - constructor; [by rewrite length_le_bytes|done].
  - simpl. by rewrite app_nil_r.
Qed.

Lemma write_loop_spec ns fp h :
  room (12 * Z.of_nat (length ns)) fp →
  wp (ebitmap_write_loop ns fp) h (λ r h',
    r = (POLICYDB_SUCCESS, pf_append (concat (node_bytes <$> ns)) fp)).
Proof.
  revert fp h. induction ns as [|n r IH]; intros fp h Hr; [simpl; by rewrite pf_append_nil|].
  cbn [ebitmap_write_loop length] in *. wp_step.
  apply (wp_put_field 4); [lia|by eapply room_le; [done|lia]|]. cbn [Z.eqb negb]. simpl.
  wp_step. pose proof (room_append _ (le_bytes 4 (startbit n)) _ Hr) as Hr1.
  rewrite length_le_bytes in Hr1.
  apply (wp_put_field 8); [lia|by eapply room_le; [done|lia]|]. simpl.
  rewrite pf_append_app. eapply wp_mono; [apply IH|].
  - pose proof (room_append _ (node_bytes n) _ Hr) as Hr2. unfold node_bytes in Hr2.
    rewrite length_app, !length_le_bytes in Hr2. eapply room_le; [done|lia].
  - intros a h' ->. by rewrite pf_append_app.
Qed.

(** [ebitmap_write] into a file with enough room appends the image. *)
Lemma write_spec e fp h :
  wf e → room (12 + 12 * Z.of_nat (length (e_node e))) fp →
  wp (ebitmap_write e fp) h (λ r _, r = (POLICYDB_SUCCESS, pf_append (ebitmap_bytes e) fp)).
Proof.
  intros Hwf Hr. unfold ebitmap_write, u32. pose proof (wf_length e Hwf).
  rewrite Z.mod_small by lia. wp_step. apply wp_put_entry; [done| |by eapply room_le; [done|simpl; lia]|].
  { repeat constructor; by rewrite length_le_bytes. }
  pose proof (room_append _ (concat [le_bytes 4 MAPSIZE; le_bytes 4 (e_highbit e);
          le_bytes 4 (Z.of_nat (length (e_node e)))]) _ Hr) as Hr1.
  cbn [concat] in Hr1. rewrite !length_app, !length_le_bytes in Hr1.
  cbn [length Z.of_nat Pos.of_succ_nat Pos.succ Z.eqb Pos.eqb negb].
  eapply wp_mono; [apply write_loop_spec|].
  - eapply room_le; [done|]. simpl. lia.
  - intros a h' ->. by rewrite pf_append_app.
Qed.

Lemma high_of_snoc ns n : node_ok n → high_of (ns ++ [n]) = startbit n + 64.
Proof.
  intros (? & ? & ? & ?). unfold high_of. rewrite last_snoc. unfold u32, MAPSIZE.
  rewrite Z.mod_small; lia.
Qed.

Lemma nodes_ok_app lo acc ns :
  nodes_ok lo (acc ++ ns) →
  nodes_ok (match last acc with Some p => startbit p + 64 | None => lo end) ns.
Proof.
  revert lo. induction acc as [|a [|b r] IH]; intros lo Hok; [done|..].
  - by destruct Hok as (? & ? & ?).
  - destruct Hok as (? & ? & Hok). rewrite last_cons_cons. specialize (IH _ Hok).
    destruct (last (b :: r)) eqn:E; [done|]. by apply last_None in E.
Qed.

(** What the nodes around [n] say about it. *)
Lemma nodes_ok_mid acc n ns :
  nodes_ok 0 (acc ++ n :: ns) →
  node_ok n ∧ startbit n + 64 ≤ high_of (acc ++ n :: ns) < 2 ^ 32 ∧
  match last acc with Some p => startbit n <=? startbit p | None => false end = false.
Proof.
  intros Hok%nodes_ok_app. pose proof Hok as (Hlo & Hn & Hrest). split; [done|].
  assert (high_of (acc ++ n :: ns) = high_of (n :: ns)) as ->
    by (unfold high_of; by rewrite last_app_cons).
  assert (nodes_ok (startbit n) (n :: ns)) as Hok' by (split_and!; done || lia).
  destruct (high_of_spec _ _ Hok') as (? & _); [done|]. split; [done|].
  destruct (last acc); [|done]. apply Z.leb_gt. lia.
Qed.

Lemma node_ok_checks n highbit :
  node_ok n → startbit n + 64 ≤ highbit < 2 ^ 32 →
  nz (Z.land (startbit n) (MAPSIZE - 1)) = false ∧
  (startbit n >? u64 (highbit - MAPSIZE)) = false ∧ (nmap n =? 0) = false.
Proof.
  intros (? & Hm & ? & ?) Hh. unfold nz, u64. change (MAPSIZE - 1) with (Z.ones 6).
  rewrite Z.land_ones by lia. change (2 ^ 6) with 64. rewrite Hm, Z.gtb_ltb. unfold MAPSIZE.
  rewrite Z.mod_small by lia. split_and!; [done|apply Z.ltb_ge; lia|apply Z.eqb_neq; lia].
Qed.

Lemma read_loop_image fuel fp highbit i count acc ns rest h :
  hp_oom h = [] → readable fp → pf_data fp = concat (node_bytes <$> ns) ++ rest →
  nodes_ok 0 (acc ++ ns) → high_of (acc ++ ns) = highbit →
  count = i + Z.of_nat (length ns) → (length ns < fuel)%nat →
  wp (ebitmap_read_loop fuel fp highbit i count (last acc) acc) h
    (λ r _, r.1 = (0, acc ++ ns) ∧ pf_data r.2 = rest ∧ readable r.2).
Proof.
  revert fp i acc ns h. induction fuel as [|fuel IH]; intros fp i acc ns h Ho Hr Hd Hok Hh Hc Hf; [lia|].
  cbn [ebitmap_read_loop]. destruct ns as [|n ns].
  { rewrite (proj2 (Z.ltb_ge _ _)) by (simpl in Hc; lia). simpl in Hd. rewrite app_nil_r in *.
    destruct (last acc) as [p|] eqn:Hl; [|done]. apply last_Some in Hl as [acc' ->].
    pose proof (nodes_ok_forall _ _ Hok) as [_ Hp]%Forall_app. rewrite Forall_singleton in Hp.
    rewrite <- Hh, high_of_snoc by done. unfold MAPSIZE. rewrite Z.eqb_refl. done. }
  cbn [length] in Hc, Hf. rewrite (proj2 (Z.ltb_lt _ _)) by lia.
  destruct (nodes_ok_mid _ _ _ Hok) as (Hn & Hle & Hlast). rewrite Hh in Hle.
  destruct (node_ok_checks n highbit Hn Hle) as (C1 & C2 & C3). destruct Hn as (? & ? & ? & ?).
  cbn [fmap list_fmap concat] in Hd. unfold node_bytes at 1 in Hd. rewrite <- !app_assoc in Hd.
  wp_step. eapply wp_next_bytes; [done|lia|done|done|]. intros Hd1 Hr1. cbn beta iota zeta.
  wp_step. apply wp_malloc_ok; [done|]. intros h1 Ho1.
  rewrite (le_val_bytes_small 4 (startbit n)) by (simpl; lia). rewrite C1, C2.
  wp_step. eapply wp_next_bytes; [done|lia|done|done|]. intros Hd2 Hr2. cbn beta iota zeta.
  rewrite (le_val_bytes_small 8 (nmap n)) by (simpl; lia). rewrite C3, Hlast.
  rewrite <- (last_snoc (Node (startbit n) (nmap n)) acc).
  replace (acc ++ n :: ns) with ((acc ++ [n]) ++ ns) in * by by rewrite <- app_assoc.
  destruct n as [s m]. cbn [startbit nmap] in *.
  eapply IH; done || lia.
Qed.

(** The three header fields. *)
Lemma header_fields a b c :
  let buf := le_bytes 4 a ++ le_bytes 4 b ++ le_bytes 4 c in
  take 4 buf = le_bytes 4 a ∧ take 4 (drop 4 buf) = le_bytes 4 b ∧ take 4 (drop 8 buf) = le_bytes 4 c.
Proof. done. Qed.

(** [ebitmap_read] reads an image back and leaves the position behind it. *)
Lemma read_image e fp rest h :
  hp_oom h = [] → readable fp → wf e → pf_data fp = ebitmap_bytes e ++ rest →
  wp (ebitmap_read fp) h (λ r _, r.1 = (0, e) ∧ pf_data r.2 = rest ∧ readable r.2).
Proof.
  intros Ho Hr Hwf Hd. pose proof (wf_length e Hwf) as Hlen. destruct Hwf as [Hok Hh].
  unfold ebitmap_read, ebitmap_bytes in *. rewrite <- app_assoc in Hd.
  wp_step. eapply wp_next_bytes; [done|lia|done|done|]. intros Hd1 Hr1.
  assert (0 ≤ e_highbit e < 2 ^ 32 ∧ (e_highbit e = 0 ↔ e_node e = [])) as [Hb He].
  { rewrite Hh. destruct (decide (e_node e = [])) as [->|Hne]; [done|].
    destruct (high_of_spec _ _ Hok Hne). split; [lia|]. split; [lia|done]. }
  change (concat [le_bytes 4 MAPSIZE; le_bytes 4 (e_highbit e);
    le_bytes 4 (Z.of_nat (length (e_node e)))]) with
    (le_bytes 4 MAPSIZE ++ le_bytes 4 (e_highbit e) ++
     le_bytes 4 (Z.of_nat (length (e_node e)))).
  cbn beta iota zeta. destruct (header_fields MAPSIZE (e_highbit e)
    (Z.of_nat (length (e_node e)))) as (-> & -> & ->).
  rewrite !le_val_bytes_small by (simpl; unfold MAPSIZE; lia).
  rewrite Z.eqb_refl. cbn [negb].
  destruct (Z.eqb_spec (e_highbit e) 0) as [Hz|Hnz].
  { apply He in Hz as Hnil. rewrite Hnil in Hd1. destruct e as [ns hb]; cbn in *; subst. done. }
  unfold nz at 1. change (MAPSIZE - 1) with (Z.ones 6). rewrite Z.land_ones by lia.
  change (2 ^ 6) with 64. rewrite Hh at 1. rewrite (high_of_mod _ _ Hok). cbn [Z.eqb negb].
  assert (length (e_node e) ≠ 0%nat) as Hl by (rewrite length_zero_iff_nil; tauto).
  rewrite (proj2 (Z.eqb_neq _ 0)) by lia. wp_step. eapply wp_mono.
  { apply (read_loop_image _ _ _ _ _ [] (e_node e) rest); try (done || lia).
    rewrite Hd1, length_app, length_node_bytes. lia. }
  intros [[rc ns] fp'] h' (Heq & ? & ?). injection Heq as -> ->. simpl. by destruct e.
Qed.
