(* ===== verification/EbitmapSpec.v ===== *)
(** * What extensible bitmaps promise

    A well-formed bitmap stands for the set of the bits below 2^32 that
    [ebitmap_get_bit] finds.  The theorems of this file state every operation of
    [src/ebitmap.c] on that set. *)

From S2P Require Import Prelude PolicyFile Ebitmap EbitmapFacts EbitmapIter EbitmapIO.

(** The bitmap with the bits [l] set, one [ebitmap_set_bit] after the other. *)
Fixpoint of_bits (l : list Z) : ebitmap :=
  match l with
  | [] => ebitmap_init
  | b :: l =>
     match ebitmap_set_bit (of_bits l) b true (Heap 0 []) with
     | Some ((_, e), _) => e
     | None => ebitmap_init
     end
  end.

Lemma of_bits_wf l : Forall (λ b, 0 ≤ b < 2 ^ 32) l → wf (of_bits l).
Proof.
  induction 1 as [|b l Hb _ IH]; [apply wf_init|]. simpl.
  pose proof (set_bit_spec _ b true (Heap 0 []) IH Hb) as Hs. unfold wp in Hs.
  by destruct (ebitmap_set_bit _ _ _ _) as [[[rc e] h]|]; [|done]; destruct Hs as (_ & ? & _).
Qed.

Lemma of_bits_spec l i :
  Forall (λ b, 0 ≤ b < 2 ^ 32 - 64) l → ebitmap_get_bit (of_bits l) i = true ↔ i ∈ l.
Proof.
  intros Hl. assert (∀ l, Forall (λ b, 0 ≤ b < 2 ^ 32 - 64) l → Forall (λ b, 0 ≤ b < 2 ^ 32) l) as Hw
    by (intros; eapply Forall_impl; [done|simpl; lia]).
  induction Hl as [|b l Hb Hl IH].
  { unfold ebitmap_get_bit. simpl. split; [by case_match|set_solver]. }
  pose proof (of_bits_wf (b :: l) (Hw _ (Forall_cons_2 _ _ _ Hb Hl))) as Hwf. simpl in Hwf |- *.
  pose proof (set_bit_spec (of_bits l) b true (Heap 0 []) (of_bits_wf l (Hw _ Hl))) as Hs.
  unfold wp in Hs. destruct (ebitmap_set_bit _ _ _ _) as [[[rc e] h]|]; [|by destruct Hs; lia].
  destruct Hs as (_ & _ & [(_ & _ & Hbits)|[[_ ?]|(_ & _ & ?)]]); [lia| |simpl in *; lia|done].
  simpl in *. rewrite elem_of_cons, <- IH. destruct (decide (0 ≤ i < 2 ^ 32)) as [Hi|Hi].
  - rewrite Hbits by done. destruct (Z.eqb_spec i b); naive_solver.
  - split; [intros Hg%(get_bit_range _ _ Hwf)|].
    + destruct Hwf as [Hok Hh]. destruct (decide (e_node e = [])) as [Hn|Hn];
        [rewrite Hh, Hn in Hg; unfold high_of in Hg; simpl in Hg; lia|].
      destruct (high_of_spec _ _ Hok Hn). lia.
    + intros [->|Hg]; [lia|]. rewrite IH in Hg. rewrite Forall_forall in Hl. specialize (Hl _ Hg). simpl in Hl. lia.
Qed.

Ltac bits_wf := apply of_bits_wf; repeat constructor; simpl; lia.

(** C17: [ebitmap_set_bit] on a well-formed bitmap keeps it well-formed and
    changes exactly the bit it names.  Bits of the last map word of the 32-bit
    range are refused with [-EINVAL]; a failed allocation gives [-ENOMEM], can
    only happen when setting, and leaves the bitmap as it was. *)
Theorem ebitmap_set_bit_correct e bit value h :
  wf e → 0 ≤ bit < 2 ^ 32 →
  wp (ebitmap_set_bit e bit value) h (λ r h',
    wf r.2 ∧
    ((r.1 = 0 ∧ bit < 2 ^ 32 - 64 ∧
      ∀ i, 0 ≤ i < 2 ^ 32 →
        ebitmap_get_bit r.2 i = if i =? bit then value else ebitmap_get_bit e i) ∨
     (r = (- EINVAL, e) ∧ 2 ^ 32 - 64 ≤ bit) ∨
     (r = (- ENOMEM, e) ∧ value = true ∧ hp_oom h ≠ []))).
Proof.
  intros Hwf Hb. eapply wp_mono; [by apply set_bit_spec|]. by intros r h' (_ & ? & ?).
Qed.

Lemma ebitmap_set_bit_correct_witness :
  wp (ebitmap_set_bit (of_bits [3; 70; 200]) 70 false) (Heap 0 []) (λ r h',
    wf r.2 ∧
    ((r.1 = 0 ∧ 70 < 2 ^ 32 - 64 ∧
      ∀ i, 0 ≤ i < 2 ^ 32 →
        ebitmap_get_bit r.2 i = if i =? 70 then false else ebitmap_get_bit (of_bits [3; 70; 200]) i) ∨
     (r = (- EINVAL, of_bits [3; 70; 200]) ∧ 2 ^ 32 - 64 ≤ 70) ∨
     (r = (- ENOMEM, of_bits [3; 70; 200]) ∧ false = true ∧ hp_oom (Heap 0 []) ≠ []))).
Proof. apply ebitmap_set_bit_correct; [bits_wf|lia]. Defined.

(** C16: The set operations.  On well-formed bitmaps [ebitmap_or], [_and],
    [_xor], [_not] and [_andnot] terminate and build the well-formed bitmap of
    the union, intersection, symmetric difference, complement below [maxbit] and
    difference below [maxbit]; or an allocation fails, the result is [-ENOMEM]
    and the destination is empty. *)
Theorem ebitmap_set_operations e1 e2 maxbit h :
  wf e1 → wf e2 → 0 ≤ maxbit ≤ 2 ^ 32 - 64 →
  let b1 := ebitmap_get_bit e1 in
  let b2 := ebitmap_get_bit e2 in
  wp (ebitmap_or e1 e2) h (set_outcome h (λ i, b1 i || b2 i)) ∧
  wp (ebitmap_and e1 e2) h (set_outcome h (λ i, b1 i && b2 i)) ∧
  wp (ebitmap_xor e1 e2) h (set_outcome h (λ i, xorb (b1 i) (b2 i))) ∧
  wp (ebitmap_not e1 maxbit) h (set_outcome h (λ i, (i <? maxbit) && negb (b1 i))) ∧
  wp (ebitmap_andnot e1 e2 maxbit) h
    (set_outcome h (λ i, b1 i && ((i <? maxbit) && negb (b2 i)))).
Proof.
  intros H1 H2 Hm. split_and!;
    [by apply or_spec|by apply and_spec|by apply xor_spec|by apply not_spec|by apply andnot_spec].
Qed.

Lemma ebitmap_set_operations_witness :
  wp (ebitmap_andnot (of_bits [1; 65; 500]) (of_bits [65; 66]) 400) (Heap 0 [false; true])
    (set_outcome (Heap 0 [false; true]) (λ i, ebitmap_get_bit (of_bits [1; 65; 500]) i &&
       ((i <? 400) && negb (ebitmap_get_bit (of_bits [65; 66]) i)))).
Proof. apply ebitmap_set_operations; [bits_wf..|lia]. Defined.

(** The comparisons decide the set relations: [ebitmap_cmp] equality of the
    sets (well-formed bitmaps are canonical), [ebitmap_contains] inclusion,
    [ebitmap_match_any] overlap, and [ebitmap_is_empty] emptiness. *)
Theorem ebitmap_comparisons e1 e2 :
  wf e1 → wf e2 →
  (ebitmap_cmp e1 e2 = true ↔
     ∀ i, 0 ≤ i < 2 ^ 32 → ebitmap_get_bit e1 i = ebitmap_get_bit e2 i) ∧
  (ebitmap_contains e1 e2 = true ↔
     ∀ i, 0 ≤ i < 2 ^ 32 → ebitmap_get_bit e2 i = true → ebitmap_get_bit e1 i = true) ∧
  (ebitmap_match_any e1 e2 = true ↔
     ∃ i, 0 ≤ i < 2 ^ 32 ∧ ebitmap_get_bit e1 i = true ∧ ebitmap_get_bit e2 i = true) ∧
  (ebitmap_is_empty e1 = true ↔ ∀ i, 0 ≤ i < 2 ^ 32 → ebitmap_get_bit e1 i = false).
Proof.
  intros H1 H2. split_and!; [|by apply contains_subset|by apply match_any_overlap|].
  - rewrite cmp_eq. split; [by intros ->|by apply wf_ext].
  - split.
    + intros He%Z.eqb_eq i Hi. destruct (ebitmap_get_bit e1 i) eqn:Hb; [|done].
      apply (get_bit_range _ _ H1) in Hb. lia.
    + intros Hz. rewrite (wf_ext e1 ebitmap_init H1 wf_init); [done|]. intros i Hi. rewrite Hz by done.
      unfold ebitmap_get_bit. simpl. by case_match.
Qed.

Lemma ebitmap_comparisons_witness :
  (ebitmap_cmp (of_bits [5; 900]) (of_bits [900; 5]) = true ↔
     ∀ i, 0 ≤ i < 2 ^ 32 →
       ebitmap_get_bit (of_bits [5; 900]) i = ebitmap_get_bit (of_bits [900; 5]) i) ∧
  ebitmap_cmp (of_bits [5; 900]) (of_bits [900; 5]) = true.
Proof. split; [apply ebitmap_comparisons; bits_wf|reflexivity]. Defined.

(** C32: Iteration and counting.  [ebitmap_for_each_positive_bit] terminates
    without dereferencing a null node and visits exactly the members, in
    increasing order and each once; [ebitmap_cardinality] is their number and
    [ebitmap_highest_set_bit] the largest. *)
Theorem ebitmap_iteration e :
  wf e → ∃ l, ebitmap_for_each_positive_bit e = Some l ∧ StronglySorted Z.lt l ∧
    (∀ i, i ∈ l ↔ ebitmap_get_bit e i = true) ∧
    ebitmap_cardinality e = Z.of_nat (length l) ∧
    (e_node e ≠ [] → ebitmap_highest_set_bit e ∈ l ∧ ∀ i, i ∈ l → i ≤ ebitmap_highest_set_bit e).
Proof.
  intros Hwf. pose proof Hwf as [Hok Hh]. exists (set_bits (e_node e)).
  assert (∀ i, i ∈ set_bits (e_node e) ↔ ebitmap_get_bit e i = true) as Hin.
  { intros i. rewrite (elem_of_set_bits _ _ _ Hok). by rewrite get_bit_word. }
  split; [by apply positive_bits_set_bits|]. split; [by eapply set_bits_sorted|].
  split; [done|]. split; [by apply cardinality_spec|]. intros Hne.
  destruct (highest_set_bit_spec e Hwf Hne) as (Hr & Hb & Hz). split; [by apply Hin|].
  intros i Hi%Hin. pose proof (get_bit_range _ _ Hwf Hi).
  destruct (Z.le_gt_cases i (ebitmap_highest_set_bit e)) as [|Hgt]; [done|].
  rewrite Hz in Hi; [done|]. destruct (high_of_spec _ _ Hok Hne). lia.
Qed.

Lemma ebitmap_iteration_witness :
  (∃ l, ebitmap_for_each_positive_bit (of_bits [64; 2; 300]) = Some l ∧ StronglySorted Z.lt l ∧
    (∀ i, i ∈ l ↔ ebitmap_get_bit (of_bits [64; 2; 300]) i = true) ∧
    ebitmap_cardinality (of_bits [64; 2; 300]) = Z.of_nat (length l) ∧
    (e_node (of_bits [64; 2; 300]) ≠ [] →
       ebitmap_highest_set_bit (of_bits [64; 2; 300]) ∈ l ∧
       ∀ i, i ∈ l → i ≤ ebitmap_highest_set_bit (of_bits [64; 2; 300]))) ∧
  ebitmap_for_each_positive_bit (of_bits [64; 2; 300]) = Some [2; 64; 300].
Proof. split; [apply ebitmap_iteration; bits_wf|vm_compute; reflexivity]. Defined.

(** [ebitmap_init_range] builds the interval of bits it is given; it refuses
    an empty interval with [-EINVAL] and one that reaches into the last map word
    with [-EOVERFLOW].  When an allocation fails the nodes built so far stay
    linked under [highbit] 0. *)
Theorem ebitmap_init_range_correct minbit maxbit h :
  0 ≤ minbit < 2 ^ 32 → 0 ≤ maxbit < 2 ^ 32 →
  wp (ebitmap_init_range minbit maxbit) h (λ r h',
    (r.1 = 0 ∧ minbit ≤ maxbit < 2 ^ 32 - 64 ∧ wf r.2 ∧
      ∀ i, 0 ≤ i < 2 ^ 32 → ebitmap_get_bit r.2 i = (minbit <=? i) && (i <=? maxbit)) ∨
    (r = (- EINVAL, ebitmap_init) ∧ maxbit < minbit) ∨
    (r = (- EOVERFLOW, ebitmap_init) ∧ minbit ≤ maxbit ∧ 2 ^ 32 - 64 ≤ maxbit) ∨
    (r.1 = - ENOMEM ∧ e_highbit r.2 = 0 ∧ hp_oom h ≠ [])).
Proof.
  intros H1 H2. eapply wp_mono; [by apply init_range_spec|]. by intros r h' (_ & ?).
Qed.

Lemma ebitmap_init_range_correct_witness :
  wp (ebitmap_init_range 60 130) (Heap 0 []) (λ r h',
    (r.1 = 0 ∧ 60 ≤ 130 < 2 ^ 32 - 64 ∧ wf r.2 ∧
      ∀ i, 0 ≤ i < 2 ^ 32 → ebitmap_get_bit r.2 i = (60 <=? i) && (i <=? 130)) ∨
    (r = (- EINVAL, ebitmap_init) ∧ 130 < 60) ∨
    (r = (- EOVERFLOW, ebitmap_init) ∧ 60 ≤ 130 ∧ 2 ^ 32 - 64 ≤ 130) ∨
    (r.1 = - ENOMEM ∧ e_highbit r.2 = 0 ∧ hp_oom (Heap 0 []) ≠ [])).
Proof. apply ebitmap_init_range_correct; lia. Defined.

(** [ebitmap_read] on an arbitrary byte string terminates, never reads
    outside the file, and either delivers a well-formed bitmap or fails and
    leaves the empty one. *)
Theorem ebitmap_read_safe fp h :
  readable fp → Forall is_byte (pf_data fp) →
  wp (ebitmap_read fp) h (λ r _,
    (r.1.1 = 0 ∧ wf r.1.2) ∨ (r.1.1 < 0 ∧ r.1.2 = ebitmap_init)).
Proof. intros Hr Hb. eapply wp_mono; [by apply read_spec|]. intros r _ [(? & ? & _)|?]; auto. Qed.

Lemma ebitmap_read_safe_witness :
  wp (ebitmap_read (PolicyFile PF_USE_MEMORY [64; 0; 0; 0; 64; 0; 0; 0; 9] 9 [])) (Heap 0 [])
    (λ r _, (r.1.1 = 0 ∧ wf r.1.2) ∨ (r.1.1 < 0 ∧ r.1.2 = ebitmap_init)).
Proof.
  apply ebitmap_read_safe; [by right|]. repeat constructor; simpl; lia.
Defined.

(** C31: Round trip.  [ebitmap_write] of a well-formed bitmap to a file with room
    for 12 bytes and 12 more per node succeeds, and [ebitmap_read] of what it
    wrote, with any bytes behind it, gives the same bitmap back and leaves the
    position at those bytes. *)
Theorem ebitmap_write_read e out h rest k hr :
  wf e → room (12 + 12 * Z.of_nat (length (e_node e))) out → pf_out out = [] → hp_oom hr = [] →
  k = PF_USE_STDIO ∨ k = PF_USE_MEMORY →
  wp (ebitmap_write e out) h (λ w _, w.1 = POLICYDB_SUCCESS ∧
    let data := pf_out w.2 ++ rest in
    wp (ebitmap_read (PolicyFile k data (Z.of_nat (length data)) [])) hr (λ r _,
      r.1 = (0, e) ∧ pf_data r.2 = rest)).
Proof.
  intros Hwf Hroom Hout Ho Hk. eapply wp_mono; [by apply write_spec|]. intros w h' ->.
  split; [done|]. cbn zeta. simpl. rewrite Hout. simpl. eapply wp_mono.
  - apply (read_image e _ rest); [done| |done|done]. destruct Hk as [->| ->]; [by left|by right].
  - by intros r _ (? & ? & _).
Qed.

Lemma ebitmap_write_read_witness :
  wp (ebitmap_write (of_bits [0; 64; 700]) (PolicyFile PF_USE_MEMORY [] 48 [])) (Heap 0 [])
    (λ w _, w.1 = POLICYDB_SUCCESS ∧
    let data := pf_out w.2 ++ [1; 2] in
    wp (ebitmap_read (PolicyFile PF_USE_STDIO data (Z.of_nat (length data)) [])) (Heap 0 []) (λ r _,
      r.1 = (0, of_bits [0; 64; 700]) ∧ pf_data r.2 = [1; 2])).
Proof.
  apply ebitmap_write_read; [bits_wf| |done|done|by left]. split; [by right|]. vm_compute. discriminate.
Defined.

(** [ebitmap_not] with [maxbit] inside the last map word does not stop:
    [cur_startbit] is a [uint32_t], so it wraps to 0 before it can reach
    [maxbit].  However many iterations are allowed, the loop has not finished
    as long as memory lasts. *)
Theorem ebitmap_not_diverges e maxbit next fuel :
  2 ^ 32 - 64 < maxbit < 2 ^ 32 →
  ebitmap_not_loop fuel (e_node e) maxbit 0 (Heap next []) = None.
Proof.
  intros Hm. assert (∀ fuel n cur nx, cur mod 64 = 0 → 0 ≤ cur < 2 ^ 32 →
    ebitmap_not_loop fuel n maxbit cur (Heap nx []) = None) as Hloop; [|by apply Hloop].
  clear fuel. induction fuel as [|fuel IH]; intros n cur nx Hc Hr; [done|]. simpl.
  pose proof (mult64_lt cur (2 ^ 32) Hc eq_refl).
  rewrite (proj2 (Z.ltb_lt _ _)) by lia.
  assert (u32 (cur + MAPSIZE) mod 64 = 0) as Hc'.
  { unfold u32, MAPSIZE. destruct (decide (cur + 64 = 2 ^ 32)) as [->|]; [done|].
    rewrite (Z.mod_small (cur + 64)) by lia. by apply mod64_add. }
  assert (0 ≤ u32 (cur + MAPSIZE) < 2 ^ 32) by (apply Z.mod_pos_bound; lia).
  unfold emit. case_match; [|by apply IH].
  unfold mbind, M_bind, malloc, link. simpl. unfold mbind, M_bind. by rewrite IH.
Qed.

Lemma ebitmap_not_diverges_witness :
  ebitmap_not_loop 1000 (e_node (of_bits [1])) (2 ^ 32 - 1) 0 (Heap 0 []) = None.
Proof. apply ebitmap_not_diverges. lia. Defined.
