(* ===== verification/Hashtab.v ===== *)
(** * Hash tables and symbol tables

    [src/hashtab.c] and [src/symtab.c], with the key types the policy database
    hashes: symbol names ([symhash], [symcmp]) and range transitions
    ([rangetr_hash], [rangetr_cmp] of [src/policydb.c]).  A table is an array of
    chains; the theorems show that it implements a finite map. *)

From S2P Require Import Prelude.

(** ** Keys

    The function pointers [hash_value] and [keycmp] of a table.  Of the table
    itself the hash functions use only [h->size]. *)
Class HashKey (K : Type) := {
  hash_value : Z → K → Z;
  keycmp : K → K → Z
}.

(** What the table relies on: [keycmp] is a three-way comparison of a total
    order and the hash is a valid index. *)
Class HashKeyLaws (K : Type) `{HashKey K} : Prop := {
  keycmp_eq x y : keycmp x y = 0 ↔ x = y;
  keycmp_anti x y : keycmp x y < 0 ↔ 0 < keycmp y x;
  keycmp_trans x y z : keycmp x y < 0 → keycmp y z < 0 → keycmp x z < 0;
  hash_value_range size x : 0 < size < 2 ^ 32 → 0 ≤ hash_value size x < size
}.

(** ** Tables *)

Record hashtab (K V : Type) := Hashtab {
  ht_table : list (list (K * V));
  ht_size : Z;
  ht_nel : Z
}.
Arguments Hashtab {_ _}.
Arguments ht_table {_ _}.
Arguments ht_size {_ _}.
Arguments ht_nel {_ _}.

Section hashtab.
Context {K : Type} `{!HashKey K} {V : Type}.

(** [hashtab_create]: the table, or [NULL]. *)
Definition hashtab_create (size : Z) : M (option (hashtab K V)) :=
  p ← malloc;
  match p with
  | None => mret None
  | Some _ =>
     t ← malloc;
     match t with
     | None => mret None
     | Some _ => mret (Some (Hashtab (replicate (Z.to_nat size) []) size 0))
     end
  end.

(** [while (new_size <= h->nel && new_size * 2 != 0) new_size *= 2]: a 32-bit
    size can be doubled at most 32 times before it is 0. *)
Fixpoint resize_target (fuel : nat) (new_size nel : Z) : Z :=
  match fuel with
  | O => new_size
  | S fuel =>
     if (new_size <=? nel) && negb (u32 (new_size * 2) =? 0)
     then resize_target fuel (u32 (new_size * 2)) nel else new_size
  end.

(** The walk [while (cur && keycmp(key, cur->key) > 0)]: the nodes passed and
    the nodes from [cur] on. *)
Fixpoint chain_seek (key : K) (cur : list (K * V)) : list (K * V) * list (K * V) :=
  match cur with
  | [] => ([], [])
  | n :: next =>
     if keycmp key n.1 >? 0 then let r := chain_seek key next in (n :: r.1, r.2)
     else ([], cur)
  end.

(** Link one node into its chain of the new table. *)
Definition move_node (new_size : Z) (new_htable : list (list (K * V))) (cur : K * V) :
    option (list (list (K * V))) :=
  let hvalue := hash_value new_size cur.1 in
  chain ← aget new_htable hvalue;
  let dst := chain_seek cur.1 chain in
  aset new_htable hvalue (dst.1 ++ cur :: dst.2).

Fixpoint move_chain (new_size : Z) (new_htable : list (list (K * V))) (cur : list (K * V)) :
    option (list (list (K * V))) :=
  match cur with
  | [] => Some new_htable
  | n :: next =>
     new_htable ← move_node new_size new_htable n;
     move_chain new_size new_htable next
  end.

(** The loop over the [todo] old buckets from [i] on. *)
Fixpoint move_all (todo : nat) (i : Z) (old : list (list (K * V))) (new_size : Z)
    (new_htable : list (list (K * V))) : option (list (list (K * V))) :=
  match todo with
  | O => Some new_htable
  | S todo =>
     cur ← aget old i;
     new_htable ← move_chain new_size new_htable cur;
     move_all todo (i + 1) old new_size new_htable
  end.

Definition hashtab_check_resize (h : hashtab K V) : M (hashtab K V) :=
  let new_size := resize_target 33 (ht_size h) (ht_nel h) in
  if ht_size h =? new_size then mret h
  else
    new ← malloc;
    match new with
    | None => mret h
    | Some _ =>
       t ← get (move_all (Z.to_nat (ht_size h)) 0 (ht_table h) new_size
                  (replicate (Z.to_nat new_size) []));
       mret (Hashtab t new_size (ht_nel h))
    end.

(** The return code with the table; a [NULL] table stays [NULL]. *)
Definition hashtab_insert (h : option (hashtab K V)) (key : K) (datum : V) :
    M (Z * option (hashtab K V)) :=
  match h with
  | None => mret (SEPOL_ENOMEM, None)
  | Some h =>
     h ← hashtab_check_resize h;
     let hvalue := s32 (hash_value (ht_size h) key) in
     chain ← get (aget (ht_table h) hvalue);
     let p := chain_seek key chain in
     if match p.2 with cur :: _ => keycmp key cur.1 =? 0 | [] => false end
     then mret (SEPOL_EEXIST, Some h)
     else
       newnode ← malloc;
       match newnode with
       | None => mret (SEPOL_ENOMEM, Some h)
       | Some _ =>
          t ← get (aset (ht_table h) hvalue (p.1 ++ (key, datum) :: p.2));
          mret (SEPOL_OK, Some (Hashtab t (ht_size h) (u32 (ht_nel h + 1))))
       end
  end.

(** The return code, the table, and the entry handed to [destroy]. *)
Definition hashtab_remove (h : option (hashtab K V)) (key : K) :
    option (Z * option (hashtab K V) * option (K * V)) :=
  match h with
  | None => Some (SEPOL_ENOENT, None, None)
  | Some h =>
     let hvalue := s32 (hash_value (ht_size h) key) in
     chain ← aget (ht_table h) hvalue;
     let p := chain_seek key chain in
     match p.2 with
     | cur :: next =>
        if negb (keycmp key cur.1 =? 0) then Some (SEPOL_ENOENT, Some h, None)
        else
          t ← aset (ht_table h) hvalue (p.1 ++ next);
          Some (SEPOL_OK, Some (Hashtab t (ht_size h) (u32 (ht_nel h - 1))), Some cur)
     | [] => Some (SEPOL_ENOENT, Some h, None)
     end
  end.

(** [None] is undefined, [Some None] the [NULL] datum. *)
Definition hashtab_search (h : option (hashtab K V)) (key : K) : option (option V) :=
  match h with
  | None => Some None
  | Some h =>
     chain ← aget (ht_table h) (s32 (hash_value (ht_size h) key));
     match (chain_seek key chain).2 with
     | cur :: _ => if negb (keycmp key cur.1 =? 0) then Some None else Some (Some cur.2)
     | [] => Some None
     end
  end.

(** [hashtab_map] with a callback that threads a state. *)
Fixpoint map_chain {St} (apply : K → V → St → M (Z * St)) (cur : list (K * V)) (s : St) : M (Z * St) :=
  match cur with
  | [] => mret (SEPOL_OK, s)
  | n :: next =>
     r ← apply n.1 n.2 s;
     if nz r.1 then mret r else map_chain apply next r.2
  end.

Fixpoint map_buckets {St} (apply : K → V → St → M (Z * St)) (todo : nat) (i : Z)
    (t : list (list (K * V))) (s : St) : M (Z * St) :=
  match todo with
  | O => mret (SEPOL_OK, s)
  | S todo =>
     cur ← get (aget t i);
     r ← map_chain apply cur s;
     if nz r.1 then mret r else map_buckets apply todo (i + 1) t r.2
  end.

Definition hashtab_map {St} (h : option (hashtab K V)) (apply : K → V → St → M (Z * St)) (s : St) :
    M (Z * St) :=
  match h with
  | None => mret (SEPOL_OK, s)
  | Some h => map_buckets apply (Z.to_nat (ht_size h)) 0 (ht_table h) s
  end.

End hashtab.

(** ** Symbol tables *)

(** A C string is a [string] without its final NUL; [char] is signed. *)
Definition char_val (c : Ascii.ascii) : Z :=
  let x := Z.of_N (Ascii.N_of_ascii c) in if x <? 128 then x else x - 256.

Definition symhash_step (val : Z) (c : Ascii.ascii) : Z :=
  Z.lxor (Z.lor (u32 (Z.shiftl val 4)) (Z.shiftr val 28)) (u32 (char_val c)).

Fixpoint symhash_loop (val : Z) (p : string) : Z :=
  match p with
  | EmptyString => val
  | String c p => symhash_loop (symhash_step val c) p
  end.

Definition symhash (size : Z) (key : string) : Z :=
  Z.land (symhash_loop 0 key) (u32 (size - 1)).

(** [strcmp]: bytes are compared as [unsigned char]. *)
Fixpoint strcmp (s1 s2 : string) : Z :=
  match s1, s2 with
  | EmptyString, EmptyString => 0
  | EmptyString, String _ _ => -1
  | String _ _, EmptyString => 1
  | String a s1, String b s2 =>
     match N.compare (Ascii.N_of_ascii a) (Ascii.N_of_ascii b) with
     | Eq => strcmp s1 s2
     | Lt => -1
     | Gt => 1
     end
  end.

Definition symcmp (key1 key2 : string) : Z := strcmp key1 key2.

#[global] Instance sym_key : HashKey string := {| hash_value := symhash; keycmp := symcmp |}.

Record symtab (V : Type) := Symtab { s_table : option (hashtab string V); s_nprim : Z }.
Arguments Symtab {_}.
Arguments s_table {_}.
Arguments s_nprim {_}.

Definition symtab_init {V} (s : symtab V) (size : Z) : M (Z * symtab V) :=
  t ← hashtab_create size;
  match t with
  | None => mret (-1, Symtab None (s_nprim s))
  | Some _ => mret (0, Symtab t 0)
  end.

(** ** Range transitions *)

Record range_trans := RangeTrans { rt_source_type : Z; rt_target_type : Z; rt_target_class : Z }.

#[global] Instance range_trans_eq_dec : EqDecision range_trans.
Proof. solve_decision. Defined.

#[global] Program Instance range_trans_countable : Countable range_trans :=
  inj_countable' (λ r, (rt_source_type r, rt_target_type r, rt_target_class r))
    (λ p, RangeTrans p.1.1 p.1.2 p.2) _.
Next Obligation. by intros []. Qed.

(** [spaceship_cmp(a, b)] of [src/private.h]: [(a > b) - (a < b)]. *)
Definition spaceship_cmp (a b : Z) : Z := b2z (a >? b) - b2z (a <? b).

Definition rangetr_hash (size : Z) (key : range_trans) : Z :=
  Z.land (u32 (rt_source_type key + u32 (Z.shiftl (rt_target_type key) 3) +
               u32 (Z.shiftl (rt_target_class key) 5)))
    (u32 (size - 1)).

Definition rangetr_cmp (key1 key2 : range_trans) : Z :=
  let v := spaceship_cmp (rt_source_type key1) (rt_source_type key2) in
  if nz v then v
  else
    let v := spaceship_cmp (rt_target_type key1) (rt_target_type key2) in
    if nz v then v
    else spaceship_cmp (rt_target_class key1) (rt_target_class key2).

#[global] Instance rangetr_key : HashKey range_trans :=
  {| hash_value := rangetr_hash; keycmp := rangetr_cmp |}.

(** ** File name transitions *)

Record filename_trans_key := FilenameTransKey { ft_ttype : Z; ft_tclass : Z; ft_name : string }.

#[global] Instance filename_trans_key_eq_dec : EqDecision filename_trans_key.
Proof. solve_decision. Defined.

#[global] Program Instance filename_trans_key_countable : Countable filename_trans_key :=
  inj_countable' (λ k, (ft_ttype k, ft_tclass k, ft_name k)) (λ p, FilenameTransKey p.1.1 p.1.2 p.2) _.
Next Obligation. by intros []. Qed.

(** [unsigned long] has 64 bits, and [focus] is an [unsigned char]. *)
Definition partial_name_hash (c prevhash : Z) : Z :=
  u64 (u64 (prevhash + Z.shiftl c 4 + Z.shiftr c 4) * 11).

Fixpoint name_hash (name : string) (hash : Z) : Z :=
  match name with
  | EmptyString => hash
  | String c name => name_hash name (partial_name_hash (Z.of_N (Ascii.N_of_ascii c)) hash)
  end.

Definition filenametr_hash (size : Z) (k : filename_trans_key) : Z :=
  u32 (Z.land (name_hash (ft_name k) (Z.lxor (ft_ttype k) (ft_tclass k))) (u32 (size - 1))).

Definition filenametr_cmp (k1 k2 : filename_trans_key) : Z :=
  let v := spaceship_cmp (ft_ttype k1) (ft_ttype k2) in
  if nz v then v
  else
    let v := spaceship_cmp (ft_tclass k1) (ft_tclass k2) in
    if nz v then v
    else strcmp (ft_name k1) (ft_name k2).

#[global] Instance filenametr_key : HashKey filename_trans_key :=
  {| hash_value := filenametr_hash; keycmp := filenametr_cmp |}.
