(* ===== verification/HashtabFacts.v ===== *)
(** * Hash tables implement finite maps

    The invariant of a table (chains strictly sorted by [keycmp], every entry in
    the chain of its hash, the entry count at 32 bits) and the refinement of
    [hashtab_insert], [_remove], [_search] and the resizing to the operations of
    a [gmap]. *)

From S2P Require Import Prelude Hashtab.

Section facts.
Context {K : Type} `{HK : !HashKey K, !HashKeyLaws K, !EqDecision K, !Countable K} {V : Type}.
Implicit Types (c : list (K * V)) (t : list (list (K * V))) (h : hashtab K V).

Definition node_lt (a b : K * V) : Prop := keycmp a.1 b.1 < 0.

Definition chain_ok (size : Z) (i : nat) c : Prop :=
  StronglySorted node_lt c ∧ Forall (λ n, hash_value size n.1 = Z.of_nat i) c.

Definition table_ok (size : Z) t : Prop :=
  Z.of_nat (length t) = size ∧ (∃ k, 0 ≤ k ≤ 31 ∧ size = 2 ^ k) ∧
  ∀ i c, t !! i = Some c → chain_ok size i c.

Definition hwf h : Prop :=
  table_ok (ht_size h) (ht_table h) ∧ ht_nel h = u32 (Z.of_nat (length (concat (ht_table h)))).

(** The map a table stands for. *)
Definition dict h : gmap K V := list_to_map (concat (ht_table h)).

(** ** Chains *)

Lemma keycmp_irrefl k : ¬ keycmp k k < 0.
Proof. rewrite (proj2 (keycmp_eq k k)); [lia|done]. Qed.

Lemma sorted_NoDup c : StronglySorted node_lt c → NoDup c.*1.
Proof.
  induction 1 as [|n c _ IH Hn]; [constructor|]. simpl. constructor; [|done].
  intros ([k v] & Hk & Hin)%list_elem_of_fmap. rewrite Forall_forall in Hn.
  specialize (Hn _ Hin). unfold node_lt in Hn. simpl in *. subst. by eapply keycmp_irrefl.
Qed.

Lemma chain_seek_spec k c :
  c = (chain_seek k c).1 ++ (chain_seek k c).2 ∧
  Forall (λ n, keycmp n.1 k < 0) (chain_seek k c).1 ∧
  match (chain_seek k c).2 with n :: _ => keycmp k n.1 ≤ 0 | [] => True end.
Proof.
  induction c as [|n c (IH1 & IH2 & IH3)]; [done|]. simpl.
  rewrite Z.gtb_ltb. destruct (Z.ltb_spec 0 (keycmp k n.1)) as [Hgt|Hle]; simpl.
  - split; [by f_equal|]. split; [|done]. constructor; [|done]. by apply keycmp_anti.
  - done.
Qed.

(** A chain around the position [chain_seek] finds. *)
Lemma chain_seek_sorted k v c :
  StronglySorted node_lt c →
  match (chain_seek k c).2 with n :: _ => keycmp k n.1 ≠ 0 | [] => True end →
  k ∉ c.*1 ∧ StronglySorted node_lt ((chain_seek k c).1 ++ (k, v) :: (chain_seek k c).2).
Proof.
  destruct (chain_seek_spec k c) as (Hc & Hpre & Hcur). revert Hc Hpre Hcur.
  generalize (chain_seek k c).1 (chain_seek k c).2. intros pre cur -> Hpre Hcur Hs Hne.
  assert (Forall (λ n, keycmp k n.1 < 0) cur) as Hpost.
  { destruct cur as [|n cur]; [constructor|]. assert (keycmp k n.1 < 0) by lia.
    constructor; [done|]. apply sorted_app in Hs as (_ & _ & Hs).
    apply StronglySorted_inv in Hs as [_ Hs]. eapply Forall_impl; [done|].
    intros x Hx. by eapply keycmp_trans. }
  apply sorted_app in Hs as (Hx & Hs1 & Hs2). split.
  - rewrite fmap_app, elem_of_app. rewrite Forall_forall in Hpre, Hpost.
    intros [([k' v'] & -> & Hin)%list_elem_of_fmap|([k' v'] & -> & Hin)%list_elem_of_fmap].
    + specialize (Hpre _ Hin). by eapply keycmp_irrefl.
    + specialize (Hpost _ Hin). by eapply keycmp_irrefl.
  - apply sorted_app. split_and!; [|done|].
    + intros a b Ha. rewrite Forall_forall in Hpre, Hpost. intros [->|Hb]%elem_of_cons.
      * by apply Hpre.
      * eapply keycmp_trans; [by apply Hpre|]. by apply (Hpost b).
    + constructor; [done|]. done.
Qed.

(** ** Tables *)

Lemma table_size size t : table_ok size t → 0 < size ≤ 2 ^ 31.
Proof.
  intros (_ & (k & Hk & ->) & _). split; [apply Z.pow_pos_nonneg; lia|apply Z.pow_le_mono_r; lia].
Qed.

(** The bucket of a key. *)
Lemma table_bucket size t k :
  table_ok size t → ∃ i c, t !! i = Some c ∧ hash_value size k = Z.of_nat i ∧
    s32 (hash_value size k) = Z.of_nat i ∧
    aget t (Z.of_nat i) = Some c ∧ chain_ok size i c ∧
    ∀ c', aset t (Z.of_nat i) c' = Some (<[i := c']> t).
Proof.
  intros Ht. pose proof (table_size _ _ Ht). destruct Ht as (Hlen & _ & Hc).
  pose proof (hash_value_range size k) as Hr.
  destruct (lookup_lt_is_Some_2 t (Z.to_nat (hash_value size k))) as [c Hi]; [lia|].
  exists (Z.to_nat (hash_value size k)), c.
  assert (Z.of_nat (Z.to_nat (hash_value size k)) = hash_value size k) as E by lia.
  rewrite E. split_and!; [done|done| | |by apply Hc|].
  - unfold s32, u32. rewrite Z.mod_small by lia. by rewrite (proj2 (Z.ltb_lt _ _)) by lia.
  - unfold aget. by rewrite (proj2 (Z.ltb_ge _ _)) by lia.
  - intros c'. unfold aset. by rewrite (proj2 (Z.leb_le _ _)), (proj2 (Z.ltb_lt _ _)) by lia.
Qed.

Lemma elem_of_bucket size t k v i c :
  table_ok size t → t !! i = Some c → hash_value size k = Z.of_nat i →
  (k, v) ∈ concat t ↔ (k, v) ∈ c.
Proof.
  intros (_ & _ & Hc) Hi Hk. rewrite elem_of_concat. split; [|by eauto].
  intros (j & c' & Hj & Hin). destruct (Hc _ _ Hj) as [_ Hh]. rewrite Forall_forall in Hh.
  specialize (Hh _ Hin). simpl in Hh. assert (j = i) as -> by lia. by simplify_eq.
Qed.

(** No key occurs twice. *)
Lemma table_NoDup size t : table_ok size t → NoDup (concat t).*1.
Proof.
  intros (_ & _ & Hc).
  assert (∀ n t, (∀ i c, t !! i = Some c → chain_ok size (n + i) c) → NoDup (concat t).*1) as Hgen.
  { clear Hc t. intros n t. revert n. induction t as [|c t IH]; intros n Hc; [constructor|].
    simpl. rewrite fmap_app. apply NoDup_app. split_and!.
    - apply sorted_NoDup. by apply (Hc 0%nat).
    - intros k ([k1 v1] & -> & H1)%list_elem_of_fmap ([k2 v2] & Hk & H2)%list_elem_of_fmap.
      simpl in Hk. subst k2. apply elem_of_concat in H2 as (i & c' & Hi & H2).
      destruct (Hc 0%nat c eq_refl) as [_ Hh1]. destruct (Hc (S i) c' Hi) as [_ Hh2].
      rewrite Forall_forall in Hh1, Hh2. specialize (Hh1 _ H1). specialize (Hh2 _ H2).
      simpl in *. lia.
    - apply (IH (S n)). intros i c' Hi. replace (S n + i)%nat with (n + S i)%nat by lia.
      by apply (Hc (S i)). }
  by apply (Hgen 0%nat).
Qed.

Lemma table_update size t i c c' :
  table_ok size t → t !! i = Some c → chain_ok size i c' → table_ok size (<[i := c']> t).
Proof.
  intros (Hl & Hp & Hc) Hi Hc'. split_and!; [by rewrite length_insert|done|].
  intros j d [(-> & <- & _)|[? Hj]]%list_lookup_insert_Some; [done|by apply Hc].
Qed.

Lemma table_empty k : 0 ≤ k ≤ 31 → table_ok (2 ^ k) (replicate (Z.to_nat (2 ^ k)) []).
Proof.
  intros Hk. pose proof (Z.pow_pos_nonneg 2 k). split_and!.
  - rewrite length_replicate. lia.
  - by exists k.
  - intros i c [-> _]%lookup_replicate. split; constructor.
Qed.

Lemma table_absent size t k i c :
  table_ok size t → t !! i = Some c → hash_value size k = Z.of_nat i →
  match (chain_seek k c).2 with n :: _ => keycmp k n.1 ≠ 0 | [] => True end →
  k ∉ (concat t).*1.
Proof.
  intros Ht Hi Hk Hne. pose proof Ht as (_ & _ & Hc). destruct (Hc _ _ Hi) as [Hs _].
  intros ([k' v'] & -> & Hin)%list_elem_of_fmap.
  destruct (chain_seek_sorted _ v' c Hs Hne) as [Hnin _]. apply Hnin, list_elem_of_fmap.
  exists (k', v'). split; [done|]. by eapply elem_of_bucket.
Qed.

(** Linking a new key into the chain of its hash. *)
Lemma table_link size t k v i c :
  table_ok size t → t !! i = Some c → hash_value size k = Z.of_nat i →
  match (chain_seek k c).2 with n :: _ => keycmp k n.1 ≠ 0 | [] => True end →
  let t' := <[i := (chain_seek k c).1 ++ (k, v) :: (chain_seek k c).2]> t in
  table_ok size t' ∧ concat t' ≡ₚ (k, v) :: concat t ∧ k ∉ (concat t).*1.
Proof.
  intros Ht Hi Hk Hne t'. pose proof Ht as (_ & _ & Hc). destruct (Hc _ _ Hi) as [Hs Hh].
  destruct (chain_seek_sorted k v c Hs Hne) as [Hnin Hs'].
  destruct (chain_seek_spec k c) as (Hsplit & _).
  assert ((chain_seek k c).1 ++ (k, v) :: (chain_seek k c).2 ≡ₚ (k, v) :: c) as Hperm.
  { rewrite <- Permutation_middle. by rewrite <- Hsplit. }
  split_and!.
  - eapply table_update; [done..|]. split; [done|]. rewrite Hperm. by constructor.
  - by eapply concat_insert_perm.
  - by eapply table_absent.
Qed.

(** ** Resizing *)

Lemma resize_target_pow fuel k nel :
  0 ≤ k ≤ 31 → ∃ k', 0 ≤ k' ≤ 31 ∧ resize_target fuel (2 ^ k) nel = 2 ^ k'.
Proof.
  revert k. induction fuel as [|fuel IH]; intros k Hk; [by exists k|]. simpl.
  rewrite Z.mul_comm, <- Z.pow_succ_r by lia. destruct (decide (k = 31)) as [->|].
  { change (u32 (2 ^ Z.succ 31)) with 0. rewrite andb_false_r. by exists 31. }
  assert (u32 (2 ^ Z.succ k) = 2 ^ Z.succ k) as ->.
  { unfold u32. apply Z.mod_small. split; [apply Z.pow_nonneg; lia|apply Z.pow_lt_mono_r; lia]. }
  case_match; [|by exists k]. apply IH. lia.
Qed.

Lemma move_node_spec size t n :
  table_ok size t → n.1 ∉ (concat t).*1 →
  ∃ t', move_node size t n = Some t' ∧ table_ok size t' ∧ concat t' ≡ₚ n :: concat t.
Proof.
  intros Ht Hnin. destruct n as [k v]. unfold move_node; simpl in *.
  destruct (table_bucket _ _ k Ht) as (i & c & Hi & Hk & _ & Hg & Hc & Hset).
  rewrite Hk, Hg. simpl. rewrite Hset. eexists. split; [done|].
  destruct (table_link size t k v i c Ht Hi Hk) as (? & ? & _); [|done].
  destruct (chain_seek_spec k c) as (Hsplit & _).
  destruct (chain_seek k c).2 as [|[k' v'] cur]; [done|]. simpl. intros <-%keycmp_eq.
  apply Hnin, list_elem_of_fmap. exists (k, v'). split; [done|].
  eapply elem_of_bucket; [done..|]. rewrite Hsplit. set_solver.
Qed.

Lemma move_chain_spec size t c :
  table_ok size t → NoDup (c ++ concat t).*1 →
  ∃ t', move_chain size t c = Some t' ∧ table_ok size t' ∧ concat t' ≡ₚ c ++ concat t.
Proof.
  revert t. induction c as [|n c IH]; intros t Ht Hnd; [by eauto|].
  simpl in *. apply NoDup_cons in Hnd as [Hn Hnd].
  destruct (move_node_spec size t n Ht) as (t1 & -> & Ht1 & Hp1).
  { intros Hin. apply Hn. rewrite fmap_app. apply elem_of_app. by right. }
  simpl. assert (c ++ concat t1 ≡ₚ n :: c ++ concat t) as Hp.
  { rewrite Hp1. by rewrite <- Permutation_middle. }
  destruct (IH t1 Ht1) as (t' & -> & Ht' & Hp'); [by rewrite Hp; constructor|].
  exists t'. split_and!; [done..|]. by rewrite Hp'.
Qed.

Lemma move_all_spec todo i old size t :
  length old = (i + todo)%nat → table_ok size t → NoDup (concat (drop i old) ++ concat t).*1 →
  ∃ t', move_all todo (Z.of_nat i) old size t = Some t' ∧ table_ok size t' ∧
    concat t' ≡ₚ concat (drop i old) ++ concat t.
Proof.
  revert i t. induction todo as [|todo IH]; intros i t Hl Ht Hnd; simpl.
  { rewrite drop_ge by lia. by eauto. }
  destruct (lookup_lt_is_Some_2 old i) as [c Hi]; [lia|].
  unfold aget. rewrite (proj2 (Z.ltb_ge _ _)), Nat2Z.id, Hi by lia. simpl.
  rewrite (drop_S _ _ _ Hi) in Hnd |- *. simpl in Hnd |- *.
  rewrite <- app_assoc, fmap_app in Hnd. apply NoDup_app in Hnd as (Hc & Hx & Hnd).
  destruct (move_chain_spec size t c Ht) as (t1 & -> & Ht1 & Hp1).
  { rewrite fmap_app. apply NoDup_app. split_and!; [done| |].
    - intros k Hk Hk'. apply (Hx k Hk). rewrite fmap_app. apply elem_of_app. by right.
    - rewrite fmap_app in Hnd. by apply NoDup_app in Hnd as (_ & _ & ?). }
  assert (concat (drop (S i) old) ++ concat t1 ≡ₚ (c ++ concat (drop (S i) old)) ++ concat t) as Hp.
  { rewrite Hp1, app_assoc. f_equiv. apply Permutation_app_comm. }
  replace (Z.of_nat i + 1) with (Z.of_nat (S i)) by lia. simpl.
  destruct (IH (S i) t1) as (t' & -> & Ht' & Hp'); [lia|done| |].
  { rewrite Hp, <- app_assoc, fmap_app. apply NoDup_app. by split_and!. }
  exists t'. split_and!; [done..|]. by rewrite Hp'.
Qed.

(** [hashtab_check_resize] keeps the map. *)
Lemma check_resize_spec h hp :
  hwf h → wp (hashtab_check_resize h) hp (λ h' hp',
    heap_le hp hp' ∧ hwf h' ∧ concat (ht_table h') ≡ₚ concat (ht_table h)).
Proof.
  intros [Ht Hn]. unfold hashtab_check_resize. cbn zeta. wp_step; [by split_and!|].
  do 2 wp_step; [by split_and!|].
  pose proof (table_NoDup _ _ Ht) as Hnd. pose proof Ht as (Hl & (k & Hk & Hs) & _).
  destruct (resize_target_pow 33 k (ht_nel h) Hk) as (k' & Hk' & Hs').
  rewrite Hs in *. rewrite Hs'.
  destruct (move_all_spec (Z.to_nat (2 ^ k)) 0 (ht_table h) (2 ^ k')
    (replicate (Z.to_nat (2 ^ k')) [])) as (t' & E' & Ht' & Hp'); [lia|by apply table_empty| |].
  { rewrite concat_replicate_nil, app_nil_r. done. }
  rewrite concat_replicate_nil, app_nil_r in Hp'. change (Z.of_nat 0) with 0 in E'.
  simpl in E'. rewrite E'. do 3 wp_step. split_and!; [done| |done].
  split; simpl; [done|]. by rewrite Hp'.
Qed.

(** ** The operations on the map *)

Lemma dict_perm h h' :
  hwf h → concat (ht_table h') ≡ₚ concat (ht_table h) → dict h' = dict h.
Proof.
  intros [Ht _] Hp. unfold dict. symmetry. apply list_to_map_proper; [by eapply table_NoDup|done].
Qed.

Lemma dict_lookup h k v : hwf h → dict h !! k = Some v ↔ (k, v) ∈ concat (ht_table h).
Proof. intros [Ht _]. symmetry. apply elem_of_list_to_map. by eapply table_NoDup. Qed.

Lemma dict_none h k : dict h !! k = None ↔ k ∉ (concat (ht_table h)).*1.
Proof. split; [by apply not_elem_of_list_to_map_2|apply not_elem_of_list_to_map_1]. Qed.

(** What the chain says about the map. *)
Lemma seek_dict h k i c :
  hwf h → ht_table h !! i = Some c → hash_value (ht_size h) k = Z.of_nat i →
  dict h !! k =
    match (chain_seek k c).2 with
    | n :: _ => if keycmp k n.1 =? 0 then Some n.2 else None
    | [] => None
    end.
Proof.
  intros Hwf Hi Hk. pose proof Hwf as [Ht _]. destruct (chain_seek_spec k c) as (Hs & _).
  destruct (chain_seek k c).2 as [|[k' v'] cur] eqn:E; [|destruct (Z.eqb_spec (keycmp k k') 0) as [Hz|Hne]].
  - apply dict_none. apply (table_absent _ _ _ _ _ Ht Hi Hk). by rewrite E.
  - simpl. rewrite Hz. simpl. apply keycmp_eq in Hz as <-. apply dict_lookup; [done|].
    eapply elem_of_bucket; [done..|]. rewrite Hs. simpl. set_solver.
  - simpl. rewrite (proj2 (Z.eqb_neq _ _)) by done.
    apply dict_none. apply (table_absent _ _ _ _ _ Ht Hi Hk). by rewrite E.
Qed.

Lemma search_spec h k : hwf h → hashtab_search (Some h) k = Some (dict h !! k).
Proof.
  intros Hwf. destruct (table_bucket _ _ k (proj1 Hwf)) as (i & c & Hi & Hk & Hs & Hg & _).
  unfold hashtab_search. rewrite Hs, Hg. simpl. rewrite (seek_dict h k i c) by done.
  destruct (chain_seek k c).2 as [|n cur]; [done|]. by destruct (keycmp k n.1 =? 0).
Qed.

Definition insert_outcome h k v (hp : heap) (r : Z * option (hashtab K V)) : Prop :=
  ∃ h', r.2 = Some h' ∧ hwf h' ∧
    ((r.1 = SEPOL_OK ∧ dict h !! k = None ∧ dict h' = <[k := v]> (dict h)) ∨
     (r.1 = SEPOL_EEXIST ∧ is_Some (dict h !! k) ∧ dict h' = dict h) ∨
     (r.1 = SEPOL_ENOMEM ∧ dict h !! k = None ∧ dict h' = dict h ∧ hp_oom hp ≠ [])).

Lemma insert_spec h k v hp :
  hwf h → wp (hashtab_insert (Some h) k v) hp (λ r hp', heap_le hp hp' ∧ insert_outcome h k v hp r).
Proof.
  intros Hwf0. unfold hashtab_insert. wp_step. eapply wp_mono; [by apply check_resize_spec|].
  intros h1 hp1 (Hle & Hwf & Hp). pose proof (dict_perm h h1 Hwf0 Hp) as Hd.
  destruct (table_bucket _ _ k (proj1 Hwf)) as (i & c & Hi & Hk & Hs & Hg & _ & Hset).
  rewrite Hs, Hg. do 2 wp_step. pose proof (seek_dict h1 k i c Hwf Hi Hk) as Hseek.
  rewrite Hd in Hseek. cbn zeta. wp_step.
  { wp_step. split; [done|]. exists h1. split_and!; [done..|]. right. left. split_and!; [done| |done].
    rewrite Hseek. destruct (chain_seek k c).2 as [|n cur]; [done|]. by rewrite E. }
  assert (dict h !! k = None) as Hnone.
  { rewrite Hseek. destruct (chain_seek k c).2 as [|n cur]; [done|]. by rewrite E. }
  do 2 wp_step.
  { wp_step. split; [by etrans|]. exists h1. split_and!; [done..|]. right. right. split_and!; [done..|].
    by eapply heap_le_oom. }
  rewrite Hset. do 3 wp_step. split; [by etrans|]. eexists. split; [done|].
  destruct (table_link (ht_size h1) (ht_table h1) k v i c (proj1 Hwf) Hi Hk) as (Ht' & Hp' & Hnin).
  { destruct (chain_seek k c).2 as [|n cur]; [done|]. by apply Z.eqb_neq. }
  split.
  - split; [done|]. simpl. rewrite (proj2 Hwf), Hp'. simpl. unfold u32.
    rewrite Zplus_mod_idemp_l. f_equal. lia.
  - left. split_and!; [done..|]. rewrite <- Hd. unfold dict; simpl.
    change (list_to_map (concat (<[i:=(chain_seek k c).1 ++ (k, v) :: (chain_seek k c).2]> (ht_table h1)))
            = (list_to_map ((k, v) :: concat (ht_table h1)) : gmap K V)).
    apply list_to_map_proper; [|done]. by eapply table_NoDup.
Qed.

Lemma remove_spec h k :
  hwf h → ∃ rc h' e, hashtab_remove (Some h) k = Some (rc, Some h', e) ∧ hwf h' ∧
    ((∃ v, rc = SEPOL_OK ∧ dict h !! k = Some v ∧ e = Some (k, v) ∧ dict h' = delete k (dict h)) ∨
     (rc = SEPOL_ENOENT ∧ dict h !! k = None ∧ e = None ∧ h' = h)).
Proof.
  intros Hwf. destruct (table_bucket _ _ k (proj1 Hwf)) as (i & c & Hi & Hk & Hs & Hg & Hc & Hset).
  unfold hashtab_remove. rewrite Hs, Hg. simpl. pose proof (seek_dict h k i c Hwf Hi Hk) as Hseek.
  destruct (chain_seek_spec k c) as (Hsplit & _).
  destruct (chain_seek k c).2 as [|[k' v'] cur]; [by naive_solver|]. simpl in *.
  destruct (Z.eqb_spec (keycmp k k') 0) as [<-%keycmp_eq|Hne]; simpl; [|by naive_solver].
  rewrite Hset. simpl. do 3 eexists. split; [done|].
  assert (concat (ht_table h) ≡ₚ
    (k, v') :: concat (<[i := (chain_seek k c).1 ++ cur]> (ht_table h))) as Hp.
  { rewrite <- (list_insert_id (ht_table h) i c Hi) at 1.
    rewrite <- (list_insert_insert_eq (ht_table h) i c ((chain_seek k c).1 ++ cur)).
    apply concat_insert_perm with (c := (chain_seek k c).1 ++ cur).
    - apply list_lookup_insert_eq. by eapply lookup_lt_Some.
    - rewrite Permutation_middle. by rewrite <- Hsplit. }
  assert (table_ok (ht_size h) (<[i:=(chain_seek k c).1 ++ cur]> (ht_table h))) as Ht'.
  { eapply table_update; [apply Hwf|done|]. destruct Hc as [Hss Hh]. rewrite Hsplit in Hss, Hh.
    split.
    - apply sorted_app in Hss as (Hx & H1 & [H2 _]%StronglySorted_inv). apply sorted_app.
      split_and!; [|done..]. intros a b Ha Hb. apply Hx; [done|]. apply elem_of_cons. by right.
    - apply Forall_app in Hh as [? [_ ?]%Forall_cons]. by apply Forall_app. }
  split.
  - split; [done|]. simpl. rewrite (proj2 Hwf), Hp. simpl. unfold u32.
    rewrite Zminus_mod_idemp_l. f_equal. lia.
  - left. exists v'. split_and!; [done..|]. unfold dict at 2.
    rewrite (list_to_map_proper _ _ (table_NoDup _ _ (proj1 Hwf)) Hp). simpl.
    rewrite delete_insert_id; [done|]. apply not_elem_of_list_to_map_1.
    pose proof (table_NoDup _ _ (proj1 Hwf)) as Hnd. rewrite Hp in Hnd.
    by apply NoDup_cons in Hnd as [? _].
Qed.

Lemma create_spec k hp :
  0 ≤ k ≤ 31 → wp (hashtab_create (K := K) (V := V) (2 ^ k)) hp (λ r hp', heap_le hp hp' ∧
    match r with Some h => hwf h ∧ dict h = ∅ ∧ ht_size h = 2 ^ k | None => hp_oom hp ≠ [] end).
Proof.
  intros Hk. unfold hashtab_create. do 2 wp_step; [done|]. do 2 wp_step.
  { split; [by etrans|]. by eapply heap_le_oom. }
  split; [by etrans|]. pose proof (table_empty k Hk) as Ht. split_and!; [split; [done|]|..]; simpl.
  - by rewrite concat_replicate_nil.
  - unfold dict. simpl. by rewrite concat_replicate_nil.
  - done.
Qed.

(** [hashtab_map] is one pass over the entries. *)
Lemma map_chain_app {St} (apply : K → V → St → M (Z * St)) c1 c2 s hp :
  map_chain apply (c1 ++ c2) s hp =
    (r ← map_chain apply c1 s; if nz r.1 then mret r else map_chain apply c2 r.2) hp.
Proof.
  revert s hp. induction c1 as [|n c1 IH]; intros s hp; [done|]. simpl. unfold mbind, M_bind.
  destruct (apply n.1 n.2 s hp) as [[[rc s'] hp']|]; [|done]. simpl.
  destruct (nz rc) eqn:E; simpl; [by rewrite E|]. apply IH.
Qed.

Lemma map_buckets_spec {St} (apply : K → V → St → M (Z * St)) todo i t s hp :
  length t = (i + todo)%nat →
  map_buckets apply todo (Z.of_nat i) t s hp = map_chain apply (concat (drop i t)) s hp.
Proof.
  revert i s hp. induction todo as [|todo IH]; intros i s hp Hl; simpl.
  { by rewrite drop_ge by lia. }
  destruct (lookup_lt_is_Some_2 t i) as [c Hi]; [lia|].
  unfold aget. rewrite (proj2 (Z.ltb_ge _ _)), Nat2Z.id, Hi by lia.
  rewrite (drop_S _ _ _ Hi). simpl. rewrite map_chain_app. unfold mbind, M_bind. simpl.
  destruct (map_chain apply c s hp) as [[[rc s'] hp']|]; [|done]. simpl.
  destruct (nz rc); [done|]. replace (Z.of_nat i + 1) with (Z.of_nat (S i)) by lia. apply IH. lia.
Qed.

Lemma map_spec {St} (apply : K → V → St → M (Z * St)) h s hp :
  hwf h → hashtab_map (Some h) apply s hp = map_chain apply (concat (ht_table h)) s hp.
Proof.
  intros [(Hl & _) _]. unfold hashtab_map. apply (map_buckets_spec apply _ 0). lia.
Qed.
End facts.

(** ** The keys of the policy database *)

Lemma land_lt x size : 0 < size < 2 ^ 32 → 0 ≤ Z.land x (u32 (size - 1)) < size.
Proof.
  intros Hs. unfold u32. rewrite Z.mod_small by lia.
  destruct (Z.ldiff_le (Z.land x (size - 1)) (size - 1)); [lia| |lia].
  apply Z.bits_inj'. intros n Hn. rewrite Z.ldiff_spec, Z.land_spec, Z.bits_0. btauto.
Qed.

Lemma strcmp_eq s1 s2 : strcmp s1 s2 = 0 ↔ s1 = s2.
Proof.
  revert s2. induction s1 as [|a s1 IH]; intros [|b s2]; simpl; [done..|].
  destruct (N.compare_spec (Ascii.N_of_ascii a) (Ascii.N_of_ascii b)) as [E|E|E].
  - rewrite IH. assert (a = b) as ->; [|naive_solver].
    by rewrite <- (Ascii.ascii_N_embedding a), <- (Ascii.ascii_N_embedding b), E.
  - split; [done|]. intros [= -> ->]. lia.
  - split; [done|]. intros [= -> ->]. lia.
Qed.

Lemma strcmp_anti s1 s2 : strcmp s1 s2 = - strcmp s2 s1.
Proof.
  revert s2. induction s1 as [|a s1 IH]; intros [|b s2]; simpl; [done..|].
  rewrite (N.compare_antisym (Ascii.N_of_ascii b)).
  destruct (N.compare (Ascii.N_of_ascii b) (Ascii.N_of_ascii a)); simpl; auto.
Qed.

Lemma strcmp_trans s1 s2 s3 : strcmp s1 s2 < 0 → strcmp s2 s3 < 0 → strcmp s1 s3 < 0.
Proof.
  revert s2 s3. induction s1 as [|a s1 IH]; intros [|b s2] [|c s3]; simpl; try lia.
  destruct (N.compare_spec (Ascii.N_of_ascii a) (Ascii.N_of_ascii b)) as [E|E|E]; [rewrite E|..];
    destruct (N.compare_spec (Ascii.N_of_ascii b) (Ascii.N_of_ascii c)) as [E'|E'|E']; try lia.
  - eauto.
  - rewrite <- E'. by rewrite (proj2 (N.compare_lt_iff _ _) E).
  - intros _ _. by rewrite (proj2 (N.compare_lt_iff _ _) (N.lt_trans _ _ _ E E')).
Qed.

#[global] Instance sym_key_laws : HashKeyLaws string.
Proof.
  split; simpl; unfold symcmp.
  - apply strcmp_eq.
  - intros x y. rewrite (strcmp_anti x y). lia.
  - apply strcmp_trans.
  - intros size x Hs. by apply land_lt.
Qed.

Lemma spaceship_spec a b :
  (a < b ∧ spaceship_cmp a b = -1) ∨ (a = b ∧ spaceship_cmp a b = 0) ∨ (b < a ∧ spaceship_cmp a b = 1).
Proof. unfold spaceship_cmp. rewrite Z.gtb_ltb. destruct (Z.ltb_spec a b), (Z.ltb_spec b a); simpl; lia. Qed.

(** [rangetr_cmp] is the lexicographic comparison. *)
Lemma rangetr_cmp_spec x y :
  let '(RangeTrans a b c) := x in
  let '(RangeTrans a' b' c') := y in
  (rangetr_cmp x y = -1 ∧ (a < a' ∨ a = a' ∧ (b < b' ∨ b = b' ∧ c < c'))) ∨
  (rangetr_cmp x y = 0 ∧ a = a' ∧ b = b' ∧ c = c') ∨
  (rangetr_cmp x y = 1 ∧ (a' < a ∨ a = a' ∧ (b' < b ∨ b = b' ∧ c' < c))).
Proof.
  destruct x as [a b c], y as [a' b' c']. unfold rangetr_cmp; simpl.
  destruct (spaceship_spec a a') as [[? ->]|[[? ->]|[? ->]]]; simpl; [lia| |lia].
  destruct (spaceship_spec b b') as [[? ->]|[[? ->]|[? ->]]]; simpl; [lia| |lia].
  destruct (spaceship_spec c c') as [[? ->]|[[? ->]|[? ->]]]; simpl; lia.
Qed.

#[global] Instance rangetr_key_laws : HashKeyLaws range_trans.
Proof.
  split; simpl.
  - intros x y. pose proof (rangetr_cmp_spec x y). destruct x, y. split; [|intros [= -> -> ->]; lia].
    intros. f_equal; lia.
  - intros x y. pose proof (rangetr_cmp_spec x y). pose proof (rangetr_cmp_spec y x).
    destruct x, y. lia.
  - intros x y z. pose proof (rangetr_cmp_spec x y). pose proof (rangetr_cmp_spec y z).
    pose proof (rangetr_cmp_spec x z). destruct x, y, z. lia.
  - intros size x Hs. by apply land_lt.
Qed.

(** [filenametr_cmp] is the lexicographic comparison. *)
Lemma filenametr_cmp_spec x y :
  let '(FilenameTransKey a b s) := x in
  let '(FilenameTransKey a' b' s') := y in
  (a < a' ∧ filenametr_cmp x y = -1) ∨ (a' < a ∧ filenametr_cmp x y = 1) ∨
  (a = a' ∧ ((b < b' ∧ filenametr_cmp x y = -1) ∨ (b' < b ∧ filenametr_cmp x y = 1) ∨
             (b = b' ∧ filenametr_cmp x y = strcmp s s'))).
Proof.
  destruct x as [a b s], y as [a' b' s']. unfold filenametr_cmp; simpl.
  destruct (spaceship_spec a a') as [[? ->]|[[? ->]|[? ->]]]; simpl; [by left| |by right; left]. do 2 right. split; [done|].
  destruct (spaceship_spec b b') as [[? ->]|[[? ->]|[? ->]]]; simpl; auto.
Qed.

#[global] Instance filenametr_key_laws : HashKeyLaws filename_trans_key.
Proof.
  split; simpl.
  - intros x y. pose proof (filenametr_cmp_spec x y) as H. destruct x as [a b s], y as [a' b' s']. pose proof (strcmp_eq s s') as E. split.
    + intros H0. assert (a = a' ∧ b = b' ∧ strcmp s s' = 0) as (-> & -> & ->%E) by lia. done.
    + intros [= -> -> ->]. pose proof (proj2 E eq_refl). lia.
  - intros x y. pose proof (filenametr_cmp_spec x y). pose proof (filenametr_cmp_spec y x).
    destruct x as [a b s], y as [a' b' s']. pose proof (strcmp_anti s s'). lia.
  - intros x y z. pose proof (filenametr_cmp_spec x y). pose proof (filenametr_cmp_spec y z).
    pose proof (filenametr_cmp_spec x z). destruct x as [a b s], y as [a' b' s'], z as [a'' b'' s''].
    pose proof (strcmp_trans s s' s''). lia.
  - intros size x Hs. pose proof (land_lt (name_hash (ft_name x) (Z.lxor (ft_ttype x) (ft_tclass x))) size Hs) as Hr.
    unfold filenametr_hash. rewrite u32_id by lia. done.
Qed.
