(* ===== verification/HashtabSpec.v ===== *)
(** * What hash tables promise

    A specification of a table as a transition system over finite maps, and the
    theorem that every sequence of table operations is one of its runs. *)

From S2P Require Import Prelude Hashtab HashtabFacts.

Section spec.
Context {K : Type} `{HK : !HashKey K, HL : !HashKeyLaws K, !EqDecision K, !Countable K} {V : Type}.

(** The operations of a client. *)
Inductive table_op := Insert (k : K) (v : V) | Remove (k : K) | Find (k : K).

(** What the client sees: a return code, or a datum. *)
Inductive table_reply := Code (rc : Z) | Datum (d : option V).

(** The specification: a finite map whose insertion may run out of memory. *)
Inductive map_step (m : gmap K V) : table_op → table_reply → gmap K V → Prop :=
  | step_insert k v : m !! k = None → map_step m (Insert k v) (Code SEPOL_OK) (<[k := v]> m)
  | step_exists k v : is_Some (m !! k) → map_step m (Insert k v) (Code SEPOL_EEXIST) m
  | step_nomem k v : m !! k = None → map_step m (Insert k v) (Code SEPOL_ENOMEM) m
  | step_remove k : is_Some (m !! k) → map_step m (Remove k) (Code SEPOL_OK) (delete k m)
  | step_absent k : m !! k = None → map_step m (Remove k) (Code SEPOL_ENOENT) m
  | step_search k : map_step m (Find k) (Datum (m !! k)) m.

Inductive map_run : gmap K V → list (table_op * table_reply) → gmap K V → Prop :=
  | run_nil m : map_run m [] m
  | run_cons m m1 m2 op r tr :
      map_step m op r m1 → map_run m1 tr m2 → map_run m ((op, r) :: tr) m2.

(** The implementation. *)
Definition table_step (h : option (hashtab K V)) (op : table_op) :
    M (table_reply * option (hashtab K V)) :=
  match op with
  | Insert k v => r ← hashtab_insert h k v; mret (Code r.1, r.2)
  | Remove k => r ← get (hashtab_remove h k); mret (Code r.1.1, r.1.2)
  | Find k => r ← get (hashtab_search h k); mret (Datum r, h)
  end.

Fixpoint table_run (h : option (hashtab K V)) (ops : list table_op) :
    M (list (table_op * table_reply) * option (hashtab K V)) :=
  match ops with
  | [] => mret ([], h)
  | op :: ops =>
     r ← table_step h op;
     q ← table_run r.2 ops;
     mret ((op, r.1) :: q.1, q.2)
  end.

Lemma table_step_sim h op hp :
  hwf h → wp (table_step (Some h) op) hp (λ r hp', heap_le hp hp' ∧
    ∃ h', r.2 = Some h' ∧ hwf h' ∧ map_step (dict h) op r.1 (dict h')).
Proof.
  intros Hwf. destruct op as [k v|k|k]; cbn [table_step].
  - wp_step. eapply wp_mono; [by apply insert_spec|].
    intros [rc oh] hp' [Hle (h' & Hh & Hwf' & Hout)]. simpl in *. wp_step. split; [done|].
    exists h'. split_and!; [done..|].
    destruct Hout as [(-> & ? & ->)|[(-> & ? & ->)|(-> & ? & -> & _)]]; by constructor.
  - destruct (remove_spec h k Hwf) as (rc & h' & e & -> & Hwf' & Hout). do 3 wp_step. split; [done|].
    exists h'. split_and!; [done..|].
    destruct Hout as [(v & -> & Hk & _ & ->)|(-> & ? & _ & ->)]; constructor; [by rewrite Hk|done].
  - rewrite search_spec by done. do 3 wp_step. split; [done|].
    exists h. split_and!; [done..|]. constructor.
Qed.

Lemma table_run_sim ops h hp :
  hwf h → wp (table_run (Some h) ops) hp (λ r _,
    ∃ h', r.2 = Some h' ∧ hwf h' ∧ map_run (dict h) r.1 (dict h')).
Proof.
  revert h hp. induction ops as [|op ops IH]; intros h hp Hwf; simpl.
  { exists h. split_and!; [done..|]. constructor. }
  wp_step. eapply wp_mono; [by apply table_step_sim|].
  intros [r oh] hp1 (_ & h1 & Hh & Hwf1 & Hstep). simpl in *. subst oh. wp_step.
  eapply wp_mono; [by apply IH|]. intros [tr oh] hp2 (h2 & Hh2 & Hwf2 & Hrun). simpl in *.
  exists h2. split_and!; [done..|]. by econstructor.
Qed.

(** C13: A hash table is a finite map.  A table created with a power of two
    buckets, or not created for lack of memory, answers every sequence of
    insertions, removals and searches as a finite map does, through all
    resizings; no access leaves the bucket array, and the entry count is the size
    of the map modulo 2^32. *)
Theorem hashtab_refines_map k ops hp :
  0 ≤ k ≤ 31 →
  wp (h ← hashtab_create (2 ^ k); r ← table_run h ops; mret (h, r)) hp (λ p _,
    match p.1 with
    | None => hp_oom hp ≠ []
    | Some _ =>
       ∃ h' m, p.2.2 = Some h' ∧ map_run ∅ p.2.1 m ∧
         (∀ key, hashtab_search (Some h') key = Some (m !! key)) ∧
         ht_nel h' = u32 (Z.of_nat (size m))
    end).
Proof.
  intros Hk. wp_step. eapply wp_mono; [by apply create_spec|].
  intros [h|] hp1 [_ Hc]; cycle 1.
  { wp_step. eapply wp_mono with (Q := λ _ _, True); [|by intros].
    clear. revert hp1. induction ops as [|[] ops IH]; intros hp1; simpl; [done|..];
      repeat wp_step; (eapply wp_mono; [apply IH|]); by intros. }
  destruct Hc as (Hwf & Hd & _). wp_step. eapply wp_mono; [by apply table_run_sim|].
  intros [tr oh] hp2 (h' & Hh & Hwf' & Hrun). simpl in *. exists h', (dict h').
  rewrite Hd in Hrun. split_and!; [done..|by intros; apply search_spec|].
  destruct Hwf' as [Ht ->]. unfold dict. f_equal. f_equal. symmetry.
  apply map_size_list_to_map. by eapply table_NoDup.
Qed.

End spec.
Arguments table_op : clear implicits.

Lemma hashtab_refines_map_witness :
  wp (h ← hashtab_create (K := string) (V := Z) (2 ^ 1);
      r ← table_run h [Insert "user" 1; Insert "role" 2; Insert "type" 3; Insert "role" 4;
                       Remove "user"; Find "role"]; mret (h, r)) (Heap 0 []) (λ p _,
    match p.1 with
    | None => hp_oom (Heap 0 []) ≠ []
    | Some _ =>
       ∃ h' m, p.2.2 = Some h' ∧ map_run ∅ p.2.1 m ∧
         (∀ key, hashtab_search (Some h') key = Some (m !! key)) ∧
         ht_nel h' = u32 (Z.of_nat (size m))
    end).
Proof. apply (hashtab_refines_map (HL := sym_key_laws) 1). lia. Defined.

(** A table with the given entries, for examples. *)
Definition ht_of {K V} `{HashKey K} (k : Z) (l : list (K * V)) : option (hashtab K V) :=
  match (h ← hashtab_create (2 ^ k); table_run h ((λ e, Insert e.1 e.2) <$> l)) (Heap 0 []) with
  | Some (r, _) => r.2
  | None => None
  end.

Lemma ht_of_wf {K V} `{HashKey K, !HashKeyLaws K, !EqDecision K, !Countable K} k (l : list (K * V)) :
  0 ≤ k ≤ 31 → ∃ h, ht_of k l = Some h ∧ hwf h.
Proof.
  intros Hk. unfold ht_of.
  assert (wp (h ← hashtab_create (2 ^ k); table_run h ((λ e, Insert e.1 e.2) <$> l)) (Heap 0 [])
    (λ r _, ∃ h, r.2 = Some h ∧ hwf h)) as Hwp.
  { wp_step. eapply wp_mono; [by apply create_spec|]. intros [h|] hp [_ Hc]; [|done].
    destruct Hc as (Hwf & _). eapply wp_mono; [by apply table_run_sim|].
    intros r hp' (h' & ? & ? & _). eauto. }
  unfold wp in Hwp. by case_match; [case_match|].
Qed.

Lemma ht_of_entries {K V} `{HashKey K, !HashKeyLaws K, !EqDecision K, !Countable K} k (l : list (K * V)) (Q : K → V → Prop) h :
  0 ≤ k ≤ 31 → ht_of k l = Some h → Forall (λ e, Q e.1 e.2) l → hwf h ∧ Forall (λ e, Q e.1 e.2) (concat (ht_table h)).
Proof.
  intros Hk Hh Hl. assert (∀ l h hp, Forall (λ e, Q e.1 e.2) l → hwf h → map_Forall Q (dict h) →
    wp (table_run (Some h) ((λ e, Insert e.1 e.2) <$> l)) hp (λ r _, ∃ h', r.2 = Some h' ∧ hwf h' ∧ map_Forall Q (dict h'))) as Hrun.
  { clear -HashKeyLaws0. induction l as [|[k v] l IH]; intros h hp Hl Hw Hd; cbn [fmap list_fmap table_run]; [wp_step; by exists h|].
    apply Forall_cons in Hl as [Hv Hl]. wp_step. eapply wp_mono; [by apply table_step_sim|].
    intros [r oh] hp1 (_ & h1 & E & Hw1 & Hstep). simpl in E, Hstep. subst oh. wp_step. cbn [snd].
    eapply wp_mono; [apply IH; [done|done|]|].
    - remember (dict h1) as m1. inversion Hstep; subst; [by apply map_Forall_insert_2|done..].
    - intros [tr oh] hp2 Ho. by wp_step. }
  assert (wp (h ← hashtab_create (2 ^ k); table_run h ((λ e, Insert e.1 e.2) <$> l)) (Heap 0 [])
    (λ r _, ∃ h, r.2 = Some h ∧ hwf h ∧ map_Forall Q (dict h))) as Hwp.
  { wp_step. eapply wp_mono; [by apply create_spec|]. intros [h0|] hp [_ Hc]; [|done].
    destruct Hc as (Hwf & Hd & _). apply Hrun; [done|done|]. rewrite Hd. apply map_Forall_empty. }
  apply wp_run in Hwp as (r & hp & E & h' & Hr & Hw & Hd). unfold ht_of in Hh. rewrite E in Hh. cbn [snd] in Hh.
  rewrite Hh in Hr. injection Hr as <-. split; [done|]. apply Forall_forall. intros [k' v] He. by apply (Hd k'), dict_lookup.
Qed.
