(* ===== verification/Avtab.v ===== *)
(** * Access vector tables

    [src/avtab.c] and [include/sepol/policydb/avtab.h]: the hash table of type
    enforcement rules.  A node carries the address [malloc] gave it, since the
    conditional rules point at nodes of the table; a node pointer that is only
    followed is the list from that node on. *)

From S2P Require Import Prelude PolicyFile.

(** ** Keys and data *)

Definition AVTAB_ALLOWED : Z := 0x0001.
Definition AVTAB_AUDITALLOW : Z := 0x0002.
Definition AVTAB_AUDITDENY : Z := 0x0004.
Definition AVTAB_AV : Z := Z.lor (Z.lor AVTAB_ALLOWED AVTAB_AUDITALLOW) AVTAB_AUDITDENY.
Definition AVTAB_TRANSITION : Z := 0x0010.
Definition AVTAB_MEMBER : Z := 0x0020.
Definition AVTAB_CHANGE : Z := 0x0040.
Definition AVTAB_TYPE : Z := Z.lor (Z.lor AVTAB_TRANSITION AVTAB_MEMBER) AVTAB_CHANGE.
Definition AVTAB_XPERMS_ALLOWED : Z := 0x0100.
Definition AVTAB_XPERMS_AUDITALLOW : Z := 0x0200.
Definition AVTAB_XPERMS_DONTAUDIT : Z := 0x0400.
Definition AVTAB_XPERMS : Z :=
  Z.lor (Z.lor AVTAB_XPERMS_ALLOWED AVTAB_XPERMS_AUDITALLOW) AVTAB_XPERMS_DONTAUDIT.
Definition AVTAB_ENABLED_OLD : Z := 0x80000000.
Definition AVTAB_ENABLED : Z := 0x8000.

Record avtab_key := AvtabKey {
  ak_source_type : Z;
  ak_target_type : Z;
  ak_target_class : Z;
  ak_specified : Z
}.

#[global] Instance avtab_key_eq_dec : EqDecision avtab_key.
Proof. solve_decision. Defined.

Record avtab_extended_perms := Xperms {
  xp_specified : Z;
  xp_driver : Z;
  xp_perms : list Z
}.

#[global] Instance avtab_extended_perms_eq_dec : EqDecision avtab_extended_perms.
Proof. solve_decision. Defined.

Record avtab_datum := AvtabDatum {
  ad_data : Z;
  ad_xperms : option avtab_extended_perms
}.

#[global] Instance avtab_datum_eq_dec : EqDecision avtab_datum.
Proof. solve_decision. Defined.

Record avtab_node := AvtabNode {
  an_addr : Z;
  an_key : avtab_key;
  an_datum : avtab_datum
}.

Record avtab := Avtab {
  av_htable : option (list (list avtab_node));
  av_nel : Z;
  av_nslot : Z;
  av_mask : Z
}.

(** ** Hashing *)

(** One [mix] step of the hash and its finalisation, at 32 bits. *)
Definition mix (hash input : Z) : Z :=
  let v := u32 (input * 0xcc9e2d51) in
  let v := Z.lor (u32 (Z.shiftl v 15)) (Z.shiftr v (32 - 15)) in
  let v := u32 (v * 0x1b873593) in
  let hash := Z.lxor hash v in
  let hash := Z.lor (u32 (Z.shiftl hash 13)) (Z.shiftr hash (32 - 13)) in
  u32 (u32 (hash * 5) + 0xe6546b64).

Definition avtab_hash (key : avtab_key) (mask : Z) : Z :=
  let hash := mix 0 (ak_target_class key) in
  let hash := mix hash (ak_target_type key) in
  let hash := mix hash (ak_source_type key) in
  let hash := Z.lxor hash (Z.shiftr hash 16) in
  let hash := u32 (hash * 0x85ebca6b) in
  let hash := Z.lxor hash (Z.shiftr hash 13) in
  let hash := u32 (hash * 0xc2b2ae35) in
  let hash := Z.lxor hash (Z.shiftr hash 16) in
  s32 (Z.land hash mask).

(** ** Chains *)

(** [key->specified & ~(AVTAB_ENABLED | AVTAB_ENABLED_OLD)] as a [uint16_t]. *)
Definition specified_of (spec : Z) : Z :=
  u16 (Z.ldiff spec (Z.lor AVTAB_ENABLED AVTAB_ENABLED_OLD)).

(** The three tests of every loop over a chain. *)
Definition key_match (key : avtab_key) (specified : Z) (cur : avtab_key) : bool :=
  (ak_source_type key =? ak_source_type cur) && (ak_target_type key =? ak_target_type cur) &&
  (ak_target_class key =? ak_target_class cur) && nz (Z.land specified (ak_specified cur)).

Definition key_before (key cur : avtab_key) : bool :=
  (ak_source_type key <? ak_source_type cur) ||
  (ak_source_type key =? ak_source_type cur) && (ak_target_type key <? ak_target_type cur) ||
  (ak_source_type key =? ak_source_type cur) && (ak_target_type key =? ak_target_type cur) &&
    (ak_target_class key <? ak_target_class cur).

(** The loop: the nodes passed, and the nodes from the one it stopped at. *)
Fixpoint avtab_walk (key : avtab_key) (specified : Z) (cur : list avtab_node) :
    list avtab_node * list avtab_node :=
  match cur with
  | [] => ([], [])
  | n :: next =>
     if key_match key specified (an_key n) || key_before key (an_key n) then ([], cur)
     else let r := avtab_walk key specified next in (n :: r.1, r.2)
  end.

(** Whether the loop stopped at a match. *)
Definition stopped_at_match (key : avtab_key) (specified : Z) (cur : list avtab_node) : bool :=
  match cur with n :: _ => key_match key specified (an_key n) | [] => false end.

(** ** Insertion *)

(** [avtab_insert_node] with the chain split at the insertion point: the new
    node ([None] for [NULL]) and the table. *)
Definition avtab_insert_node (h : avtab) (t : list (list avtab_node)) (hvalue : Z)
    (pre rest : list avtab_node) (key : avtab_key) (datum : avtab_datum) :
    M (option avtab_node * avtab) :=
  newnode ← malloc;
  match newnode with
  | None => mret (None, h)
  | Some addr =>
     d ← (if nz (Z.land (ak_specified key) AVTAB_XPERMS) then
            xperms ← malloc;
            match xperms with
            | None => mret None
            | Some _ =>
               mret (Some (AvtabDatum (ad_data datum)
                 (Some (match ad_xperms datum with
                        | Some x => x
                        | None => Xperms 0 0 (replicate 8 0)
                        end))))
            end
          else mret (Some datum));
     match d with
     | None => mret (None, h)
     | Some d =>
        let n := AvtabNode addr key d in
        t ← get (aset t hvalue (pre ++ n :: rest));
        mret (Some n, Avtab (Some t) (u32 (av_nel h + 1)) (av_nslot h) (av_mask h))
     end
  end.

Definition avtab_insert (h : avtab) (key : avtab_key) (datum : avtab_datum) : M (Z * avtab) :=
  let specified := specified_of (ak_specified key) in
  match av_htable h with
  | None => mret (SEPOL_ENOMEM, h)
  | Some t =>
     let hvalue := avtab_hash key (av_mask h) in
     chain ← get (aget t hvalue);
     let p := avtab_walk key specified chain in
     if stopped_at_match key specified p.2 && negb (nz (Z.land specified AVTAB_XPERMS))
     then mret (SEPOL_EEXIST, h)
     else
       '(n, h) ← avtab_insert_node h t hvalue p.1 p.2 key datum;
       match n with
       | None => mret (SEPOL_ENOMEM, h)
       | Some _ => mret (0, h)
       end
  end.

Definition avtab_insert_nonunique (h : avtab) (key : avtab_key) (datum : avtab_datum) :
    M (option avtab_node * avtab) :=
  let specified := specified_of (ak_specified key) in
  match av_htable h with
  | None => mret (None, h)
  | Some t =>
     let hvalue := avtab_hash key (av_mask h) in
     chain ← get (aget t hvalue);
     let p := avtab_walk key specified chain in
     avtab_insert_node h t hvalue p.1 p.2 key datum
  end.

(** ** Lookup *)

(** The result is [Some None] for [NULL]. *)
Definition avtab_search (h : avtab) (key : avtab_key) : option (option avtab_datum) :=
  let specified := specified_of (ak_specified key) in
  match av_htable h with
  | None => Some None
  | Some t =>
     chain ← aget t (avtab_hash key (av_mask h));
     match (avtab_walk key specified chain).2 with
     | n :: _ => if key_match key specified (an_key n) then Some (Some (an_datum n)) else Some None
     | [] => Some None
     end
  end.

(** A node pointer is the chain from the node on; [[]] is [NULL]. *)
Definition avtab_search_node (h : avtab) (key : avtab_key) : option (list avtab_node) :=
  let specified := specified_of (ak_specified key) in
  match av_htable h with
  | None => Some []
  | Some t =>
     chain ← aget t (avtab_hash key (av_mask h));
     let cur := (avtab_walk key specified chain).2 in
     Some (if stopped_at_match key specified cur then cur else [])
  end.

Definition avtab_search_node_next (node : list avtab_node) (specified : Z) : list avtab_node :=
  match node with
  | [] => []
  | n :: next =>
     let specified := Z.ldiff specified (Z.lor AVTAB_ENABLED AVTAB_ENABLED_OLD) in
     let cur := (avtab_walk (an_key n) specified next).2 in
     if stopped_at_match (an_key n) specified cur then cur else []
  end.

(** The loop [for (node = avtab_search_node(h, key); node;
    node = avtab_search_node_next(node, key->specified))] of the clients: the
    nodes its body runs on. *)
Fixpoint search_nodes_from (fuel : nat) (node : list avtab_node) (specified : Z) :
    option (list avtab_node) :=
  match node with
  | [] => Some []
  | n :: _ =>
     match fuel with
     | O => None
     | S fuel =>
        rest ← search_nodes_from fuel (avtab_search_node_next node specified) specified;
        Some (n :: rest)
     end
  end.

Definition avtab_search_nodes (h : avtab) (key : avtab_key) : option (list avtab_node) :=
  node ← avtab_search_node h key;
  search_nodes_from (length node) node (ak_specified key).

(** ** Iteration, creation, destruction *)

Fixpoint avtab_map_chain {St} (apply : avtab_key → avtab_datum → St → M (Z * St))
    (cur : list avtab_node) (s : St) : M (Z * St) :=
  match cur with
  | [] => mret (0, s)
  | n :: next =>
     r ← apply (an_key n) (an_datum n) s;
     if nz r.1 then mret r else avtab_map_chain apply next r.2
  end.

Fixpoint avtab_map_slots {St} (apply : avtab_key → avtab_datum → St → M (Z * St))
    (todo : nat) (i : Z) (t : list (list avtab_node)) (s : St) : M (Z * St) :=
  match todo with
  | O => mret (0, s)
  | S todo =>
     cur ← get (aget t i);
     r ← avtab_map_chain apply cur s;
     if nz r.1 then mret r else avtab_map_slots apply todo (i + 1) t r.2
  end.

(** Indexing a [NULL] table is undefined. *)
Definition avtab_map {St} (h : avtab) (apply : avtab_key → avtab_datum → St → M (Z * St)) (s : St) :
    M (Z * St) :=
  avtab_map_slots apply (Z.to_nat (av_nslot h)) 0 (default [] (av_htable h)) s.

Definition avtab_init (h : avtab) : avtab := Avtab None 0 (av_nslot h) (av_mask h).

Definition avtab_destroy (h : avtab) : avtab :=
  match av_htable h with
  | None => h
  | Some _ => Avtab None (av_nel h) 0 0
  end.

Definition MAX_AVTAB_HASH_BUCKETS : Z := Z.shiftl 1 20.

(** [while (work) { work = work >> 1; shift++; }]: 32 shifts empty a word. *)
Fixpoint alloc_shift (fuel : nat) (work shift : Z) : Z :=
  match fuel with
  | O => shift
  | S fuel => if nz work then alloc_shift fuel (Z.shiftr work 1) (shift + 1) else shift
  end.

Definition avtab_alloc (h : avtab) (nrules : Z) : M (Z * avtab) :=
  if nrules =? 0 then mret (0, Avtab (av_htable h) 0 0 0)
  else
    let shift := alloc_shift 32 nrules 0 in
    let shift := if shift >? 2 then shift - 2 else shift in
    let nslot := Z.shiftl 1 shift in
    let nslot := if nslot >? MAX_AVTAB_HASH_BUCKETS then MAX_AVTAB_HASH_BUCKETS else nslot in
    t ← malloc;
    match t with
    | None => mret (-1, Avtab None (av_nel h) (av_nslot h) (av_mask h))
    | Some _ => mret (0, Avtab (Some (replicate (Z.to_nat nslot) [])) 0 nslot (nslot - 1))
    end.

(** ** Reading the binary representation *)

Definition spec_order : list Z :=
  [AVTAB_ALLOWED; AVTAB_AUDITDENY; AVTAB_AUDITALLOW; AVTAB_TRANSITION; AVTAB_CHANGE; AVTAB_MEMBER;
   AVTAB_XPERMS_ALLOWED; AVTAB_XPERMS_AUDITALLOW; AVTAB_XPERMS_DONTAUDIT].

Definition POLICYDB_VERSION_AVTAB : Z := 20.
Definition POLICYDB_VERSION_XPERMS_IOCTL : Z := 30.

Section read.
Context {St : Type} (insertf : avtab_key → avtab_datum → St → M (Z * St)).

(** The loop over [spec_order] for the old format: [buf32] holds the [items2]
    fields, [items] the index of the next one. *)
Fixpoint read_old_specs (order : list Z) (key : avtab_key) (val enabled : Z) (buf32 : list Z)
    (items items2 : Z) (s : St) : M (Z * Z * St) :=
  match order with
  | [] => mret (0, items, s)
  | sp :: order =>
     if nz (Z.land val sp) then
       if items >=? items2 then mret (-1, items, s)
       else
         data ← get (aget buf32 items);
         let key := AvtabKey (ak_source_type key) (ak_target_type key) (ak_target_class key)
                      (u16 (Z.lor sp enabled)) in
         r ← insertf key (AvtabDatum data None) s;
         if nz r.1 then mret (r.1, items + 1, r.2)
         else read_old_specs order key val enabled buf32 (items + 1) items2 r.2
     else read_old_specs order key val enabled buf32 items items2 s
  end.

Definition read_item_old (fp : policy_file) (s : St) : M (Z * policy_file * St) :=
  '(b, fp) ← next_entry fp 4;
  match b with
  | None => mret (-1, fp, s)
  | Some b =>
     let items2 := le_val b in
     if (items2 <? 5) || (items2 >? 8) then mret (-1, fp, s)
     else
       '(b, fp) ← next_entry fp (4 * items2);
       match b with
       | None => mret (-1, fp, s)
       | Some b =>
          let buf32 := le32s (Z.to_nat items2) b in
          source ← get (aget buf32 0);
          target ← get (aget buf32 1);
          class ← get (aget buf32 2);
          val ← get (aget buf32 3);
          if negb (u16 source =? source) then mret (-1, fp, s)
          else if negb (u16 target =? target) then mret (-1, fp, s)
          else if negb (u16 class =? class) then mret (-1, fp, s)
          else
            let enabled := if nz (Z.land val AVTAB_ENABLED_OLD) then AVTAB_ENABLED else 0 in
            if negb (nz (Z.land val (Z.lor AVTAB_AV AVTAB_TYPE))) then mret (-1, fp, s)
            else if nz (Z.land val AVTAB_AV) && nz (Z.land val AVTAB_TYPE) then mret (-1, fp, s)
            else
              '(rc, items, s) ← read_old_specs spec_order (AvtabKey source target class 0) val
                                 enabled buf32 4 items2 s;
              if nz rc then mret (rc, fp, s)
              else if negb (items =? items2) then mret (-1, fp, s)
              else mret (0, fp, s)
       end
  end.

(** [set]: how many of the specifiers are given. *)
Definition spec_count (specified : Z) : Z :=
  Z.of_nat (length (filter (λ sp, nz (Z.land specified sp) = true) spec_order)).

Definition read_xperms (fp : policy_file) : M (option avtab_extended_perms * policy_file) :=
  '(b, fp) ← next_entry fp 1;
  match b with
  | None => mret (None, fp)
  | Some sp =>
     '(b, fp) ← next_entry fp 1;
     match b with
     | None => mret (None, fp)
     | Some drv =>
        '(b, fp) ← next_entry fp (4 * 8);
        match b with
        | None => mret (None, fp)
        | Some b => mret (Some (Xperms (le_val sp) (le_val drv) (le32s 8 b)), fp)
        end
     end
  end.

Definition avtab_read_item (fp : policy_file) (vers : Z) (s : St) : M (Z * policy_file * St) :=
  if vers <? POLICYDB_VERSION_AVTAB then read_item_old fp s
  else
    '(b, fp) ← next_entry fp (2 * 4);
    match b with
    | None => mret (-1, fp, s)
    | Some b =>
       let key := AvtabKey (le_val (take 2 b)) (le_val (take 2 (drop 2 b)))
                    (le_val (take 2 (drop 4 b))) (le_val (take 2 (drop 6 b))) in
       let set := spec_count (ak_specified key) in
       if negb (nz set) || (set >? 1) then mret (-1, fp, s)
       else if (vers <? POLICYDB_VERSION_XPERMS_IOCTL) && nz (Z.land (ak_specified key) AVTAB_XPERMS)
       then mret (-1, fp, s)
       else if nz (Z.land (ak_specified key) AVTAB_XPERMS) then
         '(x, fp) ← read_xperms fp;
         match x with
         | None => mret (-1, fp, s)
         | Some x =>
            '(rc, s) ← insertf key (AvtabDatum 0 (Some x)) s;
            mret (rc, fp, s)
         end
       else
         '(b, fp) ← next_entry fp 4;
         match b with
         | None => mret (-1, fp, s)
         | Some b =>
            '(rc, s) ← insertf key (AvtabDatum (le_val b) None) s;
            mret (rc, fp, s)
         end
    end.

(** The loop over the [nel] items: every item takes at least one byte, so the
    bytes in front of the position bound it. *)
Fixpoint read_items (fuel : nat) (fp : policy_file) (vers i nel : Z) (s : St) :
    M (Z * policy_file * St) :=
  if i <? nel then
    match fuel with
    | O => ub
    | S fuel =>
       '(rc, fp, s) ← avtab_read_item fp vers s;
       if nz rc then mret (rc, fp, s) else read_items fuel fp vers (i + 1) nel s
    end
  else mret (0, fp, s).
End read.

Definition avtab_insertf (k : avtab_key) (d : avtab_datum) (a : avtab) : M (Z * avtab) :=
  avtab_insert a k d.

Definition avtab_read (a : avtab) (fp : policy_file) (vers : Z) : M (Z * avtab * policy_file) :=
  '(b, fp) ← next_entry fp 4;
  match b with
  | None => mret (-1, avtab_destroy a, fp)
  | Some b =>
     let nel := le_val b in
     if negb (nz nel) then mret (-1, avtab_destroy a, fp)
     else
       '(rc, a) ← avtab_alloc a nel;
       if nz rc then mret (-1, avtab_destroy a, fp)
       else
         '(rc, fp, a) ← read_items avtab_insertf (S (length (pf_data fp))) fp vers 0 nel a;
         if nz rc then mret (-1, avtab_destroy a, fp) else mret (0, a, fp)
  end.
