(* ===== verification/AvtabFacts.v ===== *)
(** * Facts about access vector tables

    The invariant of a table (chains sorted by source, target and class, every
    node in the slot of its hash) and what insertion and lookup do to the
    sequence of nodes of each key. *)

From S2P Require Import Prelude PolicyFile Avtab.

(** ** The order of the keys *)

Definition same_key (a b : avtab_key) : bool :=
  (ak_source_type a =? ak_source_type b) && (ak_target_type a =? ak_target_type b) &&
  (ak_target_class a =? ak_target_class b).

Lemma same_key_eq a b :
  same_key a b = true ↔
  ak_source_type a = ak_source_type b ∧ ak_target_type a = ak_target_type b ∧
  ak_target_class a = ak_target_class b.
Proof. unfold same_key. rewrite !andb_true_iff, !Z.eqb_eq. tauto. Qed.

Lemma key_before_iff a b :
  key_before a b = true ↔
  ak_source_type a < ak_source_type b ∨
  ak_source_type a = ak_source_type b ∧
    (ak_target_type a < ak_target_type b ∨
     ak_target_type a = ak_target_type b ∧ ak_target_class a < ak_target_class b).
Proof. unfold key_before. rewrite !orb_true_iff, !andb_true_iff, !Z.eqb_eq, !Z.ltb_lt. lia. Qed.

Lemma not_key_before_iff a b :
  key_before a b = false ↔
  ak_source_type b < ak_source_type a ∨
  ak_source_type a = ak_source_type b ∧
    (ak_target_type b < ak_target_type a ∨
     ak_target_type a = ak_target_type b ∧ ak_target_class b ≤ ak_target_class a).
Proof. rewrite <- not_true_iff_false, key_before_iff. lia. Qed.

Lemma key_match_same key sp cur :
  key_match key sp cur = same_key key cur && nz (Z.land sp (ak_specified cur)).
Proof. done. Qed.

Lemma same_key_refl a : same_key a a = true.
Proof. by apply same_key_eq. Qed.

Lemma same_key_hash a b mask : same_key a b = true → avtab_hash a mask = avtab_hash b mask.
Proof. intros (H1 & H2 & H3)%same_key_eq. unfold avtab_hash. by rewrite H1, H2, H3. Qed.

(** Keys in the order of a chain. *)
Definition node_le (a b : avtab_node) : Prop := key_before (an_key b) (an_key a) = false.

Definition key_ok (k : avtab_key) : Prop := 0 ≤ ak_specified k < 2 ^ 16.

Definition slot_ok (mask : Z) (i : nat) (c : list avtab_node) : Prop :=
  StronglySorted node_le c ∧
  Forall (λ n, key_ok (an_key n) ∧ avtab_hash (an_key n) mask = Z.of_nat i) c.

(** An allocated table. *)
Definition avtab_table_ok (a : avtab) (t : list (list avtab_node)) : Prop :=
  (∃ k, 0 ≤ k ≤ 20 ∧ av_nslot a = 2 ^ k) ∧ av_mask a = av_nslot a - 1 ∧
  Z.of_nat (length t) = av_nslot a ∧ av_nel a = u32 (Z.of_nat (length (concat t))) ∧
  ∀ i c, t !! i = Some c → slot_ok (av_mask a) i c.

Definition awf (a : avtab) : Prop :=
  match av_htable a with Some t => avtab_table_ok a t | None => av_nslot a = 0 end.

Definition entries (a : avtab) : list avtab_node := concat (default [] (av_htable a)).

(** The nodes of one source, target and class, in table order. *)
Definition group (a : avtab) (key : avtab_key) : list avtab_node :=
  filter (λ n, same_key key (an_key n) = true) (entries a).

(** The nodes a lookup with [key] can find. *)
Definition matching (a : avtab) (key : avtab_key) : list avtab_node :=
  filter (λ n, key_match key (specified_of (ak_specified key)) (an_key n) = true) (entries a).

(** ** Hashing stays inside the table *)

Lemma u32_nonneg x : 0 ≤ u32 x.
Proof. apply Z.mod_pos_bound. lia. Qed.

Lemma avtab_hash_range key k :
  0 ≤ k ≤ 20 → 0 ≤ avtab_hash key (2 ^ k - 1) < 2 ^ k.
Proof.
  intros Hk. unfold avtab_hash. cbn zeta.
  set (x := u32 (_ * 0xc2b2ae35)).
  replace (2 ^ k - 1) with (Z.ones k) by (unfold Z.ones; rewrite Z.shiftl_1_l; lia).
  rewrite Z.land_ones by lia.
  pose proof (Z.mod_pos_bound (Z.lxor x (x ≫ 16)) (2 ^ k)) as Hb.
  pose proof (Z.pow_pos_nonneg 2 k). pose proof (Z.pow_le_mono_r 2 k 20).
  unfold s32, u32. rewrite Z.mod_small by lia. rewrite (proj2 (Z.ltb_lt _ _)) by lia. lia.
Qed.

(** The slot of a key. *)
Lemma table_slot a t key :
  avtab_table_ok a t → ∃ i c, t !! i = Some c ∧ avtab_hash key (av_mask a) = Z.of_nat i ∧
    aget t (Z.of_nat i) = Some c ∧ slot_ok (av_mask a) i c ∧
    ∀ c', aset t (Z.of_nat i) c' = Some (<[i := c']> t).
Proof.
  intros ((k & Hk & Hs) & Hm & Hl & _ & Hc). pose proof (avtab_hash_range key k Hk) as Hr.
  rewrite Hm, Hs. destruct (lookup_lt_is_Some_2 t (Z.to_nat (avtab_hash key (2 ^ k - 1)))) as [c Hi]; [lia|].
  exists (Z.to_nat (avtab_hash key (2 ^ k - 1))), c. split; [done|].
  split; [lia|]. split_and!.
  - unfold aget. rewrite (proj2 (Z.ltb_ge _ _)), Nat2Z.id by lia. done.
  - rewrite <- Hs, <- Hm. apply Hc. by rewrite Hm, Hs.
  - intros c'. unfold aset. rewrite (proj2 (Z.leb_le _ _)), (proj2 (Z.ltb_lt _ _)), Nat2Z.id by lia. done.
Qed.

(** ** Filters over the table *)

(** A predicate that only nodes of one slot satisfy. *)
Lemma filter_slot (P : avtab_node → Prop) `{!∀ x, Decision (P x)} t i c :
  t !! i = Some c → (∀ j d n, t !! j = Some d → n ∈ d → P n → j = i) →
  filter P (concat t) = filter P c.
Proof.
  revert i. induction t as [|d t IH]; intros i Hi HP; [done|]. simpl. rewrite filter_app.
  destruct i as [|i]; simpl in Hi.
  - injection Hi as ->. rewrite (filter_none P (concat t)); [by rewrite app_nil_r|].
    apply Forall_forall. intros n (j & e & Hj & Hn)%elem_of_concat HPn.
    by specialize (HP (S j) e n Hj Hn HPn).
  - rewrite (filter_none P d); cycle 1.
    { apply Forall_forall. intros n Hn HPn. by specialize (HP 0%nat d n eq_refl Hn HPn). }
    simpl. apply (IH i); [done|]. intros j e n Hj Hn HPn.
    specialize (HP (S j) e n Hj Hn HPn). lia.
Qed.

Lemma filter_same_slot a t (P : avtab_node → Prop) `{!∀ x, Decision (P x)} key i c :
  avtab_table_ok a t → t !! i = Some c → avtab_hash key (av_mask a) = Z.of_nat i →
  (∀ n, P n → same_key key (an_key n) = true) → filter P (concat t) = filter P c.
Proof.
  intros (_ & _ & _ & _ & Hc) Hi Hk HP. eapply filter_slot; [done|].
  intros j d n Hj Hn HPn. destruct (Hc _ _ Hj) as [_ Hf]. rewrite Forall_forall in Hf.
  destruct (Hf _ Hn) as [_ Hh]. rewrite <- (same_key_hash key) in Hh by auto. lia.
Qed.

(** ** The walk along a chain *)

Lemma avtab_walk_app key sp c : c = (avtab_walk key sp c).1 ++ (avtab_walk key sp c).2.
Proof.
  induction c as [|n c IH]; [done|]. simpl. case_match; simpl; [done|]. by f_equal.
Qed.

Lemma avtab_walk_pre key sp c :
  Forall (λ n, key_match key sp (an_key n) = false ∧ key_before key (an_key n) = false)
    (avtab_walk key sp c).1.
Proof.
  induction c as [|n c IH]; simpl; [constructor|]. case_match eqn:E; simpl; [constructor|].
  apply orb_false_iff in E. by constructor.
Qed.

Lemma avtab_walk_head key sp c :
  match (avtab_walk key sp c).2 with
  | n :: _ => key_match key sp (an_key n) = true ∨ key_before key (an_key n) = true
  | [] => True
  end.
Proof.
  induction c as [|n c IH]; simpl; [done|].
  destruct (key_match _ _ _ || _) eqn:E; simpl; [|done]. by apply orb_true_iff.
Qed.

(** Behind a later key every key is later. *)
Lemma sorted_before key n c :
  StronglySorted node_le (n :: c) → key_before key (an_key n) = true →
  Forall (λ m, key_before key (an_key m) = true) (n :: c).
Proof.
  intros [_ Hf]%StronglySorted_inv Hn. constructor; [done|]. eapply Forall_impl; [done|].
  intros m Hm. unfold node_le in Hm. rewrite not_key_before_iff in Hm.
  rewrite key_before_iff in Hn |- *. lia.
Qed.

Lemma before_not_same key k : key_before key k = true → same_key key k = false.
Proof.
  intros Hb%key_before_iff. apply not_true_iff_false. rewrite same_key_eq. lia.
Qed.

(** A walk that does not stop at a match leaves none behind it. *)
Lemma avtab_walk_rest key sp c :
  StronglySorted node_le c → stopped_at_match key sp (avtab_walk key sp c).2 = false →
  Forall (λ n, key_before key (an_key n) = true) (avtab_walk key sp c).2.
Proof.
  intros Hs Hm. pose proof (avtab_walk_head key sp c) as Hh. rewrite (avtab_walk_app key sp c) in Hs.
  apply sorted_app in Hs as (_ & _ & Hs).
  destruct (avtab_walk key sp c).2 as [|n r]; [constructor|]. simpl in Hm.
  destruct Hh as [Hh|Hh]; [congruence|]. by apply sorted_before.
Qed.

Lemma avtab_walk_filter key sp c :
  StronglySorted node_le c →
  filter (λ n, key_match key sp (an_key n) = true) c =
    if stopped_at_match key sp (avtab_walk key sp c).2
    then filter (λ n, key_match key sp (an_key n) = true) (avtab_walk key sp c).2 else [].
Proof.
  intros Hs. rewrite (avtab_walk_app key sp c) at 1. rewrite filter_app, filter_none; cycle 1.
  { eapply Forall_impl; [apply avtab_walk_pre|]. simpl. intros n [-> _]. done. }
  simpl. case_match eqn:E; [done|]. apply filter_none.
  eapply Forall_impl; [by apply avtab_walk_rest|]. simpl. intros n Hb.
  rewrite key_match_same, before_not_same by done. done.
Qed.

(** ** Lookup *)

Lemma matching_none a key : av_htable a = None → matching a key = [].
Proof. intros Ha. unfold matching, entries. by rewrite Ha. Qed.

Lemma matching_slot a t key i c :
  av_htable a = Some t → avtab_table_ok a t → t !! i = Some c →
  avtab_hash key (av_mask a) = Z.of_nat i →
  matching a key = filter (λ n, key_match key (specified_of (ak_specified key)) (an_key n) = true) c.
Proof.
  intros Ha Ht Hi Hk. unfold matching, entries. rewrite Ha. simpl.
  eapply filter_same_slot; [done..|]. intros n. rewrite key_match_same. intros Hm.
  by apply andb_true_iff in Hm as [? _].
Qed.

Lemma avtab_search_spec a key :
  awf a → avtab_search a key = Some (an_datum <$> head (matching a key)).
Proof.
  unfold awf, avtab_search. destruct (av_htable a) as [t|] eqn:Ha; intros Hwf;
    [|by rewrite matching_none].
  destruct (table_slot a t key Hwf) as (i & c & Hi & Hk & Hg & [Hs _] & _).
  rewrite Hk, Hg. simpl. rewrite (matching_slot a t key i c) by done.
  rewrite avtab_walk_filter by done.
  destruct (avtab_walk _ _ c).2 as [|n r]; [done|]. simpl.
  destruct (key_match key _ (an_key n)) eqn:Hm; [|done]. by rewrite filter_cons_True.
Qed.

Lemma search_node_spec a key :
  awf a → ∃ node, avtab_search_node a key = Some node ∧ StronglySorted node_le node ∧
    Forall (λ n, key_ok (an_key n)) node ∧
    match node with n :: _ => key_match key (specified_of (ak_specified key)) (an_key n) = true | [] => True end ∧
    matching a key =
      filter (λ n, key_match key (specified_of (ak_specified key)) (an_key n) = true) node.
Proof.
  unfold awf, avtab_search_node. destruct (av_htable a) as [t|] eqn:Ha; intros Hwf; cycle 1.
  { exists []. rewrite matching_none by done. split_and!; done || constructor. }
  destruct (table_slot a t key Hwf) as (i & c & Hi & Hk & Hg & [Hs Hf] & _).
  rewrite Hk, Hg. simpl. rewrite (matching_slot a t key i c) by done.
  rewrite avtab_walk_filter by done.
  rewrite (avtab_walk_app key (specified_of (ak_specified key)) c) in Hs, Hf.
  apply sorted_app in Hs as (_ & _ & Hs). apply Forall_app in Hf as [_ Hf].
  eexists. split; [done|]. case_match eqn:E; [|split_and!; done || constructor].
  split_and!; [done| | |done].
  - eapply Forall_impl; [done|]. simpl. tauto.
  - destruct (avtab_walk _ _ c).2; [done|]. done.
Qed.

(** The mask of the two lookup functions selects the same nodes. *)
Lemma specified_land sp k :
  key_ok k → Z.land (Z.ldiff sp (Z.lor AVTAB_ENABLED AVTAB_ENABLED_OLD)) (ak_specified k) =
             Z.land (specified_of sp) (ak_specified k).
Proof.
  intros Hk. unfold specified_of, u16. rewrite <- (Z.land_ones _ 16) by lia.
  apply Z.bits_inj'. intros i Hi. rewrite !Z.land_spec.
  destruct (decide (i < 16)); [rewrite Z.ones_spec_low by lia; btauto|].
  rewrite (testbit_out 16 (ak_specified k)) by (done || lia). btauto.
Qed.

Lemma key_match_cong k1 k2 sp1 sp2 cur :
  same_key k1 k2 = true → Z.land sp1 (ak_specified cur) = Z.land sp2 (ak_specified cur) →
  key_match k1 sp1 cur = key_match k2 sp2 cur.
Proof. intros (H1 & H2 & H3)%same_key_eq Hs. unfold key_match. by rewrite H1, H2, H3, Hs. Qed.

Lemma filter_match_cong k1 k2 sp1 sp2 c :
  same_key k1 k2 = true →
  Forall (λ n, Z.land sp1 (ak_specified (an_key n)) = Z.land sp2 (ak_specified (an_key n))) c →
  filter (λ n, key_match k1 sp1 (an_key n) = true) c =
  filter (λ n, key_match k2 sp2 (an_key n) = true) c.
Proof.
  intros Hk. induction 1 as [|n c Hn _ IH]; [done|]. pose proof (key_match_cong _ _ _ _ _ Hk Hn) as Hm.
  destruct (key_match k2 sp2 (an_key n)) eqn:E;
    [rewrite !filter_cons_True by congruence; by f_equal|].
  by rewrite !filter_cons_False by congruence.
Qed.

Lemma search_nodes_from_spec fuel key spec node :
  StronglySorted node_le node → Forall (λ n, key_ok (an_key n)) node →
  match node with n :: _ => key_match key (specified_of spec) (an_key n) = true | [] => True end →
  (length node ≤ fuel)%nat →
  search_nodes_from fuel node spec =
    Some (filter (λ n, key_match key (specified_of spec) (an_key n) = true) node).
Proof.
  revert node. induction fuel as [|fuel IH]; intros [|n c] Hs Hf Hm Hl; simpl in Hl; [done|lia|done|].
  cbn [search_nodes_from]. rewrite filter_cons_True by done.
  apply StronglySorted_inv in Hs as [Hs _]. apply Forall_cons in Hf as [_ Hf].
  assert (same_key key (an_key n) = true) as Hk
    by (rewrite key_match_same in Hm; by apply andb_true_iff in Hm as [? _]).
  set (sp := Z.ldiff spec (Z.lor AVTAB_ENABLED AVTAB_ENABLED_OLD)).
  set (next := avtab_search_node_next (n :: c) spec).
  assert (∀ c', Forall (λ m, key_ok (an_key m)) c' →
    filter (λ m, key_match key (specified_of spec) (an_key m) = true) c' =
    filter (λ m, key_match (an_key n) sp (an_key m) = true) c') as Hcong.
  { intros c' Hc'. apply filter_match_cong; [done|]. eapply Forall_impl; [done|].
    intros m Hkm. symmetry. by apply specified_land. }
  pose proof (avtab_walk_app (an_key n) sp c) as Happ.
  assert (StronglySorted node_le (avtab_walk (an_key n) sp c).2 ∧
    Forall (λ m, key_ok (an_key m)) (avtab_walk (an_key n) sp c).2) as [Hs' Hf'].
  { rewrite Happ in Hs, Hf. apply sorted_app in Hs as (_ & _ & ?). by apply Forall_app in Hf as [_ ?]. }
  assert (length (avtab_walk (an_key n) sp c).2 ≤ length c)%nat as Hlen
    by (rewrite Happ at 2; rewrite length_app; lia).
  pose proof (avtab_walk_filter (an_key n) sp c Hs) as Hflt. rewrite <- Hcong in Hflt by done.
  subst next. cbn [avtab_search_node_next]. fold sp.
  destruct (stopped_at_match (an_key n) sp (avtab_walk (an_key n) sp c).2) eqn:E.
  - rewrite IH; [|done|done| |lia].
    + simpl. rewrite Hflt. by rewrite <- Hcong.
    + destruct (avtab_walk (an_key n) sp c).2 as [|m r]; [done|]. simpl in E.
      apply Forall_cons in Hf' as [Hkm _].
      rewrite (key_match_cong key (an_key n) _ sp) by (done || (symmetry; by apply specified_land)). done.
  - rewrite IH; [|constructor|constructor|done|simpl; lia]. simpl. by rewrite Hflt.
Qed.

Lemma search_nodes_spec a key : awf a → avtab_search_nodes a key = Some (matching a key).
Proof.
  intros Hwf. destruct (search_node_spec a key Hwf) as (node & Hn & Hs & Hf & Hm & ->).
  unfold avtab_search_nodes. rewrite Hn. simpl. by apply search_nodes_from_spec.
Qed.

(** ** Insertion *)

(** Addresses of the nodes are distinct and already handed out. *)
Definition addrs_ok (hp : heap) (a : avtab) : Prop :=
  NoDup (an_addr <$> entries a) ∧ Forall (λ n, an_addr n < hp_next hp) (entries a).

(** [n] was inserted at the place the walk for [key] found. *)
Definition inserted (a a' : avtab) (key : avtab_key) (n : avtab_node) : Prop :=
  an_key n = key ∧ entries a' ≡ₚ n :: entries a ∧
  (∀ k, same_key k key = false → group a' k = group a k) ∧
  ∃ g1 g2, group a key = g1 ++ g2 ∧ group a' key = g1 ++ n :: g2 ∧
    Forall (λ m, key_match key (specified_of (ak_specified key)) (an_key m) = false) g1 ∧
    match g2 with
    | m :: _ => key_match key (specified_of (ak_specified key)) (an_key m) = true
    | [] => True
    end.

Lemma walk_insert_sorted key sp n c :
  StronglySorted node_le c → an_key n = key →
  StronglySorted node_le ((avtab_walk key sp c).1 ++ n :: (avtab_walk key sp c).2).
Proof.
  intros Hs Hk. pose proof (avtab_walk_pre key sp c) as Hpre. pose proof (avtab_walk_head key sp c) as Hh.
  rewrite (avtab_walk_app key sp c) in Hs. apply sorted_app in Hs as (Hx & Hs1 & Hs2).
  assert (Forall (node_le n) (avtab_walk key sp c).2) as Hpost.
  { destruct (avtab_walk key sp c).2 as [|m r]; [constructor|].
    assert (key_before (an_key m) key = false) as Hm.
    { apply not_key_before_iff. destruct Hh as [Hh|Hh].
      - rewrite key_match_same in Hh. apply andb_true_iff in Hh as [Hh _]. apply same_key_eq in Hh. lia.
      - apply key_before_iff in Hh. lia. }
    apply StronglySorted_inv in Hs2 as [_ Hs2]. unfold node_le. rewrite Hk. constructor; [done|].
    eapply Forall_impl; [done|]. intros q Hq. unfold node_le in Hq.
    rewrite not_key_before_iff in *. lia. }
  apply sorted_app. split_and!; [|done|by constructor].
  intros x y Hx1 [->|Hy]%elem_of_cons; [|by apply Hx].
  rewrite Forall_forall in Hpre. destruct (Hpre _ Hx1) as [_ Hb]. unfold node_le. by rewrite Hk.
Qed.

Lemma group_slot a t key i c :
  av_htable a = Some t → avtab_table_ok a t → t !! i = Some c → avtab_hash key (av_mask a) = Z.of_nat i →
  group a key = filter (λ n, same_key key (an_key n) = true) c.
Proof.
  intros Ha Ht Hi Hk. unfold group, entries. rewrite Ha. simpl. by eapply filter_same_slot.
Qed.

(** The table with [n] linked where the walk stopped. *)
Definition linked (a : avtab) (t : list (list avtab_node)) (i : nat) (sp : Z) (c : list avtab_node)
    (n : avtab_node) : avtab :=
  Avtab (Some (<[i := (avtab_walk (an_key n) sp c).1 ++ n :: (avtab_walk (an_key n) sp c).2]> t))
    (u32 (av_nel a + 1)) (av_nslot a) (av_mask a).

Section link.
Context (a : avtab) (t : list (list avtab_node)) (i : nat) (c : list avtab_node) (n : avtab_node).
Context (Ha : av_htable a = Some t) (Ht : avtab_table_ok a t) (Hi : t !! i = Some c).
Context (Hkey : key_ok (an_key n)) (Hk : avtab_hash (an_key n) (av_mask a) = Z.of_nat i).
Let sp := specified_of (ak_specified (an_key n)).
Let pre := (avtab_walk (an_key n) sp c).1.
Let rest := (avtab_walk (an_key n) sp c).2.
Let a' := linked a t i sp c n.

Lemma link_perm : concat (<[i := pre ++ n :: rest]> t) ≡ₚ n :: concat t.
Proof.
  eapply concat_insert_perm; [done|]. unfold pre, rest.
  rewrite <- Permutation_middle. by rewrite <- avtab_walk_app.
Qed.

Lemma link_ok : avtab_table_ok a' (<[i := pre ++ n :: rest]> t).
Proof.
  pose proof Ht as (Hp & Hm & Hl & Hn & Hc). split_and!; [done|done|by rewrite length_insert| |].
  - rewrite link_perm. unfold a', linked. cbn [av_nel]. rewrite Hn. unfold u32.
    rewrite Zplus_mod_idemp_l. f_equal. simpl. lia.
  - intros j d [(-> & <- & _)|[? Hj]]%list_lookup_insert_Some; [|by apply Hc].
    destruct (Hc _ _ Hi) as [Hs Hf]. split; [by apply walk_insert_sorted|].
    rewrite (avtab_walk_app (an_key n) sp c) in Hf. apply Forall_app in Hf as [? ?].
    apply Forall_app. split; [done|]. by constructor.
Qed.

Lemma link_awf : awf a'.
Proof. apply link_ok. Qed.

Lemma link_other k : same_key k (an_key n) = false → group a' k = group a k.
Proof.
  intros Hne. destruct (table_slot a t k Ht) as (j & d & Hj & Hkj & _).
  rewrite (group_slot a t k j d) by done.
  destruct (decide (i = j)) as [<-|Hij].
  - rewrite (group_slot a' (<[i := pre ++ n :: rest]> t) k i (pre ++ n :: rest));
      [|done|apply link_ok|apply list_lookup_insert_eq; by eapply lookup_lt_Some|done].
    assert (d = c) as -> by congruence. rewrite (avtab_walk_app (an_key n) sp c).
    rewrite !filter_app. fold pre rest. f_equal. by rewrite filter_cons_False by congruence.
  - apply (group_slot a' (<[i := pre ++ n :: rest]> t) k j d); [done|apply link_ok| |done].
    by rewrite list_lookup_insert_ne.
Qed.

Lemma link_inserted : inserted a a' (an_key n) n.
Proof.
  split; [done|]. split; [|split; [apply link_other|]].
  { unfold entries. rewrite Ha. apply link_perm. }
  exists (filter (λ m, same_key (an_key n) (an_key m) = true) pre),
         (filter (λ m, same_key (an_key n) (an_key m) = true) rest).
  pose proof Ht as (_ & _ & _ & _ & Hc). destruct (Hc _ _ Hi) as [Hs _]. split_and!.
  - rewrite (group_slot a t (an_key n) i c) by done. rewrite <- filter_app. unfold pre, rest.
    by rewrite <- avtab_walk_app.
  - rewrite (group_slot a' (<[i := pre ++ n :: rest]> t) (an_key n) i (pre ++ n :: rest));
      [|done|apply link_ok|apply list_lookup_insert_eq; by eapply lookup_lt_Some|done].
    rewrite filter_app. by rewrite filter_cons_True by apply same_key_refl.
  - apply Forall_forall. intros m [_ Hm]%list_elem_of_filter.
    pose proof (avtab_walk_pre (an_key n) sp c) as Hpre. rewrite Forall_forall in Hpre.
    by destruct (Hpre _ Hm).
  - pose proof (avtab_walk_rest (an_key n) sp c Hs) as Hrest. fold rest in Hrest.
    destruct (stopped_at_match (an_key n) sp rest) eqn:E.
    + destruct rest as [|m r]; [done|]. simpl in E. rewrite filter_cons_True; [done|].
      rewrite key_match_same in E. by apply andb_true_iff in E as [? _].
    + rewrite filter_none; [done|]. eapply Forall_impl; [by apply Hrest|]. simpl.
      intros m Hb. by rewrite before_not_same.
Qed.
End link.

Lemma linked_addrs hp hp' a a' n :
  addrs_ok hp a → entries a' ≡ₚ n :: entries a → an_addr n = hp_next hp → hp_next hp < hp_next hp' →
  addrs_ok hp' a'.
Proof.
  intros [Hnd Hf] Hp Hn Hlt. split; rewrite Hp; simpl.
  - constructor; [|done]. intros (m & Hm & Hin)%list_elem_of_fmap. rewrite Forall_forall in Hf.
    specialize (Hf _ Hin). simpl in Hf. lia.
  - constructor; [lia|]. eapply Forall_impl; [done|]. simpl. lia.
Qed.

Lemma addrs_le hp hp' a : addrs_ok hp a → heap_le hp hp' → addrs_ok hp' a.
Proof.
  intros [Hnd Hf] [Hle _]. split; [done|]. eapply Forall_impl; [done|]. simpl. lia.
Qed.

(** The data a new node gets. *)
Definition stored (key : avtab_key) (datum : avtab_datum) : avtab_datum :=
  if nz (Z.land (ak_specified key) AVTAB_XPERMS)
  then AvtabDatum (ad_data datum)
         (Some (match ad_xperms datum with Some x => x | None => Xperms 0 0 (replicate 8 0) end))
  else datum.

Definition node_outcome (a : avtab) (key : avtab_key) (datum : avtab_datum) (hp : heap)
    (r : option avtab_node * avtab) (hp' : heap) : Prop :=
  heap_le hp hp' ∧
  match r.1 with
  | None => r.2 = a ∧ hp_oom hp ≠ []
  | Some n =>
     an_datum n = stored key datum ∧ an_addr n = hp_next hp ∧ hp_next hp < hp_next hp' ∧
     awf r.2 ∧ inserted a r.2 key n
  end.

Lemma insert_node_spec a t i c key datum hp :
  av_htable a = Some t → avtab_table_ok a t → t !! i = Some c → key_ok key →
  avtab_hash key (av_mask a) = Z.of_nat i →
  wp (avtab_insert_node a t (Z.of_nat i)
        (avtab_walk key (specified_of (ak_specified key)) c).1
        (avtab_walk key (specified_of (ak_specified key)) c).2 key datum) hp
    (node_outcome a key datum hp).
Proof.
  intros Ha Ht Hi Hkey Hk. unfold avtab_insert_node. do 2 wp_step; [by split_and!|].
  assert (∀ h2, heap_le h' h2 → wp
    (t0 ← get (aset t (Z.of_nat i)
        ((avtab_walk key (specified_of (ak_specified key)) c).1 ++
          AvtabNode (hp_next hp) key (stored key datum) ::
          (avtab_walk key (specified_of (ak_specified key)) c).2));
     mret (Some (AvtabNode (hp_next hp) key (stored key datum)),
           Avtab (Some t0) (u32 (av_nel a + 1)) (av_nslot a) (av_mask a))) h2
    (node_outcome a key datum hp)) as Hfin.
  { intros h2 Hle2. destruct (table_slot a t key Ht) as (j & d & Hj & Hkj & _ & _ & Hset).
    assert (j = i) as -> by lia. rewrite Hset. do 3 wp_step.
    split; [by etrans|]. simpl. split_and!; [done|done|destruct Hle2; lia| |].
    - by apply (link_awf a t i c (AvtabNode (hp_next hp) key (stored key datum))).
    - by apply (link_inserted a t i c (AvtabNode (hp_next hp) key (stored key datum))). }
  wp_step. unfold stored in Hfin. wp_step.
  - do 2 wp_step; wp_step; [split; [by etrans|]; split; [done|]; by eapply heap_le_oom|].
    by apply Hfin.
  - wp_step. by apply Hfin.
Qed.

Definition avtab_insert_outcome (a : avtab) (key : avtab_key) (datum : avtab_datum) (hp : heap)
    (r : Z * avtab) (hp' : heap) : Prop :=
  heap_le hp hp' ∧ awf r.2 ∧
  ((r.1 = 0 ∧ (matching a key = [] ∨ nz (Z.land (ak_specified key) AVTAB_XPERMS) = true) ∧
    hp_next hp < hp_next hp' ∧
    inserted a r.2 key (AvtabNode (hp_next hp) key (stored key datum))) ∨
   (r = (SEPOL_EEXIST, a) ∧ matching a key ≠ [] ∧
    nz (Z.land (ak_specified key) AVTAB_XPERMS) = false) ∨
   (r = (SEPOL_ENOMEM, a) ∧ (av_htable a = None ∨ hp_oom hp ≠ []))).

(** The two enabled bits are not among the extended permission bits. *)
Lemma specified_xperms sp :
  Z.land (specified_of sp) AVTAB_XPERMS = Z.land sp AVTAB_XPERMS.
Proof.
  unfold specified_of, u16. rewrite <- (Z.land_ones _ 16) by lia.
  rewrite <- Z.land_assoc. change (Z.land (Z.ones 16) AVTAB_XPERMS) with AVTAB_XPERMS.
  apply Z.bits_inj'. intros i Hi. rewrite !Z.land_spec, Z.ldiff_spec.
  assert (Z.land AVTAB_XPERMS (Z.lor AVTAB_ENABLED AVTAB_ENABLED_OLD) = 0) as Hz by done.
  apply (f_equal (λ x, Z.testbit x i)) in Hz. rewrite Z.land_spec, Z.bits_0 in Hz.
  destruct (Z.testbit AVTAB_XPERMS i); simpl in *; [rewrite Hz|]; btauto.
Qed.

Lemma avtab_insert_spec a key datum hp :
  awf a → key_ok key → wp (avtab_insert a key datum) hp (avtab_insert_outcome a key datum hp).
Proof.
  intros Hwf Hkey. pose proof Hwf as Hwf0. unfold avtab_insert, awf in *. cbn zeta.
  destruct (av_htable a) as [t|] eqn:Ha; cycle 1.
  { wp_step. split; [done|]. split; [unfold awf; simpl; by rewrite Ha|]. right. right. auto. }
  destruct (table_slot a t key Hwf) as (i & c & Hi & Hk & Hg & [Hs _] & _).
  rewrite Hk, Hg. do 2 wp_step. rewrite specified_xperms.
  pose proof (matching_slot a t key i c Ha Hwf Hi Hk) as Hm. rewrite avtab_walk_filter in Hm by done.
  set (sp := specified_of (ak_specified key)) in *.
  assert (matching a key = [] ↔ stopped_at_match key sp (avtab_walk key sp c).2 = false) as Hiff.
  { rewrite Hm. destruct (avtab_walk key sp c).2 as [|m r]; [done|]. simpl.
    destruct (key_match key sp (an_key m)) eqn:E; [|done]. by rewrite filter_cons_True. }
  wp_step.
  { wp_step. apply andb_true_iff in E as [E1 E2]. apply negb_true_iff in E2. split; [done|].
    split; [unfold awf; simpl; by rewrite Ha|]. right. left. split_and!; [done| |done].
    intros Hnil%Hiff. congruence. }
  wp_step. eapply wp_mono; [by apply insert_node_spec|].
  intros [on a'] hp' [Hle Hout]. simpl in Hout. destruct on as [n|]; wp_step.
  - destruct Hout as (Hd & Had & Hlt & Hwf' & Hins). split_and!; [done..|]. left. simpl.
    assert (n = AvtabNode (hp_next hp) key (stored key datum)) as <-.
    { destruct n, Hins as [Hkn _]. simpl in *. by subst. }
    split_and!; [done| |done|done]. apply andb_false_iff in E as [E|E].
    + left. by apply Hiff.
    + right. by apply negb_false_iff in E.
  - destruct Hout as [-> Ho]. split; [done|]. split; [unfold awf; simpl; by rewrite Ha|].
    right. right. auto.
Qed.

Lemma insert_nonunique_spec a key datum hp :
  awf a → key_ok key → av_htable a ≠ None →
  wp (avtab_insert_nonunique a key datum) hp (node_outcome a key datum hp).
Proof.
  intros Hwf Hkey Hne. unfold avtab_insert_nonunique, awf in *. cbn zeta.
  destruct (av_htable a) as [t|] eqn:Ha; [|done].
  destruct (table_slot a t key Hwf) as (i & c & Hi & Hk & Hg & _).
  rewrite Hk, Hg. do 2 wp_step. by apply insert_node_spec.
Qed.

(** ** Creation *)

Lemma alloc_shift_spec fuel work shift :
  0 ≤ work < 2 ^ Z.of_nat fuel → 0 ≤ shift →
  shift ≤ alloc_shift fuel work shift ∧
  (0 < work → 2 ^ (alloc_shift fuel work shift - shift - 1) ≤ work < 2 ^ (alloc_shift fuel work shift - shift) ∧
    shift < alloc_shift fuel work shift).
Proof.
  revert work shift. induction fuel as [|fuel IH]; intros work shift Hw Hs.
  { change (2 ^ Z.of_nat 0) with 1 in Hw. split; [simpl; lia|lia]. }
  cbn [alloc_shift]. unfold nz. destruct (Z.eqb_spec work 0) as [->|Hnz]; simpl; [lia|].
  rewrite Nat2Z.inj_succ, Z.pow_succ_r in Hw by lia.
  rewrite Z.shiftr_div_pow2 by lia. change (2 ^ 1) with 2.
  pose proof (Z.div_mod work 2). pose proof (Z.mod_pos_bound work 2).
  pose proof (Z.div_pos work 2).
  destruct (IH (work / 2) (shift + 1)) as [Hle Hpow]; [lia|lia|].
  split; [lia|]. intros _. split; [|lia].
  destruct (decide (work / 2 = 0)) as [Hz|Hz].
  { assert (work = 1) as -> by lia. change (1 / 2) with 0. destruct fuel; simpl;
      rewrite ?Z.add_simpl_l; replace (shift + 1 - shift - 1) with 0 by lia;
      replace (shift + 1 - shift) with 1 by lia; done. }
  destruct Hpow as [Hpow Hlt]; [lia|]. set (r := alloc_shift fuel (work / 2) (shift + 1)) in *.
  replace (r - shift - 1) with (Z.succ (r - (shift + 1) - 1)) by lia.
  replace (r - shift) with (Z.succ (r - (shift + 1))) by lia.
  rewrite !Z.pow_succ_r by lia. lia.
Qed.

(** [avtab_alloc] of a positive count: between a quarter of and twice as many
    slots as rules (a power of two, capped), all empty. *)
Lemma alloc_spec a nrules hp :
  0 < nrules < 2 ^ 32 →
  wp (avtab_alloc a nrules) hp (λ r hp', heap_le hp hp' ∧
    ((r.1 = 0 ∧ awf r.2 ∧ entries r.2 = [] ∧ av_htable r.2 ≠ None ∧
      av_nslot r.2 ≤ 2 * nrules ∧
      (av_nslot r.2 = MAX_AVTAB_HASH_BUCKETS ∨ nrules < 4 * av_nslot r.2)) ∨
     (r.1 = -1 ∧ av_htable r.2 = None ∧ av_nslot r.2 = av_nslot a ∧ hp_oom hp ≠ []))).
Proof.
  intros Hn. unfold avtab_alloc. destruct (Z.eqb_spec nrules 0); [lia|]. cbn zeta.
  destruct (alloc_shift_spec 32 nrules 0) as [_ Hp]; [simpl; lia|lia|].
  destruct Hp as [Hp Hs]; [lia|]. rewrite !Z.sub_0_r in Hp.
  set (s := alloc_shift 32 nrules 0) in *.
  set (s' := if s >? 2 then s - 2 else s).
  assert (1 ≤ s' ∧ s' ≤ s ≤ s' + 2 ∧ (s ≤ 2 → s' = s)) as (Hs1 & Hs2 & Hs3).
  { unfold s'. rewrite Z.gtb_ltb. destruct (Z.ltb_spec 2 s); lia. }
  rewrite Z.shiftl_1_l. set (slots := if 2 ^ s' >? MAX_AVTAB_HASH_BUCKETS then _ else _).
  assert ((∃ k, 0 ≤ k ≤ 20 ∧ slots = 2 ^ k) ∧ slots ≤ 2 ^ s' ∧
    (slots = MAX_AVTAB_HASH_BUCKETS ∨ slots = 2 ^ s')) as (Hk & Hle & Hor).
  { unfold slots. rewrite Z.gtb_ltb. change MAX_AVTAB_HASH_BUCKETS with (2 ^ 20).
    destruct (Z.ltb_spec (2 ^ 20) (2 ^ s')) as [Hlt|Hge].
    - split; [by exists 20|]. split; [lia|auto].
    - split; [|split; [lia|auto]]. exists s'. split; [|done]. split; [lia|].
      apply (Z.pow_le_mono_r_iff 2); lia. }
  do 2 wp_step; wp_step; [split; [done|]; right; by split_and!|]. split; [done|]. left.
  destruct Hk as (k & Hk & Hsl). pose proof (Z.pow_pos_nonneg 2 k).
  unfold awf, entries. simpl. rewrite concat_replicate_nil. split_and!; [done| |done|done| |].
  - split_and!; [by exists k|done|simpl; rewrite length_replicate; lia|by rewrite concat_replicate_nil|].
    intros i c [-> _]%lookup_replicate. split; constructor.
  - assert (2 ^ s' ≤ 2 ^ s) by (apply Z.pow_le_mono_r; lia).
    assert (2 ^ s = 2 * 2 ^ (s - 1)) by (rewrite <- Z.pow_succ_r by lia; f_equal; lia). lia.
  - destruct Hor as [Hor|Hor]; [by left|right]. rewrite Hor.
    change 4 with (2 ^ 2). rewrite <- Z.pow_add_r by lia.
    pose proof (Z.pow_le_mono_r 2 s (2 + s')). lia.
Qed.

(** ** Reading *)

(** What the fields of a rule in the file are. *)
Definition key_fields (k : avtab_key) : Prop := 0 ≤ ak_source_type k ∧ 0 ≤ ak_target_type k ∧ 0 ≤ ak_target_class k.

Definition read_rule (k : avtab_key) (d : avtab_datum) : Prop := key_ok k ∧ key_fields k ∧ 0 ≤ ad_data d.

Lemma le32s_nonneg n l : Forall is_byte l → Forall (λ x, 0 ≤ x) (le32s n l).
Proof.
  revert l. induction n as [|n IH]; intros l Hl; [constructor|]. cbn [le32s].
  constructor; [by apply le_val_take|]. by apply IH, Forall_drop.
Qed.

Section read.
Context {St : Type} (insertf : avtab_key → avtab_datum → St → M (Z * St)) (I : St → heap → Prop).
Context (Hins : ∀ k d s hp, read_rule k d → I s hp → wp (insertf k d s) hp (λ r hp', I r.2 hp')).

Lemma read_old_specs_spec order key val enabled buf32 items items2 s hp :
  I s hp → 0 ≤ items → items2 ≤ Z.of_nat (length buf32) → Forall (λ x, 0 ≤ x) buf32 → key_fields key →
  wp (read_old_specs insertf order key val enabled buf32 items items2 s) hp (λ r hp', I r.2 hp').
Proof.
  intros Hs Hi Hl Hbuf. revert key items s hp Hs Hi.
  induction order as [|sp order IH]; intros key items s hp Hs Hi Hk; [done|]. cbn [read_old_specs].
  wp_step; [|by apply IH]. wp_step; [done|]. rewrite Z.geb_leb in E0. apply Z.leb_gt in E0.
  unfold aget at 1. rewrite (proj2 (Z.ltb_ge _ _)) by lia.
  destruct (lookup_lt_is_Some_2 buf32 (Z.to_nat items)) as [data Hdata]; [lia|]. rewrite Hdata.
  do 2 wp_step. cbn zeta. wp_step. eapply wp_mono.
  { apply Hins; [|done]. split_and!; [|done|by eapply (Forall_lookup_1 _ _ _ _ Hbuf)].
    unfold key_ok. cbn [ak_specified]. apply Z.mod_pos_bound. lia. }
  intros [rc s'] hp' Hs'. simpl in Hs'. wp_step; [done|]. apply IH; [done|lia|done].
Qed.

(** Reading one item keeps the invariant, and consumes the file when it succeeds. *)
Definition item_read (fp : policy_file) (r : Z * policy_file * St) (hp' : heap) : Prop :=
  I r.2 hp' ∧
  (r.1.1 = 0 → file_ok r.1.2 ∧ (length (pf_data r.1.2) < length (pf_data fp))%nat).

Lemma read_item_old_spec fp s hp :
  file_ok fp → I s hp → wp (read_item_old insertf fp s) hp (item_read fp).
Proof.
  intros Hf Hs. unfold read_item_old. wp_step. apply wp_next_ok; [done|lia| |by split].
  intros b fp1 Hb Hl Hf1 Hl1. cbn beta iota zeta. wp_step; [by split|].
  apply orb_false_iff in E as [E1 E2]. zbool. wp_step. apply wp_next_ok; [done|lia| |by split].
  intros b' fp2 Hb' Hl' Hf2 Hl2. cbn beta iota zeta.
  set (buf := le32s (Z.to_nat (le_val b)) b').
  assert (length buf = Z.to_nat (le_val b)) as Hbuf by apply length_le32s.
  assert (∀ i, 0 ≤ i < le_val b → ∃ x, aget buf i = Some x) as Hget.
  { intros i Hi. unfold aget. rewrite (proj2 (Z.ltb_ge _ _)) by lia.
    apply lookup_lt_is_Some_2. lia. }
  pose proof (le32s_nonneg (Z.to_nat (le_val b)) b' Hb') as Hpos. fold buf in Hpos.
  assert (∀ i x, aget buf i = Some x → 0 ≤ x) as Hge.
  { intros i x. unfold aget. destruct (i <? 0); [done|]. by apply Forall_lookup_1. }
  destruct (Hget 0) as [source Es]; [lia|]. destruct (Hget 1) as [target Et]; [lia|].
  destruct (Hget 2) as [class Ec]; [lia|]. destruct (Hget 3) as [val Ev]; [lia|].
  apply Hge in Es as Hs0, Et as Ht0, Ec as Hc0. rewrite Es, Et, Ec, Ev.
  do 8 wp_step. do 3 (wp_step; [by split|]). do 2 (wp_step; [by split|]).
  wp_step. eapply wp_mono; [apply read_old_specs_spec; [done|lia|lia|done|by split_and!]|].
  intros [[rc items] s'] hp' Hs'. simpl in Hs'. wp_step.
  { split; [done|]. simpl. intros ->. done. }
  wp_step; (split; [done|]); [done|]. intros _. simpl. split; [done|]. lia.
Qed.

Lemma read_item_spec fp vers s hp :
  file_ok fp → I s hp → wp (avtab_read_item insertf fp vers s) hp (item_read fp).
Proof.
  intros Hf Hs. unfold avtab_read_item. wp_step; [by apply read_item_old_spec|].
  wp_step. apply wp_next_ok; [done|lia| |by split]. intros b fp1 Hb Hl Hf1 Hl1. cbn beta iota zeta.
  wp_step; [by split|]. wp_step; [by split|].
  set (key := AvtabKey (le_val (take 2 b)) (le_val (take 2 (drop 2 b)))
                (le_val (take 2 (drop 4 b))) (le_val (take 2 (drop 6 b)))) in *.
  assert (key_ok key ∧ key_fields key) as [Hkey Hfields].
  { split; [apply (le_val_take 2); by apply Forall_drop|].
    split_and!; apply (le_val_take 2); by try apply Forall_drop. }
  wp_step.
  - wp_step. unfold read_xperms.
    wp_step. apply wp_next_ok; [done|lia| |by split]. intros b2 fp2 Hb2 Hl2 Hf2 Hd2.
    wp_step. apply wp_next_ok; [done|lia| |by split]. intros b3 fp3 Hb3 Hl3 Hf3 Hd3.
    wp_step. apply wp_next_ok; [done|lia| |by split]. intros b4 fp4 Hb4 Hl4 Hf4 Hd4.
    wp_step. cbn beta iota. wp_step. eapply wp_mono; [by apply Hins; [split_and!|]|].
    intros [rc s'] hp' Hs'. wp_step. split; [done|]. simpl. intros _. split; [done|lia].
  - wp_step. apply wp_next_ok; [done|lia| |by split]. intros b2 fp2 Hb2 Hl2 Hf2 Hd2. cbn beta iota.
    wp_step. eapply wp_mono; [apply Hins; [split_and!; [done..|by apply le_val_bound]|done]|].
    intros [rc s'] hp' Hs'. wp_step. split; [done|]. simpl. intros _. split; [done|lia].
Qed.

Lemma read_items_spec fuel fp vers i nel s hp :
  file_ok fp → I s hp → (length (pf_data fp) < fuel)%nat →
  wp (read_items insertf fuel fp vers i nel s) hp (λ r hp', I r.2 hp' ∧
    (r.1.1 = 0 → file_ok r.1.2 ∧ (length (pf_data r.1.2) ≤ length (pf_data fp))%nat)).
Proof.
  revert fp i s hp. induction fuel as [|fuel IH]; intros fp i s hp Hf Hs Hl; [lia|].
  cbn [read_items]. wp_step; [|by split]. wp_step.
  eapply wp_mono; [by apply read_item_spec|]. intros [[rc fp'] s'] hp' [Hs' Hrc]. simpl in *.
  unfold nz. destruct (Z.eqb_spec rc 0) as [->|]; simpl; [|by split].
  destruct Hrc as [Hf' Hl']; [done|]. eapply wp_mono; [apply IH; [done|done|lia]|].
  intros r h [HI Hr]. split; [done|]. intros H0. destruct (Hr H0). split; [done|lia].
Qed.
End read.

(** The fields of the rules of a table: extended permissions are there where the
    specifier says so. *)
Definition rule_fields (n : avtab_node) : Prop :=
  key_fields (an_key n) ∧ 0 ≤ ad_data (an_datum n) ∧
  (nz (Z.land (ak_specified (an_key n)) AVTAB_XPERMS) = true → is_Some (ad_xperms (an_datum n))).

Definition fields_ok (a : avtab) : Prop := Forall rule_fields (entries a).

Lemma stored_fields x k d : read_rule k d → rule_fields (AvtabNode x k (stored k d)).
Proof.
  intros (_ & Hk & Hd). unfold stored. split_and!; cbn [an_key an_datum]; [done| |].
  - by destruct (nz _).
  - intros ->. by eexists.
Qed.

Lemma insert_fields a key datum hp r hp' :
  read_rule key datum → fields_ok a → avtab_insert_outcome a key datum hp r hp' → fields_ok r.2.
Proof.
  intros Hd Hf (_ & _ & [(_ & _ & _ & _ & Hp & _)|[(-> & _)|(-> & _)]]); [|done..].
  unfold fields_ok. rewrite Hp. constructor; [by apply stored_fields|done].
Qed.

Lemma insert_allocated a key datum hp r hp' :
  av_htable a ≠ None → avtab_insert_outcome a key datum hp r hp' → av_htable r.2 ≠ None.
Proof.
  intros Ha (_ & _ & [(_ & _ & _ & _ & Hp & _)|[(-> & _)|(-> & _)]]); [|done..]. intros Hn. unfold entries in Hp at 1.
  rewrite Hn in Hp. by apply Permutation_nil_cons in Hp.
Qed.

Lemma nel_range a : awf a → av_htable a ≠ None → 0 ≤ av_nel a < 2 ^ 32.
Proof.
  unfold awf. destruct (av_htable a) as [t|]; [|done]. intros (_ & _ & _ & -> & _) _. apply Z.mod_pos_bound. lia.
Qed.

Lemma wp_alloc_fresh a nel hp Q :
  0 < nel < 2 ^ 32 → awf a → av_htable a = None →
  (∀ rc a' hp', heap_le hp hp' → awf a' → (rc = 0 → addrs_ok hp' a' ∧ fields_ok a' ∧ av_htable a' ≠ None) → Q (rc, a') hp') →
  wp (avtab_alloc a nel) hp Q.
Proof.
  intros Hn Hwf Ha HQ. unfold awf in Hwf. rewrite Ha in Hwf. eapply wp_mono; [by apply alloc_spec|].
  intros [rc a'] hp' [Hle Hr]. simpl in Hr.
  destruct Hr as [(-> & Hwf' & He & Hnn & _)|(-> & Hno & Hns & _)]; apply HQ; try done.
  - intros _. split_and!; [split|..|done]; unfold fields_ok; rewrite He; constructor.
  - unfold awf. by rewrite Hno, Hns.
Qed.

Lemma insert_addrs a key datum hp r hp' :
  addrs_ok hp a → avtab_insert_outcome a key datum hp r hp' → addrs_ok hp' r.2.
Proof.
  intros Had (Hle & _ & [(_ & _ & Hlt & _ & Hp & _)|[(-> & _)|(-> & _)]]); [|by eapply addrs_le..].
  by eapply linked_addrs.
Qed.

(** [avtab_read] into a fresh table, on arbitrary bytes. *)
Lemma avtab_read_spec a fp vers hp :
  file_ok fp → awf a → av_htable a = None →
  wp (avtab_read a fp vers) hp (λ r hp', heap_le hp hp' ∧ awf r.1.2 ∧
    ((r.1.1 = 0 ∧ addrs_ok hp' r.1.2 ∧ fields_ok r.1.2 ∧ av_htable r.1.2 ≠ None ∧ file_ok r.2) ∨ (r.1.1 = -1 ∧ av_htable r.1.2 = None))).
Proof.
  intros Hf Ha Hfresh. assert (∀ a, awf a → awf (avtab_destroy a)) as Hd.
  { intros a'. unfold awf, avtab_destroy. destruct (av_htable a') eqn:E; simpl; by rewrite ?E. }
  assert (∀ a, av_htable (avtab_destroy a) = None) as Hn.
  { intros a'. unfold avtab_destroy. by destruct (av_htable a') eqn:E. }
  unfold avtab_read. wp_step. apply wp_next_ok; [done|lia| |].
  2: { intros fp'. cbn beta iota. wp_step. split_and!; [done|by apply Hd|right; split; [done|apply Hn]]. }
  intros b fp1 Hb Hl Hf1 Hl1. cbn beta iota zeta. unfold nz at 1.
  destruct (Z.eqb_spec (le_val b) 0) as [|Hnz]; cbn [negb].
  { wp_step. split_and!; [done|by apply Hd|right; split; [done|apply Hn]]. }
  pose proof (le_val_bound b Hb) as Hv. rewrite Hl in Hv. wp_step. apply wp_alloc_fresh; [simpl in Hv; lia|done..|].
  intros rc a' hp1 Hle Hwf Hrc. wp_step.
  { wp_step. split_and!; [done|by apply Hd|right; split; [done|apply Hn]]. }
  wp_step. eapply wp_mono.
  - apply (read_items_spec avtab_insertf (λ a h, heap_le hp h ∧ awf a ∧ addrs_ok h a ∧ fields_ok a ∧ av_htable a ≠ None)); [|done| |lia].
    + intros k d s h Hk (Hle1 & Hwf1 & Had & Hfi & Hnn). eapply wp_mono; [apply avtab_insert_spec; [done|apply Hk]|].
      intros [rc1 a1] h1 Hout. pose proof (insert_addrs _ _ _ _ _ _ Had Hout).
      pose proof (insert_fields _ _ _ _ _ _ Hk Hfi Hout). pose proof (insert_allocated _ _ _ _ _ _ Hnn Hout).
      destruct Hout as (? & ? & _). split_and!; [by etrans|done..].
    + split; [done|]. split; [done|]. apply Hrc. unfold nz in E. by apply negb_false_iff, Z.eqb_eq in E.
  - intros [[rc2 fp2] a2] hp2 ((Hle2 & Hwf2 & Had2) & Hrc2). simpl in *. wp_step; wp_step.
    + split_and!; [done|by apply Hd|right; split; [done|apply Hn]].
    + split_and!; [done..|left]. unfold nz in E0. apply negb_false_iff, Z.eqb_eq in E0.
      destruct Had2 as (? & ? & ?). split_and!; [done..|]. by apply Hrc2.
Qed.
