(* ===== verification/AvtabSpec.v ===== *)
(** * What access vector tables promise

    Lookup finds the first, and enumeration all, of the rules that match a key;
    insertion adds exactly one rule; reading a table from arbitrary bytes is
    safe. *)

From S2P Require Import Prelude PolicyFile Avtab AvtabFacts.

Lemma matching_group a key :
  matching a key =
    filter (λ n, nz (Z.land (specified_of (ak_specified key)) (ak_specified (an_key n))) = true)
      (group a key).
Proof.
  unfold matching, group. induction (entries a) as [|n l IH]; [done|].
  destruct (same_key key (an_key n)) eqn:Hs.
  - rewrite (filter_cons_True (λ n, same_key key (an_key n) = true)) by done.
    destruct (nz (Z.land (specified_of (ak_specified key)) (ak_specified (an_key n)))) eqn:Hz.
    + rewrite !filter_cons_True by (rewrite ?key_match_same, ?Hs; done). by f_equal.
    + rewrite !filter_cons_False by (rewrite ?key_match_same, ?Hs, ?Hz; done). done.
  - rewrite filter_cons_False by (by rewrite key_match_same, Hs).
    by rewrite (filter_cons_False (λ n, same_key key (an_key n) = true)) by congruence.
Qed.

(** The first node that matches after an insertion is the inserted one. *)
Lemma inserted_matching a a' key n :
  inserted a a' key n → specified_of (ak_specified key) ≠ 0 → key_ok key →
  head (matching a' key) = Some n.
Proof.
  intros (Hk & _ & _ & g1 & g2 & _ & Hg & Hpre & _) Hsp Hkey. rewrite matching_group, Hg, filter_app.
  rewrite filter_none; cycle 1.
  { assert (Forall (λ m, same_key key (an_key m) = true) g1) as Hsame.
    { apply Forall_forall. intros m Hm. assert (m ∈ group a' key) as Hin by (rewrite Hg; set_solver).
      by apply list_elem_of_filter in Hin as [? _]. }
    apply Forall_forall. intros m Hm. rewrite Forall_forall in Hpre, Hsame.
    specialize (Hpre _ Hm). rewrite key_match_same, (Hsame _ Hm) in Hpre. simpl in Hpre. congruence. }
  rewrite filter_cons_True; [done|]. rewrite Hk. unfold nz.
  assert (Z.land (specified_of (ak_specified key)) (ak_specified key) = specified_of (ak_specified key)) as ->.
  { unfold specified_of, u16. rewrite <- (Z.land_ones _ 16) by lia. apply Z.bits_inj'.
    intros i Hi. rewrite !Z.land_spec, Z.ldiff_spec. btauto. }
  by apply negb_true_iff, Z.eqb_neq.
Qed.

(** A table with the given rules, for examples. *)
Definition table_of (nrules : Z) (l : list (avtab_key * avtab_datum)) : avtab :=
  match (p ← avtab_alloc (Avtab None 0 0 0) nrules;
         foldl (λ m kd, a ← m; r ← avtab_insert a kd.1 kd.2; mret r.2) (mret p.2) l) (Heap 0 []) with
  | Some (a, _) => a
  | None => Avtab None 0 0 0
  end.

Lemma table_of_wf nrules l :
  0 < nrules < 2 ^ 32 → Forall (λ kd, key_ok kd.1) l → awf (table_of nrules l).
Proof.
  intros Hn Hl. unfold table_of.
  assert (∀ l (m : M avtab) hp, Forall (λ kd, key_ok kd.1) l → wp m hp (λ a _, awf a) →
    wp (foldl (λ m kd, a ← m; r ← avtab_insert a kd.1 kd.2; mret r.2) m l) hp (λ a _, awf a)) as Hfold.
  { clear. induction l as [|kd l IH]; intros m hp Hl Hm; [done|]. apply Forall_cons in Hl as [Hk Hl].
    simpl. apply IH; [done|]. wp_step. eapply wp_mono; [done|]. intros a hp' Ha. wp_step.
    eapply wp_mono; [by apply avtab_insert_spec|]. by intros r hp'' (_ & ? & _). }
  assert (wp (p ← avtab_alloc (Avtab None 0 0 0) nrules;
         foldl (λ m kd, a ← m; r ← avtab_insert a kd.1 kd.2; mret r.2) (mret p.2) l) (Heap 0 [])
    (λ a _, awf a)) as Hwp.
  { wp_step. apply wp_alloc_fresh; [done..|]. intros rc a' hp' _ Ha _. by apply Hfold. }
  unfold wp in Hwp. by case_match; [case_match|].
Qed.

Definition rule_allow : avtab_key := AvtabKey 1 2 3 AVTAB_ALLOWED.
Definition rule_audit : avtab_key := AvtabKey 1 2 3 AVTAB_AUDITALLOW.
Definition rule_trans : avtab_key := AvtabKey 4 5 6 AVTAB_TRANSITION.
Definition rules3 : avtab :=
  table_of 8 [(rule_allow, AvtabDatum 6 None); (rule_trans, AvtabDatum 9 None);
              (rule_audit, AvtabDatum 1 None)].

Lemma rules3_wf : awf rules3.
Proof.
  apply table_of_wf; [lia|].
  repeat (apply Forall_cons; split; [split; [discriminate|reflexivity]|]). constructor.
Qed.

(** C15: Lookup.  On a well-formed table [avtab_search] returns the datum of the
    first node, in table order, whose source, target and class are those of the
    key and whose specifier shares a bit with the key's other than the enabled
    bits; and the loop over [avtab_search_node] and [avtab_search_node_next]
    terminates and visits exactly these nodes in order. *)
Theorem avtab_lookup_correct a key :
  awf a →
  avtab_search a key = Some (an_datum <$> head (matching a key)) ∧
  avtab_search_nodes a key = Some (matching a key).
Proof. intros Ha. split; [by apply avtab_search_spec|by apply search_nodes_spec]. Qed.

Lemma avtab_lookup_correct_witness :
  (avtab_search rules3 (AvtabKey 1 2 3 AVTAB_AV) =
     Some (an_datum <$> head (matching rules3 (AvtabKey 1 2 3 AVTAB_AV))) ∧
   avtab_search_nodes rules3 (AvtabKey 1 2 3 AVTAB_AV) =
     Some (matching rules3 (AvtabKey 1 2 3 AVTAB_AV))) ∧
  length (matching rules3 (AvtabKey 1 2 3 AVTAB_AV)) = 2%nat.
Proof. split; [apply avtab_lookup_correct, rules3_wf|vm_compute; reflexivity]. Defined.



(** [avtab_alloc] for a positive number of rules gives an empty table whose
    slot count is a power of two, at most the bucket limit and at most twice the
    number of rules, with fewer than four rules a slot unless the limit is
    reached; without memory it returns -1 and there is no table. *)
Theorem avtab_alloc_bounds a nrules hp :
  0 < nrules < 2 ^ 32 →
  wp (avtab_alloc a nrules) hp (λ r _,
    (r.1 = 0 ∧ awf r.2 ∧ entries r.2 = [] ∧ av_htable r.2 ≠ None ∧
     (∃ k, 0 ≤ k ≤ 20 ∧ av_nslot r.2 = 2 ^ k) ∧ av_nslot r.2 ≤ 2 * nrules ∧
     (av_nslot r.2 = MAX_AVTAB_HASH_BUCKETS ∨ nrules < 4 * av_nslot r.2)) ∨
    (r.1 = -1 ∧ av_htable r.2 = None ∧ hp_oom hp ≠ [])).
Proof.
  intros Hn. eapply wp_mono; [by apply alloc_spec|].
  intros r hp' [_ [(? & Hwf & ? & Hne & ? & ?)|(? & ? & _ & ?)]]; [left|by right].
  split_and!; try done. unfold awf in Hwf. destruct (av_htable r.2); [|done]. by destruct Hwf.
Qed.

Lemma avtab_alloc_bounds_witness :
  wp (avtab_alloc (Avtab None 0 0 0) 100) (Heap 0 []) (λ r _,
    (r.1 = 0 ∧ awf r.2 ∧ entries r.2 = [] ∧ av_htable r.2 ≠ None ∧
     (∃ k, 0 ≤ k ≤ 20 ∧ av_nslot r.2 = 2 ^ k) ∧ av_nslot r.2 ≤ 2 * 100 ∧
     (av_nslot r.2 = MAX_AVTAB_HASH_BUCKETS ∨ 100 < 4 * av_nslot r.2)) ∨
    (r.1 = -1 ∧ av_htable r.2 = None ∧ hp_oom (Heap 0 []) ≠ [])).
Proof. apply avtab_alloc_bounds. lia. Defined.

(** C33: [avtab_read] of arbitrary bytes, in both formats, terminates, reads only
    bytes of the file and indexes only fields it has read; it returns 0 with a
    well-formed table, or -1 with the table destroyed. *)
Theorem avtab_read_safe a fp vers hp :
  file_ok fp → awf a → av_htable a = None →
  wp (avtab_read a fp vers) hp (λ r _, awf r.1.2 ∧
    (r.1.1 = 0 ∨ (r.1.1 = -1 ∧ av_htable r.1.2 = None))).
Proof.
  intros Hf Ha Hn. eapply wp_mono; [by apply avtab_read_spec|].
  intros r hp' (_ & ? & [[? _]|?]); auto.
Qed.

Lemma avtab_read_safe_witness :
  wp (avtab_read (Avtab None 0 0 0)
        (PolicyFile PF_USE_MEMORY [1; 0; 0; 0; 1; 0; 2; 0; 3; 0; 1; 0; 6; 0; 0; 0] 16 []) 30)
     (Heap 0 [])
     (λ r _, awf r.1.2 ∧ (r.1.1 = 0 ∨ (r.1.1 = -1 ∧ av_htable r.1.2 = None))).
Proof.
  apply avtab_read_safe; [|reflexivity|reflexivity].
  split; [by right|]. repeat constructor; simpl; lia.
Defined.
