(* ===== verification/Mls.v ===== *)
(** * Multi-level security: levels, ranges and contexts

    The inline functions of [include/sepol/policydb/mls_types.h] and
    [include/sepol/policydb/context.h].  A function that fills a structure
    returns its code with the structure, partially filled where the C code
    leaves it so. *)

From S2P Require Import Prelude Ebitmap.

(** ** Levels and ranges *)

Record mls_level := MlsLevel { sens : Z; cat : ebitmap }.

(** [level[0]] is the low and [level[1]] the high level. *)
Record mls_range := MlsRange { level0 : mls_level; level1 : mls_level }.

Definition mls_level_init : mls_level := MlsLevel 0 ebitmap_init.
Definition mls_level_destroy (l : mls_level) : mls_level := mls_level_init.
Definition mls_range_init : mls_range := MlsRange mls_level_init mls_level_init.
Definition mls_range_destroy (r : mls_range) : mls_range := mls_range_init.

Definition mls_level_eq (l1 l2 : mls_level) : bool :=
  (sens l1 =? sens l2) && ebitmap_cmp (cat l1) (cat l2).

Definition mls_level_dom (l1 l2 : mls_level) : bool :=
  (sens l1 >=? sens l2) && ebitmap_contains (cat l1) (cat l2).

Definition mls_level_incomp (l1 l2 : mls_level) : bool :=
  negb (mls_level_dom l1 l2) && negb (mls_level_dom l2 l1).

Definition mls_level_between (l1 l2 l3 : mls_level) : bool :=
  mls_level_dom l1 l2 && mls_level_dom l3 l1.

Definition mls_range_contains (r1 r2 : mls_range) : bool :=
  mls_level_dom (level0 r2) (level0 r1) && mls_level_dom (level1 r1) (level1 r2).

Definition mls_range_eq (r1 r2 : mls_range) : bool :=
  mls_level_eq (level0 r1) (level0 r2) && mls_level_eq (level1 r1) (level1 r2).

Definition mls_level_cpy (src : mls_level) : M (Z * mls_level) :=
  '(rc, c) ← ebitmap_cpy (cat src);
  mret (if rc <? 0 then (-1, MlsLevel (sens src) c) else (0, MlsLevel (sens src) c)).

Definition mls_range_cpy (dst src : mls_range) : M (Z * mls_range) :=
  '(rc, l0) ← mls_level_cpy (level0 src);
  if rc <? 0 then mret (-1, MlsRange l0 (level1 dst))
  else
    '(rc, l1) ← mls_level_cpy (level1 src);
    if rc <? 0 then mret (-1, MlsRange (mls_level_destroy l0) l1)
    else mret (0, MlsRange l0 l1).

(** The greatest of the low and the least of the high sensitivities, with the
    common categories. *)
Definition mls_range_glblub (dst r1 r2 : mls_range) : M (Z * mls_range) :=
  if (sens (level1 r1) <? sens (level0 r2)) || (sens (level1 r2) <? sens (level0 r1))
  then mret (- EINVAL, dst)
  else
    let s0 := Z.max (sens (level0 r1)) (sens (level0 r2)) in
    let s1 := Z.min (sens (level1 r1)) (sens (level1 r2)) in
    '(rc, c0) ← ebitmap_and (cat (level0 r1)) (cat (level0 r2));
    if rc <? 0 then mret (-1, MlsRange (MlsLevel s0 c0) (MlsLevel s1 (cat (level1 dst))))
    else
      '(rc, c1) ← ebitmap_and (cat (level1 r1)) (cat (level1 r2));
      if rc <? 0 then mret (-1, MlsRange (MlsLevel s0 c0) (MlsLevel s1 c1))
      else mret (0, MlsRange (MlsLevel s0 c0) (MlsLevel s1 c1)).

(** ** Contexts *)

Record context_struct := Context { c_user : Z; c_role : Z; c_type : Z; c_range : mls_range }.

Definition set_range (c : context_struct) (r : mls_range) : context_struct :=
  Context (c_user c) (c_role c) (c_type c) r.

Definition mls_context_init (c : context_struct) : context_struct := set_range c mls_range_init.

Definition mls_context_cpy (dst src : context_struct) : M (Z * context_struct) :=
  '(rc, r) ← mls_range_cpy (c_range dst) (c_range src);
  mret (if rc <? 0 then -1 else 0, set_range dst r).

(** Both levels set to one level of the source: the common shape of
    [mls_context_cpy_low] and [mls_context_cpy_high]. *)
Definition mls_context_cpy_level (dst : context_struct) (l : mls_level) : M (Z * context_struct) :=
  '(rc, c0) ← ebitmap_cpy (cat l);
  if nz rc then mret (rc, set_range dst (MlsRange (MlsLevel (sens l) c0) (level1 (c_range dst))))
  else
    '(rc, c1) ← ebitmap_cpy (cat l);
    if nz rc
    then mret (rc, set_range dst (MlsRange (MlsLevel (sens l) (ebitmap_destroy c0)) (MlsLevel (sens l) c1)))
    else mret (rc, set_range dst (MlsRange (MlsLevel (sens l) c0) (MlsLevel (sens l) c1))).

Definition mls_context_cpy_low (dst src : context_struct) : M (Z * context_struct) :=
  mls_context_cpy_level dst (level0 (c_range src)).

Definition mls_context_cpy_high (dst src : context_struct) : M (Z * context_struct) :=
  mls_context_cpy_level dst (level1 (c_range src)).

Definition mls_context_glblub (dst c1 c2 : context_struct) : M (Z * context_struct) :=
  '(rc, r) ← mls_range_glblub (c_range dst) (c_range c1) (c_range c2);
  mret (rc, set_range dst r).

Definition mls_context_cmp (c1 c2 : context_struct) : bool :=
  mls_level_eq (level0 (c_range c1)) (level0 (c_range c2)) &&
  mls_level_eq (level1 (c_range c1)) (level1 (c_range c2)).

Definition mls_context_destroy (c : context_struct) : context_struct :=
  mls_context_init (set_range c (mls_range_destroy (c_range c))).

Definition context_init : context_struct := Context 0 0 0 mls_range_init.

Definition context_cpy (dst src : context_struct) : M (Z * context_struct) :=
  mls_context_cpy (Context (c_user src) (c_role src) (c_type src) (c_range dst)) src.

Definition context_destroy (c : context_struct) : context_struct :=
  mls_context_destroy (Context 0 0 0 (c_range c)).

Definition context_cmp (c1 c2 : context_struct) : bool :=
  (c_user c1 =? c_user c2) && (c_role c1 =? c_role c2) && (c_type c1 =? c_type c2) &&
  mls_context_cmp c1 c2.
