(* ===== verification/Policydb.v ===== *)
(** * The policy database

    The data of [include/sepol/policydb/policydb.h], [constraint.h] and
    [conditional.h] that the security server reads: symbols, rules, constraints,
    conditionals and object contexts.  An array of pointers indexed by
    [value - 1] is a list of options ([None] is [NULL]); a pointer into the
    conditional table is the address of its node. *)

From S2P Require Import Prelude Ebitmap Hashtab Avtab Mls.

(** ** Symbols

    Of the role set of a user and the type set of a role, the bitmap.  The
    fields that only modules and policy sources use (semantic levels, role
    attributes, scopes, the rule blocks) are left out. *)

Record level_datum := LevelDatum { ld_level : mls_level; ld_isalias : bool }.
Record cat_datum := CatDatum { cd_value : Z; cd_isalias : bool }.

Record user_datum := UserDatum {
  ud_value : Z;
  ud_roles : ebitmap;
  ud_cache : ebitmap;
  ud_exp_range : mls_range;
  ud_exp_dfltlevel : mls_level;
  ud_bounds : Z
}.

Record role_datum := RoleDatum {
  rd_value : Z;
  rd_dominates : ebitmap;
  rd_types : ebitmap;
  rd_cache : ebitmap;
  rd_bounds : Z
}.

Definition TYPE_TYPE : Z := 0.
Definition TYPE_ATTRIB : Z := 1.
Definition TYPE_ALIAS : Z := 2.

Record type_datum := TypeDatum {
  td_value : Z;
  td_primary : Z;
  td_flavor : Z;
  td_types : ebitmap;
  td_flags : Z;
  td_bounds : Z
}.

(** ** Constraints *)

Definition CEXPR_NOT : Z := 1.
Definition CEXPR_AND : Z := 2.
Definition CEXPR_OR : Z := 3.
Definition CEXPR_ATTR : Z := 4.
Definition CEXPR_NAMES : Z := 5.

Definition CEXPR_USER : Z := 1.
Definition CEXPR_ROLE : Z := 2.
Definition CEXPR_TYPE : Z := 4.
Definition CEXPR_TARGET : Z := 8.
Definition CEXPR_XTARGET : Z := 16.
Definition CEXPR_L1L2 : Z := 32.
Definition CEXPR_L1H2 : Z := 64.
Definition CEXPR_H1L2 : Z := 128.
Definition CEXPR_H1H2 : Z := 256.
Definition CEXPR_L1H1 : Z := 512.
Definition CEXPR_L2H2 : Z := 1024.

Definition CEXPR_EQ : Z := 1.
Definition CEXPR_NEQ : Z := 2.
Definition CEXPR_DOM : Z := 3.
Definition CEXPR_DOMBY : Z := 4.
Definition CEXPR_INCOMP : Z := 5.

Definition CEXPR_MAXDEPTH : Z := 5.

(** A set of types as a policy source writes it. *)
Record type_set := TypeSet { ts_types : ebitmap; ts_negset : ebitmap; ts_flags : Z }.

Definition TYPE_STAR : Z := 1.
Definition TYPE_COMP : Z := 2.

Definition type_set_init : type_set := TypeSet ebitmap_init ebitmap_init 0.

(** [ce_type_names] is [None] for a null [type_names]. *)
Record constraint_expr := CExpr {
  ce_expr_type : Z;
  ce_attr : Z;
  ce_op : Z;
  ce_names : ebitmap;
  ce_type_names : option type_set
}.

(** [expr] is the list of operators and operands in reverse Polish notation. *)
Record constraint_node := CNode { cn_permissions : Z; cn_expr : list constraint_expr }.

Definition DEFAULT_SOURCE : Z := 1.
Definition DEFAULT_TARGET : Z := 2.
Definition DEFAULT_SOURCE_LOW : Z := 1.
Definition DEFAULT_SOURCE_HIGH : Z := 2.
Definition DEFAULT_SOURCE_LOW_HIGH : Z := 3.
Definition DEFAULT_TARGET_LOW : Z := 4.
Definition DEFAULT_TARGET_HIGH : Z := 5.
Definition DEFAULT_TARGET_LOW_HIGH : Z := 6.
Definition DEFAULT_GLBLUB : Z := 7.

(** The value of a permission is the [s.value] of its datum. *)
Record common_datum := CommonDatum { cm_value : Z; cm_permissions : symtab Z }.

Record class_datum := ClassDatum {
  cl_value : Z;
  cl_comdatum : option common_datum;
  cl_permissions : symtab Z;
  cl_constraints : list constraint_node;
  cl_validatetrans : list constraint_node;
  cl_default_user : Z;
  cl_default_role : Z;
  cl_default_type : Z;
  cl_default_range : Z
}.

(** ** Role rules *)

Record role_trans := RoleTrans {
  rt_role : Z; rt_type : Z; rt_tclass : Z; rt_new_role : Z
}.

Record role_allow := RoleAllow { ra_role : Z; ra_new_role : Z }.

(** ** Conditionals *)

Record cond_bool_datum := BoolDatum { cb_value : Z; cb_state : Z; cb_flags : Z }.

Definition COND_BOOL : Z := 1.
Definition COND_NOT : Z := 2.
Definition COND_OR : Z := 3.
Definition COND_AND : Z := 4.
Definition COND_XOR : Z := 5.
Definition COND_EQ : Z := 6.
Definition COND_NEQ : Z := 7.
Definition COND_EXPR_MAXDEPTH : Z := 10.
Definition COND_MAX_BOOLS : Z := 5.

Record cond_expr := CondExpr { ce_type : Z; ce_bool : Z }.

#[global] Instance cond_expr_eq_dec : EqDecision cond_expr.
Proof. solve_decision. Defined.

(** [cn_true] and [cn_false] hold the addresses of nodes of [te_cond_avtab];
    [bool_ids] has [COND_MAX_BOOLS] elements. *)
Record cond_node := CondNode {
  cn_cur_state : Z;
  cn_cond : list cond_expr;
  cn_true : list Z;
  cn_false : list Z;
  cn_nbools : Z;
  cn_bool_ids : list Z;
  cn_pre_comp : Z;
  cn_flags : Z
}.

(** ** Object contexts *)

(** The union [u] of [ocontext_t], by the index of its list. *)
Inductive ocontext_key :=
  | OName (name : string)
  | OPort (protocol low_port high_port : Z)
  | ONode (addr mask : Z)
  | ONode6 (addr mask : list Z)
  | ODevice (device : Z)
  | OPirq (pirq : Z)
  | OIomem (low_iomem high_iomem : Z)
  | OIoport (low_ioport high_ioport : Z)
  | OIbpkey (subnet_prefix low_pkey high_pkey : Z)
  | OIbendport (dev_name : string) (port : Z).

(** [v] is [sclass] or [behavior]. *)
Record ocontext := OContext {
  oc_key : ocontext_key;
  oc_v : Z;
  oc_context0 : context_struct;
  oc_context1 : context_struct;
  oc_sid0 : Z;
  oc_sid1 : Z
}.

Record genfs := Genfs { gf_fstype : string; gf_head : list ocontext }.

(** ** File name transitions *)

(** The data of a key, in the order of their [next] pointers. *)
Record filename_trans_datum := FilenameTransDatum { ft_stypes : ebitmap; ft_otype : Z }.

(** ** The database

    A datum is reached by name through its symbol table and by value through
    the [*_val_to_struct] array; booleans, whose state changes, only by value. *)

Definition POLICY_KERN : Z := 0.
Definition POLICY_BASE : Z := 1.
Definition POLICY_MOD : Z := 2.

Record policydb := Policydb {
  mls : Z;
  p_classes : symtab class_datum;
  p_roles : symtab role_datum;
  p_types : symtab type_datum;
  p_users : symtab user_datum;
  p_bools_nprim : Z;
  p_levels : symtab level_datum;
  p_cats : symtab cat_datum;
  p_class_val_to_name : list (option string);
  p_role_val_to_name : list (option string);
  p_type_val_to_name : list (option string);
  p_user_val_to_name : list (option string);
  p_sens_val_to_name : list (option string);
  p_cat_val_to_name : list (option string);
  p_bool_val_to_name : list (option string);
  class_val_to_struct : list (option class_datum);
  role_val_to_struct : list (option role_datum);
  user_val_to_struct : list (option user_datum);
  type_val_to_struct : list (option type_datum);
  te_avtab : avtab;
  bool_val_to_struct : list (option cond_bool_datum);
  te_cond_avtab : avtab;
  cond_list : list cond_node;
  role_tr : list role_trans;
  p_role_allow : list role_allow;
  ocontexts : list (list ocontext);
  p_genfs : list genfs;
  range_tr : option (hashtab range_trans mls_range);
  type_attr_map : list ebitmap;
  attr_type_map : list ebitmap;
  permissive_map : ebitmap;
  policyvers : Z;
  handle_unknown : Z;
  process_class : Z;
  process_trans : Z;
  process_trans_dyntrans : Z;
  dir_class : Z;
  policy_type : Z;
  p_commons : symtab common_datum;
  p_bools_table : option (hashtab string cond_bool_datum);
  p_common_val_to_name : list (option string);
  filename_trans : option (hashtab filename_trans_key (list filename_trans_datum));
  filename_trans_count : Z;
  policycaps : ebitmap;
  target_platform : Z
}.
