(* ===== verification/MlsPolicy.v ===== *)
(** * MLS contexts under a policy

    [src/mls.c]: validity, the string representation in both directions, the
    MLS part of new contexts, user ranges and conversion between policies. *)

From S2P Require Import Prelude Ebitmap Hashtab Avtab Mls Policydb.

(** ** Names *)

(** [array[value - 1]] for an unsigned [value], with a string behind it. *)
Definition name_of (l : list (option string)) (value : Z) : option string :=
  s ← aget l (u32 (value - 1)); s.

(** [p_cat_val_to_name[i]]. *)
Definition cat_name (p : policydb) (i : Z) : option string :=
  s ← aget (p_cat_val_to_name p) i; s.

Definition strlen (s : string) : Z := Z.of_nat (String.length s).

(** The value of the loop variable of [ebitmap_for_each_bit] behind the loop. *)
Definition exit_bit (e : ebitmap) (bits : list (Z * bool)) : Z :=
  match last bits with Some b => b.1 + 1 | None => ebitmap_startbit e end.

(** ** The length of the string *)

(** The loop over the categories of one level. *)
Fixpoint cats_len (p : policydb) (bits : list (Z * bool)) (len range : Z) : option (Z * Z) :=
  match bits with
  | [] => Some (len, range)
  | (i, b) :: bits =>
     if (b : bool) then
       if nz range then cats_len p bits len (range + 1)
       else
         n ← cat_name p i;
         cats_len p bits (u32 (len + strlen n + 1)) (range + 1)
     else
       if range >? 1 then
         n ← cat_name p (u32 (i - 1));
         cats_len p bits (u32 (len + strlen n + 1)) 0
       else cats_len p bits len 0
  end.

Definition level_len (p : policydb) (l : mls_level) (len : Z) : option Z :=
  n ← name_of (p_sens_val_to_name p) (sens l);
  let len := u32 (len + strlen n) in
  bits ← ebitmap_for_each_bit (cat l);
  r ← cats_len p bits len 0;
  if r.2 >? 1 then
    n ← cat_name p (u32 (exit_bit (cat l) bits - 1));
    Some (u32 (r.1 + strlen n + 1))
  else Some r.1.

Definition mls_compute_context_len (p : policydb) (c : context_struct) : option Z :=
  if negb (nz (mls p)) then Some 0
  else
    len ← level_len p (level0 (c_range c)) 1;
    if mls_level_eq (level0 (c_range c)) (level1 (c_range c)) then Some len
    else level_len p (level1 (c_range c)) (u32 (len + 1)).

(** ** Writing the string *)

Fixpoint cats_str (p : policydb) (bits : list (Z * bool)) (out : string) (range : Z)
    (wrote_sep : bool) : option (string * Z * bool) :=
  match bits with
  | [] => Some (out, range, wrote_sep)
  | (i, b) :: bits =>
     if (b : bool) then
       if nz range then cats_str p bits out (range + 1) wrote_sep
       else
         n ← cat_name p i;
         cats_str p bits (out +:+ (if wrote_sep then "," else ":") +:+ n) (range + 1) true
     else
       if range >? 1 then
         n ← cat_name p (u32 (i - 1));
         cats_str p bits (out +:+ (if range >? 2 then "." else ",") +:+ n) 0 wrote_sep
       else cats_str p bits out 0 wrote_sep
  end.

Definition level_str (p : policydb) (l : mls_level) (out : string) : option string :=
  n ← name_of (p_sens_val_to_name p) (sens l);
  bits ← ebitmap_for_each_bit (cat l);
  r ← cats_str p bits (out +:+ n) 0 false;
  let out := r.1.1 in
  let range := r.1.2 in
  if range >? 1 then
    n ← cat_name p (u32 (exit_bit (cat l) bits - 1));
    Some (out +:+ (if range >? 2 then "." else ",") +:+ n)
  else Some out.

(** The characters written at [*scontext]. *)
Definition mls_sid_to_context (p : policydb) (c : context_struct) : option string :=
  if negb (nz (mls p)) then Some ""%string
  else
    out ← level_str p (level0 (c_range c)) ":";
    if mls_level_eq (level0 (c_range c)) (level1 (c_range c)) then Some out
    else level_str p (level1 (c_range c)) (out +:+ "-").

(** The buffer holds [len] bytes; [ptr -= len - 1] finds its start again only
    if exactly [len - 1] characters were written, and the byte behind the
    leading colon must exist. *)
Definition mls_to_string (p : policydb) (c : context_struct) : M (Z * option string) :=
  l ← get (mls_compute_context_len p c);
  let len := l + 1 in
  ptr ← malloc;
  match ptr with
  | None => mret (STATUS_ERR, None)
  | Some _ =>
     ptr2 ← malloc;
     match ptr2 with
     | None => mret (STATUS_ERR, None)
     | Some _ =>
        out ← get (mls_sid_to_context p c);
        if negb (strlen out =? len - 1) then ub
        else
          match out with
          | String _ s => mret (STATUS_SUCCESS, Some s)
          | EmptyString => ub
          end
     end
  end.

(** ** Validity *)

Definition OBJECT_R_VAL : Z := 1.

(** The body of the loop over the two levels: whether the level passes. *)
Definition level_isvalid (p : policydb) (l : mls_level) : option bool :=
  if (sens l =? 0) || (sens l >? s_nprim (p_levels p)) then Some false
  else
    key ← aget (p_sens_val_to_name p) (sens l - 1);
    match key with
    | None => Some false
    | Some key =>
       lev ← hashtab_search (s_table (p_levels p)) key;
       match lev with
       | None => Some false
       | Some lev =>
          bits ← ebitmap_for_each_positive_bit (cat l);
          Some (forallb (λ i, negb (i >? s_nprim (p_cats p)) &&
                              ebitmap_get_bit (cat (ld_level lev)) i) bits)
       end
    end.

Definition mls_context_isvalid (p : policydb) (c : context_struct) : option bool :=
  if negb (nz (mls p)) then Some true
  else if negb (mls_level_dom (level1 (c_range c)) (level0 (c_range c))) then Some false
  else
    v0 ← level_isvalid p (level0 (c_range c));
    if negb v0 then Some false
    else
      v1 ← level_isvalid p (level1 (c_range c));
      if negb v1 then Some false
      else if c_role c =? OBJECT_R_VAL then Some true
      else if (c_user c =? 0) || (c_user c >? s_nprim (p_users p)) then Some false
      else
        usr ← aget (user_val_to_struct p) (c_user c - 1);
        match usr with
        | None => Some false
        | Some usr => Some (mls_range_contains (ud_exp_range usr) (c_range c))
        end.

(** ** Reading the string *)

(** The loops that advance [p] to a delimiter: the characters passed, and the
    delimiter with the characters behind it; [None] is the end of the string. *)
Fixpoint scan (stop : Ascii.ascii → bool) (p : string) : string * option (Ascii.ascii * string) :=
  match p with
  | EmptyString => (""%string, None)
  | String c p => if stop c then (""%string, Some (c, p)) else
                    let r := scan stop p in (String c r.1, r.2)
  end.

Definition is_char (d c : Ascii.ascii) : bool := bool_decide (c = d).

(** [for (i = from; i < to; i++) ebitmap_set_bit(e, i, 1)]. *)
Fixpoint set_bits_from (todo : nat) (i : Z) (e : ebitmap) : M (Z * ebitmap) :=
  match todo with
  | O => mret (0, e)
  | S todo =>
     '(rc, e) ← ebitmap_set_bit e i true;
     if nz rc then mret (rc, e) else set_bits_from todo (i + 1) e
  end.

(** One category or category range [item] of the list. *)
Definition parse_item (p : policydb) (item : string) (e : ebitmap) : M (Z * ebitmap) :=
  let s := scan (is_char "."%char) item in
  catdatum ← get (hashtab_search (s_table (p_cats p)) s.1);
  match catdatum with
  | None => mret (STATUS_ERR, e)
  | Some catdatum =>
     '(rc, e) ← ebitmap_set_bit e (u32 (cd_value catdatum - 1)) true;
     if nz rc then mret (STATUS_ERR, e)
     else
       match s.2 with
       | None => mret (STATUS_SUCCESS, e)
       | Some rng =>
          rngdatum ← get (hashtab_search (s_table (p_cats p)) rng.2);
          match rngdatum with
          | None => mret (STATUS_ERR, e)
          | Some rngdatum =>
             if cd_value catdatum >=? cd_value rngdatum then mret (STATUS_ERR, e)
             else
               '(rc, e) ← set_bits_from (Z.to_nat (cd_value rngdatum - cd_value catdatum))
                            (cd_value catdatum) e;
               if nz rc then mret (STATUS_ERR, e) else mret (STATUS_SUCCESS, e)
          end
       end
  end.

(** The [while (1)] over the categories: every iteration but the last consumes
    a comma. *)
Fixpoint parse_cats (fuel : nat) (p : policydb) (s : string) (e : ebitmap) :
    M (Z * ebitmap * option (Ascii.ascii * string)) :=
  match fuel with
  | O => ub
  | S fuel =>
     let item := scan (λ c, is_char ","%char c || is_char "-"%char c) s in
     '(rc, e) ← parse_item p item.1 e;
     if nz rc then mret (rc, e, item.2)
     else
       match item.2 with
       | Some (d, rest) =>
          if is_char ","%char d then parse_cats fuel p rest e else mret (0, e, item.2)
       | None => mret (0, e, None)
       end
  end.

(** One iteration of the loop over the levels: [name] is the sensitivity,
    [delim] what ended it. *)
Definition parse_level (p : policydb) (name : string) (delim : option (Ascii.ascii * string))
    (l : mls_level) : M (Z * mls_level * option (Ascii.ascii * string)) :=
  levdatum ← get (hashtab_search (s_table (p_levels p)) name);
  match levdatum with
  | None => mret (STATUS_ERR, l, delim)
  | Some levdatum =>
     let l := MlsLevel (sens (ld_level levdatum)) (cat l) in
     match delim with
     | Some (d, rest) =>
        if is_char ":"%char d then
          '(rc, e, delim) ← parse_cats (S (String.length rest)) p rest (cat l);
          mret (rc, MlsLevel (sens l) e, delim)
        else mret (0, l, delim)
     | None => mret (0, l, None)
     end
  end.

Definition mls_context_to_sid (p : policydb) (oldc : bool) (s : string) (c : context_struct) :
    M (Z * context_struct) :=
  if negb (nz (mls p)) then mret (0, c)
  else if negb oldc then mret (STATUS_ERR, c)
  else
    let low := scan (λ ch, is_char ":"%char ch || is_char "-"%char ch) s in
    '(rc, l0, delim) ← parse_level p low.1 low.2 (level0 (c_range c));
    let c := set_range c (MlsRange l0 (level1 (c_range c))) in
    if nz rc then mret (STATUS_ERR, c)
    else
      let dash := match delim with Some (d, rest) => if is_char "-"%char d then Some rest else None
                  | None => None end in
      match dash with
      | Some rest =>
         let high := scan (is_char ":"%char) rest in
         '(rc, l1, _) ← parse_level p high.1 high.2 (level1 (c_range c));
         let c := set_range c (MlsRange l0 l1) in
         if nz rc then mret (STATUS_ERR, c) else mret (STATUS_SUCCESS, c)
      | None =>
         '(rc, l1) ← mls_level_cpy l0;
         let c := set_range c (MlsRange l0 l1) in
         if rc <? 0 then mret (STATUS_ERR, c) else mret (STATUS_SUCCESS, c)
      end.

Definition mls_from_string (p : policydb) (s : string) (c : context_struct) :
    M (Z * context_struct) :=
  tmp ← malloc;
  match tmp with
  | None => mret (STATUS_ERR, c)
  | Some _ =>
     '(rc, c) ← mls_context_to_sid p true s c;
     mret (if rc <? 0 then STATUS_ERR else STATUS_SUCCESS, c)
  end.

(** When one of the two allocations fails the other context is destroyed before
    it was initialised. *)
Definition sepol_mls_contains (p : policydb) (mls1 mls2 : string) : M (Z * option bool) :=
  ctx1 ← malloc;
  ctx2 ← malloc;
  match ctx1, ctx2 with
  | Some _, Some _ =>
     '(rc, c1) ← mls_from_string p mls1 context_init;
     if rc <? 0 then mret (STATUS_ERR, None)
     else
       '(rc, c2) ← mls_from_string p mls2 context_init;
       if rc <? 0 then mret (STATUS_ERR, None)
       else mret (STATUS_SUCCESS, Some (mls_range_contains (c_range c1) (c_range c2)))
  | None, None => mret (STATUS_ERR, None)
  | _, _ => ub
  end.

Definition sepol_mls_check (p : policydb) (s : string) : M Z :=
  con ← malloc;
  match con with
  | None => mret STATUS_ERR
  | Some _ =>
     '(rc, _) ← mls_from_string p s context_init;
     mret rc
  end.

(** ** The MLS part of computed contexts *)

(** The loops that fill both levels: a failed copy stops the loop. *)
Definition fill_range (c : context_struct) (l0 l1 : mls_level) : M (Z * context_struct) :=
  '(rc, c0) ← ebitmap_cpy (cat l0);
  let c := set_range c (MlsRange (MlsLevel (sens l0) c0) (level1 (c_range c))) in
  if nz rc then mret (rc, c)
  else
    '(rc, c1) ← ebitmap_cpy (cat l1);
    mret (rc, set_range c (MlsRange (level0 (c_range c)) (MlsLevel (sens l1) c1))).

Definition mls_copy_context (dst src : context_struct) : M (Z * context_struct) :=
  fill_range dst (level0 (c_range src)) (level1 (c_range src)).

Definition mls_scopy_context (dst src : context_struct) : M (Z * context_struct) :=
  fill_range dst (level0 (c_range src)) (level0 (c_range src)).

Definition mls_range_set (c : context_struct) (r : mls_range) : M (Z * context_struct) :=
  fill_range c (level0 r) (level1 r).

Definition mls_setup_user_range (fromcon : context_struct) (user : user_datum)
    (usercon : context_struct) (mls : bool) : Z * context_struct :=
  if mls then
    let fromcon_sen := level0 (c_range fromcon) in
    let fromcon_clr := level1 (c_range fromcon) in
    let user_low := level0 (ud_exp_range user) in
    let user_clr := level1 (ud_exp_range user) in
    let user_def := ud_exp_dfltlevel user in
    let usercon_sen :=
      if mls_level_between user_def fromcon_sen fromcon_clr then Some user_def
      else if mls_level_between fromcon_sen user_def user_clr then Some fromcon_sen
      else if mls_level_between fromcon_clr user_low user_def then Some user_low
      else None in
    match usercon_sen with
    | None => (- EINVAL, usercon)
    | Some usercon_sen =>
       let usercon := set_range usercon (MlsRange usercon_sen (level1 (c_range usercon))) in
       if mls_level_dom user_clr fromcon_clr
       then (0, set_range usercon (MlsRange usercon_sen fromcon_clr))
       else if mls_level_dom fromcon_clr user_clr
       then (0, set_range usercon (MlsRange usercon_sen user_clr))
       else (- EINVAL, usercon)
    end
  else (0, usercon).

(** The loop over the categories of one level: the bitmap of their values in
    the new policy. *)
Fixpoint convert_cats (oldp newp : policydb) (bits : list Z) (bitmap : ebitmap) :
    M (Z * ebitmap) :=
  match bits with
  | [] => mret (0, bitmap)
  | i :: bits =>
     name ← get (cat_name oldp i);
     catdatum ← get (hashtab_search (s_table (p_cats newp)) name);
     match catdatum with
     | None => mret (- EINVAL, bitmap)
     | Some catdatum =>
        '(rc, bitmap) ← ebitmap_set_bit bitmap (u32 (cd_value catdatum - 1)) true;
        if nz rc then mret (rc, bitmap) else convert_cats oldp newp bits bitmap
     end
  end.

Definition convert_level (oldp newp : policydb) (l : mls_level) : M (Z * mls_level) :=
  name ← get (name_of (p_sens_val_to_name oldp) (sens l));
  levdatum ← get (hashtab_search (s_table (p_levels newp)) name);
  match levdatum with
  | None => mret (- EINVAL, l)
  | Some levdatum =>
     let l := MlsLevel (sens (ld_level levdatum)) (cat l) in
     bits ← get (ebitmap_for_each_positive_bit (cat l));
     '(rc, bitmap) ← convert_cats oldp newp bits ebitmap_init;
     if nz rc then mret (rc, l) else mret (0, MlsLevel (sens l) bitmap)
  end.

Definition mls_convert_context (oldp newp : policydb) (c : context_struct) :
    M (Z * context_struct) :=
  if negb (nz (mls oldp)) then mret (0, c)
  else
    '(rc, l0) ← convert_level oldp newp (level0 (c_range c));
    let c := set_range c (MlsRange l0 (level1 (c_range c))) in
    if nz rc then mret (rc, c)
    else
      '(rc, l1) ← convert_level oldp newp (level1 (c_range c));
      mret (rc, set_range c (MlsRange l0 l1)).

(** The [AVTAB_CHANGE] case, which the transition case falls into. *)
Definition mls_compute_change (p : policydb) (scontext : context_struct) (tclass : Z)
    (newcontext : context_struct) : M (Z * context_struct) :=
  if tclass =? process_class p then mls_copy_context newcontext scontext
  else mls_scopy_context newcontext scontext.

Definition mls_compute_sid (p : policydb) (scontext tcontext : context_struct) (tclass specified : Z)
    (newcontext : context_struct) : M (Z * context_struct) :=
  if negb (nz (mls p)) then mret (0, newcontext)
  else if specified =? AVTAB_TRANSITION then
    r ← get (hashtab_search (range_tr p) (RangeTrans (c_type scontext) (c_type tcontext) tclass));
    match r with
    | Some r => mls_range_set newcontext r
    | None =>
       cladatum ← (if nz tclass && (tclass <=? s_nprim (p_classes p))
                   then get (aget (class_val_to_struct p) (tclass - 1)) else mret None);
       let default_range := match cladatum with Some d => cl_default_range d | None => 0 end in
       if default_range =? DEFAULT_SOURCE_LOW then mls_context_cpy_low newcontext scontext
       else if default_range =? DEFAULT_SOURCE_HIGH then mls_context_cpy_high newcontext scontext
       else if default_range =? DEFAULT_SOURCE_LOW_HIGH then mls_context_cpy newcontext scontext
       else if default_range =? DEFAULT_TARGET_LOW then mls_context_cpy_low newcontext tcontext
       else if default_range =? DEFAULT_TARGET_HIGH then mls_context_cpy_high newcontext tcontext
       else if default_range =? DEFAULT_TARGET_LOW_HIGH then mls_context_cpy newcontext tcontext
       else if default_range =? DEFAULT_GLBLUB then mls_context_glblub newcontext scontext tcontext
       else mls_compute_change p scontext tclass newcontext
    end
  else if specified =? AVTAB_CHANGE then mls_compute_change p scontext tclass newcontext
  else if specified =? AVTAB_MEMBER then mls_context_cpy_low newcontext scontext
  else mret (- EINVAL, newcontext).
