(* ===== verification/MlsFacts.v ===== *)
(** * The order of MLS levels and ranges

    Dominance is a partial order on well-formed levels; the copies and the
    combination of ranges keep ranges well-formed and ordered. *)

From S2P Require Import Prelude Ebitmap EbitmapFacts Hashtab HashtabFacts Mls Policydb Avtab MlsPolicy.

Definition level_wf (l : mls_level) : Prop := 0 ≤ sens l < 2 ^ 32 ∧ wf (cat l).
Definition range_wf (r : mls_range) : Prop := level_wf (level0 r) ∧ level_wf (level1 r).
Definition has_cat (l : mls_level) (i : Z) : Prop := ebitmap_get_bit (cat l) i = true.

(** A range whose high level dominates its low level. *)
Definition range_ordered (r : mls_range) : Prop :=
  range_wf r ∧ mls_level_dom (level1 r) (level0 r) = true.

(** ** Levels *)

Lemma wf_bit_range e i : wf e → ebitmap_get_bit e i = true → 0 ≤ i < 2 ^ 32.
Proof.
  intros Hw Hi. pose proof (get_bit_range _ _ Hw Hi) as Hr. destruct Hw as [Hok Hh].
  destruct (decide (e_node e = [])) as [Hn|Hn].
  - rewrite Hh, Hn in Hr. unfold high_of in Hr. simpl in Hr. lia.
  - destruct (high_of_spec _ _ Hok Hn). lia.
Qed.

Lemma level_eq_iff l1 l2 : mls_level_eq l1 l2 = true ↔ l1 = l2.
Proof.
  unfold mls_level_eq. rewrite andb_true_iff, Z.eqb_eq, cmp_eq.
  destruct l1, l2; simpl. naive_solver.
Qed.

Lemma dom_iff l1 l2 :
  level_wf l1 → level_wf l2 →
  mls_level_dom l1 l2 = true ↔ sens l2 ≤ sens l1 ∧ ∀ i, has_cat l2 i → has_cat l1 i.
Proof.
  intros [_ H1] [_ H2]. unfold mls_level_dom, has_cat.
  rewrite andb_true_iff, Z.geb_leb, Z.leb_le, contains_subset by done.
  split; intros [Hs Hc]; (split; [done|]); intros i; [|by auto].
  intros Hi. apply Hc; [|done]. by eapply wf_bit_range.
Qed.

Lemma dom_refl l : level_wf l → mls_level_dom l l = true.
Proof. intros Hl. apply dom_iff; [done..|]. split; [lia|done]. Qed.

Lemma dom_trans l1 l2 l3 :
  level_wf l1 → level_wf l2 → level_wf l3 →
  mls_level_dom l1 l2 = true → mls_level_dom l2 l3 = true → mls_level_dom l1 l3 = true.
Proof. intros H1 H2 H3. rewrite !dom_iff by done. intros [? ?] [? ?]. split; [lia|auto]. Qed.

Lemma dom_antisym l1 l2 :
  level_wf l1 → level_wf l2 →
  mls_level_dom l1 l2 = true → mls_level_dom l2 l1 = true → l1 = l2.
Proof.
  intros H1 H2. rewrite !dom_iff by done. intros [Hs Hc] [Hs' Hc'].
  destruct l1 as [s1 c1], l2 as [s2 c2]. unfold has_cat in *. simpl in *.
  destruct H1 as [_ H1], H2 as [_ H2]. f_equal; [lia|]. apply wf_ext; [done..|]. intros i _.
  specialize (Hc i). specialize (Hc' i).
  destruct (ebitmap_get_bit c1 i) eqn:E1, (ebitmap_get_bit c2 i) eqn:E2; try done; naive_solver.
Qed.

Create HintDb mls.
#[export] Hint Resolve dom_refl dom_trans : mls.

(** ** Copies *)

Lemma level_cpy_spec src h :
  wp (mls_level_cpy src) h (λ r h', heap_le h h' ∧
    (r = (0, src) ∨ r = (-1, MlsLevel (sens src) ebitmap_init) ∧ hp_oom h ≠ [])).
Proof.
  unfold mls_level_cpy. wp_step. eapply wp_mono; [apply cpy_spec|].
  intros [rc c] h' [Hle [[= -> ->]|[[= -> ->] Ho]]]; wp_step; (split; [done|]); simpl; [left|by right].
  by destruct src.
Qed.

Lemma range_cpy_spec dst src h :
  wp (mls_range_cpy dst src) h (λ r h', heap_le h h' ∧
    (r = (0, src) ∨ r.1 = -1 ∧ hp_oom h ≠ [])).
Proof.
  unfold mls_range_cpy. wp_step. eapply wp_mono; [apply level_cpy_spec|].
  intros [rc l0] h1 [Hle [[= -> ->]|[[= -> ->] Ho]]]; simpl; [|wp_step; auto].
  wp_step. eapply wp_mono; [apply level_cpy_spec|].
  intros [rc l1] h2 [Hle2 [[= -> ->]|[[= -> ->] Ho]]]; simpl; wp_step; (split; [by etrans|]).
  - left. by destruct src.
  - right. split; [done|]. by eapply heap_le_oom.
Qed.

(** A structure filled from well-formed parts, or an error for lack of memory. *)
Definition copied (h : heap) (c : context_struct) (r : mls_range) (o : Z * context_struct) (h' : heap) : Prop :=
  heap_le h h' ∧ (o = (0, set_range c r) ∨ o.1 < 0 ∧ hp_oom h ≠ []).

Lemma context_cpy_range_spec dst src h :
  wp (mls_context_cpy dst src) h (copied h dst (c_range src)).
Proof.
  unfold mls_context_cpy. wp_step. eapply wp_mono; [apply range_cpy_spec|].
  intros [rc r] h' [Hle [[= -> ->]|[Hrc Ho]]]; wp_step; (split; [done|]); [by left|right].
  simpl in *. rewrite Hrc. done.
Qed.

Lemma fill_range_spec c l0 l1 h : wp (fill_range c l0 l1) h (copied h c (MlsRange l0 l1)).
Proof.
  unfold fill_range. wp_step. eapply wp_mono; [apply cpy_spec|].
  intros [rc c0] h1 [Hle [[= -> ->]|[[= -> ->] Ho]]]; simpl; [|by wp_step; split; [done|right]].
  wp_step. eapply wp_mono; [apply cpy_spec|].
  intros [rc c1] h2 [Hle2 [[= -> ->]|[[= -> ->] Ho]]]; wp_step; (split; [by etrans|]).
  - left. by destruct l0, l1.
  - right. split; [done|]. by eapply heap_le_oom.
Qed.

Lemma cpy_level_spec dst l h :
  wp (mls_context_cpy_level dst l) h (copied h dst (MlsRange l l)).
Proof.
  unfold mls_context_cpy_level. wp_step. eapply wp_mono; [apply cpy_spec|].
  intros [rc c0] h1 [Hle [[= -> ->]|[[= -> ->] Ho]]]; simpl; [|by wp_step; split; [done|right]].
  wp_step. eapply wp_mono; [apply cpy_spec|].
  intros [rc c1] h2 [Hle2 [[= -> ->]|[[= -> ->] Ho]]]; simpl; wp_step; (split; [by etrans|]).
  - left. by destruct l.
  - right. split; [done|]. by eapply heap_le_oom.
Qed.

Lemma context_cpy_spec dst src h :
  wp (context_cpy dst src) h (λ r h', heap_le h h' ∧ (r = (0, src) ∨ r.1 < 0 ∧ hp_oom h ≠ [])).
Proof.
  unfold context_cpy. eapply wp_mono; [apply context_cpy_range_spec|].
  intros r h' [Hle [->|?]]; (split; [done|]); [left; by destruct src|by right].
Qed.

Lemma context_cmp_eq c1 c2 : context_cmp c1 c2 = true ↔ c1 = c2.
Proof.
  unfold context_cmp, mls_context_cmp. rewrite !andb_true_iff, !Z.eqb_eq, !level_eq_iff.
  destruct c1 as [? ? ? []], c2 as [? ? ? []]; simpl. naive_solver.
Qed.

(** ** Combining ranges *)

Definition glblub_of (r1 r2 r : mls_range) : Prop :=
  sens (level0 r) = Z.max (sens (level0 r1)) (sens (level0 r2)) ∧
  sens (level1 r) = Z.min (sens (level1 r1)) (sens (level1 r2)) ∧
  (∀ i, has_cat (level0 r) i ↔ has_cat (level0 r1) i ∧ has_cat (level0 r2) i) ∧
  (∀ i, has_cat (level1 r) i ↔ has_cat (level1 r1) i ∧ has_cat (level1 r2) i).

(** Equality on the 32-bit range is equality. *)
Lemma bits_ext e S :
  wf e → (∀ i, S i = true → 0 ≤ i < 2 ^ 32) →
  (∀ i, 0 ≤ i < 2 ^ 32 → ebitmap_get_bit e i = S i) → ∀ i, ebitmap_get_bit e i = S i.
Proof.
  intros Hw HS He i. destruct (decide (0 ≤ i < 2 ^ 32)) as [|Hn]; [by apply He|].
  destruct (ebitmap_get_bit e i) eqn:E1; [by apply wf_bit_range in E1|].
  destruct (S i) eqn:E2; [by apply HS in E2|done].
Qed.

Lemma and_bits e e1 e2 :
  wf e → wf e1 →
  (∀ i, 0 ≤ i < 2 ^ 32 → ebitmap_get_bit e i = ebitmap_get_bit e1 i && ebitmap_get_bit e2 i) →
  ∀ i, ebitmap_get_bit e i = ebitmap_get_bit e1 i && ebitmap_get_bit e2 i.
Proof.
  intros Hw H1 Hb. apply (bits_ext e (λ i, ebitmap_get_bit e1 i && ebitmap_get_bit e2 i)); [done| |done].
  intros i [Hi _]%andb_true_iff. by eapply wf_bit_range.
Qed.

Lemma glblub_spec dst r1 r2 h :
  range_wf r1 → range_wf r2 →
  wp (mls_range_glblub dst r1 r2) h (λ o h', heap_le h h' ∧
    ((o.1 = 0 ∧ range_wf o.2 ∧ glblub_of r1 r2 o.2 ∧
      sens (level0 r2) ≤ sens (level1 r1) ∧ sens (level0 r1) ≤ sens (level1 r2)) ∨
     (o = (- EINVAL, dst) ∧ (sens (level1 r1) < sens (level0 r2) ∨ sens (level1 r2) < sens (level0 r1))) ∨
     (o.1 = -1 ∧ hp_oom h ≠ []))).
Proof.
  intros [[Hs1 Hc1] [Hs1' Hc1']] [[Hs2 Hc2] [Hs2' Hc2']]. unfold mls_range_glblub. wp_step.
  { wp_step. split; [done|]. right. left. split; [done|]. apply orb_true_iff in E. zbool.
    destruct E; zbool; lia. }
  zbool. wp_step. eapply wp_mono; [by apply and_spec|].
  intros [rc c0] h1 (Hle & Hw & [[Hrc Hb]|(Hrc & _ & Ho)]); simpl in *; subst rc; simpl; cycle 1.
  { wp_step. split; [done|]. right. right. done. }
  wp_step. eapply wp_mono; [by apply and_spec|].
  intros [rc c1] h2 (Hle2 & Hw2 & [[Hrc Hb2]|(Hrc & _ & Ho)]); simpl in *; subst rc; simpl; cycle 1.
  { wp_step. split; [by etrans|]. right. right. split; [done|]. by eapply heap_le_oom. }
  wp_step. split; [by etrans|]. left. split; [done|]. split; [split; (split; [cbn [sens level0 level1 snd]; lia|done])|].
  split; [|lia]. split_and!; [done..| |]; intros i; unfold has_cat; simpl; rewrite <- andb_true_iff.
  - by rewrite (and_bits _ _ _ Hw Hc1 Hb).
  - by rewrite (and_bits _ _ _ Hw2 Hc1' Hb2).
Qed.

Lemma glblub_ordered r1 r2 r :
  range_ordered r1 → range_ordered r2 → range_wf r → glblub_of r1 r2 r →
  sens (level0 r2) ≤ sens (level1 r1) → sens (level0 r1) ≤ sens (level1 r2) → range_ordered r.
Proof.
  intros [[H10 H11] H1] [[H20 H21] H2] Hr (Hs0 & Hs1 & Hc0 & Hc1) Ha Hb. split; [done|].
  destruct Hr as [Hr0 Hr1]. rewrite dom_iff in H1, H2 |- * by done.
  destruct H1 as [? H1], H2 as [? H2]. split; [lia|].
  intros i [? ?]%Hc0. apply Hc1. auto.
Qed.
