(* ===== verification/MlsSpec.v ===== *)
(** * What the MLS code promises

    Dominance is a partial order; the ranges the security server computes are
    ordered and stay inside what the user is cleared for; validity means what
    its comment says. *)

From S2P Require Import Prelude Ebitmap EbitmapFacts EbitmapIter EbitmapSpec Hashtab HashtabFacts.
From S2P Require Import HashtabSpec Mls Policydb Avtab MlsPolicy MlsFacts.


Definition lvl (s : Z) (cats : list Z) : mls_level := MlsLevel s (of_bits cats).

Lemma lvl_wf s cats :
  0 ≤ s < 2 ^ 32 → Forall (λ b, 0 ≤ b < 2 ^ 32) cats → level_wf (lvl s cats).
Proof. intros. split; [done|]. by apply of_bits_wf. Qed.

Ltac lvl_wf := apply lvl_wf; [lia|repeat constructor; lia].




(** A user whose default level lies in its range. *)
Definition user_ok (u : user_datum) : Prop :=
  range_ordered (ud_exp_range u) ∧ level_wf (ud_exp_dfltlevel u) ∧
  mls_level_between (ud_exp_dfltlevel u) (level0 (ud_exp_range u)) (level1 (ud_exp_range u)) = true.

(** C25: When [mls_setup_user_range] succeeds, the range it gives the user's
    context is ordered, lies inside the user's range, and its clearance does not
    exceed that of the context the user comes from. *)
Theorem mls_setup_user_range_safe fromcon u usercon :
  range_ordered (c_range fromcon) → user_ok u →
  (mls_setup_user_range fromcon u usercon true).1 = 0 →
  let r := c_range (mls_setup_user_range fromcon u usercon true).2 in
  range_ordered r ∧ mls_range_contains (ud_exp_range u) r = true ∧
  mls_level_dom (level1 (c_range fromcon)) (level1 r) = true.
Proof.
  intros [[Hf0 Hf1] Hf] ([[Hu0 Hu1] Hu] & Hd & Hbt). unfold mls_setup_user_range.
  unfold mls_level_between in *. apply andb_true_iff in Hbt as [Hlo Hhi].
  set (fl := level0 (c_range fromcon)) in *. set (fh := level1 (c_range fromcon)) in *.
  set (ul := level0 (ud_exp_range u)) in *. set (uh := level1 (ud_exp_range u)) in *.
  set (d := ud_exp_dfltlevel u) in *.
  set (sen := if mls_level_dom d fl && mls_level_dom fh d then Some d else _).
  assert (∀ s, sen = Some s → level_wf s ∧ mls_level_dom s ul = true ∧
    mls_level_dom fh s = true ∧ mls_level_dom uh s = true) as Hsen.
  { unfold sen. intros s Hs. repeat case_match; try done; simplify_eq;
      repeat match goal with E : _ && _ = true |- _ => apply andb_true_iff in E as [? ?] end;
      split_and!; eauto with mls. }
  destruct sen as [s|]; simpl; [|done]. destruct (Hsen s eq_refl) as (Hs & Hs1 & Hs2 & Hs3).
  unfold range_ordered, range_wf, mls_range_contains. fold ul uh.
  destruct (mls_level_dom uh fh) eqn:E1; simpl.
  { intros _. rewrite Hs1, Hs2, E1. split_and!; try done. by apply dom_refl. }
  destruct (mls_level_dom fh uh) eqn:E2; simpl; [|done].
  intros _. fold uh. rewrite Hs1, Hs3. split_and!; try done. by apply dom_refl.
Qed.

Definition demo_user : user_datum :=
  UserDatum 1 ebitmap_init ebitmap_init (MlsRange (lvl 1 []) (lvl 5 [1; 2; 3])) (lvl 2 [1]) 0.
Definition demo_from : context_struct :=
  Context 1 2 3 (MlsRange (lvl 1 [1]) (lvl 3 [1; 2])).

Lemma mls_setup_user_range_safe_witness :
  let r := c_range (mls_setup_user_range demo_from demo_user context_init true).2 in
  range_ordered r ∧ mls_range_contains (ud_exp_range demo_user) r = true ∧
  mls_level_dom (level1 (c_range demo_from)) (level1 r) = true.
Proof.
  apply mls_setup_user_range_safe; [|split_and!|vm_compute; reflexivity].
  - split; [split; lvl_wf|vm_compute; reflexivity].
  - split; [split; lvl_wf|vm_compute; reflexivity].
  - lvl_wf.
  - vm_compute. reflexivity.
Defined.

(** ** The MLS part of new contexts *)

(** [class_val_to_struct] has an entry per class. *)
Definition classes_ok (p : policydb) : Prop :=
  Z.of_nat (length (class_val_to_struct p)) = s_nprim (p_classes p).

(** The range transitions of the policy lead to ordered ranges. *)
Definition range_tr_ok (p : policydb) : Prop :=
  match range_tr p with
  | Some h => hwf h ∧ ∀ k r, dict h !! k = Some r → range_ordered r
  | None => True
  end.

Definition range_computed (newcontext : context_struct) (o : Z * context_struct) (_ : heap) : Prop :=
  (∃ r, o = (0, set_range newcontext r) ∧ range_ordered r) ∨ o.1 < 0.

Lemma copied_computed h c r o h' : copied h c r o h' → range_ordered r → range_computed c o h'.
Proof. intros [_ [->|[? _]]] Hr; [left; eauto|by right]. Qed.

Lemma single_ordered l : level_wf l → range_ordered (MlsRange l l).
Proof. intros Hl. split; [by split|]. by apply dom_refl. Qed.

Lemma range_eta r : MlsRange (level0 r) (level1 r) = r.
Proof. by destruct r. Qed.

Lemma compute_change_spec p s tclass c h :
  range_ordered (c_range s) → wp (mls_compute_change p s tclass c) h (range_computed c).
Proof.
  intros Hs. unfold mls_compute_change, mls_copy_context, mls_scopy_context. wp_step.
  - eapply wp_mono; [apply fill_range_spec|]. intros o h' Ho. eapply copied_computed; [done|].
    by rewrite range_eta.
  - eapply wp_mono; [apply fill_range_spec|]. intros o h' Ho. eapply copied_computed; [done|].
    apply single_ordered, Hs.
Qed.

Lemma compute_range_spec p s t tclass specified c h :
  nz (mls p) = true → classes_ok p → range_tr_ok p → 0 ≤ tclass →
  range_ordered (c_range s) → range_ordered (c_range t) →
  wp (mls_compute_sid p s t tclass specified c) h (range_computed c).
Proof.
  intros Hm Hcl Htr Htc Hs Ht.
  assert (∀ l, level_wf l → wp (mls_context_cpy_level c l) h (range_computed c)) as Hcpy.
  { intros l Hl. eapply wp_mono; [apply cpy_level_spec|]. intros o h' Ho.
    eapply copied_computed; [done|]. by apply single_ordered. }
  assert (∀ x, range_ordered (c_range x) → wp (mls_context_cpy c x) h (range_computed c)) as Hcpy2.
  { intros x Hx. eapply wp_mono; [apply context_cpy_range_spec|]. intros o h' Ho.
    by eapply copied_computed. }
  unfold mls_compute_sid. rewrite Hm. cbn [negb]. wp_step.
  - assert (∃ r, hashtab_search (range_tr p) (RangeTrans (c_type s) (c_type t) tclass) = Some r ∧
      ∀ q, r = Some q → range_ordered q) as (r & -> & Hr).
    { unfold range_tr_ok in Htr. destruct (range_tr p) as [ht|]; [|by exists None].
      destruct Htr as [Hwf Hall]. rewrite search_spec by done. eexists. split; [done|].
      intros q Hq. by eapply Hall. }
    do 2 wp_step. destruct r as [q|].
    { eapply wp_mono; [apply fill_range_spec|]. intros o h' Ho. eapply copied_computed; [done|].
      rewrite range_eta. auto. }
    wp_step. eapply wp_mono with (Q := λ _ h', h' = h).
    { destruct (nz tclass && (tclass <=? s_nprim (p_classes p))) eqn:Ec; [|done].
      apply andb_true_iff in Ec as [Ec1 Ec2]. unfold nz in Ec1. zbool. unfold classes_ok in Hcl.
      unfold aget. rewrite (proj2 (Z.ltb_ge _ _)) by lia.
      destruct (lookup_lt_is_Some_2 (class_val_to_struct p) (Z.to_nat (tclass - 1))) as [d ->]; [lia|done]. }
    intros cladatum ? ->. cbn zeta. set (dr := match cladatum with Some d => _ | None => 0 end).
    do 6 (wp_step; [by first [apply Hcpy; apply Hs|apply Hcpy; apply Ht|apply Hcpy2]|]).
    wp_step; [|by apply compute_change_spec].
    unfold mls_context_glblub. wp_step. eapply wp_mono; [apply glblub_spec; [apply Hs|apply Ht]|].
    intros [rc q] h' (_ & [(Hrc & Hq & Hg & ? & ?)|[([= -> ->] & _)|(Hrc & _)]]); simpl in *; wp_step.
    + left. exists q. rewrite Hrc. split; [done|]. by eapply (glblub_ordered (c_range s) (c_range t)).
    + by right.
    + right. simpl. lia.
  - wp_step; [by apply compute_change_spec|]. wp_step; [apply Hcpy; apply Hs|]. by right.
Qed.

(** C24: [mls_compute_sid] for ordered source and target ranges, under a policy
    whose range transitions are ordered: it either fails, or gives the new
    context an ordered range and changes nothing else of it. *)
Theorem mls_compute_sid_ordered p s t tclass specified c h :
  nz (mls p) = true → classes_ok p → range_tr_ok p → 0 ≤ tclass →
  range_ordered (c_range s) → range_ordered (c_range t) →
  wp (mls_compute_sid p s t tclass specified c) h (λ o _,
    (∃ r, o = (0, set_range c r) ∧ range_ordered r) ∨ o.1 < 0).
Proof. apply compute_range_spec. Qed.

(** A policy with nothing in it, and one class, for examples. *)
Definition empty_symtab {V} : symtab V := Symtab None 0.
Definition demo_class : class_datum := ClassDatum 1 None empty_symtab [] [] 0 0 0 DEFAULT_GLBLUB.
Definition demo_policy : policydb :=
  Policydb 1 (Symtab None 1) empty_symtab empty_symtab empty_symtab 0 empty_symtab empty_symtab
    [] [] [] [] [] [] [] [Some demo_class] [] [] [] (Avtab None 0 0 0) [] (Avtab None 0 0 0) [] [] []
    [] [] None [] [] ebitmap_init 33 0 2 0 0 0 POLICY_KERN (Symtab None 0) None [] None 0 ebitmap_init 0.

Lemma mls_compute_sid_ordered_witness :
  wp (mls_compute_sid demo_policy demo_from
        (Context 1 2 4 (MlsRange (lvl 2 []) (lvl 9 [2]))) 1 AVTAB_TRANSITION context_init)
     (Heap 0 []) (λ o _, (∃ r, o = (0, set_range context_init r) ∧ range_ordered r) ∨ o.1 < 0).
Proof.
  apply mls_compute_sid_ordered; [reflexivity|reflexivity|exact I|lia| |];
    (split; [split; lvl_wf|vm_compute; reflexivity]).
Defined.

(** ** Validity *)

(** The policy's MLS tables: levels and users are indexed by their values. *)
Definition mls_tables_ok (p : policydb) : Prop :=
  (∃ h, s_table (p_levels p) = Some h ∧ hwf h) ∧
  Z.of_nat (length (p_sens_val_to_name p)) = s_nprim (p_levels p) ∧
  Z.of_nat (length (user_val_to_struct p)) = s_nprim (p_users p).

(** The level [lev] declared for a sensitivity allows the categories of [l]. *)
Definition level_allowed (p : policydb) (l : mls_level) : Prop :=
  1 ≤ sens l ≤ s_nprim (p_levels p) ∧
  ∃ h name lev, s_table (p_levels p) = Some h ∧
    p_sens_val_to_name p !! Z.to_nat (sens l - 1) = Some (Some name) ∧
    dict h !! name = Some lev ∧
    ∀ i, has_cat l i → i ≤ s_nprim (p_cats p) ∧ has_cat (ld_level lev) i.

Definition mls_valid (p : policydb) (c : context_struct) : Prop :=
  mls_level_dom (level1 (c_range c)) (level0 (c_range c)) = true ∧
  level_allowed p (level0 (c_range c)) ∧ level_allowed p (level1 (c_range c)) ∧
  (c_role c = OBJECT_R_VAL ∨
   1 ≤ c_user c ≤ s_nprim (p_users p) ∧
   ∃ u, user_val_to_struct p !! Z.to_nat (c_user c - 1) = Some (Some u) ∧
        mls_range_contains (ud_exp_range u) (c_range c) = true).

Lemma level_isvalid_spec p l :
  mls_tables_ok p → level_wf l →
  ∃ b, level_isvalid p l = Some b ∧ (b = true ↔ level_allowed p l).
Proof.
  intros ((h & Ht & Hh) & Hn & _) [Hs Hw]. unfold level_isvalid, level_allowed.
  destruct (Z.eqb_spec (sens l) 0); simpl; [eexists; split; [done|]; split; [done|lia]|].
  rewrite Z.gtb_ltb. destruct (Z.ltb_spec (s_nprim (p_levels p)) (sens l));
    [eexists; split; [done|]; split; [done|lia]|].
  unfold aget. rewrite (proj2 (Z.ltb_ge _ _)) by lia.
  destruct (lookup_lt_is_Some_2 (p_sens_val_to_name p) (Z.to_nat (sens l - 1))) as [k Hk]; [lia|].
  rewrite Hk. simpl. destruct k as [name|];
    [|eexists; split; [done|]; split; [done|]; intros (_ & ? & ? & ? & _ & ? & _); congruence].
  rewrite Ht, search_spec by done. simpl. destruct (dict h !! name) as [lev|] eqn:Hd; cycle 1.
  { eexists. split; [done|]. split; [done|]. intros (_ & h' & ? & ? & ? & ? & ? & _). by simplify_eq. }
  destruct (positive_bits_spec _ Hw) as (bits & -> & _ & Hin). simpl. eexists. split; [done|].
  rewrite forallb_forall. split.
  - intros Hall. split; [lia|]. exists h, name, lev. split_and!; [done..|]. intros i Hi.
    specialize (Hall i). rewrite <- list_elem_of_In, Hin, andb_true_iff, negb_true_iff in Hall.
    destruct (Hall Hi) as [Ha Hb]. zbool. done.
  - intros (_ & h' & name' & lev' & ? & ? & ? & Hall) i Hi. simplify_eq.
    rewrite <- list_elem_of_In, Hin in Hi. destruct (Hall i Hi) as [Ha Hb].
    apply andb_true_iff. split; [|done]. apply negb_true_iff. rewrite Z.gtb_ltb. by apply Z.ltb_ge.
Qed.

Lemma mls_isvalid_spec p c :
  nz (mls p) = true → mls_tables_ok p → range_wf (c_range c) → 0 ≤ c_user c →
  ∃ b, mls_context_isvalid p c = Some b ∧ (b = true ↔ mls_valid p c).
Proof.
  intros Hm Hp [H0 H1] Hu. unfold mls_context_isvalid, mls_valid. rewrite Hm. simpl.
  destruct (mls_level_dom _ _); simpl; [|by exists false; naive_solver].
  destruct (level_isvalid_spec p _ Hp H0) as ([] & -> & B0); simpl; [|by exists false; naive_solver].
  destruct (level_isvalid_spec p _ Hp H1) as ([] & -> & B1); simpl; [|by exists false; naive_solver].
  pose proof (proj1 B0 eq_refl). pose proof (proj1 B1 eq_refl).
  destruct (Z.eqb_spec (c_role c) OBJECT_R_VAL); [exists true; split; [done|]; tauto|].
  destruct (Z.eqb_spec (c_user c) 0); simpl;
    [exists false; split; [done|]; split; [done|]; intros (_ & _ & _ & [?|[? _]]); [done|lia]|].
  rewrite Z.gtb_ltb. destruct (Z.ltb_spec (s_nprim (p_users p)) (c_user c));
    [exists false; split; [done|]; split; [done|]; intros (_ & _ & _ & [?|[? _]]); [done|lia]|].
  destruct Hp as (_ & _ & Hl). unfold aget. rewrite (proj2 (Z.ltb_ge _ _)) by lia.
  destruct (lookup_lt_is_Some_2 (user_val_to_struct p) (Z.to_nat (c_user c - 1))) as [u ->]; [lia|].
  simpl. destruct u as [u|]; [|exists false; split; [done|]; split; [done|]; naive_solver].
  eexists. split; [done|]. split.
  - intros ?. split_and!; [done..|]. right. split; [lia|]. eauto.
  - intros (_ & _ & _ & [?|(_ & u' & ? & ?)]); [done|]. by simplify_eq.
Qed.

(** C35: [mls_context_isvalid] decides validity under an MLS policy: the high
    level dominates the low one, each level's sensitivity is declared and allows
    its categories, and, except for the object role, the user is cleared for the
    range.  It never indexes outside the policy's tables. *)
Theorem mls_context_isvalid_correct p c :
  nz (mls p) = true → mls_tables_ok p → range_wf (c_range c) → 0 ≤ c_user c →
  ∃ b, mls_context_isvalid p c = Some b ∧ (b = true ↔ mls_valid p c).
Proof. apply mls_isvalid_spec. Qed.

(** A policy with two sensitivities and four categories. *)
Definition demo_levels : symtab level_datum :=
  Symtab (ht_of 2 [("s0", LevelDatum (lvl 1 [0; 1; 2; 3]) false);
                   ("s1", LevelDatum (lvl 2 [0; 1; 2; 3]) false)]) 2.
Definition demo_cats : symtab cat_datum :=
  Symtab (ht_of 2 [("c0", CatDatum 1 false); ("c1", CatDatum 2 false);
                   ("c2", CatDatum 3 false); ("c3", CatDatum 4 false)]) 4.
Definition mls_policy : policydb :=
  Policydb 1 (Symtab None 1) empty_symtab empty_symtab (Symtab None 1) 0 demo_levels demo_cats
    [] [] [] [] [Some "s0"%string; Some "s1"%string]
    [Some "c0"%string; Some "c1"%string; Some "c2"%string; Some "c3"%string] []
    [Some demo_class] [] [Some (UserDatum 1 ebitmap_init ebitmap_init (MlsRange (lvl 1 []) (lvl 2 [0; 1; 2; 3])) (lvl 1 []) 0)]
    [] (Avtab None 0 0 0) [] (Avtab None 0 0 0) [] [] [] [] [] None [] [] ebitmap_init 33 0 2 0 0 0 POLICY_KERN (Symtab None 0) None [] None 0 ebitmap_init 0.

Lemma mls_context_isvalid_correct_witness :
  (∃ b, mls_context_isvalid mls_policy (Context 1 2 3 (MlsRange (lvl 1 [1]) (lvl 2 [1; 3]))) = Some b ∧
     (b = true ↔ mls_valid mls_policy (Context 1 2 3 (MlsRange (lvl 1 [1]) (lvl 2 [1; 3]))))) ∧
  mls_context_isvalid mls_policy (Context 1 2 3 (MlsRange (lvl 1 [1]) (lvl 2 [1; 3]))) = Some true.
Proof.
  split; [|vm_compute; reflexivity].
  apply mls_context_isvalid_correct; [reflexivity| |split; lvl_wf|simpl; lia].
  split; [|split; vm_compute; reflexivity].
  apply (ht_of_wf 2). lia.
Defined.
