(* ===== verification/MlsString.v ===== *)
(** * The string form of MLS ranges

    The length [mls_compute_context_len] announces is the length
    [mls_sid_to_context] writes, and [mls_from_string] reads back what
    [mls_to_string] wrote, for category sets without gaps between the words of
    their bitmaps; with such a gap the text names other categories. *)

From stdpp Require Import pretty.
From S2P Require Import Prelude Ebitmap EbitmapFacts EbitmapIter EbitmapSpec Hashtab HashtabFacts.
From S2P Require Import HashtabSpec Mls Policydb Avtab MlsPolicy MlsFacts MlsSpec.

(** ** The announced length *)

Lemma strlen_app s1 s2 : strlen (s1 +:+ s2) = strlen s1 + strlen s2.
Proof. unfold strlen. rewrite str_length_app. lia. Qed.

Lemma u32_add x y : u32 (u32 x + y) = u32 (x + y).
Proof. unfold u32. by rewrite Zplus_mod_idemp_l. Qed.

Lemma cats_len_spec p bits out range w :
  cats_len p bits (u32 (strlen out)) range =
    (λ r, (u32 (strlen r.1.1), r.1.2)) <$> cats_str p bits out range w.
Proof.
  revert out range w. induction bits as [|[i b] bits IH]; intros out range w; [done|]. simpl.
  destruct b.
  - destruct (nz range); [apply IH|]. destruct (cat_name p i) as [n|]; simpl; [|done].
    rewrite <- IH. f_equal. rewrite !strlen_app, <- Z.add_assoc, u32_add. f_equal.
    destruct w; unfold strlen; cbn; lia.
  - destruct (range >? 1); [|apply IH]. destruct (cat_name p (u32 (i - 1))) as [n|]; simpl; [|done].
    rewrite <- IH. f_equal. rewrite !strlen_app, <- Z.add_assoc, u32_add. f_equal.
    destruct (range >? 2); unfold strlen; cbn; lia.
Qed.

Lemma level_len_spec p l out :
  level_len p l (u32 (strlen out)) = (λ s, u32 (strlen s)) <$> level_str p l out.
Proof.
  unfold level_len, level_str. destruct (name_of _ _) as [n|]; simpl; [|done].
  destruct (ebitmap_for_each_bit (cat l)) as [bits|]; simpl; [|done].
  rewrite u32_add, <- strlen_app, (cats_len_spec p bits (out +:+ n) 0 false).
  destruct (cats_str p bits (out +:+ n) 0 false) as [[[o range] w]|]; simpl; [|done].
  destruct (range >? 1); simpl; [|done]. destruct (cat_name _ _) as [n'|]; simpl; [|done].
  f_equal. rewrite !strlen_app, <- Z.add_assoc, u32_add. f_equal. destruct (range >? 2); unfold strlen; cbn; lia.
Qed.

Lemma context_len_spec p c :
  mls_compute_context_len p c = (λ s, u32 (strlen s)) <$> mls_sid_to_context p c.
Proof.
  unfold mls_compute_context_len, mls_sid_to_context. destruct (nz (mls p)); simpl; [|done].
  change (level_len p (level0 (c_range c)) 1) with (level_len p (level0 (c_range c)) (u32 (strlen ":"))).
  rewrite level_len_spec.
  destruct (level_str p (level0 (c_range c)) ":") as [out|]; simpl; [|done].
  destruct (mls_level_eq _ _); simpl; [done|].
  rewrite u32_add. change (strlen out + 1) with (strlen out + strlen "-").
  rewrite <- strlen_app. apply level_len_spec.
Qed.

(** ** The text of a category set *)

Inductive item := Single (i : Z) | Range (a b : Z).

Section text.
Context (p : policydb) (nm : Z → string) (N : Z).
Context (Hnm : ∀ i, 0 ≤ i < N → cat_name p i = Some (nm i)) (HN : N < 2 ^ 32).
Implicit Types (L : list (Z * bool)) (w : bool).

Definition flush (s n : Z) : list item :=
  if n =? 1 then [Single s] else if n =? 2 then [Single s; Single (s + 1)] else [Range s (s + n - 1)].

(** The items the text lists; [st] is the start and length of an open run. *)
Fixpoint items L (st : option (Z * Z)) : list item :=
  match L with
  | [] => match st with Some (s, n) => flush s n | None => [] end
  | (i, true) :: L =>
     items L (match st with Some (s, n) => Some (s, n + 1) | None => Some (i, 1) end)
  | (i, false) :: L =>
     match st with Some (s, n) => flush s n ++ items L None | None => items L None end
  end.

Definition item_text (x : item) : string :=
  match x with Single i => nm i | Range a b => nm a +:+ "." +:+ nm b end.

Definition sep w : string := if w then "," else ":".

Fixpoint render w (l : list item) : string :=
  match l with
  | [] => ""
  | x :: l => sep w +:+ item_text x +:+ render true l
  end.

(** What is still to be written of a run whose first name is out. *)
Definition close (s n : Z) : string :=
  if n =? 1 then "" else if n =? 2 then "," +:+ nm (s + 1) else "." +:+ nm (s + n - 1).

Fixpoint tail_text L (s n : Z) : string :=
  match L with
  | [] => close s n
  | (_, true) :: L => tail_text L s (n + 1)
  | (_, false) :: L => close s n +:+ render true (items L None)
  end.

Lemma render_flush w s n l :
  1 ≤ n → render w (flush s n ++ l) = (sep w +:+ nm s +:+ close s n +:+ render true l)%string.
Proof.
  intros Hn. unfold flush, close. destruct (Z.eqb_spec n 1); [done|].
  destruct (Z.eqb_spec n 2); simpl; by rewrite ?str_app_assoc.
Qed.

Lemma render_items L s n w :
  1 ≤ n → render w (items L (Some (s, n))) = (sep w +:+ nm s +:+ tail_text L s n)%string.
Proof.
  revert n. induction L as [|[i []] L IH]; intros n Hn; simpl.
  - rewrite <- (app_nil_r (flush s n)), render_flush by done. simpl. by rewrite str_app_nil_r.
  - apply IH. lia.
  - by apply render_flush.
Qed.

(** Every visited bit follows a set bit directly. *)
Fixpoint contig (b : bool) (i : Z) L : Prop :=
  match L with
  | [] => True
  | (j, v) :: L => (b = true → j = i + 1) ∧ contig v j L
  end.

(** The loop and the code behind it, with [x] the exit value of [i]. *)
Definition cats_text L (x : Z) (out : string) (range : Z) w : option string :=
  r ← cats_str p L out range w;
  if r.1.2 >? 1 then
    n ← cat_name p (u32 (x - 1));
    Some (r.1.1 +:+ (if r.1.2 >? 2 then "." else ",") +:+ n)
  else Some r.1.1.

Definition exit_ok (x prev : Z) L : Prop :=
  x = match last L with Some b => b.1 + 1 | None => prev + 1 end.

Lemma exit_ok_cons x prev b L : exit_ok x prev (b :: L) → exit_ok x b.1 L.
Proof.
  unfold exit_ok. destruct L as [|c L]; [done|]. rewrite last_cons_cons.
  destruct (last (c :: L)) eqn:E; [done|]. by apply last_None in E.
Qed.

Lemma close_text out s n :
  2 ≤ n → (out +:+ (if n >? 2 then "." else ",") +:+ nm (s + n - 1) = out +:+ close s n)%string.
Proof.
  intros Hn. unfold close. destruct (Z.eqb_spec n 1); [lia|]. rewrite Z.gtb_ltb.
  destruct (Z.eqb_spec n 2) as [->|].
  - simpl. by replace (s + 2 - 1) with (s + 1) by lia.
  - rewrite (proj2 (Z.ltb_lt _ _)) by lia. done.
Qed.

Lemma cats_text_set i L x out n w :
  cats_text ((i, true) :: L) x out n w =
    if nz n then cats_text L x out (n + 1) w
    else q ← cat_name p i; cats_text L x (out +:+ sep w +:+ q) (n + 1) true.
Proof. unfold cats_text. simpl. destruct (nz n); [done|]. by destruct (cat_name p i). Qed.

Lemma cats_text_clear i L x out n w :
  cats_text ((i, false) :: L) x out n w =
    if n >? 1 then q ← cat_name p (u32 (i - 1));
       cats_text L x (out +:+ (if n >? 2 then "." else ",") +:+ q) 0 w
    else cats_text L x out 0 w.
Proof. unfold cats_text. simpl. destruct (n >? 1); [|done]. by destruct (cat_name p (u32 (i - 1))). Qed.

Lemma cats_text_spec L x :
  Forall (λ b : Z * bool, b.2 = true → 0 ≤ b.1 < N) L →
  (∀ out w i b, contig b i L → exit_ok x i L → cats_text L x out 0 w = Some (out +:+ render w (items L None))%string) ∧
  (∀ out s n, 1 ≤ n → 0 ≤ s → s + n ≤ N → contig true (s + n - 1) L → exit_ok x (s + n - 1) L →
     cats_text L x out n true = Some (out +:+ tail_text L s n)%string).
Proof.
  induction L as [|[i b] L IH]; intros HL.
  { split.
    - intros. unfold cats_text. simpl. by rewrite str_app_nil_r.
    - intros out s n Hn Hs HsN _ Hx. unfold exit_ok in Hx. simpl in Hx. unfold cats_text. simpl.
      destruct (Z.eqb_spec n 1) as [->|Hn1].
      { unfold close. simpl. by rewrite str_app_nil_r. }
      rewrite (proj2 (Z.gtb_lt n 1)) by lia.
      rewrite u32_id by lia. replace (x - 1) with (s + n - 1) by lia.
      rewrite Hnm by lia. simpl. f_equal. apply close_text. lia. }
  apply Forall_cons in HL as [Hi HL]. destruct (IH HL) as [IH1 IH2]. clear IH. simpl in Hi. split.
  - intros out w j c [_ Hc] Hx%exit_ok_cons. destruct b; simpl.
    + rewrite cats_text_set. cbn [nz Z.eqb negb]. rewrite Hnm by auto. cbn [mbind option_bind].
      rewrite (IH2 _ i 1); [|lia|lia|lia|by replace (i + 1 - 1) with i by lia..].
      rewrite render_items by lia. by rewrite !str_app_assoc.
    + by apply (IH1 _ _ i false).
  - intros out s n Hn Hs HsN [Hc0 Hc] Hx%exit_ok_cons. specialize (Hc0 eq_refl). simpl in Hx. destruct b.
    + rewrite cats_text_set. unfold nz. rewrite (proj2 (Z.eqb_neq n 0)) by lia. simpl.
      specialize (Hi eq_refl). apply IH2; [lia|lia|lia|..]; by replace (s + (n + 1) - 1) with i by lia.
    + rewrite cats_text_clear. simpl. destruct (Z.eqb_spec n 1) as [->|Hn1].
      * simpl. rewrite (IH1 _ _ i false) by done. unfold close. simpl. done.
      * rewrite (proj2 (Z.gtb_lt n 1)) by lia. rewrite u32_id by lia.
        replace (i - 1) with (s + n - 1) by lia. rewrite Hnm by lia. cbn [mbind option_bind].
        rewrite (IH1 _ _ i false) by done. f_equal. rewrite close_text by lia. by rewrite str_app_assoc.
Qed.
End text.

(** ** Reading it back *)

(** No character of [s] is a stop. *)
Fixpoint free (stop : ascii → bool) (s : string) : bool :=
  match s with EmptyString => true | String c s => negb (stop c) && free stop s end.

Lemma scan_app stop s t : free stop s = true → scan stop (s +:+ t) = (s +:+ (scan stop t).1, (scan stop t).2)%string.
Proof.
  induction s as [|c s IH]; [intros _; rewrite !str_app_nil_l; by destruct (scan stop t)|].
  simpl. intros [Hc%negb_true_iff Hs]%andb_true_iff. rewrite !str_app_cons. simpl. by rewrite Hc, IH.
Qed.

Lemma scan_free stop s : free stop s = true → scan stop s = (s, None).
Proof. intros Hs. rewrite <- (str_app_nil_r s) at 1. rewrite scan_app by done. simpl. by rewrite str_app_nil_r. Qed.

Lemma free_app stop s t : free stop (s +:+ t) = free stop s && free stop t.
Proof.
  induction s as [|c s IH]; [done|]. rewrite str_app_cons. simpl. rewrite IH. btauto.
Qed.

Lemma free_weaken (f g : ascii → bool) s :
  (∀ c, g c = true → f c = true) → free f s = true → free g s = true.
Proof.
  intros Hfg. induction s as [|c s IH]; [done|]. simpl.
  intros [Hc%negb_true_iff Hs]%andb_true_iff. apply andb_true_iff. split; [|auto].
  apply negb_true_iff, not_true_iff_false. intros Hg%Hfg. congruence.
Qed.

(** [e'] has the bits of [e] and those in [S]. *)
Definition adds (e e' : ebitmap) (S : Z → Prop) : Prop :=
  wf e' ∧ ∀ i, 0 ≤ i < 2 ^ 32 → ebitmap_get_bit e' i = true ↔ ebitmap_get_bit e i = true ∨ S i.

Definition cat_seps (c : ascii) : bool := is_char ","%char c || is_char "-"%char c.
Definition name_seps (c : ascii) : bool := cat_seps c || is_char "."%char c.

Lemma wp_set_bit_ok e i h :
  hp_oom h = [] → wf e → 0 ≤ i < 2 ^ 32 - 64 →
  wp (ebitmap_set_bit e i true) h (λ r h', r.1 = 0 ∧ hp_oom h' = [] ∧ adds e r.2 (λ j, j = i)).
Proof.
  intros Ho Hw Hi. eapply wp_mono; [apply set_bit_spec; [done|lia]|].
  intros r h' ([_ Hle] & Hw' & [(Hrc & _ & Hb)|[[_ ?]|(_ & _ & ?)]]); [|lia|done].
  split_and!; [done|auto|split; [done|]]. intros j Hj. rewrite Hb by done.
  destruct (Z.eqb_spec j i); naive_solver.
Qed.

Lemma set_bits_from_spec todo i e h :
  hp_oom h = [] → wf e → 0 ≤ i → i + Z.of_nat todo ≤ 2 ^ 32 - 64 →
  wp (set_bits_from todo i e) h (λ r h', r.1 = 0 ∧ hp_oom h' = [] ∧
    adds e r.2 (λ j, i ≤ j < i + Z.of_nat todo)).
Proof.
  revert i e h. induction todo as [|todo IH]; intros i e h Ho Hw Hi Hl.
  { split_and!; [done..|split; [done|]]. intros j _. simpl. split; [auto|intros [?|?]; [done|lia]]. }
  cbn [set_bits_from]. wp_step. eapply wp_mono; [apply wp_set_bit_ok; [done|done|lia]|].
  intros [rc e1] h1 (Hrc & Ho1 & Hw1 & Hb1). simpl in Hrc, Hw1, Hb1. subst rc. cbn [nz Z.eqb negb].
  eapply wp_mono; [apply IH; [done|done|lia|lia]|]. intros r h2 (Hrc & Ho2 & Hw2 & Hb2).
  split_and!; [done..|split; [done|]]. intros j Hj. rewrite Hb2, Hb1 by done.
  split; [intros [[?|?]|?]; auto; right; lia|intros [?|?]; [auto|]].
  destruct (decide (j = i)); [auto|]. right. lia.
Qed.

Section parse.
Context (p : policydb) (nm : Z → string) (N : Z).
Context (Hcat : ∀ i, 0 ≤ i < N →
  ∃ d, hashtab_search (s_table (p_cats p)) (nm i) = Some (Some d) ∧ cd_value d = i + 1).
Context (Hfree : ∀ i, 0 ≤ i < N → free name_seps (nm i) = true) (HN : N ≤ 2 ^ 32 - 64).

Definition in_item (x : item) (i : Z) : Prop :=
  match x with Single j => i = j | Range a b => a ≤ i ≤ b end.

Definition item_ok (x : item) : Prop :=
  match x with Single i => 0 ≤ i < N | Range a b => 0 ≤ a < b ∧ b < N end.

Lemma name_dot i : 0 ≤ i < N → free (is_char "."%char) (nm i) = true.
Proof.
  intros Hi. eapply free_weaken; [|by apply Hfree]. intros c Hc. unfold name_seps. rewrite Hc. btauto.
Qed.

Lemma name_cat_seps i : 0 ≤ i < N → free cat_seps (nm i) = true.
Proof.
  intros Hi. eapply free_weaken; [|by apply Hfree]. intros c Hc. unfold name_seps. by rewrite Hc.
Qed.

Lemma item_text_free x : item_ok x → free cat_seps (item_text nm x) = true.
Proof.
  destruct x as [i|a b]; simpl; intros Hx; [by apply name_cat_seps|].
  rewrite !free_app, !name_cat_seps by lia. done.
Qed.

Lemma parse_item_spec x e h :
  hp_oom h = [] → wf e → item_ok x →
  wp (parse_item p (item_text nm x) e) h (λ r h', r.1 = 0 ∧ hp_oom h' = [] ∧ adds e r.2 (in_item x)).
Proof.
  intros Ho Hw Hx. unfold parse_item. destruct x as [i|a b]; simpl in Hx.
  - cbn [item_text]. rewrite scan_free by (by apply name_dot). cbn [fst snd].
    destruct (Hcat i Hx) as (d & -> & Hd). do 2 wp_step. cbn beta iota. wp_step. rewrite Hd.
    rewrite u32_id by lia. replace (i + 1 - 1) with i by lia.
    eapply wp_mono; [apply wp_set_bit_ok; [done|done|lia]|].
    intros [rc e'] h' (Hrc & Ho' & Ha). simpl in Hrc. subst rc. cbn [nz Z.eqb negb]. by wp_step.
  - cbn [item_text]. rewrite scan_app by (by apply name_dot; lia).
    change ("." +:+ nm b)%string with (String "."%char (nm b)). cbn [scan].
    replace (is_char "."%char "."%char) with true by done. cbn [fst snd]. rewrite str_app_nil_r.
    destruct (Hcat a) as (d & -> & Hd); [lia|]. do 2 wp_step. cbn beta iota. wp_step. rewrite Hd.
    rewrite u32_id by lia. replace (a + 1 - 1) with a by lia.
    eapply wp_mono; [apply wp_set_bit_ok; [done|done|lia]|].
    intros [rc e1] h1 (Hrc & Ho1 & Hw1 & Hb1). simpl in Hrc. subst rc. cbn [nz Z.eqb negb].
    destruct (Hcat b) as (d' & -> & Hd'); [lia|]. do 2 wp_step. cbn beta iota. rewrite ?Hd', ?Hd.
    rewrite Z.geb_leb, (proj2 (Z.leb_gt _ _)) by lia. wp_step.
    eapply wp_mono; [apply set_bits_from_spec; [done|done|lia|lia]|].
    intros [rc e2] h2 (Hrc & Ho2 & Hw2 & Hb2). simpl in Hrc. subst rc. cbn [nz Z.eqb negb].
    wp_step. split_and!; [done..|split; [done|]]. intros j Hj. simpl in *. rewrite Hb2, Hb1 by done.
    split; [intros [[?|?]|?]; auto; right; lia|intros [?|?]; [auto|]].
    destruct (decide (j = a)); [auto|]. right. lia.
Qed.

(** What follows the categories: the end, or the high level. *)
Definition rest_of (tl : string) : option (ascii * string) :=
  match tl with String c r => Some (c, r) | EmptyString => None end.

Definition tail_ok (tl : string) : Prop := match tl with String c _ => c = "-"%char | EmptyString => True end.

Definition in_items (l : list item) (i : Z) : Prop := ∃ x, x ∈ l ∧ in_item x i.

Lemma parse_cats_spec fuel x xs tl e h :
  hp_oom h = [] → wf e → Forall item_ok (x :: xs) → tail_ok tl → (length xs < fuel)%nat →
  wp (parse_cats fuel p (item_text nm x +:+ render nm true xs +:+ tl) e) h (λ r h',
    r.1.1 = 0 ∧ r.2 = rest_of tl ∧ hp_oom h' = [] ∧ adds e r.1.2 (in_items (x :: xs))).
Proof.
  revert fuel x e h. induction xs as [|y xs IH]; intros [|fuel] x e h Ho Hw Hall Htl Hf; simpl in Hf; try lia;
    apply Forall_cons in Hall as [Hx Hall]; cbn [parse_cats];
    change (λ c : ascii, is_char "," c || is_char "-" c) with cat_seps.
  - cbn [render]. rewrite str_app_nil_l, scan_app by (by apply item_text_free).
    assert (scan cat_seps tl = (""%string, rest_of tl)) as ->.
    { destruct tl as [|c r]; [done|]. simpl in Htl. by subst c. }
    cbn [fst snd]. rewrite str_app_nil_r. wp_step.
    eapply wp_mono; [by apply parse_item_spec|]. intros [rc e1] h1 (Hrc & Ho1 & Hw1 & Hb1).
    simpl in Hrc. subst rc. cbn [nz Z.eqb negb].
    assert (adds e e1 (in_items [x])) as Ha.
    { split; [done|]. intros i Hi. rewrite Hb1 by done. unfold in_items.
      set_unfold. naive_solver. }
    destruct tl as [|c r]; simpl in Htl |- *; [by wp_step|]. subst c. by wp_step.
  - cbn [render sep]. rewrite !str_app_assoc. rewrite scan_app by (by apply item_text_free).
    change ("," +:+ item_text nm y +:+ render nm true xs +:+ tl)%string with
      (String ","%char (item_text nm y +:+ render nm true xs +:+ tl)). cbn [scan].
    replace (cat_seps ","%char) with true by done. cbn [fst snd]. rewrite str_app_nil_r. wp_step.
    eapply wp_mono; [by apply parse_item_spec|]. intros [rc e1] h1 (Hrc & Ho1 & Hw1 & Hb1).
    simpl in Hrc. subst rc. cbn [nz Z.eqb negb]. replace (is_char ","%char ","%char) with true by done.
    eapply wp_mono; [apply IH; [done..|lia]|]. intros r h2 (Hrc & Hd & Ho2 & Hw2 & Hb2).
    split_and!; [done..|split; [done|]]. intros i Hi. rewrite Hb2, Hb1 by done.
    unfold in_items. set_unfold. clear.
    naive_solver.
Qed.
End parse.

(** ** The items and the bits *)

Lemma flush_bits s n i : 1 ≤ n → in_items (flush s n) i ↔ s ≤ i < s + n.
Proof.
  intros Hn. unfold flush, in_items. destruct (Z.eqb_spec n 1) as [->|].
  { split; [intros (x & ->%list_elem_of_singleton & Hi); simpl in Hi; lia|].
    intros Hi. exists (Single s). split; [set_solver|simpl; lia]. }
  destruct (Z.eqb_spec n 2) as [->|].
  - split.
    + intros (x & [->| ->%list_elem_of_singleton]%elem_of_cons & Hi); simpl in Hi; lia.
    + intros Hi. exists (Single i). split; [|done]. destruct (decide (i = s)) as [->|]; [set_solver|].
      assert (i = s + 1) as -> by lia. set_solver.
  - split; [intros (x & ->%list_elem_of_singleton & Hi); simpl in Hi; lia|].
    intros Hi. exists (Range s (s + n - 1)). split; [set_solver|simpl; lia].
Qed.

Lemma flush_ok N s n : 1 ≤ n → 0 ≤ s → s + n ≤ N → Forall (item_ok N) (flush s n).
Proof.
  intros Hn Hs HN. unfold flush. destruct (Z.eqb_spec n 1), (Z.eqb_spec n 2); repeat constructor; simpl; lia.
Qed.

Lemma in_items_app l1 l2 i : in_items (l1 ++ l2) i ↔ in_items l1 i ∨ in_items l2 i.
Proof. unfold in_items. set_solver. Qed.

Lemma items_spec N L :
  Forall (λ b : Z * bool, b.2 = true → 0 ≤ b.1 < N) L →
  (∀ b j, contig b j L → Forall (item_ok N) (items L None) ∧
     ∀ i, in_items (items L None) i ↔ (i, true) ∈ L) ∧
  (∀ s n, 1 ≤ n → 0 ≤ s → s + n ≤ N → contig true (s + n - 1) L →
     Forall (item_ok N) (items L (Some (s, n))) ∧
     ∀ i, in_items (items L (Some (s, n))) i ↔ s ≤ i < s + n ∨ (i, true) ∈ L).
Proof.
  induction L as [|[k b] L IH]; intros HL.
  { split.
    - intros b j _. split; [constructor|]. intros i. unfold in_items. simpl. set_solver.
    - intros s n Hn Hs HsN _. split; [by apply flush_ok|]. intros i. simpl. rewrite flush_bits by done.
      set_solver. }
  apply Forall_cons in HL as [Hk HL]. simpl in Hk. destruct (IH HL) as [IH1 IH2]. clear IH. split.
  - intros c j [_ Hc]. destruct b; simpl.
    + destruct (IH2 k 1) as [Hok Hb]; [lia|lia|lia|by replace (k + 1 - 1) with k by lia|].
      split; [done|]. intros i. rewrite Hb, elem_of_cons. split; [|naive_solver lia].
      intros [?|?]; [left; f_equal; lia|by right].
    + destruct (IH1 _ _ Hc) as [Hok Hb]. split; [done|]. intros i. rewrite Hb, elem_of_cons. naive_solver.
  - intros s n Hn Hs HsN [Hc0 Hc]. specialize (Hc0 eq_refl). destruct b; simpl.
    + specialize (Hk eq_refl).
      destruct (IH2 s (n + 1)) as [Hok Hb]; [lia|lia|lia|by replace (s + (n + 1) - 1) with k by lia|].
      split; [done|]. intros i. rewrite Hb, elem_of_cons. split; [|naive_solver lia].
      intros [?|?]; [|by auto]. destruct (decide (i = k)) as [->|]; [by auto|left; lia].
    + destruct (IH1 _ _ Hc) as [Hok Hb]. split; [apply Forall_app; split; [by apply flush_ok|done]|].
      intros i. rewrite in_items_app, flush_bits, Hb, elem_of_cons by done. naive_solver.
Qed.

(** No gap between the words of a bitmap behind a word whose last bit is set. *)
Fixpoint gap_free (ns : list ebitmap_node) : Prop :=
  match ns with
  | a :: (b :: _) as r =>
     (Z.testbit (nmap a) 63 = true → startbit b = startbit a + 64) ∧ gap_free r
  | _ => True
  end.

Lemma contig_node a todo R b i :
  (todo ≤ 64)%nat → (b = true → startbit a + (64 - Z.of_nat todo) = i + 1) →
  ((todo = 0)%nat → contig b i R) →
  contig (Z.testbit (nmap a) 63) (startbit a + 63) R →
  contig b i (node_bits a (64 - Z.of_nat todo) (Z.of_nat todo) ++ R).
Proof.
  revert b i. induction todo as [|todo IH]; intros b i Ht Hb H0 HR; [by apply H0|].
  unfold node_bits. rewrite seqZ_cons by lia. cbn [fmap list_fmap app contig]. split; [done|].
  replace (Z.succ (64 - Z.of_nat (S todo))) with (64 - Z.of_nat todo) by lia.
  replace (Z.pred (Z.of_nat (S todo))) with (Z.of_nat todo) by lia.
  apply IH; [lia|intros _; lia| |done]. intros ->. by replace (64 - Z.of_nat 1) with 63 by lia.
Qed.

Lemma contig_bits ns b i :
  gap_free ns → (b = true → match ns with a :: _ => startbit a = i + 1 | [] => True end) →
  contig b i (concat ((λ a, node_bits a 0 64) <$> ns)).
Proof.
  revert b i. induction ns as [|a ns IH]; intros b i Hg Hb; [done|]. cbn [fmap list_fmap concat].
  apply (contig_node a 64); [lia|intros ->; specialize (Hb eq_refl); lia|done|]. apply IH.
  - destruct ns; [done|]. by destruct Hg.
  - intros Ht. destruct ns as [|c r]; [done|]. destruct Hg as [Hg _]. specialize (Hg Ht). lia.
Qed.

(** ** The round trip *)

Definition level_seps (c : ascii) : bool := is_char ":"%char c || is_char "-"%char c.

(** The names of the policy: [snm] and [nm] give the names of sensitivities and
    categories; they have no separator in them and are found in the symbol
    tables under their values. *)
Record names_ok (p : policydb) (snm nm : Z → string) : Prop := {
  names_sens s : 1 ≤ s ≤ s_nprim (p_levels p) →
    name_of (p_sens_val_to_name p) s = Some (snm s) ∧ free level_seps (snm s) = true ∧
    ∃ lev, hashtab_search (s_table (p_levels p)) (snm s) = Some (Some lev) ∧ sens (ld_level lev) = s;
  names_cat i : 0 ≤ i < s_nprim (p_cats p) →
    cat_name p i = Some (nm i) ∧ free name_seps (nm i) = true ∧
    ∃ d, hashtab_search (s_table (p_cats p)) (nm i) = Some (Some d) ∧ cd_value d = i + 1;
  names_max : s_nprim (p_cats p) ≤ 2 ^ 32 - 64
}.

Definition level_named (p : policydb) (l : mls_level) : Prop :=
  1 ≤ sens l ≤ s_nprim (p_levels p) ∧ wf (cat l) ∧
  (∀ i, has_cat l i → i < s_nprim (p_cats p)) ∧ gap_free (e_node (cat l)).

Section roundtrip.
Context (p : policydb) (snm nm : Z → string) (Hp : names_ok p snm nm).

Definition bits_of (l : mls_level) : list (Z * bool) :=
  concat ((λ a, node_bits a 0 64) <$> e_node (cat l)).

Definition level_text (l : mls_level) : string := snm (sens l) +:+ render nm false (items (bits_of l) None).

Lemma elem_of_bits_of l i : wf (cat l) → (i, true) ∈ bits_of l ↔ has_cat l i.
Proof.
  intros Hw. destruct (positive_bits_spec _ Hw) as (bs & Hbs & _ & Hin). unfold has_cat. rewrite <- Hin.
  unfold ebitmap_for_each_positive_bit in Hbs. rewrite for_each_bit_spec in Hbs by done.
  injection Hbs as <-. rewrite list_elem_of_fmap. split.
  - intros Hi. exists (i, true). split; [done|]. by apply list_elem_of_filter.
  - intros ([j b] & -> & [Hb Hi]%list_elem_of_filter). simpl in *. by subst b.
Qed.

Lemma bits_of_range l : level_named p l →
  Forall (λ b : Z * bool, b.2 = true → 0 ≤ b.1 < s_nprim (p_cats p)) (bits_of l).
Proof.
  intros (_ & Hw & Hc & _). apply Forall_forall. intros [i b] Hi Hb. simpl in *. subst b.
  apply elem_of_bits_of in Hi; [|done]. pose proof (wf_bit_range _ _ Hw Hi). split; [lia|by apply Hc].
Qed.

Lemma bits_of_contig l : level_named p l → contig false 0 (bits_of l).
Proof. intros (_ & _ & _ & Hg). by apply contig_bits. Qed.

Lemma level_str_spec l out :
  level_named p l → level_str p l out = Some (out +:+ level_text l)%string.
Proof.
  intros Hl. pose proof (bits_of_range l Hl) as Hr. pose proof (bits_of_contig l Hl) as Hc.
  destruct Hl as (Hs & Hw & _). unfold level_str. destruct (names_sens _ _ _ Hp _ Hs) as (-> & _).
  rewrite for_each_bit_spec by done. fold (bits_of l).
  set (x := exit_bit (cat l) (bits_of l)). simpl.
  change (cats_text p (bits_of l) x (out +:+ snm (sens l)) 0 false = Some (out +:+ level_text l)%string).
  destruct (cats_text_spec p nm (s_nprim (p_cats p))) with (L := bits_of l) (x := x) as [Ht _];
    [intros i Hi; apply (names_cat _ _ _ Hp _ Hi)|pose proof (names_max _ _ _ Hp); lia|done|].
  rewrite (Ht _ _ (x - 1) false); [by rewrite str_app_assoc| |].
  - destruct (bits_of l) as [|[k b] L]; [done|]. by destruct Hc.
  - unfold exit_ok, x, exit_bit. destruct (last (bits_of l)); [done|]. lia.
Qed.

(** Parsing the text of a level. *)
Lemma parse_level_spec l tl l0 h stop :
  hp_oom h = [] → level_named p l → tail_ok tl → cat l0 = ebitmap_init →
  (∀ c, stop c = true → level_seps c = true) → stop ":"%char = true → (tl ≠ ""%string → stop "-"%char = true) →
  let sc := scan stop (level_text l +:+ tl) in
  wp (parse_level p sc.1 sc.2 l0) h (λ r h', r = (0, l, rest_of tl) ∧ hp_oom h' = []).
Proof.
  intros Ho Hl Htl He Hstop Hcolon Hdash. pose proof (bits_of_range l Hl) as Hr.
  destruct (items_spec _ _ Hr) as [Hit _]. destruct (Hit _ _ (bits_of_contig l Hl)) as [Hok Hbits].
  destruct Hl as (Hs & Hw & _). destruct (names_sens _ _ _ Hp _ Hs) as (_ & Hfree & lev & Hlev & Hsens).
  unfold level_text. rewrite str_app_assoc. cbn zeta.
  rewrite scan_app by (by eapply free_weaken). 
  assert (∀ e, adds ebitmap_init e (in_items (items (bits_of l) None)) → e = cat l) as Heq.
  { intros e [Hwe Hb]. apply wf_ext; [done..|]. intros i Hi. apply eq_true_iff_eq. rewrite Hb by done.
    rewrite Hbits, elem_of_bits_of by done. unfold has_cat.
    assert (ebitmap_get_bit ebitmap_init i = true ↔ False) as -> by by unfold ebitmap_get_bit; simpl; case_match.
    tauto. }
  destruct (items (bits_of l) None) as [|x xs] eqn:Eits.
  - cbn [render]. rewrite str_app_nil_l.
    assert (scan stop tl = (""%string, rest_of tl)) as ->.
    { destruct tl as [|c r]; [done|]. simpl in Htl. subst c. simpl. by rewrite Hdash. }
    cbn [fst snd]. rewrite str_app_nil_r. unfold parse_level. rewrite Hlev. do 2 wp_step. cbn beta iota.
    assert (MlsLevel (sens (ld_level lev)) (cat l0) = l) as ->.
    { rewrite Hsens, He. destruct l as [sn c]. simpl. f_equal. apply Heq. split; [apply wf_init|].
      intros i _. unfold in_items. set_solver. }
    destruct tl as [|c r]; [done|]. simpl in Htl. by subst c.
  - cbn [render sep]. rewrite !str_app_assoc.
    change (":" +:+ item_text nm x +:+ render nm true xs +:+ tl)%string with
      (String ":"%char (item_text nm x +:+ render nm true xs +:+ tl)). cbn [scan].
    rewrite Hcolon. cbn [fst snd]. rewrite str_app_nil_r. unfold parse_level. rewrite Hlev. do 2 wp_step.
    cbn beta iota. replace (is_char ":"%char ":"%char) with true by done. wp_step. cbn [cat]. rewrite He.
    eapply wp_mono.
    + apply (parse_cats_spec p nm (s_nprim (p_cats p))); [| |apply (names_max _ _ _ Hp)|done|apply wf_init|done|done|].
      * intros i Hi. apply (names_cat _ _ _ Hp _ Hi).
      * intros i Hi. apply (names_cat _ _ _ Hp _ Hi).
      * rewrite !str_length_app. assert (length xs ≤ String.length (render nm true xs))%nat; [|lia].
        clear. induction xs as [|y xs IH]; [done|]. cbn [render sep]. rewrite !str_length_app. simpl. lia.
    + intros [[rc e] d] h' (Hrc & Hd & Ho' & Ha). simpl in *. subst rc d. wp_step. split; [|done].
      rewrite (Heq e Ha), Hsens. by destruct l.
Qed.
(** The text of a range, without the leading colon. *)
Definition range_text (r : mls_range) : string :=
  level_text (level0 r) +:+
  (if mls_level_eq (level0 r) (level1 r) then "" else "-" +:+ level_text (level1 r)).

Definition range_named (r : mls_range) : Prop := level_named p (level0 r) ∧ level_named p (level1 r).

Lemma sid_to_context_spec c :
  nz (mls p) = true → range_named (c_range c) →
  mls_sid_to_context p c = Some (String ":"%char (range_text (c_range c))).
Proof.
  intros Hm [H0 H1]. unfold mls_sid_to_context, range_text. rewrite Hm. simpl.
  rewrite level_str_spec by done. simpl.
  destruct (mls_level_eq _ _); [by rewrite str_app_nil_r|].
  rewrite level_str_spec by done. by rewrite !str_app_assoc.
Qed.

Lemma to_string_spec c h :
  nz (mls p) = true → range_named (c_range c) → strlen (range_text (c_range c)) < 2 ^ 31 - 2 →
  hp_oom h = [] →
  wp (mls_to_string p c) h (λ r h', r = (STATUS_SUCCESS, Some (range_text (c_range c))) ∧ hp_oom h' = []).
Proof.
  intros Hm Hr Hlen Ho. unfold mls_to_string. rewrite context_len_spec, sid_to_context_spec by done. simpl.
  assert (strlen (String ":" (range_text (c_range c))) = strlen (range_text (c_range c)) + 1) as Hs
    by (unfold strlen; simpl; lia).
  rewrite u32_id by (unfold strlen in *; lia). do 2 wp_step. wp_step. apply wp_malloc_ok; [done|].
  intros h1 Ho1. wp_step. apply wp_malloc_ok; [done|]. intros h2 Ho2. do 2 wp_step.
  rewrite Z.add_simpl_r, Z.eqb_refl. cbn [negb]. by wp_step.
Qed.

Lemma from_string_spec r c0 h :
  nz (mls p) = true → range_named r → hp_oom h = [] →
  cat (level0 (c_range c0)) = ebitmap_init → cat (level1 (c_range c0)) = ebitmap_init →
  wp (mls_from_string p (range_text r) c0) h (λ q h', q = (STATUS_SUCCESS, set_range c0 r) ∧ hp_oom h' = []).
Proof.
  intros Hm [H0 H1] Ho Hc0 Hc1. unfold mls_from_string. wp_step. apply wp_malloc_ok; [done|].
  intros h3 Ho3. wp_step. unfold mls_context_to_sid. rewrite Hm. cbn [negb]. wp_step. unfold range_text.
  change (λ ch : ascii, is_char ":" ch || is_char "-" ch) with level_seps.
  destruct (mls_level_eq (level0 r) (level1 r)) eqn:Eq.
  - eapply wp_mono; [by apply (parse_level_spec (level0 r) "")|].
    intros [[rc l0] d] h4 [[= -> -> ->] Ho4]. cbn beta iota. simpl. wp_step.
    eapply wp_mono; [apply level_cpy_spec|]. intros q h5 [Hle [->|[_ ?]]]; [|done]. simpl. do 2 wp_step.
    apply level_eq_iff in Eq. simpl. unfold set_range. simpl. split; [|by apply Hle].
    replace (MlsRange (level0 r) (level0 r)) with r; [done|]. destruct r. simpl in *. by subst.
  - eapply wp_mono; [by apply (parse_level_spec (level0 r) ("-" +:+ _))|].
    intros [[rc l0] d] h4 [[= -> -> ->] Ho4]. cbn beta iota. simpl.
    wp_step. rewrite <- (str_app_nil_r (level_text (level1 r))).
    eapply wp_mono.
    { apply (parse_level_spec (level1 r) "" _ _ (is_char ":"%char)); try done.
      intros ch Hch. unfold level_seps. by rewrite Hch. }
    intros [[rc l1] d] h5 [[= -> -> ->] Ho5]. cbn beta iota. simpl. do 2 wp_step. by destruct r.
Qed.
End roundtrip.


Definition demo_sens_name (s : Z) : string := if s =? 1 then "s0" else "s1".
Definition demo_cat_name (i : Z) : string :=
  if i =? 0 then "c0" else if i =? 1 then "c1" else if i =? 2 then "c2" else "c3".

Lemma demo_names_ok : names_ok mls_policy demo_sens_name demo_cat_name.
Proof.
  split.
  - intros s Hs. change (1 ≤ s ≤ 2) in Hs. assert (s = 1 ∨ s = 2) as [->| ->] by lia;
      (split_and!; [reflexivity|reflexivity|eexists; split; vm_compute; reflexivity]).
  - intros i Hi. change (0 ≤ i < 4) in Hi. assert (i = 0 ∨ i = 1 ∨ i = 2 ∨ i = 3) as Hi' by lia.
    destruct Hi' as [->|[->|[->| ->]]];
      (split_and!; [reflexivity|reflexivity|eexists; split; vm_compute; reflexivity]).
  - vm_compute. discriminate.
Qed.

Lemma demo_level_named s cats :
  1 ≤ s ≤ 2 → Forall (λ b, 0 ≤ b < 2 ^ 32) cats →
  gap_free (e_node (of_bits cats)) → (∀ i, has_cat (lvl s cats) i → i < 4) → level_named mls_policy (lvl s cats).
Proof. intros Hs Hc Hg Hi. split; [exact Hs|]. split; [by apply of_bits_wf|]. by split. Qed.


(** ** Gaps *)

Definition cname (i : Z) : string := "c" +:+ pretty (Z.to_N i).

(** The policy of the examples with the categories c0 to c149. *)
Definition many_policy : policydb :=
  Policydb 1 (Symtab None 1) empty_symtab empty_symtab (Symtab None 1) 0 demo_levels
    (Symtab (ht_of 5 ((λ i, (cname i, CatDatum (i + 1) false)) <$> seqZ 0 150)) 150)
    [] [] [] [] [Some "s0"%string; Some "s1"%string] ((λ i, Some (cname i)) <$> seqZ 0 150) []
    [Some demo_class] [] [] [] (Avtab None 0 0 0) [] (Avtab None 0 0 0) [] [] [] [] [] None [] []
    ebitmap_init 33 0 2 0 0 0 POLICY_KERN (Symtab None 0) None [] None 0 ebitmap_init 0.

Definition gap_context (cats : list Z) : context_struct := Context 1 1 1 (MlsRange (lvl 1 cats) (lvl 1 cats)).

(** The text of a category set is wrong when a run of categories ends at the
    end of a bitmap word and the next word is absent: the loops go on to the
    first bit of the next node as if it followed.  The set c62, c63, c128 is
    written as the range c62.c128, which reads back as 67 categories; and the
    set c62, c63, c130 as c62, c127, c130. *)
Theorem mls_string_gap :
  mls_to_string many_policy (gap_context [62; 63; 128]) (Heap 0 []) =
    Some (STATUS_SUCCESS, Some "s0:c62.c128"%string, Heap 2 []) ∧
  mls_to_string many_policy (gap_context [62; 63; 130]) (Heap 0 []) =
    Some (STATUS_SUCCESS, Some "s0:c62,c127,c130"%string, Heap 2 []) ∧
  wp (mls_from_string many_policy "s0:c62.c128" context_init) (Heap 0 []) (λ r _,
    r.1 = STATUS_SUCCESS ∧ ebitmap_cardinality (cat (level0 (c_range r.2))) = 67 ∧
    mls_level_dom (lvl 1 [62; 63; 128]) (level0 (c_range r.2)) = false).
Proof.
  split; [vm_compute; reflexivity|]. split; [vm_compute; reflexivity|].
  vm_compute. by split.
Qed.

(** The length [mls_compute_context_len] announces is, at 32 bits, the
    length of the text [mls_sid_to_context] writes, whenever the latter stays
    inside the policy's tables; so the buffer [mls_to_string] allocates is never
    overrun. *)
Theorem mls_context_len_exact p c :
  mls_compute_context_len p c = (λ s, u32 (strlen s)) <$> mls_sid_to_context p c.
Proof. apply context_len_spec. Qed.

(** A second range separator and whatever follows it are accepted: text
    behind the categories of the high level is ignored once a dash is found. *)
Theorem mls_string_garbage :
  wp (mls_from_string mls_policy "s0:c0-s1:c0,c1-garbage,,:" context_init) (Heap 0 []) (λ r _,
    r.1 = STATUS_SUCCESS ∧ wp (mls_to_string mls_policy r.2) (Heap 0 []) (λ q _,
      q = (STATUS_SUCCESS, Some "s0:c0-s1:c0,c1"%string))).
Proof. vm_compute. by split. Qed.
