(* ===== verification/Sidtab.v ===== *)
(** * SID tables

    [src/sidtab.c]: the table from security identifiers to contexts.  A node is
    the pair of its [sid] and its [context]; the lock macros are empty. *)

From S2P Require Import Prelude Ebitmap Mls.

Definition SIDTAB_HASH_BITS : Z := 7.
Definition SIDTAB_SIZE : Z := Z.shiftl 1 SIDTAB_HASH_BITS.
Definition SIDTAB_HASH_MASK : Z := SIDTAB_SIZE - 1.
Definition SIDTAB_HASH (sid : Z) : Z := Z.land sid SIDTAB_HASH_MASK.

Definition SEPOL_SECSID_NULL : Z := 0.
Definition SECINITSID_UNLABELED : Z := 3.

Notation sidtab_node := (Z * context_struct)%type.

Record sidtab := Sidtab {
  st_htable : option (list (list sidtab_node));
  st_nel : Z;
  st_next_sid : Z;
  st_shutdown : Z
}.

Definition sepol_sidtab_init (s : sidtab) : M (Z * sidtab) :=
  t ← malloc;
  match t with
  | None => mret (- ENOMEM, Sidtab None (st_nel s) (st_next_sid s) (st_shutdown s))
  | Some _ => mret (0, Sidtab (Some (replicate (Z.to_nat SIDTAB_SIZE) [])) 0 1 0)
  end.

(** [while (cur != NULL && sid > cur->sid)]: the nodes passed and the nodes from
    [cur] on. *)
Fixpoint sid_seek (sid : Z) (cur : list sidtab_node) : list sidtab_node * list sidtab_node :=
  match cur with
  | [] => ([], [])
  | n :: next =>
     if sid >? n.1 then let r := sid_seek sid next in (n :: r.1, r.2) else ([], cur)
  end.

Definition sepol_sidtab_insert (s : sidtab) (sid : Z) (context : context_struct) : M (Z * sidtab) :=
  match st_htable s with
  | None => mret (- ENOMEM, s)
  | Some t =>
     let hvalue := SIDTAB_HASH sid in
     chain ← get (aget t hvalue);
     let p := sid_seek sid chain in
     if match p.2 with cur :: _ => sid =? cur.1 | [] => false end then mret (- EEXIST, s)
     else
       newnode ← malloc;
       match newnode with
       | None => mret (- ENOMEM, s)
       | Some _ =>
          '(rc, c) ← context_cpy context_init context;
          if nz rc then mret (- ENOMEM, s)
          else
            t ← get (aset t hvalue (p.1 ++ (sid, c) :: p.2));
            mret (0, Sidtab (Some t) (u32 (st_nel s + 1))
                       (if sid >=? st_next_sid s then u32 (sid + 1) else st_next_sid s)
                       (st_shutdown s))
       end
  end.

(** [Some None] is the [NULL] result. *)
Definition sidtab_find (t : list (list sidtab_node)) (sid : Z) : option (option context_struct) :=
  chain ← aget t (SIDTAB_HASH sid);
  match (sid_seek sid chain).2 with
  | cur :: _ => if negb (sid =? cur.1) then Some None else Some (Some cur.2)
  | [] => Some None
  end.

(** Unknown identifiers are mapped to the unlabeled one. *)
Definition sepol_sidtab_search (s : sidtab) (sid : Z) : option (option context_struct) :=
  match st_htable s with
  | None => Some None
  | Some t =>
     r ← sidtab_find t sid;
     match r with
     | Some c => Some (Some c)
     | None => sidtab_find t SECINITSID_UNLABELED
     end
  end.

Section map.
Context {St : Type}.

Fixpoint sidtab_map_chain (apply : Z → context_struct → St → M (Z * St)) (cur : list sidtab_node)
    (a : St) : M (Z * St) :=
  match cur with
  | [] => mret (0, a)
  | n :: next =>
     r ← apply n.1 n.2 a;
     if nz r.1 then mret r else sidtab_map_chain apply next r.2
  end.

Fixpoint sidtab_map_slots (apply : Z → context_struct → St → M (Z * St)) (todo : nat) (i : Z)
    (t : list (list sidtab_node)) (a : St) : M (Z * St) :=
  match todo with
  | O => mret (0, a)
  | S todo =>
     cur ← get (aget t i);
     r ← sidtab_map_chain apply cur a;
     if nz r.1 then mret r else sidtab_map_slots apply todo (i + 1) t r.2
  end.

Definition sepol_sidtab_map (s : sidtab) (apply : Z → context_struct → St → M (Z * St)) (a : St) :
    M (Z * St) :=
  match st_htable s with
  | None => mret (0, a)
  | Some t => sidtab_map_slots apply (Z.to_nat SIDTAB_SIZE) 0 t a
  end.

(** [apply] may change the context; a node for which it fails is unlinked. *)
Fixpoint remove_chain (apply : Z → context_struct → St → M (Z * context_struct * St))
    (cur : list sidtab_node) (nel : Z) (a : St) : M (list sidtab_node * Z * St) :=
  match cur with
  | [] => mret ([], nel, a)
  | n :: next =>
     '(rc, c, a) ← apply n.1 n.2 a;
     if nz rc then remove_chain apply next (u32 (nel - 1)) a
     else
       '(rest, nel, a) ← remove_chain apply next nel a;
       mret ((n.1, c) :: rest, nel, a)
  end.

Fixpoint remove_slots (apply : Z → context_struct → St → M (Z * context_struct * St))
    (todo : nat) (i : Z) (t : list (list sidtab_node)) (nel : Z) (a : St) :
    M (list (list sidtab_node) * Z * St) :=
  match todo with
  | O => mret (t, nel, a)
  | S todo =>
     cur ← get (aget t i);
     '(chain, nel, a) ← remove_chain apply cur nel a;
     t ← get (aset t i chain);
     remove_slots apply todo (i + 1) t nel a
  end.

Definition sepol_sidtab_map_remove_on_error (s : sidtab)
    (apply : Z → context_struct → St → M (Z * context_struct * St)) (a : St) : M (sidtab * St) :=
  match st_htable s with
  | None => mret (s, a)
  | Some t =>
     '(t, nel, a) ← remove_slots apply (Z.to_nat SIDTAB_SIZE) 0 t (st_nel s) a;
     mret (Sidtab (Some t) nel (st_next_sid s) (st_shutdown s), a)
  end.
End map.

(** The first node, in table order, with an equal context; 0 if there is none. *)
Fixpoint search_chain (cur : list sidtab_node) (context : context_struct) : option Z :=
  match cur with
  | [] => None
  | n :: next => if context_cmp n.2 context then Some n.1 else search_chain next context
  end.

Fixpoint search_slots (todo : nat) (i : Z) (t : list (list sidtab_node)) (context : context_struct) :
    option Z :=
  match todo with
  | O => Some 0
  | S todo =>
     cur ← aget t i;
     match search_chain cur context with
     | Some sid => Some sid
     | None => search_slots todo (i + 1) t context
     end
  end.

Definition sepol_sidtab_search_context (s : sidtab) (context : context_struct) : option Z :=
  t ← st_htable s;
  search_slots (Z.to_nat SIDTAB_SIZE) 0 t context.

(** The code, the identifier and the table. *)
Definition sepol_sidtab_context_to_sid (s : sidtab) (context : context_struct) : M (Z * Z * sidtab) :=
  sid ← get (sepol_sidtab_search_context s context);
  if nz sid then mret (0, sid, s)
  else
    sid ← get (sepol_sidtab_search_context s context);
    if nz sid then mret (0, sid, s)
    else if (st_next_sid s =? UINT_MAX) || nz (st_shutdown s) then mret (- ENOMEM, SEPOL_SECSID_NULL, s)
    else
      let sid := st_next_sid s in
      let s := Sidtab (st_htable s) (st_nel s) (u32 (st_next_sid s + 1)) (st_shutdown s) in
      '(ret, s) ← sepol_sidtab_insert s sid context;
      if nz ret
      then mret (ret, SEPOL_SECSID_NULL,
                 Sidtab (st_htable s) (st_nel s) (u32 (st_next_sid s - 1)) (st_shutdown s))
      else mret (0, sid, s).

Definition sepol_sidtab_destroy (s : sidtab) : sidtab :=
  match st_htable s with
  | None => s
  | Some _ => Sidtab None 0 1 (st_shutdown s)
  end.

Definition sepol_sidtab_set (dst src : sidtab) : sidtab :=
  Sidtab (st_htable src) (st_nel src) (st_next_sid src) 0.

Definition sepol_sidtab_shutdown (s : sidtab) : sidtab :=
  Sidtab (st_htable s) (st_nel s) (st_next_sid s) 1.
