(* ===== verification/SidtabSpec.v ===== *)
(** * What SID tables promise

    Identifiers name contexts: a context gets one identifier, keeps it through
    every later allocation, and an identifier finds the context it was given
    for.  A table is a hash table with the identifiers as keys, so the chains
    are those of [HashtabFacts]. *)

From S2P Require Import Prelude Ebitmap EbitmapFacts Mls MlsFacts Hashtab HashtabFacts Sidtab.

#[local] Instance sid_key : HashKey Z :=
  {| hash_value size x := Z.land x (u32 (size - 1)); keycmp := spaceship_cmp |}.

#[local] Instance sid_key_laws : HashKeyLaws Z.
Proof.
  split; simpl.
  - intros x y. pose proof (spaceship_spec x y). lia.
  - intros x y. pose proof (spaceship_spec x y). pose proof (spaceship_spec y x). lia.
  - intros x y z. pose proof (spaceship_spec x y). pose proof (spaceship_spec y z).
    pose proof (spaceship_spec x z). lia.
  - intros size x Hs. by apply land_lt.
Qed.

Lemma sid_seek_chain sid (c : list sidtab_node) : sid_seek sid c = chain_seek sid c.
Proof.
  induction c as [|n c IH]; [done|]. simpl. rewrite IH, !Z.gtb_ltb.
  destruct (Z.ltb_spec n.1 sid), (Z.ltb_spec 0 (spaceship_cmp sid n.1)); try done;
    pose proof (spaceship_spec sid n.1); lia.
Qed.

(** ** The invariant *)

Definition nodes (s : sidtab) : list sidtab_node := concat (default [] (st_htable s)).

Definition swf (s : sidtab) : Prop :=
  ∃ t, st_htable s = Some t ∧ table_ok SIDTAB_SIZE t ∧
    st_nel s = u32 (Z.of_nat (length (concat t))) ∧ 1 ≤ st_next_sid s ≤ UINT_MAX ∧
    Forall (λ n : sidtab_node, 1 ≤ n.1 < st_next_sid s) (concat t).

(** The contexts of the identifiers. *)
Definition sidmap (s : sidtab) : gmap Z context_struct := list_to_map (nodes s).

(** The identifier of a context. *)
Definition sid_of (s : sidtab) (c : context_struct) : option Z := search_chain (nodes s) c.

Lemma search_chain_app l1 l2 c :
  search_chain (l1 ++ l2) c = match search_chain l1 c with Some x => Some x | None => search_chain l2 c end.
Proof. induction l1 as [|n l1 IH]; [done|]. simpl. by destruct (context_cmp n.2 c). Qed.

Lemma search_chain_some l c sid : search_chain l c = Some sid → (sid, c) ∈ l.
Proof.
  induction l as [|[k d] l IH]; simpl; [done|]. destruct (context_cmp d c) eqn:E.
  - intros [= ->]. apply context_cmp_eq in E as ->. set_solver.
  - intros ?%IH. set_solver.
Qed.

Lemma search_slots_spec todo i t c :
  length t = (i + todo)%nat →
  search_slots todo (Z.of_nat i) t c = Some (default 0 (search_chain (concat (drop i t)) c)).
Proof.
  revert i. induction todo as [|todo IH]; intros i Hl; simpl; [by rewrite drop_ge by lia|].
  destruct (lookup_lt_is_Some_2 t i) as [d Hi]; [lia|].
  unfold aget. rewrite (proj2 (Z.ltb_ge _ _)), Nat2Z.id, Hi by lia. simpl.
  rewrite (drop_S _ _ _ Hi). simpl. rewrite search_chain_app.
  destruct (search_chain d c); [done|].
  replace (Z.of_nat i + 1) with (Z.of_nat (S i)) by lia. apply IH. lia.
Qed.

Lemma search_context_spec s c :
  swf s → sepol_sidtab_search_context s c = Some (default 0 (sid_of s c)).
Proof.
  intros (t & Ht & (Hl & _) & _). unfold sepol_sidtab_search_context, sid_of, nodes. rewrite Ht.
  change (search_slots (Z.to_nat SIDTAB_SIZE) 0 t c = Some (default 0 (search_chain (concat t) c))).
  apply (search_slots_spec _ 0). unfold SIDTAB_SIZE in *. lia.
Qed.

Lemma sidmap_lookup s sid c : swf s → sidmap s !! sid = Some c ↔ (sid, c) ∈ nodes s.
Proof.
  intros (t & Ht & Hok & _). unfold sidmap, nodes. rewrite Ht. simpl. symmetry.
  apply elem_of_list_to_map. by eapply table_NoDup.
Qed.

Lemma sid_of_some s c sid : swf s → sid_of s c = Some sid → sidmap s !! sid = Some c ∧ 1 ≤ sid < st_next_sid s.
Proof.
  intros Hs Hc%search_chain_some. split; [by apply sidmap_lookup|].
  destruct Hs as (t & Ht & _ & _ & _ & Hf). unfold nodes in Hc. rewrite Ht in Hc. simpl in Hc.
  rewrite Forall_forall in Hf. by apply (Hf _ Hc).
Qed.

(** ** Lookup *)

Lemma hash_sid sid : SIDTAB_HASH sid = hash_value SIDTAB_SIZE sid.
Proof. done. Qed.

Lemma find_spec s t sid :
  swf s → st_htable s = Some t → sidtab_find t sid = Some (sidmap s !! sid).
Proof.
  intros (t' & Ht' & Hok & Hn & _) Ht. assert (t' = t) as -> by congruence.
  assert (hwf (Hashtab t SIDTAB_SIZE (st_nel s))) as Hwf by by split.
  destruct (table_bucket _ _ sid Hok) as (i & c & Hi & Hk & Hs & Hg & _).
  unfold sidtab_find. rewrite hash_sid, Hk, Hg. simpl. rewrite sid_seek_chain.
  pose proof (seek_dict _ sid i c Hwf Hi Hk) as Hd. unfold dict in Hd. simpl in Hd.
  unfold sidmap, nodes. rewrite Ht. simpl. rewrite Hd.
  destruct (chain_seek sid c).2 as [|n r]; [done|].
  destruct (Z.eqb_spec sid n.1), (Z.eqb_spec (spaceship_cmp sid n.1) 0); simpl; try done;
    pose proof (spaceship_spec sid n.1); lia.
Qed.

Lemma sidtab_search_spec s sid :
  swf s →
  sepol_sidtab_search s sid =
  Some (match sidmap s !! sid with Some c => Some c | None => sidmap s !! SECINITSID_UNLABELED end).
Proof.
  intros Hs. pose proof Hs as (t & Ht & _). unfold sepol_sidtab_search. rewrite Ht.
  rewrite (find_spec s t sid) by done. simpl. destruct (sidmap s !! sid); [done|]. by apply find_spec.
Qed.

(** ** Insertion *)

Lemma concat_insert_split {A} (t : list (list A)) i pre rest x :
  t !! i = Some (pre ++ rest) →
  ∃ l1 l2, concat t = l1 ++ l2 ∧ concat (<[i := pre ++ x :: rest]> t) = l1 ++ x :: l2.
Proof.
  revert i. induction t as [|d t IH]; intros [|i] Hi; simpl in *; [done..| |].
  - injection Hi as ->. exists pre, (rest ++ concat t). by rewrite <- !app_assoc.
  - destruct (IH i Hi) as (l1 & l2 & E1 & E2). exists (d ++ l1), l2. by rewrite E1, E2, !app_assoc.
Qed.

(** [s'] is [s] with one more node. *)
Definition added (s s' : sidtab) (sid : Z) (c : context_struct) : Prop :=
  ∃ l1 l2, nodes s = l1 ++ l2 ∧ nodes s' = l1 ++ (sid, c) :: l2.

Lemma sidtab_insert_spec s sid c h :
  swf s → 1 ≤ sid < UINT_MAX →
  wp (sepol_sidtab_insert s sid c) h (λ r h', heap_le h h' ∧
    ((r.1 = 0 ∧ sidmap s !! sid = None ∧ swf r.2 ∧ added s r.2 sid c ∧
      st_next_sid r.2 = Z.max (st_next_sid s) (sid + 1) ∧ st_shutdown r.2 = st_shutdown s) ∨
     (r = (- EEXIST, s) ∧ is_Some (sidmap s !! sid)) ∨
     (r = (- ENOMEM, s) ∧ hp_oom h ≠ []))).
Proof.
  intros Hswf Hsid. pose proof Hswf as (t & Ht & Hok & Hn & Hnext & Hf). unfold sepol_sidtab_insert. rewrite Ht.
  assert (hwf (Hashtab t SIDTAB_SIZE (st_nel s))) as Hwf by by split.
  destruct (table_bucket _ _ sid Hok) as (i & ch & Hi & Hk & _ & Hg & _ & Hset).
  rewrite hash_sid, Hk, Hg. do 2 wp_step. cbn zeta. rewrite sid_seek_chain.
  pose proof (seek_dict _ sid i ch Hwf Hi Hk) as Hd. unfold dict in Hd. simpl in Hd.
  assert (sidmap s = list_to_map (concat t)) as Hmap by (unfold sidmap, nodes; by rewrite Ht).
  assert (∀ y, (sid =? y) = (spaceship_cmp sid y =? 0)) as Heqb.
  { intros y. pose proof (spaceship_spec sid y).
    destruct (Z.eqb_spec sid y), (Z.eqb_spec (spaceship_cmp sid y) 0); done || lia. }
  wp_step.
  { wp_step. split; [done|]. right. left. split; [done|]. rewrite Hmap, Hd.
    destruct (chain_seek sid ch).2 as [|n r]; [done|]. rewrite Heqb in E. by rewrite E. }
  assert (sidmap s !! sid = None) as Hnone.
  { rewrite Hmap, Hd. destruct (chain_seek sid ch).2 as [|n r]; [done|]. rewrite Heqb in E. by rewrite E. }
  do 2 wp_step; [wp_step; split; [done|]; right; right; done|].
  wp_step. eapply wp_mono; [apply context_cpy_spec|].
  intros [rc c'] h2 [Hle [[= -> ->]|[Hrc Ho]]]; cycle 1.
  { simpl in Hrc. unfold nz. rewrite (proj2 (Z.eqb_neq rc 0)) by lia. simpl. wp_step.
    split; [by etrans|]. right. right. split; [done|]. by eapply heap_le_oom. }
  cbn [nz Z.eqb negb]. rewrite Hset. do 3 wp_step. split; [by etrans|]. left.
  destruct (table_link SIDTAB_SIZE t sid c i ch Hok Hi Hk) as (Hok' & Hp & _).
  { destruct (chain_seek sid ch).2 as [|n r]; [done|]. rewrite Heqb in E. by apply Z.eqb_neq. }
  destruct (chain_seek_spec sid ch) as (Hsplit & _). rewrite Hsplit in Hi.
  destruct (concat_insert_split _ _ _ _ (sid, c) Hi) as (l1 & l2 & E1 & E2).
  assert ((if sid >=? st_next_sid s then u32 (sid + 1) else st_next_sid s) =
    Z.max (st_next_sid s) (sid + 1)) as Hmax.
  { rewrite Z.geb_leb. unfold u32, UINT_MAX in *.
    destruct (Z.leb_spec (st_next_sid s) sid); [rewrite Z.mod_small|]; lia. }
  rewrite Hmax. split_and!; [done|done| | |done|done].
  - eexists. split; [done|]. split_and!; [done| |simpl; unfold UINT_MAX in *; lia|simpl; unfold UINT_MAX in *; lia|].
    + simpl. rewrite Hp, Hn. simpl. unfold u32. rewrite Zplus_mod_idemp_l. f_equal. lia.
    + simpl. rewrite Hp. constructor; [simpl; lia|]. eapply Forall_impl; [done|]. simpl. lia.
  - exists l1, l2. unfold nodes. rewrite Ht. done.
Qed.

(** ** Allocation *)

Lemma added_map s s' sid c :
  swf s → swf s' → added s s' sid c → sidmap s !! sid = None → sidmap s' = <[sid := c]> (sidmap s).
Proof.
  intros Hs Hs' (l1 & l2 & E1 & E2) Hnone. apply map_eq. intros k.
  apply option_eq. intros d. rewrite sidmap_lookup by done. rewrite E2, lookup_insert_Some.
  rewrite sidmap_lookup by done. rewrite E1.
  assert (k = sid → (k, d) ∉ l1 ++ l2) as Hfresh.
  { intros -> Hin. rewrite <- E1 in Hin. apply sidmap_lookup in Hin; [|done]. congruence. }
  set_unfold. naive_solver.
Qed.

Lemma added_sid_of s s' sid c d :
  added s s' sid c → sid_of s c = None →
  sid_of s' d = if context_cmp c d then Some sid else sid_of s d.
Proof.
  intros (l1 & l2 & E1 & E2) Hc. unfold sid_of in *. rewrite E1 in Hc |- *. rewrite E2.
  rewrite search_chain_app in Hc |- *. rewrite search_chain_app. simpl.
  destruct (context_cmp c d) eqn:E; [|done]. apply context_cmp_eq in E as <-.
  by destruct (search_chain l1 c).
Qed.

Definition allocated (s : sidtab) (c : context_struct) (h : heap) (rc sid : Z) (s' : sidtab) : Prop :=
  swf s' ∧
  ((rc = 0 ∧ sid_of s' c = Some sid ∧ sidmap s' !! sid = Some c ∧ sidmap s ⊆ sidmap s' ∧
    (∀ d n, sid_of s d = Some n → sid_of s' d = Some n) ∧ (sid_of s c ≠ None → s' = s)) ∨
   (rc = - ENOMEM ∧ sid = SEPOL_SECSID_NULL ∧ s' = s ∧ sid_of s c = None ∧
    (st_next_sid s = UINT_MAX ∨ st_shutdown s ≠ 0 ∨ hp_oom h ≠ []))).

Lemma context_to_sid_spec s c h :
  swf s → wp (sepol_sidtab_context_to_sid s c) h (λ r h', heap_le h h' ∧ allocated s c h r.1.1 r.1.2 r.2).
Proof.
  intros Hs. unfold sepol_sidtab_context_to_sid. rewrite search_context_spec by done. do 2 wp_step.
  unfold nz at 1. destruct (sid_of s c) as [sid|] eqn:Hc; simpl.
  { destruct (sid_of_some s c sid Hs Hc) as [Hm Hr]. rewrite (proj2 (Z.eqb_neq sid 0)) by lia. simpl.
    wp_step. split; [done|]. split; [done|]. left. split_and!; [done..|]. auto. }
  do 2 wp_step. cbn [nz Z.eqb negb]. wp_step.
  { wp_step. split; [done|]. split; [done|]. right. split_and!; [done..|].
    apply orb_true_iff in E as [E|E]; [left; by apply Z.eqb_eq in E|]. right. left.
    unfold nz in E. apply negb_true_iff, Z.eqb_neq in E. done. }
  apply orb_false_iff in E as [E1 E2]. apply Z.eqb_neq in E1.
  pose proof Hs as (t & Ht & Hok & Hn & Hnext & Hf). cbn zeta.
  set (s1 := Sidtab (st_htable s) (st_nel s) (u32 (st_next_sid s + 1)) (st_shutdown s)).
  assert (u32 (st_next_sid s + 1) = st_next_sid s + 1) as Hu
    by (unfold u32, UINT_MAX in *; rewrite Z.mod_small; lia).
  assert (swf s1) as Hs1.
  { exists t. subst s1. simpl. rewrite Hu. split_and!; try done; [lia|unfold UINT_MAX in *; lia|].
    eapply Forall_impl; [done|]. simpl. lia. }
  assert (sidmap s1 !! st_next_sid s = None) as Hfresh.
  { destruct (sidmap s1 !! st_next_sid s) as [d|] eqn:Hd; [|done].
    apply sidmap_lookup in Hd; [|done]. unfold nodes, s1 in Hd. simpl in Hd. rewrite Ht in Hd.
    rewrite Forall_forall in Hf. specialize (Hf _ Hd). simpl in Hf. lia. }
  wp_step. eapply wp_mono; [apply sidtab_insert_spec; [done|lia]|].
  intros [rc s2] h' [Hle Hr]. simpl in Hr.
  destruct Hr as [(-> & _ & Hs2 & Hadd & Hnx & Hsh)|[[_ Hsome]|[[= -> ->] Ho]]];
    [|rewrite Hfresh in Hsome; by destruct Hsome|].
  - cbn [nz Z.eqb negb]. wp_step. split; [done|]. split; [done|]. left.
    assert (sidmap s2 = <[st_next_sid s := c]> (sidmap s)) as Hm by (apply (added_map s1); done).
    assert (∀ d, sid_of s2 d = if context_cmp c d then Some (st_next_sid s) else sid_of s d) as Hsid
      by (intros d; by apply (added_sid_of s1)).
    simpl. split_and!; [done| | | | |congruence].
    + rewrite Hsid. by rewrite (proj2 (context_cmp_eq c c)).
    + rewrite Hm. apply lookup_insert_eq.
    + rewrite Hm. by apply insert_subseteq.
    + intros d n Hd. rewrite Hsid. destruct (context_cmp c d) eqn:Ecd; [|done].
      apply context_cmp_eq in Ecd as ->. congruence.
  - change (nz (- ENOMEM)) with true. cbn iota. wp_step. split; [done|]. simpl. assert (Sidtab (st_htable s) (st_nel s) (u32 (u32 (st_next_sid s + 1) - 1))
      (st_shutdown s) = s) as ->.
    { rewrite Hu. unfold u32, UINT_MAX in *. rewrite Z.mod_small by lia.
      replace (st_next_sid s + 1 - 1) with (st_next_sid s) by lia. by destruct s. }
    split; [done|]. right. split_and!; [done..|]. by right; right.
Qed.

Lemma init_spec s h :
  wp (sepol_sidtab_init s) h (λ r h', heap_le h h' ∧
    ((r.1 = 0 ∧ swf r.2 ∧ sidmap r.2 = ∅) ∨ (r.1 = - ENOMEM ∧ hp_oom h ≠ []))).
Proof.
  unfold sepol_sidtab_init. do 2 wp_step; wp_step; (split; [done|]); [by right|left].
  split; [done|]. pose proof (table_empty (V := context_struct) 7) as Ht. split.
  - eexists. split; [done|]. split_and!; [by apply Ht|done|done|vm_compute; discriminate|constructor].
  - done.
Qed.

(** The table after a sequence of requests. *)
Fixpoint allocate_all (s : sidtab) (l : list context_struct) : M sidtab :=
  match l with
  | [] => mret s
  | c :: l => r ← sepol_sidtab_context_to_sid s c; allocate_all r.2 l
  end.

Lemma allocate_all_spec l s h :
  swf s → wp (allocate_all s l) h (λ s' _, swf s' ∧ sidmap s ⊆ sidmap s' ∧
    ∀ d n, sid_of s d = Some n → sid_of s' d = Some n).
Proof.
  revert s h. induction l as [|c l IH]; intros s h Hs; [by split_and!|]. cbn [allocate_all]. wp_step.
  eapply wp_mono; [by apply context_to_sid_spec|].
  intros [[rc sid] s1] h1 (_ & Hs1 & Hr). simpl in *.
  assert (sidmap s ⊆ sidmap s1 ∧ ∀ d n, sid_of s d = Some n → sid_of s1 d = Some n) as [Hsub Hst].
  { destruct Hr as [(_ & _ & _ & ? & ? & _)|(_ & _ & -> & _)]; [done|]. split; [done|auto]. }
  eapply wp_mono; [by apply IH|]. intros s2 h2 (? & ? & ?). split_and!; [done|by etrans|auto].
Qed.

(** C20: Identifiers are stable.  [sepol_sidtab_context_to_sid] on a well-formed
    table returns an identifier whose context is the given one; whatever further
    contexts are entered, the same context keeps this identifier and the
    identifier finds the same context.  It fails only without memory, after a
    shutdown, or when the identifiers are used up, and then changes nothing. *)
Theorem sidtab_stable s c later h :
  swf s →
  wp (sepol_sidtab_context_to_sid s c) h (λ r h1,
    (r.1.1 = 0 ∧ r.1.2 ≠ SEPOL_SECSID_NULL ∧
     wp (allocate_all r.2 later) h1 (λ s' h2,
       sepol_sidtab_search s' r.1.2 = Some (Some c) ∧
       wp (sepol_sidtab_context_to_sid s' c) h2 (λ q _, q = (0, r.1.2, s')))) ∨
    (r.1.1 = - ENOMEM ∧ r.2 = s ∧
     (st_next_sid s = UINT_MAX ∨ st_shutdown s ≠ 0 ∨ hp_oom h ≠ []))).
Proof.
  intros Hs. eapply wp_mono; [by apply context_to_sid_spec|].
  intros [[rc sid] s1] h1 (_ & Hs1 & Hr). simpl in *.
  destruct Hr as [(-> & Hc & Hm & _)|(-> & _ & -> & _ & ?)]; [left|by right].
  split; [done|]. split; [destruct (sid_of_some _ _ _ Hs1 Hc); unfold SEPOL_SECSID_NULL; lia|].
  eapply wp_mono; [by apply allocate_all_spec|]. intros s2 h2 (Hs2 & Hsub & Hst). split.
  - by rewrite sidtab_search_spec, (lookup_weaken _ _ _ _ Hm Hsub).
  - specialize (Hst _ _ Hc). eapply wp_mono; [by apply context_to_sid_spec|].
    intros [[rc2 sid2] s3] h3 (_ & _ & Hr). simpl in *.
    destruct Hr as [(-> & Hc2 & _ & _ & _ & Hsame)|(_ & _ & _ & Hno & _)]; [|congruence].
    assert (s3 = s2) as -> by (apply Hsame; congruence). congruence.
Qed.

Definition demo_sidtab : sidtab :=
  Sidtab (Some (replicate (Z.to_nat SIDTAB_SIZE) [])) 0 1 0.

Lemma demo_sidtab_wf : swf demo_sidtab.
Proof.
  pose proof (table_empty (V := context_struct) 7) as Ht. eexists. split; [reflexivity|].
  split_and!; [apply Ht; lia|reflexivity|vm_compute; discriminate|vm_compute; discriminate|constructor].
Qed.

(** A table with the given contexts, numbered from 1. *)
Definition sidtab_of (l : list context_struct) : sidtab :=
  match allocate_all demo_sidtab l (Heap 0 []) with Some (s, _) => s | None => demo_sidtab end.

Lemma sidtab_of_wf l : swf (sidtab_of l).
Proof.
  pose proof (allocate_all_spec l demo_sidtab (Heap 0 []) demo_sidtab_wf) as H. unfold wp in H. unfold sidtab_of.
  destruct (allocate_all _ _ _) as [[s h]|]; [apply H|apply demo_sidtab_wf].
Qed.

Lemma sidtab_stable_witness :
  wp (sepol_sidtab_context_to_sid demo_sidtab context_init) (Heap 0 []) (λ r h1,
    (r.1.1 = 0 ∧ r.1.2 ≠ SEPOL_SECSID_NULL ∧
     wp (allocate_all r.2 [Context 1 2 3 mls_range_init]) h1 (λ s' h2,
       sepol_sidtab_search s' r.1.2 = Some (Some context_init) ∧
       wp (sepol_sidtab_context_to_sid s' context_init) h2 (λ q _, q = (0, r.1.2, s')))) ∨
    (r.1.1 = - ENOMEM ∧ r.2 = demo_sidtab ∧
     (st_next_sid demo_sidtab = UINT_MAX ∨ st_shutdown demo_sidtab ≠ 0 ∨ hp_oom (Heap 0 []) ≠ []))).
Proof.
  apply sidtab_stable. exact demo_sidtab_wf.
Defined.
