(* ===== verification/SidtabMap.v ===== *)
(** * Iteration over SID tables

    [sepol_sidtab_map] visits every node once; [sepol_sidtab_map_remove_on_error]
    replaces the context of every node and drops the nodes for which that fails.
    Cloning a table gives a table of the same identifiers. *)

From S2P Require Import Prelude Ebitmap EbitmapFacts Mls MlsFacts Hashtab HashtabFacts Sidtab SidtabSpec.

#[local] Existing Instance sid_key.
#[local] Existing Instance sid_key_laws.

(** ** One pass *)

Section map.
Context {St : Type} (apply : Z → context_struct → St → M (Z * St)).

Lemma sidtab_map_chain_app c1 c2 a h :
  sidtab_map_chain apply (c1 ++ c2) a h =
    (r ← sidtab_map_chain apply c1 a; if nz r.1 then mret r else sidtab_map_chain apply c2 r.2) h.
Proof.
  revert a h. induction c1 as [|n c1 IH]; intros a h; [done|]. simpl. unfold mbind, M_bind.
  destruct (apply n.1 n.2 a h) as [[[rc a'] h']|]; [|done]. simpl.
  destruct (nz rc) eqn:E; simpl; [by rewrite E|]. apply IH.
Qed.

Lemma sidtab_map_slots_spec todo i t a h :
  length t = (i + todo)%nat →
  sidtab_map_slots apply todo (Z.of_nat i) t a h = sidtab_map_chain apply (concat (drop i t)) a h.
Proof.
  revert i a h. induction todo as [|todo IH]; intros i a h Hl; simpl.
  { by rewrite drop_ge by lia. }
  destruct (lookup_lt_is_Some_2 t i) as [c Hi]; [lia|].
  unfold aget. rewrite (proj2 (Z.ltb_ge _ _)), Nat2Z.id, Hi by lia.
  rewrite (drop_S _ _ _ Hi). simpl. rewrite sidtab_map_chain_app. unfold mbind, M_bind. simpl.
  destruct (sidtab_map_chain apply c a h) as [[[rc a'] h']|]; [|done]. simpl.
  destruct (nz rc); [done|]. replace (Z.of_nat i + 1) with (Z.of_nat (S i)) by lia. apply IH. lia.
Qed.

Lemma sidtab_map_spec s a h :
  swf s → sepol_sidtab_map s apply a h = sidtab_map_chain apply (nodes s) a h.
Proof.
  intros (t & Ht & (Hl & _) & _). unfold sepol_sidtab_map, nodes. rewrite Ht. cbn [default from_option id].
  apply (sidtab_map_slots_spec _ 0). rewrite <- Hl. lia.
Qed.
End map.

(** ** Cloning *)

(** Inserting the nodes of a table, in any order, into a table without them. *)
Lemma clone_nodes_spec l s h :
  swf s → NoDup l.*1 → Forall (λ n : sidtab_node, 1 ≤ n.1 < UINT_MAX ∧ sidmap s !! n.1 = None) l →
  wp (sidtab_map_chain (λ sid c s, sepol_sidtab_insert s sid c) l s) h (λ r h', heap_le h h' ∧
    ((r.1 = 0 ∧ swf r.2 ∧ sidmap r.2 = list_to_map l ∪ sidmap s ∧ st_shutdown r.2 = st_shutdown s) ∨
     (r.1 ≠ 0 ∧ hp_oom h ≠ []))).
Proof.
  revert s h. induction l as [|[sid c] l IH]; intros s h Hs Hnd Hl; cbn [sidtab_map_chain].
  { wp_step. split; [done|]. left. split_and!; [done..| |done]. simpl. by rewrite (left_id_L ∅ _). }
  apply NoDup_cons in Hnd as [Hn Hnd]. apply Forall_cons in Hl as [[Hsid Hnone] Hl]. simpl in *. wp_step.
  eapply wp_mono; [by apply sidtab_insert_spec|]. intros [rc s1] h1 [Hle Hout]. simpl in *.
  destruct Hout as [(-> & _ & Hs1 & Hadd & _ & Hsh)|[([= -> ->] & [? Hx])|[[= -> ->] Ho]]]; cycle 1.
  { congruence. }
  { change (nz (- ENOMEM)) with true. cbn iota. wp_step. split; [done|]. by right. }
  cbn [nz Z.eqb negb]. pose proof (added_map s s1 sid c Hs Hs1 Hadd Hnone) as Hm.
  eapply wp_mono; [apply IH; [done|done|]|].
  - rewrite Forall_forall in Hl |- *. intros [k d] Hin. destruct (Hl _ Hin) as [Hk Hno]. simpl in *.
    split; [done|]. rewrite Hm, lookup_insert_ne; [done|].
    intros ->. apply Hn. by apply (list_elem_of_fmap_2 fst) in Hin.
  - intros [rc s2] h2 [Hle2 Hr]. simpl in *. split; [by etrans|].
    destruct Hr as [(-> & Hs2 & Hm2 & Hsh2)|[? Ho]]; [left|right; split; [done|by eapply heap_le_oom]].
    split_and!; [done|done| |congruence]. rewrite Hm2, Hm. rewrite <- insert_union_r, insert_union_l; [done|].
    apply not_elem_of_list_to_map_1. done.
Qed.

Lemma clone_spec s s' h :
  swf s → swf s' → sidmap s' = ∅ →
  wp (sepol_sidtab_map s (λ sid c s, sepol_sidtab_insert s sid c) s') h (λ r h', heap_le h h' ∧
    ((r.1 = 0 ∧ swf r.2 ∧ sidmap r.2 = sidmap s ∧ st_shutdown r.2 = st_shutdown s') ∨ (r.1 ≠ 0 ∧ hp_oom h ≠ []))).
Proof.
  intros Hs Hs' He. unfold wp. rewrite sidtab_map_spec by done. fold (wp (sidtab_map_chain (λ sid c s, sepol_sidtab_insert s sid c) (nodes s) s') h (λ r h', heap_le h h' ∧
    ((r.1 = 0 ∧ swf r.2 ∧ sidmap r.2 = sidmap s ∧ st_shutdown r.2 = st_shutdown s') ∨ (r.1 ≠ 0 ∧ hp_oom h ≠ [])))).
  pose proof Hs as (t & Ht & Hok & _ & Hnext & Hf). eapply wp_mono; [apply clone_nodes_spec; [done| |]|].
  - unfold nodes. rewrite Ht. by eapply table_NoDup.
  - unfold nodes. rewrite Ht. simpl. eapply Forall_impl; [exact Hf|]. intros n Hn. simpl in Hn.
    split; [lia|]. by rewrite He, lookup_empty.
  - intros r h' [Hle Hr]. split; [done|]. rewrite He, (right_id_L ∅ (∪)) in Hr. exact Hr.
Qed.

(** ** Conversion with removal *)

(** [l'] is [l] with every context replaced according to [P], which relates an
    identifier and its context to a code and the new context, and the nodes with
    a failing code dropped. *)
Inductive converted (P : Z → context_struct → Z → context_struct → Prop) :
    list sidtab_node → list sidtab_node → Prop :=
  | conv_nil : converted P [] []
  | conv_keep sid c c' l l' : P sid c 0 c' → converted P l l' → converted P ((sid, c) :: l) ((sid, c') :: l')
  | conv_drop sid c rc c' l l' : rc ≠ 0 → P sid c rc c' → converted P l l' → converted P ((sid, c) :: l) l'.

Section remove.
Context {St : Type} (apply : Z → context_struct → St → M (Z * context_struct * St)).
Context (P : Z → context_struct → Z → context_struct → Prop).

(** [apply] succeeds in its sense on the nodes [l], with memory. *)
Definition applies (l : list sidtab_node) : Prop :=
  ∀ sid c a h, (sid, c) ∈ l → hp_oom h = [] →
    wp (apply sid c a) h (λ r h', P sid c r.1.1 r.1.2 ∧ hp_oom h' = []).


Lemma converted_length l l' : converted P l l' → (length l' ≤ length l)%nat.
Proof. induction 1; simpl; lia. Qed.

Lemma remove_chain_spec l nel a h :
  applies l → hp_oom h = [] →
  wp (remove_chain apply l nel a) h (λ r h',
    converted P l r.1.1 ∧ (0 ≤ nel < 2 ^ 32 → r.1.2 = u32 (nel - Z.of_nat (length l - length r.1.1))) ∧ hp_oom h' = []).
Proof.
  revert nel a h. induction l as [|[sid c] l IH]; intros nel a h Ha Ho; cbn [remove_chain].
  { wp_step. split; [constructor|]. split; [|done]. intros Hn. simpl. by rewrite Z.sub_0_r, u32_id. }
  assert (applies l) as Ha' by (intros ?????; apply Ha; set_solver).
  wp_step. eapply wp_mono; [apply Ha; [set_solver|done]|]. intros [[rc c'] a1] h1 [HP Ho1]. simpl in HP.
  unfold nz. destruct (Z.eqb_spec rc 0) as [->|Hrc]; cbn [negb].
  - wp_step. eapply wp_mono; [by apply IH|]. intros [[l' nel'] a2] h2 (Hc & Hn & Ho2). simpl in *. wp_step.
    split; [by constructor|]. split; [|done]. intros Hr. simpl. auto.
  - eapply wp_mono; [by apply IH|]. intros [[l' nel'] a2] h2 (Hc & Hn & Ho2). simpl in *.
    split; [by eapply conv_drop|]. split; [|done]. intros Hr. rewrite Hn by (apply Z.mod_pos_bound; lia).
    apply converted_length in Hc. unfold u32. rewrite Zminus_mod_idemp_l. f_equal.
    rewrite Nat.sub_succ_l by done. lia.
Qed.

Lemma remove_slots_spec todo i t nel a h :
  length t = (i + todo)%nat → applies (concat (drop i t)) → hp_oom h = [] → 0 ≤ nel < 2 ^ 32 →
  wp (remove_slots apply todo (Z.of_nat i) t nel a) h (λ r h',
    take i r.1.1 = take i t ∧ Forall2 (converted P) (drop i t) (drop i r.1.1) ∧
    r.1.2 = u32 (nel - Z.of_nat (length (concat (drop i t)) - length (concat (drop i r.1.1)))) ∧ hp_oom h' = []).
Proof.
  revert i t nel a h. induction todo as [|todo IH]; intros i t nel a h Hl Ha Ho Hn; cbn [remove_slots].
  { wp_step. split; [done|]. simpl. rewrite !drop_ge by lia. split; [constructor|]. split; [|done].
    simpl. by rewrite Z.sub_0_r, u32_id. }
  destruct (lookup_lt_is_Some_2 t i) as [c Hi]; [lia|]. rewrite (drop_S _ _ _ Hi) in Ha |- *. simpl in Ha.
  unfold aget. rewrite (proj2 (Z.ltb_ge _ _)), Nat2Z.id, Hi by lia. do 2 wp_step. wp_step.
  eapply wp_mono; [apply remove_chain_spec; [intros ?????; apply Ha; set_solver|done]|].
  intros [[c' nel1] a1] h1 (Hc & Hn1 & Ho1). simpl in *. rewrite Hn1 by done. clear Hn1.
  unfold aset. rewrite (proj2 (Z.leb_le _ _)), (proj2 (Z.ltb_lt _ _)), Nat2Z.id by lia. cbn [andb]. do 2 wp_step.
  replace (Z.of_nat i + 1) with (Z.of_nat (S i)) by lia.
  assert (drop (S i) (<[i:=c']> t) = drop (S i) t) as Hd by (apply drop_insert_lt; lia).
  eapply wp_mono; [apply IH; [by rewrite length_insert; lia|rewrite Hd; intros ?????; apply Ha; set_solver|done|apply Z.mod_pos_bound; lia]|].
  intros [[t' nel2] a2] h2 (Ht & Hf & Hn2 & Ho2). simpl in Ht, Hf, Hn2 |- *. rewrite Hd in Hf, Hn2.
  assert (t' !! i = Some c') as Hi'.
  { rewrite <- (lookup_take_lt t' (S i)) by lia. rewrite Ht, lookup_take_lt, list_lookup_insert_eq by lia. done. }
  split_and!.
  - pose proof (f_equal (take i) Ht) as Ht'. rewrite !take_take, !Nat.min_l in Ht' by lia.
    rewrite Ht'. apply take_insert_ge. lia.
  - rewrite (drop_S _ _ _ Hi'). by constructor.
  - rewrite Hn2, (drop_S _ _ _ Hi'). simpl. rewrite !length_app. apply converted_length in Hc.
    assert (length (concat (drop (S i) t')) ≤ length (concat (drop (S i) t)))%nat.
    { clear -Hf. induction Hf as [|x y l k Hxy _ IH]; simpl; [lia|]. rewrite !length_app.
      apply converted_length in Hxy. lia. }
    unfold u32. rewrite Zminus_mod_idemp_l. f_equal. lia.
  - done.
Qed.
End remove.

(** A converted chain is still a chain. *)
Lemma converted_keys P l l' : converted P l l' → l'.*1 `sublist_of` l.*1.
Proof. induction 1; simpl; [constructor|by apply sublist_skip|by apply sublist_cons]. Qed.

Lemma sorted_keys (l : list sidtab_node) :
  StronglySorted node_lt l ↔ StronglySorted (λ a b : Z, keycmp a b < 0) l.*1.
Proof.
  induction l as [|n l IH]; [split; constructor|]. split.
  - intros [Hs Hf]%StronglySorted_inv. constructor; [by apply IH|]. by apply Forall_fmap.
  - intros [Hs Hf]%StronglySorted_inv. constructor; [by apply IH|]. by apply Forall_fmap in Hf.
Qed.

Lemma converted_chain P size i l l' :
  converted P l l' → chain_ok size i l → chain_ok size i l'.
Proof.
  intros Hc [Hs Hf]. pose proof (converted_keys _ _ _ Hc) as Hk. split.
  - apply sorted_keys. eapply sublist_sorted; [exact Hk|]. by apply sorted_keys.
  - apply (Forall_fmap fst (λ k, hash_value size k = Z.of_nat i)).
    apply (Forall_fmap fst (λ k, hash_value size k = Z.of_nat i)) in Hf.
    by eapply sublist_Forall.
Qed.

Lemma remove_on_error_spec {St} (apply : Z → context_struct → St → M (Z * context_struct * St)) P s a h :
  swf s → applies apply P (nodes s) → hp_oom h = [] →
  wp (sepol_sidtab_map_remove_on_error s apply a) h (λ r h',
    swf r.1 ∧ converted P (nodes s) (nodes r.1) ∧ st_shutdown r.1 = st_shutdown s ∧
    st_next_sid r.1 = st_next_sid s ∧ hp_oom h' = []).
Proof.
  intros (t & Ht & Hok & Hn & Hnext & Hf) Ha Ho. pose proof Hok as (Hl & Hk & Hch).
  unfold sepol_sidtab_map_remove_on_error, nodes in *. rewrite Ht in Ha |- *. cbn [default from_option id] in *. wp_step.
  eapply wp_mono; [apply (remove_slots_spec apply P _ 0 t); [rewrite <- Hl; lia|done|done|rewrite Hn; apply Z.mod_pos_bound; lia]|].
  intros [[t' nel'] a'] h' (_ & Hc & Hn' & Ho'). cbn [fst snd] in Hc, Hn'. rewrite !drop_0 in Hc, Hn'. wp_step.
  cbn [fst st_htable default from_option id st_shutdown st_next_sid].
  assert (converted P (concat t) (concat t')) as Hcc.
  { clear -Hc. induction Hc as [|x y l k Hxy _ IH]; simpl; [constructor|].
    induction Hxy; simpl; [done|by constructor|by eapply conv_drop]. }
  split_and!; [|done|done|done|done]. exists t'. split; [done|]. split; [|split; [simpl|split; [done|]]].
  - split; [by rewrite <- Hl, (Forall2_length _ _ _ Hc)|]. split; [done|]. intros i c' Hi.
    destruct (Forall2_lookup_r _ _ _ _ _ Hc Hi) as (c & Hi' & Hcv). eapply converted_chain; [done|]. by apply Hch.
  - pose proof (converted_length _ _ _ Hcc). rewrite Hn', Hn. unfold u32. rewrite Zminus_mod_idemp_l. f_equal. lia.
  - simpl. apply (Forall_fmap fst (λ k, 1 ≤ k < st_next_sid s)) in Hf.
    apply (Forall_fmap fst (λ k, 1 ≤ k < st_next_sid s)). eapply sublist_Forall; [|done]. by eapply converted_keys.
Qed.

(** What is left of an identifier. *)
Lemma converted_elem P l l' sid c' :
  converted P l l' → (sid, c') ∈ l' → ∃ c, (sid, c) ∈ l ∧ P sid c 0 c'.
Proof. induction 1; set_solver. Qed.

Lemma converted_lost P l l' sid c :
  converted P l l' → (sid, c) ∈ l → (∃ c', (sid, c') ∈ l' ∧ P sid c 0 c') ∨ (∃ rc c', rc ≠ 0 ∧ P sid c rc c').
Proof. induction 1; set_solver. Qed.
