(* ===== verification/Rpn.v ===== *)
(** * Expressions in reverse Polish notation

    Conditional expressions ([src/conditional.c]) and constraint expressions
    ([src/services.c]) are lists of operands and operators that the code
    evaluates with an array of integers and a stack pointer.  This file holds
    that array, boolean expressions as trees, and the reference machine both
    evaluators are compared with. *)

From S2P Require Import Prelude.

(** ** The array and its stack pointer *)

(** [int s[N]; int sp;]: an element that was never written is [None], and
    reading it is undefined. *)
Record stack := Stack { sk_arr : list (option Z); sk_sp : Z }.

Definition stack_read (s : stack) (i : Z) : option Z :=
  v ← aget (sk_arr s) i; v.

(** [s[++sp] = v]. *)
Definition stack_push (s : stack) (v : Z) : option stack :=
  let sp := sk_sp s + 1 in
  a ← aset (sk_arr s) sp (Some v);
  Some (Stack a sp).

(** [s[sp] = f(s[sp])]. *)
Definition stack_un (f : Z → Z) (s : stack) : option stack :=
  x ← stack_read s (sk_sp s);
  a ← aset (sk_arr s) (sk_sp s) (Some (f x));
  Some (Stack a (sk_sp s)).

(** [sp--; s[sp] = f(s[sp], s[sp + 1])]. *)
Definition stack_bin (f : Z → Z → Z) (s : stack) : option stack :=
  let sp := sk_sp s - 1 in
  x ← stack_read s sp;
  y ← stack_read s (sp + 1);
  a ← aset (sk_arr s) sp (Some (f x y));
  Some (Stack a sp).

(** ** Boolean expressions *)

Inductive binop := OpOr | OpAnd | OpXor | OpEq | OpNeq.

Definition binop_fun (o : binop) : bool → bool → bool :=
  match o with
  | OpOr => orb
  | OpAnd => andb
  | OpXor | OpNeq => xorb
  | OpEq => eqb
  end.

Inductive token (A : Type) := TLeaf (a : A) | TNot | TBin (o : binop).
Arguments TLeaf {_}.
Arguments TNot {_}.
Arguments TBin {_}.

Inductive bexpr (A : Type) := BLeaf (a : A) | BNot (e : bexpr A) | BBin (o : binop) (e1 e2 : bexpr A).
Arguments BLeaf {_}.
Arguments BNot {_}.
Arguments BBin {_}.

Section expressions.
Context {A : Type} (env : A → bool).

Fixpoint beval (e : bexpr A) : bool :=
  match e with
  | BLeaf a => env a
  | BNot e => negb (beval e)
  | BBin o e1 e2 => binop_fun o (beval e1) (beval e2)
  end.

(** The notation, and the stack its evaluation needs. *)
Fixpoint rpn (e : bexpr A) : list (token A) :=
  match e with
  | BLeaf a => [TLeaf a]
  | BNot e => rpn e ++ [TNot]
  | BBin o e1 e2 => rpn e1 ++ rpn e2 ++ [TBin o]
  end.

Fixpoint bdepth (e : bexpr A) : nat :=
  match e with
  | BLeaf _ => 1
  | BNot e => bdepth e
  | BBin _ e1 e2 => Nat.max (bdepth e1) (1 + bdepth e2)
  end.

(** The reference machine, on a list with the bottom of the stack first:
    [None] when an operand is missing or the stack would exceed [n]. *)
Definition top2 (l : list bool) : option (list bool * bool * bool) :=
  match rev l with
  | y :: x :: r => Some (rev r, x, y)
  | _ => None
  end.

Definition top1 (l : list bool) : option (list bool * bool) :=
  match rev l with
  | x :: r => Some (rev r, x)
  | [] => None
  end.

Definition token_step (n : nat) (t : token A) (l : list bool) : option (list bool) :=
  match t with
  | TLeaf a => if (length l <? n)%nat then Some (l ++ [env a]) else None
  | TNot => '(r, x) ← top1 l; Some (r ++ [negb x])
  | TBin o => '(r, x, y) ← top2 l; Some (r ++ [binop_fun o x y])
  end.

Fixpoint token_run (n : nat) (ts : list (token A)) (l : list bool) : option (list bool) :=
  match ts with
  | [] => Some l
  | t :: ts => l ← token_step n t l; token_run n ts l
  end.

(** The value of a token list: the bottom of the final stack. *)
Definition token_value (n : nat) (ts : list (token A)) : option bool :=
  l ← token_run n ts []; head l.
End expressions.

(** ** The reference machine evaluates expressions *)

Lemma top1_snoc l x : top1 (l ++ [x]) = Some (l, x).
Proof. unfold top1. rewrite rev_unit. by rewrite rev_involutive. Qed.

Lemma snoc_snoc {A} (l : list A) x y : (l ++ [x]) ++ [y] = l ++ [x; y].
Proof. by rewrite <- app_assoc. Qed.

Lemma top2_snoc l x y : top2 (l ++ [x; y]) = Some (l, x, y).
Proof. unfold top2. rewrite <- snoc_snoc, !rev_unit. by rewrite rev_involutive. Qed.

Section run.
Context {A : Type} (env : A → bool) (n : nat).

Lemma rpn_run e ts l :
  token_run env n (rpn e ++ ts) l =
  if (length l + bdepth e <=? n)%nat then token_run env n ts (l ++ [beval env e]) else None.
Proof.
  revert ts l. induction e as [a|e IH|o e1 IH1 e2 IH2]; intros ts l; simpl.
  - destruct (Nat.ltb_spec (length l) n), (Nat.leb_spec (length l + 1) n); done || lia.
  - rewrite <- app_assoc, IH. destruct (Nat.leb _ _); [|done]. simpl. by rewrite top1_snoc.
  - rewrite <- !app_assoc, IH1, IH2, length_app. simpl.
    destruct (Nat.leb_spec (length l + bdepth e1) n), (Nat.leb_spec (length l + 1 + bdepth e2) n),
      (Nat.leb_spec (length l + Nat.max (bdepth e1) (S (bdepth e2))) n); try lia; try done.
    rewrite <- app_assoc. simpl. by rewrite top2_snoc.
Qed.

Lemma rpn_value e :
  token_value env n (rpn e) = if (bdepth e <=? n)%nat then Some (beval env e) else None.
Proof.
  unfold token_value. rewrite <- (app_nil_r (rpn e)), rpn_run. simpl. by destruct (Nat.leb _ _).
Qed.

Lemma token_run_app ts1 ts2 l :
  token_run env n (ts1 ++ ts2) l = token_run env n ts1 l ≫= token_run env n ts2.
Proof.
  revert l. induction ts1 as [|t ts1 IH]; intros l; simpl; [done|].
  destruct (token_step env n t l); simpl; auto.
Qed.
End run.

(** ** The array implements the list *)

(** [s] holds the values [l], bottom first, in an array of [n]. *)
Definition holds (n : nat) (s : stack) (l : list Z) : Prop :=
  length (sk_arr s) = n ∧ sk_sp s = Z.of_nat (length l) - 1 ∧ (length l ≤ n)%nat ∧
  ∀ i v, l !! i = Some v → sk_arr s !! i = Some (Some v).

Lemma holds_read n s l i v :
  holds n s l → l !! i = Some v → stack_read s (Z.of_nat i) = Some v.
Proof.
  intros (_ & _ & _ & Hv) Hi. unfold stack_read, aget.
  rewrite (proj2 (Z.ltb_ge _ _)), Nat2Z.id, (Hv _ _ Hi) by lia. done.
Qed.

Lemma aset_ok {A} (l : list A) i x :
  (i < length l)%nat → aset l (Z.of_nat i) x = Some (<[i := x]> l).
Proof.
  intros. unfold aset. rewrite (proj2 (Z.leb_le _ _)), (proj2 (Z.ltb_lt _ _)), Nat2Z.id by lia. done.
Qed.

(** Writing the element above the first [length l] of them. *)
Lemma holds_write n a l v :
  length a = n → (length l < n)%nat → (∀ i w, l !! i = Some w → a !! i = Some (Some w)) →
  holds n (Stack (<[length l := Some v]> a) (Z.of_nat (length l))) (l ++ [v]).
Proof.
  intros Ha Hl Hv. split_and!; simpl; [by rewrite length_insert|rewrite length_app; simpl; lia..|].
  intros i w [Hi|[Hi Hw]]%lookup_app_Some.
  - rewrite list_lookup_insert_ne; [auto|]. apply lookup_lt_Some in Hi. lia.
  - apply list_lookup_singleton_Some in Hw as [Hw <-]. replace i with (length l) by lia.
    rewrite list_lookup_insert_eq; [done|lia].
Qed.

Lemma holds_prefix n s l1 l2 :
  holds n s (l1 ++ l2) → ∀ i w, l1 !! i = Some w → sk_arr s !! i = Some (Some w).
Proof. intros (_ & _ & _ & Hv) i w Hi. by apply Hv, lookup_app_l_Some. Qed.

Lemma stack_push_spec n s l v :
  holds n s l → (length l < n)%nat → ∃ s', stack_push s v = Some s' ∧ holds n s' (l ++ [v]).
Proof.
  intros (Ha & Hsp & _ & Hv) Hl. unfold stack_push.
  replace (sk_sp s + 1) with (Z.of_nat (length l)) by lia. rewrite aset_ok by lia.
  eexists. split; [done|]. by apply holds_write.
Qed.

Lemma stack_un_spec n s l x f :
  holds n s (l ++ [x]) → ∃ s', stack_un f s = Some s' ∧ holds n s' (l ++ [f x]).
Proof.
  intros Hs. pose proof Hs as (Ha & Hsp & Hl & _). rewrite length_app in Hsp, Hl. simpl in Hsp, Hl.
  unfold stack_un. replace (sk_sp s) with (Z.of_nat (length l)) by lia.
  rewrite (holds_read n s (l ++ [x]) _ x) by (done || by rewrite lookup_app_r, Nat.sub_diag).
  simpl. rewrite aset_ok by lia. eexists. split; [done|].
  apply holds_write; [done|lia|by eapply holds_prefix].
Qed.

Lemma stack_bin_spec n s l x y f :
  holds n s (l ++ [x; y]) → ∃ s', stack_bin f s = Some s' ∧ holds n s' (l ++ [f x y]).
Proof.
  intros Hs. pose proof Hs as (Ha & Hsp & Hl & _). rewrite length_app in Hsp, Hl. simpl in Hsp, Hl.
  unfold stack_bin. replace (sk_sp s - 1) with (Z.of_nat (length l)) by lia.
  rewrite (holds_read n s (l ++ [x; y]) _ x) by (done || by rewrite lookup_app_r, Nat.sub_diag).
  replace (Z.of_nat (length l) + 1) with (Z.of_nat (S (length l))) by lia.
  rewrite (holds_read n s (l ++ [x; y]) (S (length l)) y);
    [|done|by rewrite lookup_app_r, Nat.sub_succ_l, Nat.sub_diag by lia].
  simpl. rewrite aset_ok by lia. eexists. split; [done|].
  apply holds_write; [done|lia|by eapply holds_prefix].
Qed.

(** The shape of a stack with enough operands. *)
Lemma top1_inv l : top1 l = None ↔ l = [].
Proof.
  split; [|by intros ->]. destruct l as [|x l _] using rev_ind; [done|]. by rewrite top1_snoc.
Qed.

Lemma top2_inv l : top2 l = None ↔ (length l < 2)%nat.
Proof.
  destruct l as [|y l _] using rev_ind; [simpl; split; [lia|done]|].
  destruct l as [|x l _] using rev_ind; [simpl; split; [lia|done]|].
  rewrite snoc_snoc, top2_snoc, length_app. simpl. split; [done|lia].
Qed.

Lemma top1_some l r x : top1 l = Some (r, x) → l = r ++ [x].
Proof. destruct l as [|y l _] using rev_ind; [done|]. rewrite top1_snoc. by intros [= <- <-]. Qed.

Lemma top2_some l r x y : top2 l = Some (r, x, y) → l = r ++ [x; y].
Proof.
  destruct l as [|b l _] using rev_ind; [done|]. destruct l as [|a l _] using rev_ind; [done|].
  rewrite snoc_snoc, top2_snoc. by intros [= <- <- <-].
Qed.

(** Bitwise operators on truth values. *)
Lemma b2z_lor x y : Z.lor (b2z x) (b2z y) = b2z (x || y).
Proof. by destruct x, y. Qed.
Lemma b2z_land x y : Z.land (b2z x) (b2z y) = b2z (x && y).
Proof. by destruct x, y. Qed.
Lemma b2z_lxor x y : Z.lxor (b2z x) (b2z y) = b2z (xorb x y).
Proof. by destruct x, y. Qed.
Lemma b2z_eqb x y : b2z (b2z x =? b2z y) = b2z (eqb x y).
Proof. by destruct x, y. Qed.
Lemma b2z_neqb x y : b2z (negb (b2z x =? b2z y)) = b2z (xorb x y).
Proof. by destruct x, y. Qed.
Lemma b2z_not x : b2z (negb (nz (b2z x))) = b2z (negb x).
Proof. by destruct x. Qed.
#[export] Hint Rewrite b2z_lor b2z_land b2z_lxor b2z_eqb b2z_neqb b2z_not : truth.

(** ** Checking the depth of a token list *)

Section depth.
Context {A : Type} (n : nat).

(** The number of operands after a token: [None] when operands are missing or
    the stack is full. *)
Definition token_depth (t : token A) (d : nat) : option nat :=
  match t with
  | TLeaf _ => if (d <? n)%nat then Some (S d) else None
  | TNot => if (1 <=? d)%nat then Some d else None
  | TBin _ => if (2 <=? d)%nat then Some (d - 1)%nat else None
  end.

Fixpoint tokens_depth (ts : list (token A)) (d : nat) : option nat :=
  match ts with
  | [] => Some d
  | t :: ts => d ← token_depth t d; tokens_depth ts d
  end.

(** The expressions on the stack fit into it, one above the other. *)
Definition stacked (es : list (bexpr A)) : Prop := ∀ i e, es !! i = Some e → (i + bdepth e ≤ n)%nat.

Lemma stacked_snoc es e : stacked (es ++ [e]) ↔ stacked es ∧ (length es + bdepth e ≤ n)%nat.
Proof.
  split.
  - intros H. split; [intros i x Hi; by apply H, lookup_app_l_Some|]. apply H. by rewrite lookup_app_r, Nat.sub_diag.
  - intros [H1 H2] i x [Hi|[Hi Hx]]%lookup_app_Some; [by apply H1|].
    apply list_lookup_singleton_Some in Hx as [Hx <-]. lia.
Qed.

(** The check accepts exactly what parses into expressions of bounded depth. *)
Lemma depth_parses ts es d :
  stacked es → tokens_depth ts (length es) = Some d →
  ∃ es', concat (rpn <$> es') = concat (rpn <$> es) ++ ts ∧ length es' = d ∧ stacked es'.
Proof.
  revert es. induction ts as [|t ts IH]; intros es Hs Hd; cbn [tokens_depth] in Hd.
  { injection Hd as <-. exists es. by rewrite app_nil_r. }
  apply bind_Some in Hd as (d1 & H1 & Hd).
  assert (∃ es1, concat (rpn <$> es1) = concat (rpn <$> es) ++ [t] ∧ length es1 = d1 ∧ stacked es1) as (es1 & E1 & L1 & S1).
  { destruct t as [a| |o]; cbn [token_depth] in H1.
    - destruct (Nat.ltb_spec (length es) n); [|done]. injection H1 as <-. exists (es ++ [BLeaf a]).
      split; [by rewrite fmap_app, concat_app|]. split; [rewrite length_app; simpl; lia|]. apply stacked_snoc. split; [done|simpl; lia].
    - destruct es as [|e es _] using rev_ind; [done|]. destruct (Nat.leb_spec 1 (length (es ++ [e]))); [|done]. injection H1 as <-.
      exists (es ++ [BNot e]). split; [by rewrite !fmap_app, !concat_app, <- app_assoc; simpl; rewrite !app_nil_r|].
      split; [by rewrite !length_app|]. apply stacked_snoc. by apply stacked_snoc in Hs.
    - destruct es as [|e2 es _] using rev_ind; [done|]. destruct es as [|e1 es _] using rev_ind; [done|].
      destruct (Nat.leb_spec 2 (length ((es ++ [e1]) ++ [e2]))); [|done]. injection H1 as <-.
      apply stacked_snoc in Hs as [[Hs B1]%stacked_snoc B2]. rewrite length_app in B2. simpl in B2. exists (es ++ [BBin o e1 e2]).
      split; [rewrite !fmap_app, !concat_app; simpl; by rewrite !app_nil_r, <- !app_assoc|]. split; [rewrite !length_app; simpl; lia|].
      apply stacked_snoc. split; [done|simpl; lia]. }
  rewrite <- L1 in Hd. destruct (IH es1 S1 Hd) as (es' & E & L & S). exists es'. split; [|done]. by rewrite E, E1, <- app_assoc.
Qed.

Lemma depth_expression ts : tokens_depth ts 0 = Some 1%nat ↔ ∃ e, ts = rpn e ∧ (bdepth e ≤ n)%nat.
Proof.
  split.
  - intros Hd. destruct (depth_parses ts [] 1) as (es & E & L & S); [by intros i e Hi|done|].
    destruct es as [|e [|]]; try discriminate. exists e. cbn in E. rewrite app_nil_r in E. split; [done|]. by apply (S 0%nat e).
  - intros (e & -> & Hb). assert (∀ e ts d, tokens_depth (rpn e ++ ts) d = if (d + bdepth e <=? n)%nat then tokens_depth ts (S d) else None) as H.
    { clear. induction e as [a|e IH|o e1 IH1 e2 IH2]; intros ts d; cbn [rpn bdepth].
      - simpl. destruct (Nat.ltb_spec d n), (Nat.leb_spec (d + 1) n); done || lia.
      - rewrite <- app_assoc, IH. destruct (Nat.leb _ _); [|done]. done.
      - rewrite <- !app_assoc, IH1, IH2. destruct (Nat.leb_spec (d + bdepth e1) n), (Nat.leb_spec (S d + bdepth e2) n),
          (Nat.leb_spec (d + Nat.max (bdepth e1) (1 + bdepth e2)) n); try lia; done. }
    rewrite <- (app_nil_r (rpn e)), H. simpl. by rewrite (proj2 (Nat.leb_le _ _)).
Qed.
End depth.
