(* ===== verification/Conditional.v ===== *)
(** * Conditional policy

    [src/conditional.c]: conditional expressions and the rules they switch.  The
    rule lists of a conditional point at nodes of [te_cond_avtab]; [node_at] and
    [write_specified] follow such a pointer.  The policy is a kernel policy
    ([policy_type == POLICY_KERN]): the lists of source rules ([avtrue_list],
    [avfalse_list]) and the flags that only modules carry are left out. *)

From S2P Require Import Prelude PolicyFile Hashtab Avtab Mls Policydb Rpn.

(** ** Pointers to rules *)

Definition node_at (a : avtab) (addr : Z) : option avtab_node :=
  snd <$> list_find (λ n, an_addr n = addr) (concat (default [] (av_htable a))).

Definition map_specified (f : Z → Z) (n : avtab_node) : avtab_node :=
  let k := an_key n in
  AvtabNode (an_addr n)
    (AvtabKey (ak_source_type k) (ak_target_type k) (ak_target_class k) (f (ak_specified k)))
    (an_datum n).

(** [cur->node->key.specified = f(cur->node->key.specified)]. *)
Definition write_specified (f : Z → Z) (a : avtab) (addr : Z) : option avtab :=
  _ ← node_at a addr;
  t ← av_htable a;
  Some (Avtab (Some (fmap (M := list)
                       (fmap (M := list) (λ n, if an_addr n =? addr then map_specified f n else n)) t))
          (av_nel a) (av_nslot a) (av_mask a)).

(** ** Updates of the database *)

Definition set_cond (p : policydb) (bools : list (option cond_bool_datum)) (a : avtab)
    (l : list cond_node) : policydb :=
  Policydb (mls p) (p_classes p) (p_roles p) (p_types p) (p_users p) (p_bools_nprim p) (p_levels p)
    (p_cats p) (p_class_val_to_name p) (p_role_val_to_name p) (p_type_val_to_name p)
    (p_user_val_to_name p) (p_sens_val_to_name p) (p_cat_val_to_name p) (p_bool_val_to_name p)
    (class_val_to_struct p) (role_val_to_struct p) (user_val_to_struct p) (type_val_to_struct p)
    (te_avtab p) bools a l (role_tr p) (p_role_allow p) (ocontexts p) (p_genfs p) (range_tr p)
    (type_attr_map p) (attr_type_map p) (permissive_map p) (policyvers p) (handle_unknown p)
    (process_class p) (process_trans p) (process_trans_dyntrans p) (dir_class p) (policy_type p) (p_commons p) (p_bools_table p)
    (p_common_val_to_name p) (filename_trans p) (filename_trans_count p) (policycaps p) (target_platform p).

Definition set_bool_names (p : policydb) (names : list (option string)) : policydb :=
  Policydb (mls p) (p_classes p) (p_roles p) (p_types p) (p_users p) (p_bools_nprim p) (p_levels p)
    (p_cats p) (p_class_val_to_name p) (p_role_val_to_name p) (p_type_val_to_name p)
    (p_user_val_to_name p) (p_sens_val_to_name p) (p_cat_val_to_name p) names
    (class_val_to_struct p) (role_val_to_struct p) (user_val_to_struct p) (type_val_to_struct p)
    (te_avtab p) (bool_val_to_struct p) (te_cond_avtab p) (cond_list p) (role_tr p) (p_role_allow p)
    (ocontexts p) (p_genfs p) (range_tr p) (type_attr_map p) (attr_type_map p) (permissive_map p)
    (policyvers p) (handle_unknown p) (process_class p) (process_trans p)
    (process_trans_dyntrans p) (dir_class p) (policy_type p) (p_commons p) (p_bools_table p)
    (p_common_val_to_name p) (filename_trans p) (filename_trans_count p) (policycaps p) (target_platform p).

Definition set_rules (n : cond_node) (state : Z) (t f : list Z) : cond_node :=
  CondNode state (cn_cond n) t f (cn_nbools n) (cn_bool_ids n) (cn_pre_comp n) (cn_flags n).

(** ** Ordering the rule lists *)

(** The loop of [cond_optimize]: [top] is the list from [top] up to and including
    [p], [cur] the list from [cur] on.  A type rule behind [top] is unlinked and
    put in front. *)
Fixpoint cond_optimize_loop (a : avtab) (top cur : list Z) : option (list Z) :=
  match cur with
  | [] => Some top
  | n :: next =>
     nd ← node_at a n;
     if nz (Z.land (ak_specified (an_key nd)) AVTAB_TYPE) &&
        match top with [] => false | _ => true end
     then cond_optimize_loop a (n :: top) next
     else cond_optimize_loop a (top ++ [n]) next
  end.

Definition cond_optimize (a : avtab) (l : list Z) : option (list Z) := cond_optimize_loop a [] l.

Fixpoint cond_optimize_lists (a : avtab) (cl : list cond_node) : option (list cond_node) :=
  match cl with
  | [] => Some []
  | n :: cl =>
     t ← cond_optimize a (cn_true n);
     f ← cond_optimize a (cn_false n);
     cl ← cond_optimize_lists a cl;
     Some (set_rules n (cn_cur_state n) t f :: cl)
  end.

(** ** Evaluation *)

(** [s[sp] = p->bool_val_to_struct[cur->bool - 1]->state]. *)
Definition bool_state (bools : list (option cond_bool_datum)) (b : Z) : option Z :=
  d ← aget bools (u32 (b - 1));
  cb_state <$> d.

(** One round of the loop: [None] is undefined, [Some None] is [return -1]. *)
Definition cond_step (bools : list (option cond_bool_datum)) (e : cond_expr) (s : stack) :
    option (option stack) :=
  let binary f := if sk_sp s <? 1 then Some None else Some <$> stack_bin f s in
  if ce_type e =? COND_BOOL then
    if sk_sp s =? COND_EXPR_MAXDEPTH - 1 then Some None
    else
      v ← bool_state bools (ce_bool e);
      Some <$> stack_push s v
  else if ce_type e =? COND_NOT then
    if sk_sp s <? 0 then Some None else Some <$> stack_un (λ x, b2z (negb (nz x))) s
  else if ce_type e =? COND_OR then binary Z.lor
  else if ce_type e =? COND_AND then binary Z.land
  else if ce_type e =? COND_XOR then binary Z.lxor
  else if ce_type e =? COND_EQ then binary (λ x y, b2z (x =? y))
  else if ce_type e =? COND_NEQ then binary (λ x y, b2z (negb (x =? y)))
  else Some None.

Fixpoint cond_loop (bools : list (option cond_bool_datum)) (cur : list cond_expr) (s : stack) :
    option Z :=
  match cur with
  | [] => stack_read s 0
  | e :: cur =>
     r ← cond_step bools e s;
     match r with
     | None => Some (-1)
     | Some s => cond_loop bools cur s
     end
  end.

Definition cond_stack : stack :=
  Stack (Some (-1) :: replicate (Z.to_nat (COND_EXPR_MAXDEPTH - 1)) None) (-1).

Definition cond_evaluate_expr (bools : list (option cond_bool_datum)) (expr : list cond_expr) :
    option Z :=
  cond_loop bools expr cond_stack.

(** ** Switching rules *)

Fixpoint write_all (f : Z → Z) (a : avtab) (l : list Z) : option avtab :=
  match l with
  | [] => Some a
  | n :: l => a ← write_specified f a n; write_all f a l
  end.

Definition disable (spec : Z) : Z := Z.land spec (Z.lnot AVTAB_ENABLED).
Definition enable (spec : Z) : Z := Z.lor spec AVTAB_ENABLED.

Definition evaluate_cond_node (bools : list (option cond_bool_datum)) (a : avtab) (node : cond_node) :
    option (cond_node * avtab) :=
  new_state ← cond_evaluate_expr bools (cn_cond node);
  if negb (new_state =? cn_cur_state node) then
    let node := set_rules node new_state (cn_true node) (cn_false node) in
    a ← write_all (if new_state <=? 0 then disable else enable) a (cn_true node);
    a ← write_all (if nz new_state then disable else enable) a (cn_false node);
    Some (node, a)
  else Some (node, a).

(** [evaluate_cond_node] always returns 0. *)
Fixpoint evaluate_list (bools : list (option cond_bool_datum)) (a : avtab) (l : list cond_node) :
    option (list cond_node * avtab) :=
  match l with
  | [] => Some ([], a)
  | n :: l =>
     '(n, a) ← evaluate_cond_node bools a n;
     '(l, a) ← evaluate_list bools a l;
     Some (n :: l, a)
  end.

Definition evaluate_conds (p : policydb) : option (Z * policydb) :=
  '(l, a) ← evaluate_list (bool_val_to_struct p) (te_cond_avtab p) (cond_list p);
  Some (0, set_cond p (bool_val_to_struct p) a l).

(** ** Comparing conditionals *)

(** [while (i < num_bools && target != bools[i]) i++]. *)
Fixpoint bool_scan (todo : nat) (i : Z) (target : Z) (bools : list Z) : option Z :=
  match todo with
  | O => Some i
  | S todo =>
     b ← aget bools i;
     if negb (target =? b) then bool_scan todo (i + 1) target bools else Some i
  end.

Definition bool_present (target : Z) (bools : list Z) (num_bools : Z) : option bool :=
  if num_bools >? COND_MAX_BOOLS then Some false
  else
    i ← bool_scan (Z.to_nat num_bools) 0 target bools;
    Some (negb (i =? num_bools)).

Fixpoint same_bools_loop (todo : nat) (i : Z) (a b : list Z) (x : Z) : option bool :=
  match todo with
  | O => Some true
  | S todo =>
     id ← aget a i;
     r ← bool_present id b x;
     if negb r then Some false else same_bools_loop todo (i + 1) a b x
  end.

Definition same_bools (a b : cond_node) : option bool :=
  let x := cn_nbools a in
  if negb (x =? cn_nbools b) then Some false
  else same_bools_loop (Z.to_nat x) 0 (cn_bool_ids a) (cn_bool_ids b) x.

Fixpoint same_exprs (a b : list cond_expr) : bool :=
  match a, b with
  | [], [] => true
  | [], _ | _, [] => false
  | x :: a, y :: b =>
     if negb (ce_type x =? ce_type y) then false
     else if (ce_type x =? COND_BOOL) && negb (ce_bool x =? ce_bool y) then false
     else same_exprs a b
  end.

Definition cond_expr_equal (a b : cond_node) : option bool :=
  if negb (cn_nbools a =? cn_nbools b) then Some false
  else if (cn_nbools a <=? COND_MAX_BOOLS) && (cn_nbools b <=? COND_MAX_BOOLS) then
    r ← same_bools a b;
    if negb r then Some false else Some (cn_pre_comp a =? cn_pre_comp b)
  else Some (same_exprs (cn_cond a) (cn_cond b)).

(** ** Normalisation *)

Definition write_state (bools : list (option cond_bool_datum)) (b v : Z) :
    option (list (option cond_bool_datum)) :=
  d ← aget bools (u32 (b - 1));
  d ← d;
  aset bools (u32 (b - 1)) (Some (BoolDatum (cb_value d) v (cb_flags d))).

(** The distinct booleans of the expression and their number; past
    [COND_MAX_BOOLS] every further occurrence is counted. *)
Fixpoint collect_bools (expr : list cond_expr) (ids : list Z) (nbools : Z) : option (list Z * Z) :=
  match expr with
  | [] => Some (ids, nbools)
  | e :: expr =>
     if ce_type e =? COND_BOOL then
       r ← bool_present (ce_bool e) ids nbools;
       if negb r then
         if nbools <? COND_MAX_BOOLS then
           ids ← aset ids nbools (ce_bool e);
           collect_bools expr ids (nbools + 1)
         else collect_bools expr ids (nbools + 1)
       else collect_bools expr ids nbools
     else collect_bools expr ids nbools
  end.

(** The values of the booleans, saved, set to the bits of [test], and restored. *)
Fixpoint save_states (bools : list (option cond_bool_datum)) (ids : list Z) : option (list Z) :=
  match ids with
  | [] => Some []
  | b :: ids =>
     v ← bool_state bools b;
     r ← save_states bools ids;
     Some (v :: r)
  end.

Fixpoint set_states (bools : list (option cond_bool_datum)) (ids : list Z) (test j : Z) :
    option (list (option cond_bool_datum)) :=
  match ids with
  | [] => Some bools
  | b :: ids =>
     bools ← write_state bools b (if nz (Z.land test (Z.shiftl 1 j)) then 1 else 0);
     set_states bools ids test (j + 1)
  end.

Fixpoint restore_states (bools : list (option cond_bool_datum)) (ids : list Z) (orig : list Z) :
    option (list (option cond_bool_datum)) :=
  match ids, orig with
  | b :: ids, v :: orig => bools ← write_state bools b v; restore_states bools ids orig
  | _, _ => Some bools
  end.

(** The loop over all [2 ^ nbools] assignments, [todo] of them left. *)
Fixpoint precompute (todo : nat) (test : Z) (bools : list (option cond_bool_datum)) (ids : list Z)
    (expr : list cond_expr) (pre : Z) : option (Z * list (option cond_bool_datum) * Z) :=
  match todo with
  | O => Some (0, bools, pre)
  | S todo =>
     bools ← set_states bools ids test 0;
     k ← cond_evaluate_expr bools expr;
     if k =? -1 then Some (-1, bools, pre)
     else precompute todo (test + 1) bools ids expr
            (if nz k then Z.lor pre (Z.shiftl 1 test) else pre)
  end.

Definition normalize_not (cn : cond_node) : option (Z * cond_node) :=
  e ← last (cn_cond cn);
  if ce_type e =? COND_NOT then
    match removelast (cn_cond cn) with
    | [] => Some (-1, cn)
    | expr =>
       Some (0, CondNode (cn_cur_state cn) expr (cn_false cn) (cn_true cn)
                  (cn_nbools cn) (cn_bool_ids cn) (cn_pre_comp cn) (cn_flags cn))
    end
  else Some (0, cn).

Definition cond_normalize_expr (bools : list (option cond_bool_datum)) (cn : cond_node) :
    option (Z * list (option cond_bool_datum) * cond_node) :=
  let cn := CondNode (cn_cur_state cn) (cn_cond cn) (cn_true cn) (cn_false cn) 0
              (replicate (Z.to_nat COND_MAX_BOOLS) 0) 0 (cn_flags cn) in
  '(rc, cn) ← normalize_not cn;
  if nz rc then Some (-1, bools, cn)
  else
    '(ids, nbools) ← collect_bools (cn_cond cn) (cn_bool_ids cn) 0;
    let done pre := CondNode (cn_cur_state cn) (cn_cond cn) (cn_true cn) (cn_false cn) nbools ids pre
                      (cn_flags cn) in
    if nbools <=? COND_MAX_BOOLS then
      let used := take (Z.to_nat nbools) ids in
      orig ← save_states bools used;
      '(rc, bools, pre) ← precompute (Z.to_nat (2 ^ nbools)) 0 bools used (cn_cond cn) 0;
      if nz rc then Some (-1, bools, done pre)
      else
        bools ← restore_states bools used orig;
        Some (0, bools, done pre)
    else Some (0, bools, done 0).

(** ** Creating and finding conditionals *)

(** The copy; [[]] is [NULL]. *)
Fixpoint copy_loop (cur acc : list cond_expr) : M (list cond_expr) :=
  match cur with
  | [] => mret acc
  | e :: cur =>
     new_expr ← malloc;
     match new_expr with
     | None => mret []
     | Some _ => copy_loop cur (acc ++ [CondExpr (ce_type e) (ce_bool e)])
     end
  end.

Definition cond_copy_expr (expr : list cond_expr) : M (list cond_expr) := copy_loop expr [].

Definition cond_node_create (bools : list (option cond_bool_datum)) (node : option cond_node) :
    M (option cond_node) :=
  new_node ← malloc;
  match new_node, node with
  | None, _ => mret None
  | Some _, None =>
     mret (Some (CondNode 0 [] [] [] 0 (replicate (Z.to_nat COND_MAX_BOOLS) 0) 0 0))
  | Some _, Some node =>
     expr ← cond_copy_expr (cn_cond node);
     match expr with
     | [] => mret None
     | _ =>
        state ← get (cond_evaluate_expr bools expr);
        let k := Z.to_nat (Z.min (cn_nbools node) COND_MAX_BOOLS) in
        mret (Some (CondNode state expr [] [] (cn_nbools node)
                      (take k (cn_bool_ids node) ++ replicate (Z.to_nat COND_MAX_BOOLS - k) 0)
                      (cn_pre_comp node) (cn_flags node)))
     end
  end.

(** A node found in the list, by its position, or the node created. *)
Fixpoint cond_node_find (bools : list (option cond_bool_datum)) (needle : cond_node)
    (haystack : list cond_node) (pos : nat) : M (nat + option cond_node) :=
  match haystack with
  | [] => n ← cond_node_create bools (Some needle); mret (inr n)
  | h :: haystack =>
     r ← get (cond_expr_equal needle h);
     if (r : bool) then mret (inl pos) else cond_node_find bools needle haystack (S pos)
  end.

Definition cond_node_search (p : policydb) (list : list cond_node) (cn : cond_node) :
    M ((nat + option cond_node) * policydb) :=
  result ← cond_node_find (bool_val_to_struct p) cn list 0;
  match result with
  | inr (Some n) =>
     mret (result, set_cond p (bool_val_to_struct p) (te_cond_avtab p) (n :: cond_list p))
  | _ => mret (result, p)
  end.

(** ** Reading the binary representation *)

(** The C string in front of the first NUL of a buffer. *)
Fixpoint cstring (l : list Z) : string :=
  match l with
  | [] => EmptyString
  | b :: l => if b =? 0 then EmptyString else String (ascii_of_N (Z.to_N b)) (cstring l)
  end.

Definition bool_isvalid (state : Z) : bool := (state =? 0) || (state =? 1).

Definition cond_read_bool (h : option (hashtab string cond_bool_datum)) (fp : policy_file) :
    M (Z * option (hashtab string cond_bool_datum) * policy_file) :=
  booldatum ← malloc;
  match booldatum with
  | None => mret (-1, h, fp)
  | Some _ =>
     '(b, fp) ← next_entry fp 12;
     match b with
     | None => mret (-1, h, fp)
     | Some b =>
        let buf := le32s 3 b in
        value ← get (aget buf 0);
        state ← get (aget buf 1);
        len ← get (aget buf 2);
        if negb (bool_isvalid (s32 state)) then mret (-1, h, fp)
        else
          '(rc, key, fp) ← str_read fp len;
          match key with
          | Some key =>
             if nz rc then mret (-1, h, fp)
             else
               '(rc, h) ← hashtab_insert h (cstring key) (BoolDatum value (s32 state) 0);
               mret (if nz rc then -1 else 0, h, fp)
          | None => mret (-1, h, fp)
          end
     end
  end.

(** [cond_insertf]: the state is [te_cond_avtab] and the list built so far;
    [other] is [NULL] when the true list is empty. *)
Definition type_conflict (te a : avtab) (other : list Z) (k : avtab_key) : option bool :=
  if nz (Z.land (ak_specified k) AVTAB_TYPE) then
    r ← avtab_search te k;
    match r, other with
    | Some _, _ => Some true
    | None, _ :: _ =>
       node ← avtab_search_node a k;
       match node with
       | [] => Some false
       | n :: _ =>
          match avtab_search_node_next node (ak_specified k) with
          | _ :: _ => Some true
          | [] => Some (negb (bool_decide (an_addr n ∈ other)))
          end
       end
    | None, [] =>
       r ← avtab_search a k;
       Some (match r with Some _ => true | None => false end)
    end
  else Some false.

Definition cond_insertf (te : avtab) (other : list Z) (k : avtab_key) (d : avtab_datum)
    (s : avtab * list Z) : M (Z * (avtab * list Z)) :=
  conflict ← get (type_conflict te s.1 other k);
  if (conflict : bool) then mret (-1, s)
  else
    '(node_ptr, a) ← avtab_insert_nonunique s.1 k d;
    match node_ptr with
    | None => mret (-1, (a, s.2))
    | Some n =>
       list ← malloc;
       match list with
       | None => mret (-1, (a, s.2))
       | Some _ => mret (0, (a, s.2 ++ [an_addr n]))
       end
    end.

Definition cond_read_av_list (p : policydb) (a : avtab) (fp : policy_file) (other : list Z) :
    M (Z * list Z * avtab * policy_file) :=
  '(b, fp) ← next_entry fp 4;
  match b with
  | None => mret (-1, [], a, fp)
  | Some b =>
     let len := le_val b in
     if len =? 0 then mret (0, [], a, fp)
     else
       '(rc, fp, s) ← read_items (cond_insertf (te_avtab p) other) (S (length (pf_data fp))) fp
                        (policyvers p) 0 len (a, []);
       if nz rc then mret (rc, [], s.1, fp) else mret (0, s.2, s.1, fp)
  end.

Definition expr_isvalid (p : policydb) (e : cond_expr) : bool :=
  negb ((ce_type e <=? 0) || (ce_type e >? COND_NEQ)) && negb (ce_bool e >? p_bools_nprim p).

(** The loop over the [len] elements of the expression. *)
Fixpoint read_exprs (fuel : nat) (p : policydb) (fp : policy_file) (i len : Z)
    (acc : list cond_expr) : M (option (list cond_expr) * policy_file) :=
  if i <? len then
    match fuel with
    | O => ub
    | S fuel =>
       '(b, fp) ← next_entry fp 8;
       match b with
       | None => mret (None, fp)
       | Some b =>
          expr ← malloc;
          match expr with
          | None => mret (None, fp)
          | Some _ =>
             let e := CondExpr (le_val (take 4 b)) (le_val (drop 4 b)) in
             if negb (expr_isvalid p e) then mret (None, fp)
             else read_exprs fuel p fp (i + 1) len (acc ++ [e])
          end
       end
    end
  else mret (Some acc, fp).

Definition cond_read_node (p : policydb) (a : avtab) (fp : policy_file) :
    M (option cond_node * avtab * policy_file) :=
  '(b, fp) ← next_entry fp 4;
  match b with
  | None => mret (None, a, fp)
  | Some b =>
     let cur_state := s32 (le_val b) in
     '(b, fp) ← next_entry fp 4;
     match b with
     | None => mret (None, a, fp)
     | Some b =>
        '(expr, fp) ← read_exprs (S (length (pf_data fp))) p fp 0 (s32 (le_val b)) [];
        match expr with
        | None => mret (None, a, fp)
        | Some expr =>
           '(rc, t, a, fp) ← cond_read_av_list p a fp [];
           if nz rc then mret (None, a, fp)
           else
             '(rc, f, a, fp) ← cond_read_av_list p a fp t;
             if nz rc then mret (None, a, fp)
             else mret (Some (CondNode cur_state expr t f 0
                                (replicate (Z.to_nat COND_MAX_BOOLS) 0) 0 0), a, fp)
        end
     end
  end.

(** The nodes read, also when a later one fails. *)
Fixpoint read_nodes (fuel : nat) (p : policydb) (a : avtab) (fp : policy_file) (i len : Z)
    (acc : list cond_node) : M (Z * list cond_node * avtab * policy_file) :=
  if i <? len then
    match fuel with
    | O => ub
    | S fuel =>
       node ← malloc;
       match node with
       | None => mret (-1, acc, a, fp)
       | Some _ =>
          '(n, a, fp) ← cond_read_node p a fp;
          match n with
          | None => mret (-1, acc, a, fp)
          | Some n => read_nodes fuel p a fp (i + 1) len (acc ++ [n])
          end
       end
    end
  else mret (0, acc, a, fp).

(** With [list] pointing at [p->cond_list], which is [NULL] before. *)
Definition cond_read_list (p : policydb) (fp : policy_file) : M (Z * policydb * policy_file) :=
  '(b, fp) ← next_entry fp 4;
  match b with
  | None => mret (-1, p, fp)
  | Some b =>
     let len := s32 (le_val b) in
     '(rc, a) ← avtab_alloc (te_cond_avtab p) (av_nel (te_avtab p));
     if nz rc then mret (-1, set_cond p (bool_val_to_struct p) a (cond_list p), fp)
     else
       '(rc, l, a, fp) ← read_nodes (S (length (pf_data fp))) p a fp 0 len [];
       mret (rc, set_cond p (bool_val_to_struct p) a l, fp)
  end.

(** ** Initialisation *)

Definition cond_policydb_init (p : policydb) : Z * policydb :=
  (0, set_cond p [] (avtab_init (te_cond_avtab p)) []).

Definition cond_init_bool_indexes (p : policydb) : M (Z * policydb) :=
  r ← malloc;
  match r with
  | None => mret (-1, set_cond p [] (te_cond_avtab p) (cond_list p))
  | Some _ =>
     mret (0, set_cond p (replicate (Z.to_nat (p_bools_nprim p)) None) (te_cond_avtab p) (cond_list p))
  end.

Definition cond_index_bool (key : string) (datum : cond_bool_datum) (p : policydb) :
    option (Z * policydb) :=
  if (cb_value datum =? 0) || (cb_value datum >? p_bools_nprim p) then Some (- EINVAL, p)
  else
    name ← aget (p_bool_val_to_name p) (cb_value datum - 1);
    match name with
    | Some _ => Some (- EINVAL, p)
    | None =>
       names ← aset (p_bool_val_to_name p) (cb_value datum - 1) (Some key);
       bools ← aset (bool_val_to_struct p) (cb_value datum - 1) (Some datum);
       Some (0, set_cond (set_bool_names p names) bools (te_cond_avtab p) (cond_list p))
    end.

(** ** Decisions *)

(** [struct sepol_av_decision]. *)
Record av_decision := AvDecision {
  avd_allowed : Z;
  avd_decided : Z;
  avd_auditallow : Z;
  avd_auditdeny : Z;
  avd_seqno : Z
}.

(** The body of the loop of [cond_compute_av]. *)
Definition cond_add_av (avd : av_decision) (n : avtab_node) : av_decision :=
  let has x := u16 (Z.lor x AVTAB_ENABLED) =? Z.land (ak_specified (an_key n)) (Z.lor x AVTAB_ENABLED) in
  let data := ad_data (an_datum n) in
  AvDecision
    (if has AVTAB_ALLOWED then Z.lor (avd_allowed avd) data else avd_allowed avd)
    (avd_decided avd)
    (if has AVTAB_AUDITALLOW then Z.lor (avd_auditallow avd) data else avd_auditallow avd)
    (if has AVTAB_AUDITDENY then Z.land (avd_auditdeny avd) data else avd_auditdeny avd)
    (avd_seqno avd).

Definition cond_compute_av (ctab : avtab) (key : avtab_key) (avd : av_decision) : option av_decision :=
  nodes ← avtab_search_nodes ctab key;
  Some (fold_left cond_add_av nodes avd).

Fixpoint cond_av_list_search (a : avtab) (key : avtab_key) (l : list Z) : option (option avtab_datum) :=
  match l with
  | [] => Some None
  | cur :: l =>
     n ← node_at a cur;
     if (ak_source_type (an_key n) =? ak_source_type key) &&
        (ak_target_type (an_key n) =? ak_target_type key) &&
        (ak_target_class (an_key n) =? ak_target_class key)
     then Some (Some (an_datum n))
     else cond_av_list_search a key l
  end.
