(* ===== verification/ConditionalFacts.v ===== *)
(** * Facts about conditional policy

    The evaluator against the reference machine of [Rpn], writes through rule
    pointers, and the lists of rules. *)

From S2P Require Import Prelude PolicyFile Hashtab Avtab AvtabFacts Mls Policydb Rpn Conditional.

(** ** Evaluation *)

(** The tokens of an expression; an unknown operator has none. *)
Definition decode (e : cond_expr) : option (token Z) :=
  if ce_type e =? COND_BOOL then Some (TLeaf (ce_bool e))
  else if ce_type e =? COND_NOT then Some TNot
  else if ce_type e =? COND_OR then Some (TBin OpOr)
  else if ce_type e =? COND_AND then Some (TBin OpAnd)
  else if ce_type e =? COND_XOR then Some (TBin OpXor)
  else if ce_type e =? COND_EQ then Some (TBin OpEq)
  else if ce_type e =? COND_NEQ then Some (TBin OpNeq)
  else None.

Definition encode (t : token Z) : cond_expr :=
  match t with
  | TLeaf b => CondExpr COND_BOOL b
  | TNot => CondExpr COND_NOT 0
  | TBin OpOr => CondExpr COND_OR 0
  | TBin OpAnd => CondExpr COND_AND 0
  | TBin OpXor => CondExpr COND_XOR 0
  | TBin OpEq => CondExpr COND_EQ 0
  | TBin OpNeq => CondExpr COND_NEQ 0
  end.

Lemma decode_encode t : decode (encode t) = Some t.
Proof. by destruct t as [| |[]]. Qed.

Lemma decode_encode_all ts : mapM decode (encode <$> ts) = Some ts.
Proof.
  induction ts as [|t ts IH]; [done|]. rewrite fmap_cons. cbn [mapM]. rewrite decode_encode. cbn.
  by rewrite IH.
Qed.

Notation bools_t := (list (option cond_bool_datum)).

(** The value of a boolean, and that it is defined and a truth value. *)
Definition bool_env (bools : bools_t) (b : Z) : bool :=
  match bool_state bools b with Some v => nz v | None => false end.

Definition bool_ok (bools : bools_t) (b : Z) : Prop := ∃ v : bool, bool_state bools b = Some (b2z v).

Definition leaf_ok (bools : bools_t) (e : cond_expr) : Prop :=
  ce_type e = COND_BOOL → bool_ok bools (ce_bool e).

Lemma bool_ok_env bools b : bool_ok bools b → bool_state bools b = Some (b2z (bool_env bools b)).
Proof. intros [v Hv]. unfold bool_env. rewrite Hv. by destruct v. Qed.

Definition maxdepth : nat := Z.to_nat COND_EXPR_MAXDEPTH.

(** One round against one token. *)
Lemma cond_step_spec bools e s l :
  leaf_ok bools e → holds maxdepth s (b2z <$> l) →
  match decode e ≫= λ t, token_step (bool_env bools) maxdepth t l with
  | None => cond_step bools e s = Some None
  | Some l' => ∃ s', cond_step bools e s = Some (Some s') ∧ holds maxdepth s' (b2z <$> l') ∧ l' ≠ []
  end.
Proof.
  intros Hok Hs. pose proof Hs as (_ & Hsp & Hlen & _). rewrite length_fmap in Hsp, Hlen.
  assert (∀ o f, (∀ x y, f (b2z x) (b2z y) = b2z (binop_fun o x y)) →
    match token_step (bool_env bools) maxdepth (TBin o) l with
    | None => (if sk_sp s <? 1 then Some None else Some <$> stack_bin f s) = Some None
    | Some l' => ∃ s', (if sk_sp s <? 1 then Some None else Some <$> stack_bin f s) = Some (Some s') ∧
        holds maxdepth s' (b2z <$> l') ∧ l' ≠ []
    end) as Hbin.
  { intros o f Hf. cbn [token_step]. destruct (top2 l) as [[[r x] y]|] eqn:Et; cbn -[stack_bin].
    - apply top2_some in Et as ->. rewrite length_app in Hsp. simpl in Hsp.
      rewrite (proj2 (Z.ltb_ge _ _)) by lia. rewrite fmap_app in Hs.
      destruct (stack_bin_spec maxdepth s _ _ _ f Hs) as (s' & -> & Hs'). exists s'. split; [done|].
      rewrite fmap_app. simpl. rewrite <- Hf. split; [done|]. by destruct r.
    - apply top2_inv in Et. rewrite (proj2 (Z.ltb_lt _ _)) by lia. done. }
  unfold cond_step, decode. cbn zeta.
  destruct (Z.eqb_spec (ce_type e) COND_BOOL) as [Hb|_].
  { cbn -[Nat.ltb stack_push maxdepth]. destruct (Nat.ltb_spec (length l) maxdepth).
    - rewrite (proj2 (Z.eqb_neq _ _)) by (unfold maxdepth, COND_EXPR_MAXDEPTH in *; lia).
      rewrite (bool_ok_env _ _ (Hok Hb)). cbn -[stack_push maxdepth].
      destruct (stack_push_spec maxdepth s _ (b2z (bool_env bools (ce_bool e))) Hs) as (s' & -> & Hs');
        [by rewrite length_fmap|].
      exists s'. split; [done|]. rewrite fmap_app. split; [done|]. by destruct l.
    - rewrite (proj2 (Z.eqb_eq _ _)) by (unfold maxdepth, COND_EXPR_MAXDEPTH in *; lia). done. }
  destruct (Z.eqb_spec (ce_type e) COND_NOT) as [_|_].
  { cbn -[stack_un]. destruct (top1 l) as [[r x]|] eqn:Et; cbn -[stack_un].
    - apply top1_some in Et as ->. rewrite length_app in Hsp. simpl in Hsp.
      rewrite (proj2 (Z.ltb_ge _ _)) by lia. rewrite fmap_app in Hs.
      destruct (stack_un_spec maxdepth s _ _ (λ x, b2z (negb (nz x))) Hs) as (s' & -> & Hs').
      exists s'. split; [done|]. rewrite b2z_not in Hs'. rewrite fmap_app. split; [done|]. by destruct r.
    - apply top1_inv in Et as ->. by rewrite Hsp. }
  repeat (match goal with |- context [ce_type e =? ?c] => destruct (ce_type e =? c) end;
    [apply Hbin; intros x y; autorewrite with truth; done|]).
  done.
Qed.

(** What the loop returns for the final stack of the reference machine. *)
Definition cond_result (o : option (list bool)) : Z :=
  match o ≫= head with Some b => b2z b | None => -1 end.

Lemma cond_loop_spec bools cur s l :
  Forall (leaf_ok bools) cur → holds maxdepth s (b2z <$> l) →
  (l = [] → stack_read s 0 = Some (-1)) →
  cond_loop bools cur s =
  Some (cond_result (ts ← mapM decode cur; token_run (bool_env bools) maxdepth ts l)).
Proof.
  intros Hok. revert s l. induction Hok as [|e cur He Hok IH]; intros s l Hs Hn.
  { simpl. destruct l as [|b l]; [by apply Hn|]. by eapply (holds_read _ s _ 0%nat). }
  cbn [cond_loop]. pose proof (cond_step_spec bools e s l He Hs) as Hst. simpl.
  destruct (decode e) as [t|]; simpl in *; [|by rewrite Hst].
  destruct (token_step (bool_env bools) maxdepth t l) as [l'|] eqn:Et.
  - destruct Hst as (s' & -> & Hs' & Hl'). simpl. rewrite (IH s' l' Hs') by (by intros ->).
    destruct (mapM decode cur) as [ts|]; simpl; [|done]. by rewrite Et.
  - rewrite Hst. simpl. destruct (mapM decode cur) as [ts|]; simpl; [|done]. by rewrite Et.
Qed.

Lemma cond_evaluate_spec bools expr :
  Forall (leaf_ok bools) expr →
  cond_evaluate_expr bools expr =
  Some (match ts ← mapM decode expr; token_value (bool_env bools) maxdepth ts with
        | Some b => b2z b
        | None => -1
        end).
Proof.
  intros Hok. unfold cond_evaluate_expr. rewrite (cond_loop_spec bools expr cond_stack []); [|done| |done].
  - unfold cond_result, token_value. by destruct (mapM decode expr).
  - split_and!; [done|done|simpl; lia|]. intros i v Hi. by destruct i.
Qed.

(** ** Writes through rule pointers *)

Definition enabled (n : avtab_node) : bool := nz (Z.land (ak_specified (an_key n)) AVTAB_ENABLED).

(** The same rule, enabled or not. *)
Definition same_rule (n n' : avtab_node) : Prop :=
  an_addr n = an_addr n' ∧ same_key (an_key n) (an_key n') = true ∧ an_datum n = an_datum n' ∧
  Z.ldiff (ak_specified (an_key n)) AVTAB_ENABLED = Z.ldiff (ak_specified (an_key n')) AVTAB_ENABLED.

#[global] Instance same_rule_preorder : PreOrder same_rule.
Proof.
  split; [intros n; split_and!; try done; apply same_key_refl|].
  intros n1 n2 n3 (H1 & (? & ? & ?)%same_key_eq & H3 & H4) (H1' & (? & ? & ?)%same_key_eq & H3' & H4').
  split_and!; try congruence. apply same_key_eq. split_and!; congruence.
Qed.

(** What the code does to a specifier: it keeps the other bits, and doing it
    twice changes nothing. *)
Record switch (f : Z → Z) : Prop := {
  switch_keeps x : Z.ldiff (f x) AVTAB_ENABLED = Z.ldiff x AVTAB_ENABLED;
  switch_twice x : f (f x) = f x;
  switch_bound x : 0 ≤ x < 2 ^ 16 → 0 ≤ f x < 2 ^ 16
}.

Lemma disable_switch : switch disable.
Proof.
  split; unfold disable.
  - intros x. apply Z.bits_inj'. intros i Hi. rewrite !Z.ldiff_spec, Z.land_spec, Z.lnot_spec by done. btauto.
  - intros x. by rewrite <- Z.land_assoc, Z.land_diag.
  - intros x Hx. apply land_bound; [lia|done].
Qed.

Lemma enable_switch : switch enable.
Proof.
  split; unfold enable.
  - intros x. apply Z.bits_inj'. intros i Hi. rewrite !Z.ldiff_spec, Z.lor_spec by done. btauto.
  - intros x. by rewrite <- Z.lor_assoc, Z.lor_diag.
  - intros x Hx. apply lor_bound; [lia|done|by unfold AVTAB_ENABLED].
Qed.
#[export] Hint Resolve disable_switch enable_switch : core.

Lemma disable_enabled n : enabled (map_specified disable n) = false.
Proof.
  unfold enabled, nz, disable. simpl. rewrite <- Z.land_assoc, (Z.land_comm (Z.lnot _)), Z.land_lnot_diag.
  by rewrite Z.land_0_r.
Qed.

Lemma enable_enabled n : enabled (map_specified enable n) = true.
Proof.
  unfold enabled, nz, enable. simpl. apply negb_true_iff, Z.eqb_neq. intros Hz.
  assert (Z.testbit (Z.land (Z.lor (ak_specified (an_key n)) AVTAB_ENABLED) AVTAB_ENABLED) 15 = true) as Ht.
  { by rewrite Z.land_spec, Z.lor_spec, orb_true_r. }
  by rewrite Hz in Ht.
Qed.

Lemma map_specified_rule f n : switch f → same_rule n (map_specified f n).
Proof.
  intros Hf. split_and!; try done; [by apply same_key_eq|]. symmetry. apply Hf.
Qed.

Definition touch (f : Z → Z) (x : Z) (n : avtab_node) : avtab_node :=
  if an_addr n =? x then map_specified f n else n.

Lemma touch_addr f x n : an_addr (touch f x n) = an_addr n.
Proof. unfold touch. by destruct (_ =? _). Qed.

Lemma touch_before f x n m :
  key_before (an_key (touch f x n)) (an_key (touch f x m)) = key_before (an_key n) (an_key m).
Proof. unfold touch. by destruct (an_addr n =? x), (an_addr m =? x). Qed.

Lemma concat_fmap {A B} (g : A → B) (t : list (list A)) :
  concat (fmap (M := list) (fmap (M := list) g) t) = g <$> concat t.
Proof. induction t as [|c t IH]; [done|]. rewrite fmap_cons. cbn [concat]. by rewrite IH, fmap_app. Qed.

Lemma node_at_addr a x n : node_at a x = Some n → an_addr n = x ∧ n ∈ entries a.
Proof.
  unfold node_at. intros ([i m] & (H1 & H2 & _)%list_find_Some & [= <-])%fmap_Some.
  split; [done|]. by apply list_elem_of_lookup_2 in H1.
Qed.

Lemma write_specified_spec f a x :
  switch f → is_Some (node_at a x) →
  ∃ a', write_specified f a x = Some a' ∧ entries a' = touch f x <$> entries a ∧ (awf a → awf a').
Proof.
  intros Hf [n Hn]. unfold write_specified. rewrite Hn. simpl.
  assert (∃ t, av_htable a = Some t) as [t Ht].
  { apply node_at_addr in Hn as [_ Hn]. unfold entries in Hn. destruct (av_htable a); [eauto|].
    by apply elem_of_nil in Hn. }
  rewrite Ht. simpl. eexists. split; [done|]. unfold entries. rewrite Ht. split; [apply concat_fmap|].
  unfold awf. rewrite Ht. simpl. intros (Hk & Hm & Hl & He & Hc).
  split_and!; [done|done|by rewrite length_fmap|by rewrite concat_fmap, length_fmap|].
  intros i c (d & -> & Hd)%list_lookup_fmap_Some. destruct (Hc _ _ Hd) as [Hs Hfa]. split.
  - clear -Hs. induction Hs as [|m c Hs IH Hx]; [constructor|]. rewrite fmap_cons. constructor; [done|].
    apply Forall_fmap. eapply Forall_impl; [done|]. intros y Hy. unfold node_le in *. simpl.
    rewrite <- Hy. apply (touch_before f x).
  - apply Forall_fmap. eapply Forall_impl; [done|]. intros y [Hk1 Hk2]. simpl.
    destruct (an_addr y =? x); [|by split]. split; [by apply (switch_bound f Hf)|].
    rewrite <- Hk2. apply same_key_hash. by apply same_key_eq.
Qed.

Lemma node_at_write f a a' x y :
  entries a' = touch f x <$> entries a →
  node_at a' y = (if y =? x then map_specified f <$> node_at a y else node_at a y).
Proof.
  intros He. unfold node_at. fold (entries a) (entries a'). rewrite He, list_find_fmap.
  rewrite (list_find_ext _ (λ n, an_addr n = y)).
  2:{ intros n. simpl. by rewrite touch_addr. }
  destruct (list_find (λ n, an_addr n = y) (entries a)) as [[i n]|] eqn:Hl; [|by destruct (y =? x)].
  apply list_find_Some in Hl as (_ & Hy & _). simpl. unfold touch. rewrite Hy. by destruct (y =? x).
Qed.

Lemma write_all_spec f a l :
  switch f → Forall (λ x, is_Some (node_at a x)) l →
  ∃ a', write_all f a l = Some a' ∧ (awf a → awf a') ∧
    ∀ y, node_at a' y = if decide (y ∈ l) then map_specified f <$> node_at a y else node_at a y.
Proof.
  intros Hf Hl. revert a Hl. induction l as [|x l IH]; intros a Hl.
  { exists a. split_and!; [done..|]. intros y. rewrite decide_False; [done|]. apply not_elem_of_nil. }
  apply Forall_cons in Hl as [Hx Hl]. cbn [write_all].
  destruct (write_specified_spec f a x Hf Hx) as (a1 & -> & He & Hw). simpl.
  pose proof (node_at_write f a a1 x) as Hn. destruct (IH a1) as (a2 & -> & Hw2 & H2).
  { eapply Forall_impl; [done|]. intros y [n Hy]. rewrite Hn by done. destruct (y =? x); rewrite Hy; eauto. }
  exists a2. split_and!; [done|auto|]. intros y. rewrite H2, Hn by done.
  destruct (Z.eqb_spec y x) as [->|Hne].
  - rewrite (decide_True (P := x ∈ x :: l)) by set_solver. destruct (decide (x ∈ l)); [|done].
    destruct (node_at a x) as [n|]; [|done]. simpl. f_equal. unfold map_specified. simpl.
    by rewrite switch_twice.
  - destruct (decide (y ∈ l)); [rewrite decide_True by set_solver|rewrite decide_False by set_solver]; done.
Qed.

(** ** Switching the rules of a conditional *)

Definition rules (n : cond_node) : list Z := cn_true n ++ cn_false n.

(** The rules of a conditional are enabled as its state says. *)
Definition switched (a : avtab) (n : cond_node) : Prop :=
  (∀ x, x ∈ cn_true n → ∃ r, node_at a x = Some r ∧ enabled r = (0 <? cn_cur_state n)) ∧
  (∀ x, x ∈ cn_false n → ∃ r, node_at a x = Some r ∧ enabled r = (cn_cur_state n =? 0)).

(** [a'] has the rules of [a], and only those of [l] can differ, in being
    enabled. *)
Definition kept (l : list Z) (a a' : avtab) : Prop :=
  (awf a → awf a') ∧
  ∀ y, match node_at a y with
       | Some r => ∃ r', node_at a' y = Some r' ∧ same_rule r r' ∧ (y ∉ l → r' = r)
       | None => node_at a' y = None
       end.

Lemma kept_refl l a : kept l a a.
Proof. split; [done|]. intros y. destruct (node_at a y); [|done]. by eexists. Qed.

Lemma kept_trans l1 l2 a1 a2 a3 : kept l1 a1 a2 → kept l2 a2 a3 → kept (l1 ++ l2) a1 a3.
Proof.
  intros [Hw1 H1] [Hw2 H2]. split; [auto|]. intros y. specialize (H1 y). specialize (H2 y).
  destruct (node_at a1 y) as [r1|]; [|by rewrite H1 in H2].
  destruct H1 as (r2 & Hr2 & Hs2 & Hk2). rewrite Hr2 in H2. destruct H2 as (r3 & Hr3 & Hs3 & Hk3).
  exists r3. split_and!; [done|by etrans|]. intros Hy. rewrite Hk3, Hk2; set_solver.
Qed.

Lemma kept_switched l a a' n : kept l a a' → switched a n → (∀ x, x ∈ rules n → x ∉ l) → switched a' n.
Proof.
  unfold rules. intros [_ Hk] [Ht Hf] Hd.
  split; intros x Hx; [destruct (Ht x Hx) as (r & Hr & He)|destruct (Hf x Hx) as (r & Hr & He)];
    specialize (Hk x); rewrite Hr in Hk; destruct Hk as (r' & Hr' & _ & Hsame);
    exists r'; (split; [done|]); rewrite Hsame; set_solver.
Qed.

Lemma write_all_kept f a l a' :
  switch f → (awf a → awf a') →
  (∀ y, node_at a' y = if decide (y ∈ l) then map_specified f <$> node_at a y else node_at a y) →
  kept l a a'.
Proof.
  intros Hf Hw Hn. split; [done|]. intros y. rewrite Hn.
  destruct (node_at a y) as [r|]; simpl; destruct (decide (y ∈ l)); eauto.
  - eexists. split_and!; [done|by apply map_specified_rule|done].
  - by eexists.
Qed.

Lemma evaluate_cond_node_spec bools a n v :
  cond_evaluate_expr bools (cn_cond n) = Some v → -1 ≤ v ≤ 1 → switched a n → NoDup (rules n) →
  ∃ a', evaluate_cond_node bools a n = Some (set_rules n v (cn_true n) (cn_false n), a') ∧
    kept (rules n) a a' ∧ switched a' (set_rules n v (cn_true n) (cn_false n)).
Proof.
  intros Hv Hb Hsw Hnd. unfold evaluate_cond_node. rewrite Hv. simpl.
  destruct (Z.eqb_spec v (cn_cur_state n)) as [->|Hne]; simpl.
  { exists a. assert (set_rules n (cn_cur_state n) (cn_true n) (cn_false n) = n) as -> by by destruct n.
    split_and!; [done|apply kept_refl|done]. }
  set (ft := if v <=? 0 then disable else enable). set (ff := if nz v then disable else enable).
  assert (switch ft) as Hft by (subst ft; destruct (v <=? 0); auto).
  assert (switch ff) as Hff by (subst ff; destruct (nz v); auto).
  apply NoDup_app in Hnd as (_ & Hdis & _). pose proof Hsw as [Ht Hf].
  destruct (write_all_spec ft a (cn_true n) Hft) as (a1 & E1 & Hw1 & Hn1).
  { apply Forall_forall. intros x Hx. destruct (Ht x Hx) as (r & -> & _). eauto. }
  pose proof (write_all_kept _ _ _ _ Hft Hw1 Hn1) as Hk1.
  destruct (write_all_spec ff a1 (cn_false n) Hff) as (a2 & E2 & Hw2 & Hn2).
  { apply Forall_forall. intros x Hx. destruct (Hf x Hx) as (r & Hr & _). rewrite Hn1, Hr.
    destruct (decide (x ∈ cn_true n)); simpl; eauto. }
  pose proof (write_all_kept _ _ _ _ Hff Hw2 Hn2) as Hk2.
  rewrite E1. simpl. rewrite E2. simpl. exists a2. split_and!; [done|by eapply kept_trans|].
  split; simpl; intros x Hx.
  - destruct (Ht x Hx) as (r & Hr & _). exists (map_specified ft r).
    rewrite Hn2, decide_False, Hn1, decide_True, Hr by (done || by apply Hdis). split; [done|].
    subst ft. destruct (Z.leb_spec v 0), (Z.ltb_spec 0 v); try lia; [apply disable_enabled|apply enable_enabled].
  - destruct (Hf x Hx) as (r & Hr & _). exists (map_specified ff r).
    rewrite Hn2, decide_True, Hn1, decide_False, Hr; [|set_solver|done]. split; [done|].
    subst ff. unfold nz. destruct (Z.eqb_spec v 0); simpl; [apply enable_enabled|apply disable_enabled].
Qed.

(** A conditional after its evaluation to [v]. *)
Definition evaluated (bools : bools_t) (a : avtab) (n n' : cond_node) : Prop :=
  ∃ v, cond_evaluate_expr bools (cn_cond n) = Some v ∧
    n' = set_rules n v (cn_true n) (cn_false n) ∧ switched a n'.

Lemma evaluate_list_spec bools l a :
  Forall (λ n, Forall (leaf_ok bools) (cn_cond n) ∧ switched a n) l →
  NoDup (concat (rules <$> l)) →
  ∃ l' a', evaluate_list bools a l = Some (l', a') ∧ kept (concat (rules <$> l)) a a' ∧
    Forall2 (evaluated bools a') l l'.
Proof.
  revert a. induction l as [|n l IH]; intros a Hl Hnd.
  { exists [], a. split_and!; [done|apply kept_refl|constructor]. }
  apply Forall_cons in Hl as [[Hleaf Hsw] Hl]. rewrite fmap_cons in Hnd |- *. cbn [concat] in Hnd |- *.
  apply NoDup_app in Hnd as (Hnd1 & Hdis & Hnd2).
  pose proof (cond_evaluate_spec bools (cn_cond n) Hleaf) as Hv.
  set (v := match _ with Some b => b2z b | None => -1 end) in Hv.
  assert (-1 ≤ v ≤ 1) as Hb by (subst v; by repeat case_match; simpl; unfold b2z; repeat case_match; lia).
  destruct (evaluate_cond_node_spec bools a n v Hv Hb Hsw Hnd1) as (a1 & E1 & Hk1 & Hsw1).
  destruct (IH a1) as (l' & a2 & E2 & Hk2 & Hev); [|done|].
  { apply Forall_forall. intros m Hm. rewrite Forall_forall in Hl. destruct (Hl m Hm) as [? Hm'].
    split; [done|]. eapply kept_switched; [done..|]. intros x Hx Hx'. apply (Hdis x Hx').
    apply elem_of_concat. apply list_elem_of_lookup in Hm as [i Hi]. exists i, (rules m).
    by rewrite list_lookup_fmap, Hi. }
  cbn [evaluate_list]. rewrite E1. simpl. rewrite E2. simpl.
  eexists _, a2. split_and!; [done|by eapply kept_trans|]. constructor; [|done].
  exists v. split_and!; [done..|]. eapply kept_switched; [done..|]. intros x Hx. apply Hdis. apply Hx.
Qed.

(** ** Ordering *)

Definition is_type_rule (a : avtab) (x : Z) : Prop :=
  ∃ n, node_at a x = Some n ∧ nz (Z.land (ak_specified (an_key n)) AVTAB_TYPE) = true.

#[global] Instance is_type_rule_dec a x : Decision (is_type_rule a x).
Proof.
  refine (cast_if (decide (match node_at a x with
    | Some n => nz (Z.land (ak_specified (an_key n)) AVTAB_TYPE)
    | None => false
    end = true))); unfold is_type_rule in *; destruct (node_at a x); naive_solver.
Defined.

Lemma cond_optimize_loop_spec a types others cur :
  Forall (λ x, is_Some (node_at a x)) cur → Forall (is_type_rule a) types →
  Forall (λ x, ¬ is_type_rule a x) others →
  cond_optimize_loop a (types ++ others) cur =
  Some (reverse (filter (is_type_rule a) cur) ++ types ++ others ++
        filter (λ x, ¬ is_type_rule a x) cur).
Proof.
  intros Hc. revert types others. induction Hc as [|x cur [n Hn] Hc IH]; intros types others Ht Ho.
  { simpl. by rewrite app_nil_r. }
  cbn [cond_optimize_loop]. rewrite Hn. simpl.
  destruct (nz (Z.land (ak_specified (an_key n)) AVTAB_TYPE)) eqn:Ex.
  - assert (is_type_rule a x) as Hx by by exists n.
    rewrite filter_cons_True, (filter_cons_False (λ x, ¬ is_type_rule a x)) by (done || by intros []).
    rewrite reverse_cons. destruct (types ++ others) as [|y r] eqn:E.
    + apply app_eq_nil in E as [-> ->]. simpl. change ([x] : list Z) with (([x] : list Z) ++ []).
      rewrite IH by (done || by constructor). by rewrite app_nil_r, <- app_assoc.
    + rewrite <- E. change (x :: types ++ others) with ((x :: types) ++ others). simpl.
      change (x :: types ++ others) with ((x :: types) ++ others).
      rewrite IH by (done || by constructor). by rewrite <- !app_assoc.
  - assert (¬ is_type_rule a x) as Hx.
    { intros (m & Hm & Hm'). rewrite Hn in Hm. injection Hm as <-. congruence. }
    rewrite filter_cons_False, (filter_cons_True (λ x, ¬ is_type_rule a x)) by done. simpl.
    rewrite <- app_assoc, IH; [|done|apply Forall_app; split; [done|by constructor]].
    by rewrite <- !app_assoc.
Qed.
