(* ===== verification/ConditionalNorm.v ===== *)
(** * Normalisation of conditionals

    [cond_normalize_expr] tabulates the value of an expression over all
    assignments of its booleans, by writing each assignment into the policy and
    evaluating.  This file shows that the table is right and that the booleans
    get their values back. *)

From S2P Require Import Prelude PolicyFile Hashtab Avtab AvtabFacts Mls Policydb Rpn Conditional.
From S2P Require Import ConditionalFacts.

(** ** The boolean array *)

Definition idx (b : Z) : nat := Z.to_nat (u32 (b - 1)).

Definition state_at (bools : bools_t) (i : nat) : option Z := d ← bools !! i; cb_state <$> d.

Definition erase (bools : bools_t) : bools_t :=
  fmap (M := list) (fmap (M := option) (λ d, BoolDatum (cb_value d) 0 (cb_flags d))) bools.

Lemma bool_state_at bools b : bool_state bools b = state_at bools (idx b).
Proof.
  unfold bool_state, state_at, idx, aget. by rewrite (proj2 (Z.ltb_ge _ _)) by apply u32_nonneg.
Qed.

Lemma idx_inj b c : 0 ≤ b < 2 ^ 32 → 0 ≤ c < 2 ^ 32 → idx b = idx c → b = c.
Proof.
  unfold idx, u32. intros Hb Hc He. apply Z2Nat.inj in He; [|apply Z.mod_pos_bound; lia..].
  assert ((b - 1 + 1) mod 2 ^ 32 = (c - 1 + 1) mod 2 ^ 32) as H.
  { rewrite <- (Zplus_mod_idemp_l (b - 1)), <- (Zplus_mod_idemp_l (c - 1)). by rewrite He. }
  rewrite !Z.sub_add in H. by rewrite !Z.mod_small in H.
Qed.

(** The states and the rest determine the array. *)
Lemma bools_ext (b1 b2 : bools_t) :
  erase b1 = erase b2 → (∀ i, state_at b1 i = state_at b2 i) → b1 = b2.
Proof.
  intros He Hs. apply list_eq. intros i. specialize (Hs i). unfold state_at in Hs.
  apply (f_equal (.!! i)) in He. unfold erase in He. rewrite !list_lookup_fmap in He.
  destruct (b1 !! i) as [[[? ? ?]|]|], (b2 !! i) as [[[? ? ?]|]|]; simpl in *; congruence.
Qed.

Lemma write_state_spec bools b v :
  is_Some (bool_state bools b) →
  ∃ bools', write_state bools b v = Some bools' ∧ erase bools' = erase bools ∧
    ∀ i, state_at bools' i = if decide (i = idx b) then Some v else state_at bools i.
Proof.
  rewrite bool_state_at. unfold state_at, write_state, aget. intros [w Hw].
  rewrite (proj2 (Z.ltb_ge _ _)) by apply u32_nonneg. fold (idx b).
  destruct (bools !! idx b) as [[d|]|] eqn:Hi; try done. simpl. pose proof (lookup_lt_Some _ _ _ Hi) as Hl.
  unfold aset. rewrite (proj2 (Z.leb_le _ _)) by apply u32_nonneg.
  rewrite (proj2 (Z.ltb_lt _ _)) by (unfold idx in Hl; pose proof (u32_nonneg (b - 1)); lia).
  fold (idx b). simpl. eexists. split; [done|]. split.
  - unfold erase. rewrite list_fmap_insert. simpl. apply list_insert_id. by rewrite list_lookup_fmap, Hi.
  - intros i. destruct (decide (i = idx b)) as [->|Hne].
    + by rewrite list_lookup_insert_eq.
    + by rewrite list_lookup_insert_ne.
Qed.

(** Writing one value per boolean of a list of distinct booleans. *)
Definition states_set (bools bools' : bools_t) (ids : list Z) (vals : list Z) : Prop :=
  erase bools' = erase bools ∧
  (∀ k b v, ids !! k = Some b → vals !! k = Some v → bool_state bools' b = Some v) ∧
  ∀ i, i ∉ idx <$> ids → state_at bools' i = state_at bools i.

Lemma states_set_cons bools bools1 bools2 b v ids vals :
  NoDup (idx <$> b :: ids) → erase bools1 = erase bools →
  (∀ i, state_at bools1 i = if decide (i = idx b) then Some v else state_at bools i) →
  states_set bools1 bools2 ids vals → states_set bools bools2 (b :: ids) (v :: vals).
Proof.
  rewrite fmap_cons. intros [Hnb Hnd]%NoDup_cons He1 H1 (He2 & Hv & Ho). split_and!; [congruence| |].
  - intros [|k] c w Hc Hw; simpl in *; [|by eapply Hv].
    injection Hc as <-. injection Hw as <-. rewrite bool_state_at, Ho, H1 by done. by rewrite decide_True.
  - rewrite fmap_cons. intros i Hi. rewrite Ho, H1 by set_solver. rewrite decide_False; [done|set_solver].
Qed.

Definition test_bits (n : nat) (test j : Z) : list Z :=
  (λ k, if Z.testbit test (j + Z.of_nat k) then 1 else 0) <$> seq 0 n.

Lemma set_states_spec ids bools test j :
  0 ≤ j → NoDup (idx <$> ids) → Forall (λ b, is_Some (bool_state bools b)) ids →
  ∃ bools', set_states bools ids test j = Some bools' ∧
    states_set bools bools' ids (test_bits (length ids) test j).
Proof.
  revert bools j. induction ids as [|b ids IH]; intros bools j Hj Hnd Hd.
  { exists bools. split; [done|]. by split_and!. }
  apply Forall_cons in Hd as [Hb Hd]. cbn [set_states].
  destruct (write_state_spec bools b (if nz (Z.land test (Z.shiftl 1 j)) then 1 else 0) Hb)
    as (bools1 & -> & He1 & H1). simpl.
  pose proof Hnd as [Hnb Hnd']%NoDup_cons.
  destruct (IH bools1 (j + 1)) as (bools2 & -> & H2); [lia|done| |].
  { eapply Forall_impl; [done|]. intros c Hc. rewrite bool_state_at, H1. case_decide; [eauto|].
    by rewrite <- bool_state_at. }
  exists bools2. split; [done|]. unfold test_bits. cbn [length seq]. rewrite fmap_cons.
  eapply states_set_cons; [done..| |].
  - intros i. rewrite H1. unfold nz. rewrite land_bit by lia.
    rewrite negb_involutive. by replace (j + Z.of_nat 0) with j by lia.
  - rewrite <- fmap_S_seq, <- list_fmap_compose. unfold test_bits in H2.
    erewrite list_fmap_ext; [exact H2|]. intros i k _. simpl.
    by replace (j + Z.of_nat (S k)) with (j + 1 + Z.of_nat k) by lia.
Qed.

Lemma restore_states_spec ids orig bools :
  length orig = length ids → NoDup (idx <$> ids) → Forall (λ b, is_Some (bool_state bools b)) ids →
  ∃ bools', restore_states bools ids orig = Some bools' ∧ states_set bools bools' ids orig.
Proof.
  revert orig bools. induction ids as [|b ids IH]; intros [|v orig] bools Hl Hnd Hd; try done.
  { exists bools. split; [done|]. by split_and!. }
  apply Forall_cons in Hd as [Hb Hd]. cbn [restore_states].
  destruct (write_state_spec bools b v Hb) as (bools1 & -> & He1 & H1). simpl.
  pose proof Hnd as [Hnb Hnd']%NoDup_cons.
  destruct (IH orig bools1) as (bools2 & -> & H2); [simpl in Hl; lia|done| |].
  { eapply Forall_impl; [done|]. intros c Hc. rewrite bool_state_at, H1. case_decide; [eauto|].
    by rewrite <- bool_state_at. }
  exists bools2. split; [done|]. by eapply states_set_cons.
Qed.

Lemma save_states_spec bools ids :
  Forall (λ b, is_Some (bool_state bools b)) ids →
  ∃ orig, save_states bools ids = Some orig ∧ length orig = length ids ∧
    ∀ k b v, ids !! k = Some b → orig !! k = Some v → bool_state bools b = Some v.
Proof.
  induction 1 as [|b ids [w Hw] _ (orig & IH & Hl & Hv)]; [by exists []|].
  exists (w :: orig). simpl. rewrite Hw, IH. simpl. split_and!; [done|by rewrite Hl|].
  intros [|k] c v Hc Hk; simpl in *; [congruence|by eapply Hv].
Qed.

(** ** Collecting the booleans *)

Lemma bool_scan_spec todo i target bools :
  (i + todo ≤ length bools)%nat →
  ∃ j, bool_scan todo (Z.of_nat i) target bools = Some (Z.of_nat j) ∧ (i ≤ j ≤ i + todo)%nat ∧
    ((j < i + todo)%nat ↔ target ∈ take todo (drop i bools)).
Proof.
  revert i. induction todo as [|todo IH]; intros i Hl.
  { exists i. simpl. split_and!; [done|lia..|]. split; [lia|by intros ?%elem_of_nil]. }
  destruct (lookup_lt_is_Some_2 bools i) as [b Hb]; [lia|]. cbn [bool_scan].
  unfold aget. rewrite (proj2 (Z.ltb_ge _ _)), Nat2Z.id, Hb by lia. simpl.
  rewrite (drop_S _ _ _ Hb). cbn [take].
  destruct (Z.eqb_spec target b) as [->|Hne]; simpl.
  - exists i. split_and!; [done|lia..|]. split; [set_solver|lia].
  - replace (Z.of_nat i + 1) with (Z.of_nat (S i)) by lia. destruct (IH (S i)) as (j & -> & Hj & Hin); [lia|].
    exists j. split_and!; [done|lia..|]. rewrite elem_of_cons, <- Hin. split; [lia|]. intros [->|?]; [done|lia].
Qed.

Definition maxbools : nat := Z.to_nat COND_MAX_BOOLS.

Lemma bool_present_spec target ids (n : nat) :
  length ids = maxbools → (n ≤ maxbools)%nat →
  bool_present target ids (Z.of_nat n) = Some (bool_decide (target ∈ take n ids)).
Proof.
  intros Hl Hn. unfold bool_present. rewrite Z.gtb_ltb, (proj2 (Z.ltb_ge _ _)) by (unfold maxbools, COND_MAX_BOOLS in *; lia).
  destruct (bool_scan_spec n 0 target ids) as (j & Hj & Hb & Hin); [lia|]. rewrite Nat2Z.id.
  change 0 with (Z.of_nat 0) at 1. rewrite Hj. simpl. rewrite drop_0 in Hin. f_equal.
  destruct (Z.eqb_spec (Z.of_nat j) (Z.of_nat n)); simpl; symmetry.
  - apply bool_decide_eq_false. intros ?%Hin. lia.
  - apply bool_decide_eq_true. apply Hin. lia.
Qed.

(** The booleans of an expression, in order. *)
Definition leaf_of (e : cond_expr) : list Z := if ce_type e =? COND_BOOL then [ce_bool e] else [].
Definition leaves (l : list cond_expr) : list Z := concat (leaf_of <$> l).

Definition collected (ids : list Z) (n : nat) (bs : list Z) (ids' : list Z) (n' : nat) : Prop :=
  length ids' = maxbools ∧ (n ≤ n')%nat ∧
  ((n' ≤ maxbools)%nat → NoDup (take n' ids') ∧ ∀ b, b ∈ take n' ids' ↔ b ∈ take n ids ∨ b ∈ bs).

Lemma take_insert_snoc {A} (l : list A) n x : (n < length l)%nat → take (S n) (<[n := x]> l) = take n l ++ [x].
Proof.
  intros Hn. rewrite (take_S_r _ _ x) by by apply list_lookup_insert_eq. by rewrite take_insert_ge.
Qed.

Lemma collect_bools_spec expr ids (n : nat) :
  length ids = maxbools → ((n ≤ maxbools)%nat → NoDup (take n ids)) →
  ∃ ids' n', collect_bools expr ids (Z.of_nat n) = Some (ids', Z.of_nat n') ∧
    collected ids n (leaves expr) ids' n'.
Proof.
  revert ids n. induction expr as [|e expr IH]; intros ids n Hl Hnd.
  { exists ids, n. split; [done|]. split_and!; [done..|]. intros Hn. split; [auto|]. set_solver. }
  cbn [collect_bools]. unfold leaves. rewrite fmap_cons. cbn [concat]. fold (leaves expr). unfold leaf_of.
  destruct (ce_type e =? COND_BOOL); [|by apply IH].
  destruct (decide (n ≤ maxbools)%nat) as [Hn|Hn]; cycle 1.
  { unfold bool_present. rewrite Z.gtb_ltb, (proj2 (Z.ltb_lt COND_MAX_BOOLS (Z.of_nat n))) by (unfold maxbools, COND_MAX_BOOLS in *; lia). simpl.
    rewrite (proj2 (Z.ltb_ge (Z.of_nat n) COND_MAX_BOOLS)) by (unfold maxbools, COND_MAX_BOOLS in *; lia).
    replace (Z.of_nat n + 1) with (Z.of_nat (S n)) by lia.
    destruct (IH ids (S n)) as (ids' & n' & -> & Hl' & Hle & Hc); [done|lia|].
    exists ids', n'. split; [done|]. split_and!; [done|lia|]. lia. }
  specialize (Hnd Hn). rewrite bool_present_spec by done. simpl.
  case_bool_decide as Hin; simpl.
  { destruct (IH ids n) as (ids' & n' & -> & Hl' & Hle & Hc); [done|done|].
    exists ids', n'. split; [done|]. split_and!; [done|lia|]. intros Hn'. destruct (Hc Hn') as [? Hb].
    split; [done|]. intros b. rewrite Hb. set_solver. }
  replace (Z.of_nat n + 1) with (Z.of_nat (S n)) by lia.
  destruct (Z.ltb_spec (Z.of_nat n) COND_MAX_BOOLS) as [Hlt|Hge].
  - rewrite aset_ok by (rewrite Hl; unfold maxbools, COND_MAX_BOOLS in *; lia). simpl.
    assert (n < length ids)%nat as Hn' by (rewrite Hl; unfold maxbools, COND_MAX_BOOLS in *; lia).
    destruct (IH (<[n := ce_bool e]> ids) (S n)) as (ids' & n' & -> & Hl' & Hle & Hc).
    { by rewrite length_insert. }
    { intros _. rewrite take_insert_snoc by done. apply NoDup_app. split_and!; [done| |apply NoDup_singleton].
      intros x Hx ->%list_elem_of_singleton. done. }
    exists ids', n'. split; [done|]. split_and!; [done|lia|]. intros Hn2. destruct (Hc Hn2) as [? Hb].
    split; [done|]. intros b. rewrite Hb, take_insert_snoc by done. set_solver.
  - destruct (IH ids (S n)) as (ids' & n' & -> & Hl' & Hle & Hc); [done|unfold maxbools, COND_MAX_BOOLS in *; lia|].
    exists ids', n'. split; [done|]. split_and!; [done|lia|]. unfold maxbools, COND_MAX_BOOLS in *. lia.
Qed.

(** ** Values depend only on the booleans of the expression *)

Lemma leaves_elem e l : e ∈ l → ce_type e = COND_BOOL → ce_bool e ∈ leaves l.
Proof.
  intros Hin Ht. unfold leaves. apply list_elem_of_lookup in Hin as [i Hi]. apply elem_of_concat.
  exists i, (leaf_of e). rewrite list_lookup_fmap, Hi. split; [done|].
  unfold leaf_of. rewrite Ht. set_solver.
Qed.

Lemma leaves_ok bools l : Forall (bool_ok bools) (leaves l) → Forall (leaf_ok bools) l.
Proof.
  rewrite !Forall_forall. intros Hl e He Ht. apply Hl. by apply leaves_elem.
Qed.

Lemma token_run_ext (env1 env2 : Z → bool) n ts l :
  (∀ b, TLeaf b ∈ ts → env1 b = env2 b) → token_run env1 n ts l = token_run env2 n ts l.
Proof.
  revert l. induction ts as [|t ts IH]; intros l He; [done|]. cbn [token_run].
  assert (token_step env1 n t l = token_step env2 n t l) as ->.
  { destruct t as [b| |]; try done. simpl. by rewrite (He b) by set_solver. }
  destruct (token_step env2 n t l); simpl; [|done]. apply IH. set_solver.
Qed.

Lemma decode_leaf l ts b : mapM decode l = Some ts → TLeaf b ∈ ts → b ∈ leaves l.
Proof.
  intros Hm Hin. apply mapM_Some in Hm. apply list_elem_of_lookup in Hin as [i Hi].
  destruct (Forall2_lookup_r _ _ _ _ _ Hm Hi) as (e & He & Hd).
  assert (ce_type e = COND_BOOL ∧ ce_bool e = b) as [Ht <-].
  { unfold decode in Hd. destruct (Z.eqb_spec (ce_type e) COND_BOOL); [split; congruence|].
    repeat case_match; congruence. }
  apply leaves_elem; [|done]. by apply list_elem_of_lookup_2 in He.
Qed.

Lemma evaluate_ext b1 b2 expr :
  Forall (bool_ok b1) (leaves expr) → Forall (bool_ok b2) (leaves expr) →
  (∀ b, b ∈ leaves expr → bool_state b1 b = bool_state b2 b) →
  cond_evaluate_expr b1 expr = cond_evaluate_expr b2 expr.
Proof.
  intros H1 H2 He. rewrite !cond_evaluate_spec by by apply leaves_ok.
  destruct (mapM decode expr) as [ts|] eqn:Hm; [|done]. simpl. unfold token_value.
  rewrite (token_run_ext (bool_env b1) (bool_env b2)); [done|]. intros b Hb.
  unfold bool_env. by rewrite He by by eapply decode_leaf.
Qed.

(** ** The table of values *)

(** The number of an assignment, and the assignment of a number. *)
Fixpoint assignment (st : bools_t) (ids : list Z) : Z :=
  match ids with
  | [] => 0
  | b :: ids => b2z (bool_env st b) + 2 * assignment st ids
  end.

Definition env_of (ids : list Z) (t : Z) (b : Z) : bool :=
  match list_find (b =.) ids with Some (k, _) => Z.testbit t (Z.of_nat k) | None => false end.

Lemma env_of_lookup ids t k b : NoDup ids → ids !! k = Some b → env_of ids t b = Z.testbit t (Z.of_nat k).
Proof.
  intros Hnd Hk. unfold env_of. destruct (list_find (b =.) ids) as [[j c]|] eqn:Hf.
  - apply list_find_Some in Hf as (Hj & <- & _). f_equal. f_equal. by eapply NoDup_lookup.
  - apply list_find_None in Hf. rewrite Forall_forall in Hf. exfalso.
    apply (Hf b); [by apply list_elem_of_lookup_2 in Hk|done].
Qed.

Lemma assignment_bound st ids : 0 ≤ assignment st ids < 2 ^ Z.of_nat (length ids).
Proof.
  induction ids as [|b ids IH]; [simpl; lia|]. cbn [assignment length].
  rewrite Nat2Z.inj_succ, Z.pow_succ_r by lia. unfold b2z. destruct (bool_env st b); lia.
Qed.

Lemma assignment_bit st ids k b :
  ids !! k = Some b → Z.testbit (assignment st ids) (Z.of_nat k) = bool_env st b.
Proof.
  revert k. induction ids as [|c ids IH]; intros [|k] Hk; [done..| |]; cbn [assignment].
  - injection Hk as ->. destruct (bool_env st b); simpl b2z.
    + rewrite Z.add_comm. apply Z.testbit_odd_0.
    + apply Z.testbit_even_0.
  - rewrite Nat2Z.inj_succ. destruct (bool_env st c); simpl b2z.
    + rewrite Z.add_comm, Z.testbit_odd_succ by lia. by apply IH.
    + rewrite Z.add_0_l, Z.testbit_even_succ by lia. by apply IH.
Qed.

Lemma precompute_spec todo test bools ids expr pre (w : Z → bool) :
  0 ≤ test → NoDup (idx <$> ids) → Forall (λ b, is_Some (bool_state bools b)) ids →
  (∀ t bs, (∀ k b, ids !! k = Some b → bool_state bs b = Some (if Z.testbit t (Z.of_nat k) then 1 else 0)) →
     cond_evaluate_expr bs expr = Some (b2z (w t))) →
  ∃ bools' pre', precompute todo test bools ids expr pre = Some (0, bools', pre') ∧
    erase bools' = erase bools ∧ Forall (λ b, is_Some (bool_state bools' b)) ids ∧
    (∀ i, i ∉ idx <$> ids → state_at bools' i = state_at bools i) ∧
    ∀ i, 0 ≤ i → Z.testbit pre' i =
      Z.testbit pre i || (test <=? i) && (i <? test + Z.of_nat todo) && w i.
Proof.
  intros Ht Hnd Hd Hw. revert test bools pre Ht Hd. induction todo as [|todo IH]; intros test bools pre Ht Hd.
  { exists bools, pre. split_and!; [done..|]. intros i Hi.
    destruct (Z.leb_spec test i), (Z.ltb_spec i (test + Z.of_nat 0)); try lia; by rewrite !orb_false_r. }
  destruct (set_states_spec ids bools test 0) as (bools1 & E1 & He1 & Hv1 & Ho1); [lia|done|done|].
  assert (∀ k b, ids !! k = Some b → bool_state bools1 b = Some (if Z.testbit test (Z.of_nat k) then 1 else 0))
    as Hv.
  { intros k b Hk. eapply Hv1; [done|]. unfold test_bits. rewrite list_lookup_fmap, lookup_seq_lt; [done|].
    by eapply lookup_lt_Some. }
  cbn [precompute]. rewrite E1. simpl. rewrite (Hw test bools1 Hv). simpl.
  rewrite (proj2 (Z.eqb_neq _ _)) by (unfold b2z; destruct (w test); lia).
  destruct (IH (test + 1) bools1 (if nz (b2z (w test)) then Z.lor pre (Z.shiftl 1 test) else pre))
    as (bools2 & pre2 & E2 & He2 & Hd2 & Ho2 & Hb2); [lia| |].
  { apply Forall_forall. intros b [k Hk]%list_elem_of_lookup. rewrite (Hv k b Hk). eauto. }
  exists bools2, pre2. split_and!; [done|congruence|done|intros; by rewrite Ho2, Ho1|].
  intros i Hi. rewrite Hb2 by done.
  assert (Z.testbit (if nz (b2z (w test)) then Z.lor pre (Z.shiftl 1 test) else pre) i =
          Z.testbit pre i || (i =? test) && w test) as ->.
  { destruct (w test); simpl; [rewrite Z.lor_spec, testbit_shiftl_1 by lia|]; by rewrite ?andb_true_r, ?andb_false_r, ?orb_false_r. }
  replace (test + Z.of_nat (S todo)) with (test + 1 + Z.of_nat todo) by lia.
  destruct (decide (i = test)) as [->|Hne].
  - rewrite Z.eqb_refl, Z.leb_refl, (proj2 (Z.leb_gt _ _)), (proj2 (Z.ltb_lt _ _)) by lia.
    by rewrite orb_false_r.
  - rewrite (proj2 (Z.eqb_neq _ _)) by done. rewrite orb_false_r.
    replace (test + 1 <=? i) with (test <=? i); [done|].
    destruct (Z.leb_spec test i), (Z.leb_spec (test + 1) i); done || lia.
Qed.

(** The expression without an outer negation. *)
Definition strip (e : bexpr Z) : bexpr Z := match e with BNot e => e | _ => e end.
Definition negated (e : bexpr Z) : bool := match e with BNot _ => true | _ => false end.

Definition encoded (e : bexpr Z) : list cond_expr := encode <$> rpn e.

Lemma rpn_nonempty {A} (e : bexpr A) : rpn e ≠ [].
Proof. destruct e; simpl; [done|..]; intros H; apply app_eq_nil in H as [_ H]; try done.
  by apply app_eq_nil in H as [_ H].
Qed.

Lemma removelast_snoc {A} (l : list A) x : removelast (l ++ [x]) = l.
Proof. rewrite removelast_app by done. apply app_nil_r. Qed.

Lemma normalize_not_spec cn e :
  cn_cond cn = encoded e →
  normalize_not cn =
  Some (0, CondNode (cn_cur_state cn) (encoded (strip e))
             (if negated e then cn_false cn else cn_true cn)
             (if negated e then cn_true cn else cn_false cn)
             (cn_nbools cn) (cn_bool_ids cn) (cn_pre_comp cn) (cn_flags cn)).
Proof.
  intros He. unfold normalize_not. rewrite He.
  assert (∀ l t, encode <$> l ++ [t] = (encode <$> l) ++ [encode t]) as Hsn
    by (intros; by rewrite fmap_app).
  destruct e as [b|e|o e1 e2]; unfold encoded in *; cbn [rpn strip negated] in *.
  - destruct cn. simpl in *. by subst.
  - rewrite Hsn, last_snoc, removelast_snoc. cbn.
    destruct (encode <$> rpn e) as [|x l] eqn:E; [|done].
    apply fmap_nil_inv in E. by destruct (rpn_nonempty e).
  - rewrite app_assoc, Hsn in He |- *. rewrite last_snoc. cbn [mbind option_bind].
    assert (ce_type (encode (TBin o)) =? COND_NOT = false) as -> by by destruct o.
    destruct cn. simpl in *. by subst.
Qed.

Lemma evaluate_encoded bools e :
  (bdepth e ≤ maxdepth)%nat → Forall (bool_ok bools) (leaves (encoded e)) →
  cond_evaluate_expr bools (encoded e) = Some (b2z (beval (bool_env bools) e)).
Proof.
  intros Hd Hok. rewrite cond_evaluate_spec by by apply leaves_ok. unfold encoded.
  rewrite decode_encode_all. simpl. rewrite rpn_value, (proj2 (Nat.leb_le _ _)) by done. done.
Qed.

Lemma encoded_leaf b e : TLeaf b ∈ rpn e → b ∈ leaves (encoded e).
Proof. intros Hb. eapply decode_leaf; [apply decode_encode_all|done]. Qed.

Lemma beval_ext (env1 env2 : Z → bool) e :
  (∀ b, TLeaf b ∈ rpn e → env1 b = env2 b) → beval env1 e = beval env2 e.
Proof.
  induction e as [b|e IH|o e1 IH1 e2 IH2]; simpl; intros He.
  - apply He. set_solver.
  - f_equal. apply IH. set_solver.
  - rewrite IH1, IH2; set_solver.
Qed.

(** ** The whole function *)

Lemma strip_leaves e b : b ∈ leaves (encoded (strip e)) → b ∈ leaves (encoded e).
Proof.
  destruct e as [|e|]; [done| |done]. cbn [strip]. unfold encoded. cbn [rpn]. rewrite fmap_app.
  unfold leaves. rewrite fmap_app, concat_app. set_solver.
Qed.

Lemma strip_depth (e : bexpr Z) : bdepth (strip e) = bdepth e.
Proof. by destruct e. Qed.

(** The result for an expression of booleans [bs]: the table, when there are few
    enough of them. *)
Definition tabulated (e : bexpr Z) (cn : cond_node) : Prop :=
  cn_cond cn = encoded (strip e) ∧ 0 ≤ cn_nbools cn ∧ length (cn_bool_ids cn) = maxbools ∧
  (cn_nbools cn ≤ COND_MAX_BOOLS →
   let ids := take (Z.to_nat (cn_nbools cn)) (cn_bool_ids cn) in
   NoDup ids ∧ (∀ b, b ∈ ids ↔ b ∈ leaves (encoded (strip e))) ∧
   Z.of_nat (length ids) = cn_nbools cn ∧ 0 ≤ cn_pre_comp cn ∧
   ∀ i, 0 ≤ i → Z.testbit (cn_pre_comp cn) i =
     (i <? 2 ^ cn_nbools cn) && beval (env_of ids i) (strip e)).

Lemma env_of_value ids e st :
  NoDup ids → (∀ b, b ∈ leaves (encoded e) → b ∈ ids) →
  beval (env_of ids (assignment st ids)) e = beval (bool_env st) e.
Proof.
  intros Hnd Hin. apply beval_ext. intros b Hb%encoded_leaf%Hin. apply list_elem_of_lookup in Hb as [k Hk].
  by rewrite (env_of_lookup ids _ k b), (assignment_bit st ids k b).
Qed.

Lemma precompute_bound todo test bools ids expr pre rc bools' pre' :
  0 ≤ test → 0 ≤ pre → precompute todo test bools ids expr pre = Some (rc, bools', pre') → 0 ≤ pre'.
Proof.
  revert test bools pre. induction todo as [|todo IH]; intros test bools pre Ht Hp; cbn [precompute].
  { by intros [= _ _ <-]. }
  destruct (set_states bools ids test 0) as [b1|]; [|done]. simpl.
  destruct (cond_evaluate_expr b1 expr) as [k|]; [|done]. simpl.
  destruct (k =? -1); [by intros [= _ _ <-]|]. apply IH; [lia|].
  destruct (nz k); [|done]. apply Z.lor_nonneg. split; [done|]. by apply Z.shiftl_nonneg.
Qed.

Section normalize.
Context (bools : bools_t) (cn : cond_node) (e : bexpr Z).
Context (Hcn : cn_cond cn = encoded e) (Hdepth : (bdepth e ≤ maxdepth)%nat).
Context (Hok : Forall (bool_ok bools) (leaves (encoded e))).
Context (Hrange : Forall (λ b, 0 ≤ b < 2 ^ 32) (leaves (encoded e))).

Lemma normalize_precompute ids :
  NoDup ids → (∀ b, b ∈ ids ↔ b ∈ leaves (encoded (strip e))) →
  ∃ orig bools1 pre, save_states bools ids = Some orig ∧
    precompute (Z.to_nat (2 ^ Z.of_nat (length ids))) 0 bools ids (encoded (strip e)) 0 =
      Some (0, bools1, pre) ∧
    restore_states bools1 ids orig = Some bools ∧
    0 ≤ pre ∧ ∀ i, 0 ≤ i → Z.testbit pre i =
      (i <? 2 ^ Z.of_nat (length ids)) && beval (env_of ids i) (strip e).
Proof using Hdepth Hok Hrange.
  intros Hnd Hin. rewrite Forall_forall in Hok, Hrange.
  assert (∀ b, b ∈ ids → b ∈ leaves (encoded e)) as Hsub by (intros b Hb; by apply strip_leaves, Hin).
  assert (Forall (λ b, is_Some (bool_state bools b)) ids) as Hd.
  { apply Forall_forall. intros b Hb. destruct (Hok b (Hsub b Hb)) as [v ->]. eauto. }
  assert (NoDup (idx <$> ids)) as Hni.
  { apply NoDup_fmap_2_strong; [|done]. intros x y Hx Hy. apply idx_inj; apply Hrange, Hsub; done. }
  destruct (save_states_spec bools ids Hd) as (orig & Ho & Hlo & Hvo).
  destruct (precompute_spec (Z.to_nat (2 ^ Z.of_nat (length ids))) 0 bools ids (encoded (strip e)) 0
              (λ t, beval (env_of ids t) (strip e)))
    as (bools1 & pre & Hp & He1 & Hd1 & Ho1 & Hb1); [lia|done|done| |].
  { intros t bs Hbs. assert (Forall (bool_ok bs) (leaves (encoded (strip e)))) as Hbok.
    { apply Forall_forall. intros b [k Hk]%Hin%list_elem_of_lookup. exists (Z.testbit t (Z.of_nat k)).
      rewrite (Hbs k b Hk). by destruct (Z.testbit _ _). }
    rewrite evaluate_encoded; [|by rewrite strip_depth|done]. do 2 f_equal. apply beval_ext.
    intros b [k Hk]%encoded_leaf%Hin%list_elem_of_lookup. rewrite (env_of_lookup ids t k b) by done.
    unfold bool_env. rewrite (Hbs k b Hk). by destruct (Z.testbit _ _). }
  destruct (restore_states_spec ids orig bools1) as (bools2 & Hr & He2 & Hv2 & Ho2); [done..|].
  exists orig, bools1, pre. split_and!; [done|done| |by eapply precompute_bound|].
  - rewrite Hr. f_equal. apply bools_ext; [congruence|]. intros i.
    destruct (decide (i ∈ idx <$> ids)) as [(b & -> & [k Hk]%list_elem_of_lookup)%list_elem_of_fmap|Hi].
    + rewrite <- !bool_state_at. destruct (lookup_lt_is_Some_2 orig k) as [v Hv].
      { rewrite Hlo. by eapply lookup_lt_Some. }
      rewrite (Hv2 k b v Hk Hv). by rewrite (Hvo k b v Hk Hv).
    + rewrite Ho2, Ho1 by done. done.
  - intros i Hi. rewrite Hb1, Z.bits_0 by done. rewrite (proj2 (Z.leb_le _ _)) by done.
    by rewrite Z.add_0_l, Z2Nat.id by (apply Z.pow_nonneg; lia).
Qed.

Lemma normalize_spec :
  ∃ cn', cond_normalize_expr bools cn = Some (0, bools, cn') ∧ tabulated e cn' ∧
    cn_true cn' = (if negated e then cn_false cn else cn_true cn) ∧
    cn_false cn' = (if negated e then cn_true cn else cn_false cn).
Proof using Hcn Hdepth Hok Hrange.
  unfold cond_normalize_expr. cbn zeta. rewrite (normalize_not_spec _ e) by done.
  cbn [mbind option_bind nz Z.eqb negb cn_cond cn_bool_ids cn_cur_state cn_true cn_false cn_flags].
  destruct (collect_bools_spec (encoded (strip e)) (replicate maxbools 0) 0)
    as (ids & n & Hc & Hl & _ & Hids); [done|intros; constructor|].
  change (Z.of_nat 0) with 0 in Hc. unfold maxbools in Hc. rewrite Hc. cbn [mbind option_bind].
  destruct (Z.leb_spec (Z.of_nat n) COND_MAX_BOOLS) as [Hn|Hn].
  - destruct Hids as [Hnd Hin]; [unfold maxbools; lia|].
    assert (∀ b, b ∈ take n ids ↔ b ∈ leaves (encoded (strip e))) as Hin' by (intros b; rewrite Hin; set_solver).
    rewrite Nat2Z.id. assert (length (take n ids) = n) as Hln.
    { rewrite length_take. unfold maxbools in Hl. lia. }
    destruct (normalize_precompute (take n ids) Hnd Hin') as (orig & b1 & pre & -> & Hp & Hr & Hb0 & Hb).
    rewrite Hln in Hp, Hb. cbn [mbind option_bind]. rewrite Hp. cbn [mbind option_bind nz Z.eqb negb].
    rewrite Hr. simpl. eexists. split; [done|]. split; [|done].
    split_and!; simpl; [done|lia|done|]. rewrite Nat2Z.id, Hln. intros _. by split_and!.
  - eexists. split; [done|]. split; [|done]. split_and!; simpl; [done|lia|done|lia].
Qed.
End normalize.
