(* ===== verification/ConditionalSpec.v ===== *)
(** * The properties of conditional policy

    Evaluation of conditional expressions, switching of rules, normalisation and
    comparison of conditionals, decisions of the conditional table, and reading
    conditionals from a file. *)

From S2P Require Import Prelude PolicyFile Hashtab Avtab AvtabFacts AvtabSpec Mls Policydb Rpn Conditional.
From S2P Require Import ConditionalFacts ConditionalNorm.

(** Two booleans, the second one set. *)
Definition demo_bools : bools_t := [Some (BoolDatum 1 0 0); Some (BoolDatum 2 1 0)].

Lemma demo_bool_ok b : b = 1 ∨ b = 2 → bool_ok demo_bools b.
Proof. intros [-> | ->]; [by exists false|by exists true]. Qed.

(** ** Evaluation *)

(** C18: Evaluation is correct.  For an expression list over booleans of the
    policy, [cond_evaluate_expr] is always defined and returns the value of the
    reference machine of depth [COND_EXPR_MAXDEPTH], or -1 where that machine
    fails; and for the notation of a boolean expression it returns the
    expression's value, or -1 exactly when the expression needs a deeper
    stack. *)
Theorem cond_evaluate_correct bools expr :
  Forall (bool_ok bools) (leaves expr) →
  cond_evaluate_expr bools expr =
    Some (match ts ← mapM decode expr; token_value (bool_env bools) maxdepth ts with
          | Some b => b2z b
          | None => -1
          end) ∧
  ∀ e, expr = encoded e → cond_evaluate_expr bools expr =
    Some (if (bdepth e <=? maxdepth)%nat then b2z (beval (bool_env bools) e) else -1).
Proof.
  intros Hok%leaves_ok. split; [by apply cond_evaluate_spec|]. intros e ->.
  rewrite cond_evaluate_spec by done. unfold encoded. rewrite decode_encode_all. simpl.
  rewrite rpn_value. by destruct (_ <=? _)%nat.
Qed.

Definition demo_expr : bexpr Z := BBin OpAnd (BNot (BLeaf 1)) (BBin OpEq (BLeaf 2) (BLeaf 2)).

Lemma cond_evaluate_correct_witness :
  cond_evaluate_expr demo_bools (encoded demo_expr) =
    Some (match ts ← mapM decode (encoded demo_expr); token_value (bool_env demo_bools) maxdepth ts with
          | Some b => b2z b
          | None => -1
          end) ∧
  ∀ e, encoded demo_expr = encoded e → cond_evaluate_expr demo_bools (encoded demo_expr) =
    Some (if (bdepth e <=? maxdepth)%nat then b2z (beval (bool_env demo_bools) e) else -1).
Proof.
  apply cond_evaluate_correct. repeat constructor; apply demo_bool_ok; by (left + right).
Defined.

(** ** Switching *)

Definition conds_ok (p : policydb) : Prop :=
  awf (te_cond_avtab p) ∧ NoDup (concat (rules <$> cond_list p)) ∧
  Forall (λ n, Forall (bool_ok (bool_val_to_struct p)) (leaves (cn_cond n)) ∧
               switched (te_cond_avtab p) n) (cond_list p).


(** A conditional rule of each list, for the booleans above. *)
Definition cond_table : avtab :=
  Avtab (Some [[AvtabNode 10 (AvtabKey 1 2 3 1) (AvtabDatum 6 None);
                AvtabNode 11 (AvtabKey 1 2 3 0x8001) (AvtabDatum 9 None)]]) 2 1 0.

Definition demo_cond : cond_node := CondNode 0 (encoded demo_expr) [10] [11] 0 [0; 0; 0; 0; 0] 0 0.

Definition cond_policy : policydb :=
  Policydb 0 (Symtab None 0) (Symtab None 0) (Symtab None 0) (Symtab None 0) 2 (Symtab None 0)
    (Symtab None 0) [] [] [] [] [] [] [] [] [] [] [] (Avtab None 0 0 0) demo_bools cond_table
    [demo_cond] [] [] [] [] None [] [] (Ebitmap.ebitmap_init) 33 0 0 0 0 0 POLICY_KERN (Symtab None 0) None [] None 0 Ebitmap.ebitmap_init 0.


(** ** Ordering *)

(** [cond_optimize_lists] reorders the rules of every conditional so that its
    type rules come first, keeping the order of the others, and loses or adds
    none. *)
Theorem cond_optimize_correct a cl :
  Forall (λ n, Forall (λ x, is_Some (node_at a x)) (rules n)) cl →
  let order l := reverse (filter (is_type_rule a) l) ++ filter (λ x, ¬ is_type_rule a x) l in
  cond_optimize_lists a cl =
    Some ((λ n, set_rules n (cn_cur_state n) (order (cn_true n)) (order (cn_false n))) <$> cl) ∧
  ∀ l, order l ≡ₚ l.
Proof.
  intros Hcl order. split.
  - induction Hcl as [|n cl [Ht Hf]%Forall_app _ IH]; [done|]. cbn [cond_optimize_lists].
    unfold cond_optimize.
    rewrite (cond_optimize_loop_spec a [] []), (cond_optimize_loop_spec a [] []) by (done || constructor).
    cbn -[fmap]. rewrite IH. done.
  - intros l. unfold order. rewrite reverse_Permutation.
    induction l as [|x l IH]; [done|]. rewrite !filter_cons.
    destruct (decide (is_type_rule a x)), (decide (¬ is_type_rule a x)); try tauto; simpl.
    + by rewrite IH.
    + by rewrite <- Permutation_middle, IH.
Qed.

Lemma cond_optimize_correct_witness :
  let order l := reverse (filter (is_type_rule cond_table) l) ++
                 filter (λ x, ¬ is_type_rule cond_table x) l in
  cond_optimize_lists cond_table [demo_cond] =
    Some ((λ n, set_rules n (cn_cur_state n) (order (cn_true n)) (order (cn_false n))) <$> [demo_cond]) ∧
  ∀ l, order l ≡ₚ l.
Proof.
  apply cond_optimize_correct. repeat constructor; eexists; reflexivity.
Defined.

(** ** Normalisation *)

(** The rules in force under a state of the booleans. *)
Definition in_force (st : bools_t) (cn : cond_node) : option (list Z) :=
  v ← cond_evaluate_expr st (cn_cond cn);
  if v =? 1 then Some (cn_true cn) else if v =? 0 then Some (cn_false cn) else None.

Lemma in_force_encoded st cn e :
  cn_cond cn = encoded e → (bdepth e ≤ maxdepth)%nat → Forall (bool_ok st) (leaves (encoded e)) →
  in_force st cn = Some (if beval (bool_env st) e then cn_true cn else cn_false cn).
Proof.
  intros He Hd Hok. unfold in_force. rewrite He, evaluate_encoded by done. simpl.
  by destruct (beval _ e).
Qed.

(** The value an entry of the table stands for. *)
Lemma tabulated_value e cn st :
  tabulated e cn → (bdepth e ≤ maxdepth)%nat → Forall (bool_ok st) (leaves (encoded (strip e))) →
  cn_nbools cn ≤ COND_MAX_BOOLS →
  cond_evaluate_expr st (cn_cond cn) =
  Some (b2z (Z.testbit (cn_pre_comp cn)
    (assignment st (take (Z.to_nat (cn_nbools cn)) (cn_bool_ids cn))))).
Proof.
  intros (Hc & _ & _ & Ht) Hd Hok Hn. destruct (Ht Hn) as (Hnd & Hin & Hl & _ & Hb).
  rewrite Hc, evaluate_encoded by (rewrite ?strip_depth; done).
  pose proof (assignment_bound st (take (Z.to_nat (cn_nbools cn)) (cn_bool_ids cn))) as Ha.
  rewrite Hb, (proj2 (Z.ltb_lt _ _)) by (rewrite Hl in Ha; lia). simpl.
  rewrite env_of_value; [done|done|]. intros b. apply Hin.
Qed.


Definition not_cond : cond_node :=
  CondNode 0 (encoded (BNot (BBin OpOr (BLeaf 1) (BLeaf 2)))) [10] [11] 0 [0; 0; 0; 0; 0] 0 0.


(** ** Comparison *)

Lemma same_exprs_eq a b ts us :
  same_exprs a b = true → a = encode <$> ts → b = encode <$> us → a = b.
Proof.
  revert a b us. induction ts as [|t ts IH]; intros a b us Hs Ha Hb.
  { simpl in Ha. subst. by destruct us. }
  destruct us as [|u us]; [by subst|]. rewrite fmap_cons in Ha, Hb. subst. simpl in Hs.
  destruct (Z.eqb_spec (ce_type (encode t)) (ce_type (encode u))) as [Ht|]; [|done]. simpl in Hs.
  assert (encode t = encode u ∧ same_exprs (encode <$> ts) (encode <$> us) = true) as [Hh Hr].
  { destruct t as [x| |[]], u as [y| |[]]; try done; simpl in *.
    destruct (Z.eqb_spec x y) as [->|]; [by split|done]. }
  f_equal; [done|]. by eapply IH.
Qed.

(** Comparison is sound for the same order of booleans.  When
    [cond_expr_equal] holds of two normalised conditionals that list their
    booleans in the same order, the two expressions have the same value under
    every state of the booleans, so merging the conditionals changes nothing. *)
Theorem cond_expr_equal_sound e1 e2 a b st :
  tabulated e1 a → tabulated e2 b → (bdepth e1 ≤ maxdepth)%nat → (bdepth e2 ≤ maxdepth)%nat →
  cn_bool_ids a = cn_bool_ids b → cond_expr_equal a b = Some true →
  Forall (bool_ok st) (leaves (cn_cond a)) → Forall (bool_ok st) (leaves (cn_cond b)) →
  cond_evaluate_expr st (cn_cond a) = cond_evaluate_expr st (cn_cond b).
Proof.
  intros Ha Hb Hd1 Hd2 Hids Heq Hs1 Hs2. unfold cond_expr_equal in Heq.
  destruct (Z.eqb_spec (cn_nbools a) (cn_nbools b)) as [Hn|]; [|done]. simpl in Heq.
  pose proof (proj1 Ha) as Hca. pose proof (proj1 Hb) as Hcb. rewrite Hca in Hs1. rewrite Hcb in Hs2.
  rewrite <- Hn in Heq. destruct (Z.leb_spec (cn_nbools a) COND_MAX_BOOLS) as [Hle|Hgt]; simpl in Heq.
  - destruct (same_bools a b) as [[]|]; [|done..]. simpl in Heq. injection Heq as Heq%Z.eqb_eq.
    rewrite (tabulated_value e1 a st), (tabulated_value e2 b st) by (done || lia).
    by rewrite Heq, Hids, Hn.
  - injection Heq as Heq. by rewrite (same_exprs_eq _ _ _ _ Heq Hca Hcb).
Qed.

(** Conditionals on two booleans, normalised. *)
Definition normalised (e : bexpr Z) : cond_node :=
  match cond_normalize_expr demo_bools (CondNode 0 (encoded e) [] [] 0 [] 0 0) with
  | Some (_, _, cn) => cn
  | None => demo_cond
  end.

Lemma normalised_tabulated e :
  (bdepth e ≤ maxdepth)%nat → Forall (λ b, b = 1 ∨ b = 2) (leaves (encoded e)) → tabulated e (normalised e).
Proof.
  intros Hd Hl. destruct (normalize_spec demo_bools (CondNode 0 (encoded e) [] [] 0 [] 0 0) e)
    as (cn & Hn & Ht & _); [done|done|..].
  - eapply Forall_impl; [done|]. apply demo_bool_ok.
  - eapply Forall_impl; [done|]. simpl. lia.
  - unfold normalised. by rewrite Hn.
Qed.

Definition both : bexpr Z := BBin OpAnd (BLeaf 1) (BLeaf 2).

Lemma cond_expr_equal_sound_witness :
  cond_expr_equal (normalised both) (normalised (BBin OpEq both (BBin OpOr (BLeaf 1) (BNot (BLeaf 1))))) =
    Some true ∧
  cond_evaluate_expr demo_bools (cn_cond (normalised both)) =
  cond_evaluate_expr demo_bools
    (cn_cond (normalised (BBin OpEq both (BBin OpOr (BLeaf 1) (BNot (BLeaf 1)))))).
Proof.
  split; [vm_compute; reflexivity|].
  apply (cond_expr_equal_sound both (BBin OpEq both (BBin OpOr (BLeaf 1) (BNot (BLeaf 1))))).
  - apply normalised_tabulated; [vm_compute; lia|vm_compute; repeat constructor; by (left + right)].
  - apply normalised_tabulated; [vm_compute; lia|vm_compute; repeat constructor; by (left + right)].
  - vm_compute; lia.
  - vm_compute; lia.
  - vm_compute; reflexivity.
  - vm_compute; reflexivity.
  - change (Forall (bool_ok demo_bools) [1; 2]). repeat constructor; apply demo_bool_ok; by (left + right).
  - change (Forall (bool_ok demo_bools) [1; 2; 1; 1]).
    repeat constructor; apply demo_bool_ok; by (left + right).
Defined.

(** Comparison is unsound in general: it ignores in which order the booleans
    are listed, which the bits of [expr_pre_comp] depend on.  The conditionals
    on [1 && !2] and on [2 && !1] compare equal, and under a state where only
    the second boolean is set the first is false and the second true. *)
Theorem cond_expr_equal_confuses :
  let a := normalised (BBin OpAnd (BLeaf 1) (BNot (BLeaf 2))) in
  let b := normalised (BBin OpAnd (BLeaf 2) (BNot (BLeaf 1))) in
  cond_expr_equal a b = Some true ∧
  cond_evaluate_expr demo_bools (cn_cond a) = Some 0 ∧
  cond_evaluate_expr demo_bools (cn_cond b) = Some 1.
Proof. vm_compute. by split_and!. Qed.

(** ** Decisions *)

Lemma land_pow2 x k : 0 ≤ k → Z.land x (2 ^ k) = if Z.testbit x k then 2 ^ k else 0.
Proof.
  intros Hk. apply Z.bits_inj'. intros i Hi. rewrite Z.land_spec.
  destruct (decide (i = k)) as [->|Hne].
  - rewrite Z.pow2_bits_true by done. destruct (Z.testbit x k); [by rewrite Z.pow2_bits_true|by rewrite Z.bits_0].
  - rewrite Z.pow2_bits_false by lia. rewrite andb_false_r.
    destruct (Z.testbit x k); [by rewrite Z.pow2_bits_false by lia|by rewrite Z.bits_0].
Qed.

(** An enabled rule of kind [k]. *)
Definition active_rule (k : Z) (n : avtab_node) : bool :=
  enabled n && nz (Z.land (ak_specified (an_key n)) k).

Lemma active_rule_test k n :
  k = AVTAB_ALLOWED ∨ k = AVTAB_AUDITALLOW ∨ k = AVTAB_AUDITDENY →
  (u16 (Z.lor k AVTAB_ENABLED) =? Z.land (ak_specified (an_key n)) (Z.lor k AVTAB_ENABLED)) =
  active_rule k n.
Proof.
  intros Hk. unfold active_rule, enabled. rewrite Z.land_lor_distr_r.
  change AVTAB_ENABLED with (2 ^ 15).
  assert (∃ j, k = 2 ^ j ∧ 0 ≤ j < 3) as (j & -> & Hj).
  { destruct Hk as [-> | [-> | ->]]; [by exists 0|by exists 1|by exists 2]. }
  rewrite !land_pow2 by lia. assert (j = 0 ∨ j = 1 ∨ j = 2) as [-> | [-> | ->]] by lia;
    destruct (Z.testbit _ 15); (destruct (Z.testbit _ 0) || destruct (Z.testbit _ 1) || destruct (Z.testbit _ 2));
    done.
Qed.

(** The decision with the rules [l] added. *)
Definition added_rules (l : list avtab_node) (avd avd' : av_decision) : Prop :=
  avd_decided avd' = avd_decided avd ∧ avd_seqno avd' = avd_seqno avd ∧
  ∀ i, 0 ≤ i →
    Z.testbit (avd_allowed avd') i = Z.testbit (avd_allowed avd) i ||
      existsb (λ n, active_rule AVTAB_ALLOWED n && Z.testbit (ad_data (an_datum n)) i) l ∧
    Z.testbit (avd_auditallow avd') i = Z.testbit (avd_auditallow avd) i ||
      existsb (λ n, active_rule AVTAB_AUDITALLOW n && Z.testbit (ad_data (an_datum n)) i) l ∧
    Z.testbit (avd_auditdeny avd') i = Z.testbit (avd_auditdeny avd) i &&
      forallb (λ n, negb (active_rule AVTAB_AUDITDENY n) || Z.testbit (ad_data (an_datum n)) i) l.

Lemma cond_add_av_spec l avd : added_rules l avd (fold_left cond_add_av l avd).
Proof.
  revert avd. induction l as [|n l IH]; intros avd.
  { split_and!; [done..|]. intros i Hi. simpl. by rewrite !orb_false_r, andb_true_r. }
  cbn [fold_left]. destruct (IH (cond_add_av avd n)) as (Hd & Hs & Hb). split_and!; [done..|].
  intros i Hi. destruct (Hb i Hi) as (-> & -> & ->). cbn [existsb forallb]. unfold cond_add_av. cbn zeta.
  rewrite !active_rule_test by auto. cbn [avd_allowed avd_auditallow avd_auditdeny].
  split_and!; case_match; rewrite ?Z.lor_spec, ?Z.land_spec; btauto.
Qed.

(** C29: [cond_compute_av] on a well-formed table terminates and adds to a decision
    exactly what the enabled rules of the key say: a permission is allowed, or
    audited, when it was or some enabled rule of that kind holds it; a denial
    stays audited when it was and no enabled rule silences it. *)
Theorem cond_compute_av_correct ctab key avd :
  awf ctab →
  ∃ avd', cond_compute_av ctab key avd = Some avd' ∧ added_rules (matching ctab key) avd avd'.
Proof.
  intros Hw. unfold cond_compute_av. rewrite search_nodes_spec by done. simpl.
  eexists. split; [done|]. apply cond_add_av_spec.
Qed.

Lemma cond_compute_av_correct_witness :
  ∃ avd', cond_compute_av rules3 (AvtabKey 1 2 3 AVTAB_AV) (AvDecision 0 UINT_MAX 0 UINT_MAX 1) = Some avd' ∧
    added_rules (matching rules3 (AvtabKey 1 2 3 AVTAB_AV)) (AvDecision 0 UINT_MAX 0 UINT_MAX 1) avd'.
Proof. apply cond_compute_av_correct. exact rules3_wf. Defined.

(** ** Reading *)

(** A table whose nodes the pointers [l], all different, refer to. *)
Definition pointers_ok (l : list Z) (a : avtab) (h : heap) : Prop :=
  (awf a ∧ fields_ok a) ∧ addrs_ok h a ∧ NoDup l ∧ ∀ x, x ∈ l → is_Some (node_at a x).

Lemma node_at_entry a x : x ∈ an_addr <$> entries a → is_Some (node_at a x).
Proof.
  intros (n & -> & Hn)%list_elem_of_fmap. unfold node_at. apply fmap_is_Some.
  by apply (list_find_elem_of (λ m, an_addr m = an_addr n) (entries a) n).
Qed.

Lemma pointers_node l a h x : pointers_ok l a h → x ∈ l → x ∈ an_addr <$> entries a ∧ x < hp_next h.
Proof.
  intros (_ & (_ & Hlt) & _ & Hv) Hx. destruct (Hv x Hx) as [n [<- Hn]%node_at_addr].
  split; [by apply list_elem_of_fmap_2|]. rewrite Forall_forall in Hlt. by apply Hlt.
Qed.

Lemma pointers_le l a h h' : pointers_ok l a h → heap_le h h' → pointers_ok l a h'.
Proof. intros (? & ? & ? & ?) Hle. split; [done|]. split_and!; [by eapply addrs_le|done..]. Qed.

Lemma type_conflict_spec te a other k : awf te → awf a → is_Some (type_conflict te a other k).
Proof.
  intros Ht Ha. unfold type_conflict. destruct (nz _); [|eauto].
  rewrite (avtab_search_spec te) by done. cbn [mbind option_bind].
  destruct (an_datum <$> head (matching te k)); [by eexists|]. destruct other as [|x other].
  - rewrite avtab_search_spec by done. by eexists.
  - destruct (search_node_spec a k Ha) as (node & -> & _). simpl. repeat case_match; eauto.
Qed.

Lemma cond_insertf_spec te other base k d s h :
  awf te → read_rule k d → pointers_ok (base ++ s.2) s.1 h →
  wp (cond_insertf te other k d s) h (λ r h', pointers_ok (base ++ r.2.2) r.2.1 h').
Proof.
  intros Hte Hk Hp. pose proof Hp as ([Hw Hfi] & Had & Hnd & Hv). unfold cond_insertf.
  destruct (type_conflict_spec te s.1 other k Hte Hw) as [b ->]. do 2 wp_step. cbn beta.
  destruct b; [by wp_step|]. wp_step.
  destruct (av_htable s.1) as [t|] eqn:Ht; cycle 1.
  { unfold avtab_insert_nonunique. cbn zeta. rewrite Ht. wp_step. by wp_step. }
  eapply wp_mono; [apply insert_nonunique_spec; [done|apply Hk|by rewrite Ht]|].
  intros [n a] h1 [Hle Hn]. simpl in Hn. destruct n as [n|]; cycle 1.
  { destruct Hn as [-> _]. wp_step. by eapply pointers_le. }
  destruct Hn as (Hda & Haddr & Hlt & Hwa & Hkey & Hperm & _).
  assert (fields_ok a) as Hfa.
  { unfold fields_ok. rewrite Hperm. constructor; [|done]. destruct n as [x k' d']. simpl in *. subst. by apply stored_fields. }
  assert (pointers_ok (base ++ s.2) a h1) as Hpa.
  { split_and!; [done|done|by eapply linked_addrs|done|]. intros x Hx. apply node_at_entry. rewrite Hperm.
    right. by eapply pointers_node. }
  do 2 wp_step; wp_step; cbn [snd fst]; [by eapply pointers_le|]. eapply pointers_le; [|done].
  destruct Hpa as (_ & Hada & _ & Hva). rewrite app_assoc. split_and!; [done|done|done| |].
  - apply NoDup_app. split_and!; [done| |apply NoDup_singleton].
    intros x Hx ->%list_elem_of_singleton. apply (pointers_node _ _ _ _ Hp) in Hx as [_ Hx]. lia.
  - intros x [Hx| ->%list_elem_of_singleton]%elem_of_app; [by apply Hva|].
    apply node_at_entry. rewrite Hperm. left.
Qed.

Lemma read_av_list_spec p a fp other base h :
  file_ok fp → awf (te_avtab p) → pointers_ok base a h →
  wp (cond_read_av_list p a fp other) h (λ '(rc, l, a', fp') h',
    pointers_ok (base ++ l) a' h' ∧
    (rc = 0 → file_ok fp' ∧ (length (pf_data fp') < length (pf_data fp))%nat)).
Proof.
  intros Hf Hte Hp. unfold cond_read_av_list. wp_step. apply wp_next_ok; [done|lia| |].
  2:{ intros fp'. cbn beta iota. wp_step. rewrite app_nil_r. by split. }
  intros b fp1 Hb Hl Hf1 Hl1. cbn beta iota zeta. wp_step.
  { wp_step. rewrite app_nil_r. split; [done|]. intros _. split; [done|lia]. }
  wp_step. eapply wp_mono.
  - apply (read_items_spec (cond_insertf (te_avtab p) other) (λ s h, pointers_ok (base ++ s.2) s.1 h));
      [|done|by rewrite app_nil_r|lia].
    intros k d s h1 Hk Hs. by apply cond_insertf_spec.
  - intros [[rc fp2] [a2 l2]] h2 [Hp2 Hrc]. simpl in *. unfold nz.
    destruct (Z.eqb_spec rc 0) as [->|Hne]; cbn [negb]; wp_step.
    + split; [done|]. intros _. destruct Hrc; [done|]. split; [done|lia].
    + split; [|done]. rewrite app_nil_r. destruct Hp2 as ([? ?] & ? & [? _]%NoDup_app & Hv).
      split_and!; [done..|]. intros x Hx. apply Hv. set_solver.
Qed.

(** An element with a known operator and boolean. *)
Definition expr_read (p : policydb) (e : cond_expr) : Prop := expr_isvalid p e = true ∧ 0 ≤ ce_bool e.

Lemma read_exprs_spec fuel p fp i len acc h :
  file_ok fp → (length (pf_data fp) < fuel)%nat → Forall (expr_read p) acc →
  wp (read_exprs fuel p fp i len acc) h (λ r h', heap_le h h' ∧
    ∀ l, r.1 = Some l → Forall (expr_read p) l ∧ file_ok r.2 ∧
      (length (pf_data r.2) ≤ length (pf_data fp))%nat).
Proof.
  revert fp i acc h. induction fuel as [|fuel IH]; intros fp i acc h Hf Hl Ha; [lia|].
  cbn [read_exprs]. wp_step; [|split; [done|]; by intros ? [= <-]]. wp_step.
  apply wp_next_ok; [done|lia| |]; [|intros fp'; cbn beta iota; by wp_step].
  intros b fp1 Hb Hlb Hf1 Hl1. cbn beta iota. do 2 wp_step; [by wp_step|]. cbn zeta. wp_step; [by wp_step|].
  eapply wp_mono; [apply IH; [done|lia|]|].
  - apply Forall_app. split; [done|]. constructor; [|done]. split; [|by apply le_val_bound, Forall_drop].
    match goal with H : negb _ = false |- _ => by apply negb_false_iff in H end.
  - intros r h2 [Hle Hr]. split; [by etrans|]. intros l Hs. destruct (Hr l Hs) as (? & ? & ?).
    split_and!; [done..|lia].
Qed.

(** A conditional that is not normalised. *)
Definition node_read (p : policydb) (n : cond_node) : Prop :=
  Forall (expr_read p) (cn_cond n) ∧ cn_nbools n = 0 ∧ cn_bool_ids n = replicate (Z.to_nat COND_MAX_BOOLS) 0.

(** The conditionals read so far, with the table. *)
Definition conds_read (p : policydb) (l : list cond_node) (a : avtab) (h : heap) : Prop :=
  pointers_ok (concat (rules <$> l)) a h ∧ Forall (node_read p) l.

Lemma read_node_spec p a fp base h :
  file_ok fp → awf (te_avtab p) → pointers_ok base a h →
  wp (cond_read_node p a fp) h (λ '(n, a', fp') h', 
    match n with
    | None => pointers_ok base a' h'
    | Some n =>
       pointers_ok (base ++ rules n) a' h' ∧ node_read p n ∧
       file_ok fp' ∧ (length (pf_data fp') < length (pf_data fp))%nat
    end).
Proof.
  intros Hf Hte Hp. unfold cond_read_node.
  assert (∀ l a h, pointers_ok (base ++ l) a h → pointers_ok base a h) as Hdrop.
  { intros l a0 h0 ([? ?] & ? & [? _]%NoDup_app & Hv). split_and!; [done..|]. intros x Hx. apply Hv. set_solver. }
  wp_step. apply wp_next_ok; [done|lia| |]; [|intros fp'; cbn beta iota; by wp_step].
  intros b1 fp1 _ _ Hf1 Hl1. cbn beta iota zeta. wp_step.
  apply wp_next_ok; [done|lia| |]; [|intros fp'; cbn beta iota; by wp_step].
  intros b2 fp2 _ _ Hf2 Hl2. cbn beta iota zeta. wp_step.
  eapply wp_mono; [apply read_exprs_spec; [done|lia|constructor]|].
  intros [e fp3] h3 [Hle Hr]. simpl in Hr. destruct e as [e|]; [|wp_step; by eapply pointers_le].
  destruct (Hr e eq_refl) as (Hv & Hf3 & Hl3). wp_step.
  eapply wp_mono; [apply (read_av_list_spec p a fp3 [] base); [done|done|by eapply pointers_le]|].
  intros [[[rc1 t] a1] fp4] h4 [Hp1 H1]. unfold nz at 1.
  destruct (Z.eqb_spec rc1 0) as [->|]; cbn [negb]; [|wp_step; by eapply Hdrop].
  destruct H1 as [Hf4 Hl4]; [done|]. wp_step.
  eapply wp_mono; [apply (read_av_list_spec p a1 fp4 t (base ++ t)); done|].
  intros [[[rc2 f] a2] fp5] h5 [Hp2 H2]. unfold nz at 1. rewrite <- app_assoc in Hp2.
  destruct (Z.eqb_spec rc2 0) as [->|]; cbn [negb]; wp_step; [|by eapply Hdrop].
  destruct H2 as [Hf5 Hl5]; [done|]. split_and!; [done|done|done|lia].
Qed.

Lemma read_nodes_spec fuel p a fp i len acc h :
  file_ok fp → awf (te_avtab p) → (length (pf_data fp) < fuel)%nat → conds_read p acc a h →
  wp (read_nodes fuel p a fp i len acc) h (λ '(rc, l, a', fp') h',
    (rc = 0 ∧ file_ok fp' ∨ rc = -1) ∧ conds_read p l a' h').
Proof.
  intros Hf Hte. revert fp a i acc h Hf. induction fuel as [|fuel IH]; intros fp a i acc h Hf Hl [Hp Hv]; [lia|].
  cbn [read_nodes]. wp_step; [|wp_step; split; [by left|done]]. do 2 wp_step.
  { wp_step. split; [by right|]. split; [by eapply pointers_le|done]. }
  wp_step. eapply wp_mono; [apply read_node_spec; [done|done|by eapply pointers_le]|].
  intros [[n a1] fp1] h1 Hn. destruct n as [n|]; [|wp_step; split; [by right|done]].
  destruct Hn as (Hp1 & He & Hf1 & Hl1). apply IH; [done|lia|]. split.
  - rewrite fmap_app, concat_app. simpl. by rewrite app_nil_r.
  - apply Forall_app. split; [done|]. by apply Forall_singleton.
Qed.

(** [p'] is [p] with conditionals and a table that fit together. *)
Definition conds_safe (p p' : policydb) : Prop :=
  ∃ a l, p' = set_cond p (bool_val_to_struct p) a l ∧ awf a ∧ fields_ok a ∧ NoDup (concat (rules <$> l)) ∧
    (∀ x, x ∈ concat (rules <$> l) → is_Some (node_at a x)) ∧ Forall (node_read p) l.

Lemma set_cond_id p : set_cond p (bool_val_to_struct p) (te_cond_avtab p) (cond_list p) = p.
Proof. by destruct p. Qed.

Lemma conds_safe_empty p a :
  awf a → av_htable a = None → cond_list p = [] → conds_safe p (set_cond p (bool_val_to_struct p) a (cond_list p)).
Proof.
  intros Ha Hno Hnil. exists a, (cond_list p). rewrite Hnil. unfold fields_ok, entries. rewrite Hno.
  split_and!; [done..|constructor|constructor|by intros ? ?%elem_of_nil|constructor].
Qed.

Lemma cond_read_list_spec p fp h :
  file_ok fp → awf (te_avtab p) → 0 ≤ av_nel (te_avtab p) < 2 ^ 32 →
  awf (te_cond_avtab p) → av_htable (te_cond_avtab p) = None → cond_list p = [] →
  wp (cond_read_list p fp) h (λ '(rc, p', fp') _, (rc = 0 ∧ file_ok fp' ∨ rc = -1) ∧ conds_safe p p').
Proof.
  intros Hf Hte Hnel Hw Hno Hnil. unfold cond_read_list.
  wp_step. apply wp_next_ok; [done|lia| |].
  2:{ intros fp'. cbn beta iota. wp_step. split; [by right|]. pose proof (conds_safe_empty p _ Hw Hno Hnil) as H.
      by rewrite set_cond_id in H. }
  intros b fp1 _ _ Hf1 Hl1. cbn beta iota zeta. wp_step.
  assert (∀ a h', awf a → entries a = [] → heap_le h h' → wp
    ('(rc, l, a, fp) ← read_nodes (S (length (pf_data fp1))) p a fp1 0 (s32 (le_val b)) [];
     mret (rc, set_cond p (bool_val_to_struct p) a l, fp)) h' (λ '(rc, p', fp') _,
    (rc = 0 ∧ file_ok fp' ∨ rc = -1) ∧ conds_safe p p')) as Hgo.
  { intros a h' Ha He Hle. wp_step. eapply wp_mono; [apply read_nodes_spec; [done|done|lia|]|].
    - split; [|constructor]. unfold fields_ok, pointers_ok, addrs_ok, fields_ok. rewrite He.
      split_and!; [done|constructor|constructor|constructor|constructor|by intros ? ?%elem_of_nil].
    - intros [[[rc l] a2] fp2] h2 [Hrc (([? ?] & _ & ? & ?) & ?)]. wp_step. split; [done|]. by exists a2, l. }
  destruct (decide (av_nel (te_avtab p) = 0)) as [Hz|Hnz].
  - unfold avtab_alloc. rewrite Hz. cbn [Z.eqb]. wp_step. cbn [nz Z.eqb negb]. rewrite Hno.
    by apply Hgo.
  - eapply wp_mono; [apply alloc_spec; lia|]. intros [rc a] h1 [Hle Hr]. simpl in Hr.
    destruct Hr as [(-> & Hwa & He & _)|(-> & Hna & Hns & _)]; [by apply Hgo|].
    change (nz (-1)) with true. cbn iota. wp_step. split; [by right|]. apply conds_safe_empty; [|done|done].
    unfold awf in Hw |- *. rewrite Hno in Hw. by rewrite Hna, Hns.
Qed.

(** C36: Reading is safe.  [cond_read_list] on arbitrary bytes terminates, reads
    only bytes of the file and returns 0 or -1; in both cases the conditional
    table is well-formed, every rule pointer of the conditionals is a node of
    the table, no node is in two lists, the expressions have only known
    operators and booleans, and nothing else of the policy changes. *)
Theorem cond_read_list_safe p fp h :
  file_ok fp → awf (te_avtab p) → 0 ≤ av_nel (te_avtab p) < 2 ^ 32 →
  awf (te_cond_avtab p) → av_htable (te_cond_avtab p) = None → cond_list p = [] →
  wp (cond_read_list p fp) h (λ '(rc, p', fp') _, (rc = 0 ∨ rc = -1) ∧ conds_safe p p').
Proof.
  intros. eapply wp_mono; [by apply cond_read_list_spec|]. intros [[rc p'] fp'] h' [[[-> _]| ->] Hs]; auto.
Qed.

(** One conditional on the first boolean, with one rule in its true list. *)
Definition cond_bytes : list Z :=
  le_bytes 4 1 ++ le_bytes 4 0 ++ le_bytes 4 1 ++ le_bytes 4 1 ++ le_bytes 4 1 ++
  le_bytes 4 1 ++ le_bytes 2 1 ++ le_bytes 2 2 ++ le_bytes 2 3 ++ le_bytes 2 1 ++ le_bytes 4 6 ++
  le_bytes 4 0.

Definition read_policy : policydb :=
  Policydb 0 (Symtab None 0) (Symtab None 0) (Symtab None 0) (Symtab None 0) 2 (Symtab None 0)
    (Symtab None 0) [] [] [] [] [] [] [] [] [] [] [] rules3 demo_bools (Avtab None 0 0 0)
    [] [] [] [] [] None [] [] (Ebitmap.ebitmap_init) 33 0 0 0 0 0 POLICY_KERN (Symtab None 0) None [] None 0 Ebitmap.ebitmap_init 0.

Lemma cond_read_list_safe_witness :
  wp (cond_read_list read_policy (PolicyFile PF_USE_MEMORY cond_bytes 40 [])) (Heap 100 [])
    (λ '(rc, p', fp') _, (rc = 0 ∨ rc = -1) ∧ conds_safe read_policy p').
Proof.
  apply (cond_read_list_safe read_policy).
  - split; [right; split; vm_compute; reflexivity|]. vm_compute. repeat constructor; discriminate.
  - exact rules3_wf.
  - split; vm_compute; [discriminate|reflexivity].
  - reflexivity.
  - reflexivity.
  - reflexivity.
Defined.
