(* ===== verification/Context.v ===== *)
(** * Security contexts as text and as records

    [src/context_record.c] (the [sepol_context] record and its string form) and
    [src/context.c] (context structures from and to records and strings, and
    their validity under a policy).  A string is its characters in front of the
    terminating NUL; [NULL] is [None]. *)

From S2P Require Import Prelude Ebitmap Hashtab Avtab Mls Policydb MlsPolicy.

(** ** Records *)

Record sepol_context := SepolContext {
  sc_user : option string;
  sc_role : option string;
  sc_type : option string;
  sc_mls : option string
}.

(** [strdup]. *)
Definition strdup (s : string) : M (option string) :=
  r ← malloc;
  mret (match r with Some _ => Some s | None => None end).

Definition sepol_context_set_user (con : sepol_context) (user : string) : M (Z * sepol_context) :=
  tmp ← strdup user;
  match tmp with
  | None => mret (STATUS_ERR, con)
  | Some _ => mret (STATUS_SUCCESS, SepolContext tmp (sc_role con) (sc_type con) (sc_mls con))
  end.

Definition sepol_context_set_role (con : sepol_context) (role : string) : M (Z * sepol_context) :=
  tmp ← strdup role;
  match tmp with
  | None => mret (STATUS_ERR, con)
  | Some _ => mret (STATUS_SUCCESS, SepolContext (sc_user con) tmp (sc_type con) (sc_mls con))
  end.

Definition sepol_context_set_type (con : sepol_context) (type : string) : M (Z * sepol_context) :=
  tmp ← strdup type;
  match tmp with
  | None => mret (STATUS_ERR, con)
  | Some _ => mret (STATUS_SUCCESS, SepolContext (sc_user con) (sc_role con) tmp (sc_mls con))
  end.

Definition sepol_context_set_mls (con : sepol_context) (mls : string) : M (Z * sepol_context) :=
  tmp ← strdup mls;
  match tmp with
  | None => mret (STATUS_ERR, con)
  | Some _ => mret (STATUS_SUCCESS, SepolContext (sc_user con) (sc_role con) (sc_type con) tmp)
  end.

Definition sepol_context_create : M (option sepol_context) :=
  con ← malloc;
  mret (match con with Some _ => Some (SepolContext None None None None) | None => None end).

(** Cloning [NULL] gives [NULL]. *)
Definition sepol_context_clone (con : option sepol_context) : M (Z * option sepol_context) :=
  match con with
  | None => mret (0, None)
  | Some con =>
     new_con ← sepol_context_create;
     match new_con with
     | None => mret (STATUS_ERR, None)
     | Some _ =>
        u ← get (sc_user con);
        u ← strdup u;
        if bool_decide (u = None) then mret (STATUS_ERR, None)
        else
          r ← get (sc_role con);
          r ← strdup r;
          if bool_decide (r = None) then mret (STATUS_ERR, None)
          else
            t ← get (sc_type con);
            t ← strdup t;
            if bool_decide (t = None) then mret (STATUS_ERR, None)
            else
              match sc_mls con with
              | None => mret (STATUS_SUCCESS, Some (SepolContext u r t None))
              | Some m =>
                 m ← strdup m;
                 if bool_decide (m = None) then mret (STATUS_ERR, None)
                 else mret (STATUS_SUCCESS, Some (SepolContext u r t m))
              end
     end
  end.

Definition colon : Ascii.ascii → bool := is_char ":"%char.

(** The part of the string from the type on. *)
Definition set_type_mls (con : sepol_context) (low : string) : M (Z * sepol_context) :=
  match (scan colon low).2 with
  | None => sepol_context_set_type con low
  | Some (_, high) =>
     '(rc, con) ← sepol_context_set_type con (scan colon low).1;
     if rc <? 0 then mret (rc, con) else sepol_context_set_mls con high
  end.

(** The code and the record; [<<none>>] gives [NULL] with success. *)
Definition sepol_context_from_string (str : string) : M (Z * option sepol_context) :=
  if bool_decide (str = "<<none>>"%string) then mret (STATUS_SUCCESS, None)
  else
    tmp_con ← sepol_context_create;
    match tmp_con with
    | None => mret (STATUS_ERR, None)
    | Some con =>
       tmp ← strdup str;
       match tmp with
       | None => mret (STATUS_ERR, None)
       | Some low =>
          match (scan colon low).2 with
          | None => mret (STATUS_ERR, None)
          | Some (_, high) =>
             '(rc, con) ← sepol_context_set_user con (scan colon low).1;
             if rc <? 0 then mret (STATUS_ERR, None)
             else
               match (scan colon high).2 with
               | None => mret (STATUS_ERR, None)
               | Some (_, rest) =>
                  '(rc, con) ← sepol_context_set_role con (scan colon high).1;
                  if rc <? 0 then mret (STATUS_ERR, None)
                  else
                    '(rc, con) ← set_type_mls con rest;
                    if rc <? 0 then mret (STATUS_ERR, None) else mret (STATUS_SUCCESS, Some con)
               end
          end
       end
    end.

(** The sizes are those of objects in memory, so their sum does not overflow a
    [size_t]; [snprintf] returns an [int], and fails for longer text. *)
Definition sepol_context_to_string (con : sepol_context) : M (Z * option string) :=
  u ← get (sc_user con);
  r ← get (sc_role con);
  t ← get (sc_type con);
  str ← malloc;
  match str with
  | None => mret (STATUS_ERR, None)
  | Some _ =>
     let text := (u +:+ ":" +:+ r +:+ ":" +:+ t +:+
                  match sc_mls con with Some m => ":" +:+ m | None => "" end)%string in
     if 2 ^ 31 - 1 <? strlen text then mret (STATUS_ERR, None)
     else mret (STATUS_SUCCESS, Some text)
  end.

(** ** Validity *)

Definition context_is_valid (p : policydb) (c : context_struct) : option bool :=
  if (c_role c =? 0) || (c_role c >? s_nprim (p_roles p)) then Some false
  else if (c_user c =? 0) || (c_user c >? s_nprim (p_users p)) then Some false
  else if (c_type c =? 0) || (c_type c >? s_nprim (p_types p)) then Some false
  else
    authorized ←
      (if negb (c_role c =? OBJECT_R_VAL) then
         role ← aget (role_val_to_struct p) (c_role c - 1);
         match role with
         | None => Some false
         | Some role =>
            if negb (ebitmap_get_bit (rd_cache role) (c_type c - 1)) then Some false
            else
              usrdatum ← aget (user_val_to_struct p) (c_user c - 1);
              match usrdatum with
              | None => Some false
              | Some usrdatum => Some (ebitmap_get_bit (ud_cache usrdatum) (c_role c - 1))
              end
         end
       else Some true);
    if negb authorized then Some false else mls_context_isvalid p c.

Definition policydb_context_isvalid (p : policydb) (c : context_struct) : option bool :=
  context_is_valid p c.

(** ** Context structures and text *)

(** The code, the string and its length.  [sprintf] and [mls_sid_to_context]
    must fill exactly the buffer in front of its final NUL. *)
Definition context_to_string (p : policydb) (c : context_struct) : M (Z * option (string * Z)) :=
  u ← get (name_of (p_user_val_to_name p) (c_user c));
  r ← get (name_of (p_role_val_to_name p) (c_role c));
  t ← get (name_of (p_type_val_to_name p) (c_type c));
  l ← get (mls_compute_context_len p c);
  let scontext_len := u64 (strlen u + 1 + (strlen r + 1) + strlen t + s32 l + 1) in
  scontext ← malloc;
  match scontext with
  | None => mret (STATUS_ERR, None)
  | Some _ =>
     m ← get (mls_sid_to_context p c);
     let text := (u +:+ ":" +:+ r +:+ ":" +:+ t +:+ m)%string in
     if negb (strlen text + 1 =? scontext_len) then ub
     else mret (STATUS_SUCCESS, Some (text, scontext_len))
  end.

(** The context structure; a [NULL] record or field is undefined. *)
Definition context_from_record (p : policydb) (record : option sepol_context) :
    M (Z * option context_struct) :=
  record ← get record;
  u ← get (sc_user record);
  user ← strdup u;
  r ← get (sc_role record);
  role ← strdup r;
  t ← get (sc_type record);
  type ← strdup t;
  scontext ← malloc;
  match user, role, type, scontext with
  | Some user, Some role, Some type, Some _ =>
     usrdatum ← get (hashtab_search (s_table (p_users p)) user);
     match usrdatum with
     | None => mret (STATUS_ERR, None)
     | Some usrdatum =>
        roldatum ← get (hashtab_search (s_table (p_roles p)) role);
        match roldatum with
        | None => mret (STATUS_ERR, None)
        | Some roldatum =>
           typdatum ← get (hashtab_search (s_table (p_types p)) type);
           match typdatum with
           | None => mret (STATUS_ERR, None)
           | Some typdatum =>
              if td_flavor typdatum =? TYPE_ATTRIB then mret (STATUS_ERR, None)
              else
                let c := Context (ud_value usrdatum) (rd_value roldatum) (td_value typdatum)
                           mls_range_init in
                '(rc, c) ←
                  match sc_mls record with
                  | Some m => if nz (mls p) then mls_from_string p m c else mret (STATUS_ERR, c)
                  | None => mret (if nz (mls p) then STATUS_ERR else STATUS_SUCCESS, c)
                  end;
                if rc <? 0 then mret (STATUS_ERR, None)
                else
                  valid ← get (context_is_valid p c);
                  if negb valid then mret (STATUS_ERR, None) else mret (STATUS_SUCCESS, Some c)
           end
        end
     end
  | _, _, _, _ => mret (STATUS_ERR, None)
  end.

Definition context_to_record (p : policydb) (c : context_struct) : M (Z * option sepol_context) :=
  tmp_record ← sepol_context_create;
  match tmp_record with
  | None => mret (STATUS_ERR, None)
  | Some rec =>
     u ← get (name_of (p_user_val_to_name p) (c_user c));
     '(rc, rec) ← sepol_context_set_user rec u;
     if rc <? 0 then mret (STATUS_ERR, None)
     else
       r ← get (name_of (p_role_val_to_name p) (c_role c));
       '(rc, rec) ← sepol_context_set_role rec r;
       if rc <? 0 then mret (STATUS_ERR, None)
       else
         t ← get (name_of (p_type_val_to_name p) (c_type c));
         '(rc, rec) ← sepol_context_set_type rec t;
         if rc <? 0 then mret (STATUS_ERR, None)
         else if nz (mls p) then
           '(rc, m) ← mls_to_string p c;
           if rc <? 0 then mret (STATUS_ERR, None)
           else
             m ← get m;
             '(rc, rec) ← sepol_context_set_mls rec m;
             if rc <? 0 then mret (STATUS_ERR, None) else mret (STATUS_SUCCESS, Some rec)
         else mret (STATUS_SUCCESS, Some rec)
  end.

(** [con_str] is the string at the address; [memcpy] reads [con_str_len] bytes,
    its NUL at most included. *)
Definition context_from_string (p : policydb) (con_str : string) (con_str_len : Z) :
    M (Z * option context_struct) :=
  if (con_str_len =? 0) || (con_str_len =? 2 ^ 64 - 1) then mret (STATUS_ERR, None)
  else
    con_cpy ← malloc;
    match con_cpy with
    | None => mret (STATUS_ERR, None)
    | Some _ =>
       if strlen con_str + 1 <? con_str_len then ub
       else
         '(rc, ctx_record) ←
           sepol_context_from_string (String.substring 0 (Z.to_nat con_str_len) con_str);
         if rc <? 0 then mret (STATUS_ERR, None)
         else
           '(rc, c) ← context_from_record p ctx_record;
           if rc <? 0 then mret (STATUS_ERR, None) else mret (STATUS_SUCCESS, c)
    end.

Definition sepol_context_check (p : policydb) (context : option sepol_context) : M Z :=
  '(ret, _) ← context_from_record p context;
  mret ret.
