(* ===== verification/ContextSpec.v ===== *)
(** * The properties of context conversion

    Validity of contexts, the round trip through text, and the behaviour of the
    conversions on arbitrary text. *)

From S2P Require Import Prelude Ebitmap EbitmapFacts EbitmapIter EbitmapSpec Hashtab HashtabFacts.
From S2P Require Import HashtabSpec Mls Policydb Avtab MlsPolicy MlsFacts MlsSpec MlsString Context.

(** ** The policy's symbol tables *)

(** A table whose data satisfy [P]. *)
Definition sym_ok {V} (s : symtab V) (P : V → Prop) : Prop :=
  ∃ h, s_table s = Some h ∧ hwf h ∧ ∀ k d, dict h !! k = Some d → P d.

Lemma sym_search {V} (s : symtab V) P k :
  sym_ok s P → ∃ o, hashtab_search (s_table s) k = Some o ∧ ∀ d, o = Some d → P d.
Proof.
  intros (h & -> & Hwf & HP). rewrite search_spec by done. eexists. split; [done|].
  intros d Hd. by eapply HP.
Qed.

Record symbols_ok (p : policydb) : Prop := {
  so_users : sym_ok (p_users p) (λ d, 0 ≤ ud_value d);
  so_roles : sym_ok (p_roles p) (λ d, 0 ≤ rd_value d);
  so_types : sym_ok (p_types p) (λ d, 0 ≤ td_value d);
  so_levels : sym_ok (p_levels p) (λ d, 0 ≤ sens (ld_level d) < 2 ^ 32);
  so_cats : sym_ok (p_cats p) (λ d, 0 ≤ cd_value d < 2 ^ 32);
  so_sens : Z.of_nat (length (p_sens_val_to_name p)) = s_nprim (p_levels p);
  so_user_structs : Z.of_nat (length (user_val_to_struct p)) = s_nprim (p_users p);
  so_role_structs : Z.of_nat (length (role_val_to_struct p)) = s_nprim (p_roles p)
}.

Lemma symbols_mls_tables p : symbols_ok p → mls_tables_ok p.
Proof. intros Hp. destruct (so_levels p Hp) as (h & ? & ? & _). split; [eauto|]. split; apply Hp. Qed.

(** ** Parsing arbitrary text *)

Section safe.
Context (p : policydb) (Hp : symbols_ok p).

Lemma set_bits_from_safe todo i e h :
  wf e → 0 ≤ i → i + Z.of_nat todo ≤ 2 ^ 32 → wp (set_bits_from todo i e) h (λ r _, wf r.2).
Proof.
  revert i e h. induction todo as [|todo IH]; intros i e h Hw Hi Hl; [done|]. cbn [set_bits_from].
  wp_step. eapply wp_mono; [apply set_bit_spec; [done|lia]|]. intros [rc e'] h' (_ & Hw' & _). simpl in Hw'.
  wp_step; [done|]. apply IH; [done|lia|lia].
Qed.

Lemma parse_item_safe item e h :
  wf e → wp (parse_item p item e) h (λ r _, (r.1 = 0 ∨ r.1 = -1) ∧ wf r.2).
Proof using Hp.
  intros Hw. unfold parse_item. cbn zeta.
  destruct (sym_search (p_cats p) _ (scan (is_char ".") item).1 (so_cats p Hp)) as (o & -> & Ho).
  do 2 wp_step. destruct o as [d|]; [|wp_step; split; [by right|done]]. specialize (Ho d eq_refl).
  wp_step. eapply wp_mono; [apply set_bit_spec; [done|apply Z.mod_pos_bound; lia]|].
  intros [rc e1] h1 (_ & Hw1 & _). simpl in Hw1. wp_step; [split; [by right|done]|].
  destruct (scan (is_char ".") item).2 as [[c rng]|]; [|split; [by left|done]].
  cbn [snd]. destruct (sym_search (p_cats p) _ rng (so_cats p Hp)) as (o' & -> & Ho'). do 2 wp_step.
  destruct o' as [d'|]; [|wp_step; split; [by right|done]]. specialize (Ho' d' eq_refl).
  wp_step; [split; [by right|done]|]. rewrite Z.geb_leb in E0. zbool. wp_step.
  eapply wp_mono; [apply set_bits_from_safe; [done|lia|lia]|]. intros [rc2 e2] h2 Hw2.
  wp_step; [split; [by right|done]|split; [by left|done]].
Qed.

Lemma scan_length stop s c r : (scan stop s).2 = Some (c, r) → (String.length r < String.length s)%nat.
Proof.
  induction s as [|x s IH]; simpl; [done|]. destruct (stop x); simpl; [intros [= <- <-]; lia|].
  intros H. specialize (IH H). lia.
Qed.

Lemma parse_cats_safe fuel s e h :
  wf e → (String.length s < fuel)%nat →
  wp (parse_cats fuel p s e) h (λ r _, (r.1.1 = 0 ∨ r.1.1 = -1) ∧ wf r.1.2).
Proof using Hp.
  revert s e h. induction fuel as [|fuel IH]; intros s e h Hw Hl; [lia|]. cbn [parse_cats].
  wp_step. eapply wp_mono; [by apply parse_item_safe|]. intros [rc e1] h1 [Hrc Hw1]. simpl in *.
  wp_step; [by split|]. destruct (scan _ s).2 as [[d rest]|] eqn:Es; [|split; [by left|done]].
  apply scan_length in Es. wp_step; [|split; [by left|done]]. apply IH; [done|lia].
Qed.

Lemma parse_level_safe name delim l h :
  wf (cat l) →
  wp (parse_level p name delim l) h (λ r _, (r.1.1 = 0 ∧ level_wf r.1.2) ∨ r.1.1 = -1).
Proof using Hp.
  intros Hw. unfold parse_level.
  destruct (sym_search (p_levels p) _ name (so_levels p Hp)) as (o & -> & Ho). do 2 wp_step.
  destruct o as [lev|]; [|wp_step; by right]. specialize (Ho lev eq_refl). cbn zeta.
  destruct delim as [[d rest]|]; [|wp_step; left; by split].
  wp_step; [|wp_step; left; by split]. wp_step.
  eapply wp_mono; [apply parse_cats_safe; [done|lia]|]. intros [[rc e] dl] h1 [Hrc Hw1]. simpl in *.
  wp_step. simpl. destruct Hrc as [-> | ->]; [left|by right]. split; [done|]. by split.
Qed.

Lemma from_string_safe s c h :
  wf (cat (level0 (c_range c))) → wf (cat (level1 (c_range c))) →
  nz (mls p) = true →
  wp (mls_from_string p s c) h (λ r _,
    (r.1 = 0 ∧ ∃ rg, r.2 = set_range c rg ∧ range_wf rg) ∨ r.1 = -1).
Proof using Hp.
  intros H0 H1 Hm. unfold mls_from_string. do 2 wp_step; [wp_step; by right|]. wp_step.
  unfold mls_context_to_sid. rewrite Hm. cbn [negb]. wp_step.
  eapply wp_mono; [by apply parse_level_safe|]. intros [[rc l0] d] h1 Hl0. simpl in Hl0. cbn zeta.
  destruct Hl0 as [[-> Hl0]| ->]; [|change (nz (-1)) with true; cbn iota; wp_step; wp_step; by right].
  cbn [nz Z.eqb negb]. set (dash := match d with Some _ => _ | None => None end).
  destruct dash as [rest|].
  - wp_step. eapply wp_mono; [by apply parse_level_safe|]. intros [[rc1 l1] d1] h2 Hl1. simpl in Hl1. cbn zeta.
    destruct Hl1 as [[-> Hl1]| ->].
    + cbn [nz Z.eqb negb]. wp_step. wp_step. left. split; [done|]. eexists. by split.
    + change (nz (-1)) with true. cbn iota. wp_step. wp_step. by right.
  - wp_step. eapply wp_mono; [apply level_cpy_spec|]. intros [rc1 l1] h2 [_ [[= -> ->]|[[= -> ->] _]]].
    + simpl. wp_step. wp_step. left. split; [done|]. eexists. by split.
    + simpl. wp_step. wp_step. by right.
Qed.
End safe.

(** ** Validity *)

(** The context is valid under the policy. *)
Definition context_valid (p : policydb) (c : context_struct) : Prop :=
  1 ≤ c_role c ≤ s_nprim (p_roles p) ∧ 1 ≤ c_user c ≤ s_nprim (p_users p) ∧
  1 ≤ c_type c ≤ s_nprim (p_types p) ∧
  (c_role c = OBJECT_R_VAL ∨
   ∃ role user, role_val_to_struct p !! Z.to_nat (c_role c - 1) = Some (Some role) ∧
     user_val_to_struct p !! Z.to_nat (c_user c - 1) = Some (Some user) ∧
     ebitmap_get_bit (rd_cache role) (c_type c - 1) = true ∧
     ebitmap_get_bit (ud_cache user) (c_role c - 1) = true) ∧
  (nz (mls p) = true → mls_valid p c).

Definition context_wf (c : context_struct) : Prop :=
  0 ≤ c_user c ∧ 0 ≤ c_role c ∧ 0 ≤ c_type c ∧ range_wf (c_range c).

Lemma range_test x n : 0 ≤ x → ((x =? 0) || (x >? n)) = negb (bool_decide (1 ≤ x ≤ n)).
Proof.
  intros Hx. rewrite Z.gtb_ltb. destruct (Z.eqb_spec x 0), (Z.ltb_spec n x); simpl; symmetry;
    rewrite ?negb_true_iff, ?negb_false_iff, ?bool_decide_eq_false, ?bool_decide_eq_true; lia.
Qed.

Lemma struct_lookup {A} (l : list (option A)) n v :
  Z.of_nat (length l) = n → 1 ≤ v ≤ n → ∃ x, aget l (v - 1) = Some x ∧ l !! Z.to_nat (v - 1) = Some x.
Proof.
  intros Hl Hv. unfold aget. rewrite (proj2 (Z.ltb_ge _ _)) by lia.
  destruct (lookup_lt_is_Some_2 l (Z.to_nat (v - 1))) as [x Hx]; [lia|]. eauto.
Qed.

Lemma is_valid_spec p c :
  symbols_ok p → context_wf c → ∃ b, context_is_valid p c = Some b ∧ (b = true ↔ context_valid p c).
Proof.
  intros Hp (Hu & Hr & Ht & Hrg). unfold context_is_valid, context_valid. rewrite !range_test by done.
  case_bool_decide as Br; simpl; [|exists false; by split; [|split; [|tauto]]].
  case_bool_decide as Bu; simpl; [|exists false; by split; [|split; [|tauto]]].
  case_bool_decide as Bt; simpl; [|exists false; by split; [|split; [|tauto]]].
  assert (∃ b, mls_context_isvalid p c = Some b ∧ (b = true ↔ (nz (mls p) = true → mls_valid p c)))
    as (b & Hb & Hbv).
  { destruct (nz (mls p)) eqn:Hm.
    - destruct (mls_isvalid_spec p c Hm) as (b & ? & Hb); [by apply symbols_mls_tables|done|done|].
      exists b. split; [done|]. rewrite Hb. tauto.
    - exists true. unfold mls_context_isvalid. by rewrite Hm. }
  destruct (Z.eqb_spec (c_role c) OBJECT_R_VAL) as [Ho|Ho]; simpl.
  { exists b. split; [done|]. rewrite Hbv. tauto. }
  destruct (struct_lookup _ _ _ (so_role_structs p Hp) Br) as ([role|] & -> & Hrole); simpl; cycle 1.
  { exists false. split; [done|]. split; [done|]. intros (_ & _ & _ & [?|(? & ? & ? & _)] & _); congruence. }
  destruct (ebitmap_get_bit (rd_cache role) (c_type c - 1)) eqn:Ert; simpl; cycle 1.
  { exists false. split; [done|]. split; [done|]. intros (_ & _ & _ & [?|(? & ? & ? & _ & ? & _)] & _); congruence. }
  destruct (struct_lookup _ _ _ (so_user_structs p Hp) Bu) as ([user|] & -> & Huser); simpl; cycle 1.
  { exists false. split; [done|]. split; [done|]. intros (_ & _ & _ & [?|(? & ? & _ & ? & _)] & _); congruence. }
  destruct (ebitmap_get_bit (ud_cache user) (c_role c - 1)) eqn:Eur; simpl; cycle 1.
  { exists false. split; [done|]. split; [done|].
    intros (_ & _ & _ & [?|(? & ? & _ & ? & _ & ?)] & _); congruence. }
  exists b. split; [done|]. rewrite Hbv. split; [|tauto]. intros Hv. split_and!; try lia; [right|done].
  by exists role, user.
Qed.

(** ** With memory, the record functions cannot fail *)

Lemma strdup_ok s h : hp_oom h = [] → wp (strdup s) h (λ r h', r = Some s ∧ hp_oom h' = []).
Proof. intros Ho. unfold strdup. wp_step. apply wp_malloc_ok; [done|]. intros h' Ho'. by wp_step. Qed.

(** Runs the next [strdup]. *)
Ltac dup := wp_step; eapply wp_mono; [by apply strdup_ok|]; intros ? ? [-> ?]; cbn beta iota.

Lemma set_user_ok con s h :
  hp_oom h = [] → wp (sepol_context_set_user con s) h (λ r h',
    r = (STATUS_SUCCESS, SepolContext (Some s) (sc_role con) (sc_type con) (sc_mls con)) ∧ hp_oom h' = []).
Proof. intros Ho. unfold sepol_context_set_user. dup. by wp_step. Qed.

Lemma set_role_ok con s h :
  hp_oom h = [] → wp (sepol_context_set_role con s) h (λ r h',
    r = (STATUS_SUCCESS, SepolContext (sc_user con) (Some s) (sc_type con) (sc_mls con)) ∧ hp_oom h' = []).
Proof. intros Ho. unfold sepol_context_set_role. dup. by wp_step. Qed.

Lemma set_type_ok con s h :
  hp_oom h = [] → wp (sepol_context_set_type con s) h (λ r h',
    r = (STATUS_SUCCESS, SepolContext (sc_user con) (sc_role con) (Some s) (sc_mls con)) ∧ hp_oom h' = []).
Proof. intros Ho. unfold sepol_context_set_type. dup. by wp_step. Qed.

Lemma set_mls_ok con s h :
  hp_oom h = [] → wp (sepol_context_set_mls con s) h (λ r h',
    r = (STATUS_SUCCESS, SepolContext (sc_user con) (sc_role con) (sc_type con) (Some s)) ∧ hp_oom h' = []).
Proof. intros Ho. unfold sepol_context_set_mls. dup. by wp_step. Qed.

Lemma create_ok h :
  hp_oom h = [] → wp sepol_context_create h (λ r h',
    r = Some (SepolContext None None None None) ∧ hp_oom h' = []).
Proof.
  intros Ho. unfold sepol_context_create. wp_step. apply wp_malloc_ok; [done|]. intros h' Ho'. by wp_step.
Qed.

Create HintDb records.
#[export] Hint Resolve set_user_ok set_role_ok set_type_ok set_mls_ok create_ok : records.

(** Runs the next record operation. *)
Ltac record_op := wp_step; eapply wp_mono; [solve [eauto with records]|]; intros ? ? [-> ?]; cbn.

(** The text of a record. *)
Definition text_of (u r t : string) (m : option string) : string :=
  (u +:+ ":" +:+ r +:+ ":" +:+ t +:+ match m with Some m => ":" +:+ m | None => "" end)%string.

Lemma scan_colon s rest : free colon s = true → scan colon (s +:+ ":" +:+ rest)%string = (s, Some (":"%char, rest)).
Proof. intros Hs. rewrite scan_app by done. simpl. by rewrite str_app_nil_r, str_app_nil_l. Qed.

Lemma record_from_string_ok u r t m h :
  free colon u = true → free colon r = true → free colon t = true → hp_oom h = [] →
  wp (sepol_context_from_string (text_of u r t m)) h (λ q h',
    q = (STATUS_SUCCESS, Some (SepolContext (Some u) (Some r) (Some t) m)) ∧ hp_oom h' = []).
Proof.
  intros Hu Hr Ht Ho. unfold sepol_context_from_string. rewrite bool_decide_false; cycle 1.
  { intros H. assert (scan colon (text_of u r t m) = scan colon "<<none>>") as Hs by (by rewrite H).
    unfold text_of in Hs. by rewrite scan_colon in Hs. }
  record_op. dup. unfold text_of. rewrite scan_colon by done. cbn [fst snd].
  record_op. rewrite scan_colon by done. cbn [fst snd]. record_op. wp_step. unfold set_type_mls.
  destruct m as [m|].
  - rewrite scan_colon by done. cbn [fst snd]. record_op. eapply wp_mono; [by apply set_mls_ok|].
    intros ? ? [-> ?]. by wp_step.
  - rewrite str_app_nil_r, scan_free by done. cbn [snd]. eapply wp_mono; [by apply set_type_ok|].
    intros ? ? [-> ?]. by wp_step.
Qed.

(** ** Named contexts *)

(** The text of the range, [NULL] when the policy has no MLS. *)
Definition mls_part (p : policydb) (snm nm : Z → string) (rg : mls_range) : option string :=
  if nz (mls p) then Some (range_text snm nm rg) else None.

(** The policy names the components of [c] by [u], [r] and [t] both ways, the
    names have no colon, and the range can be printed. *)
Record context_named (p : policydb) (snm nm : Z → string) (c : context_struct) (u r t : string) : Prop := {
  cn_user : name_of (p_user_val_to_name p) (c_user c) = Some u ∧ free colon u = true ∧
    ∃ d, hashtab_search (s_table (p_users p)) u = Some (Some d) ∧ ud_value d = c_user c;
  cn_role : name_of (p_role_val_to_name p) (c_role c) = Some r ∧ free colon r = true ∧
    ∃ d, hashtab_search (s_table (p_roles p)) r = Some (Some d) ∧ rd_value d = c_role c;
  cn_type : name_of (p_type_val_to_name p) (c_type c) = Some t ∧ free colon t = true ∧
    ∃ d, hashtab_search (s_table (p_types p)) t = Some (Some d) ∧ td_value d = c_type c ∧
         td_flavor d ≠ TYPE_ATTRIB;
  cn_mls : nz (mls p) = true → names_ok p snm nm ∧ range_named p (c_range c);
  cn_nomls : nz (mls p) = false → c_range c = mls_range_init;
  cn_len : strlen (text_of u r t (mls_part p snm nm (c_range c))) < 2 ^ 31 - 2
}.

Section named.
Context (p : policydb) (snm nm : Z → string) (c : context_struct) (u r t : string).
Context (Hn : context_named p snm nm c u r t).

Local Notation part := (mls_part p snm nm (c_range c)).

Lemma mls_text :
  mls_sid_to_context p c = Some (match part with Some m => ":" +:+ m | None => "" end)%string.
Proof using Hn.
  unfold mls_part. destruct (nz (mls p)) eqn:Hm.
  - destruct (cn_mls _ _ _ _ _ _ _ Hn Hm). by erewrite sid_to_context_spec.
  - unfold mls_sid_to_context. by rewrite Hm.
Qed.

Lemma context_to_string_ok h :
  hp_oom h = [] →
  wp (context_to_string p c) h (λ q h',
    q = (STATUS_SUCCESS, Some (text_of u r t part, strlen (text_of u r t part) + 1)) ∧ hp_oom h' = []).
Proof using Hn.
  intros Ho. pose proof (cn_len _ _ _ _ _ _ _ Hn) as Hlen. unfold context_to_string.
  destruct (cn_user _ _ _ _ _ _ _ Hn) as (-> & _), (cn_role _ _ _ _ _ _ _ Hn) as (-> & _).
  destruct (cn_type _ _ _ _ _ _ _ Hn) as (-> & _).
  rewrite context_len_spec, mls_text. cbn [fmap option_fmap option_map]. do 8 wp_step. cbn zeta. wp_step.
  apply wp_malloc_ok; [done|]. intros h' Ho'. do 2 wp_step. fold (text_of u r t part). unfold text_of in *.
  revert Hlen. generalize (match part with Some m => ":" +:+ m | None => "" end)%string. intros ms Hlen.
  rewrite !strlen_app in *. change (strlen ":") with 1 in *.
  assert (0 ≤ strlen u ∧ 0 ≤ strlen r ∧ 0 ≤ strlen t ∧ 0 ≤ strlen ms) as Hpos by (unfold strlen; lia).
  rewrite u32_id by lia. unfold s32. rewrite !u32_id by lia.
  rewrite (proj2 (Z.ltb_lt (strlen ms) _)) by lia. unfold u64. rewrite Z.mod_small by lia.
  rewrite (proj2 (Z.eqb_eq _ _)) by lia. cbn [negb]. wp_step. split; [|done]. do 3 f_equal. lia.
Qed.

Lemma from_record_ok h :
  context_is_valid p c = Some true → hp_oom h = [] →
  wp (context_from_record p (Some (SepolContext (Some u) (Some r) (Some t) part))) h (λ q h',
    q = (STATUS_SUCCESS, Some c) ∧ hp_oom h' = []).
Proof using Hn.
  intros Hv Ho. unfold context_from_record. do 2 wp_step. cbn [sc_user sc_role sc_type sc_mls].
  do 2 wp_step. dup. do 2 wp_step. dup. do 2 wp_step. dup. wp_step.
  apply wp_malloc_ok; [done|]. intros h1 Ho1.
  destruct (cn_user _ _ _ _ _ _ _ Hn) as (_ & _ & ud & -> & Hud). do 2 wp_step.
  destruct (cn_role _ _ _ _ _ _ _ Hn) as (_ & _ & rd & -> & Hrd). do 2 wp_step.
  destruct (cn_type _ _ _ _ _ _ _ Hn) as (_ & _ & td & -> & Htd & Hfl). do 2 wp_step.
  rewrite (proj2 (Z.eqb_neq _ _) Hfl). wp_step. rewrite Hud, Hrd, Htd. unfold mls_part.
  destruct (nz (mls p)) eqn:Hm.
  - destruct (cn_mls _ _ _ _ _ _ _ Hn Hm). eapply wp_mono; [by eapply from_string_spec|].
    intros ? h2 [-> Ho2]. cbn iota. unfold set_range. cbn. replace (Context _ _ _ _) with c by (by destruct c).
    rewrite Hv. do 2 wp_step. by wp_step.
  - wp_step. cbn. rewrite <- (cn_nomls _ _ _ _ _ _ _ Hn Hm). replace (Context _ _ _ _) with c by (by destruct c).
    rewrite Hv. do 2 wp_step. by wp_step.
Qed.

Lemma to_record_ok h :
  hp_oom h = [] →
  wp (context_to_record p c) h (λ q h',
    q = (STATUS_SUCCESS, Some (SepolContext (Some u) (Some r) (Some t) part)) ∧ hp_oom h' = []).
Proof using Hn.
  intros Ho. pose proof (cn_len _ _ _ _ _ _ _ Hn) as Hlen. unfold context_to_record, text_of in *. record_op.
  destruct (cn_user _ _ _ _ _ _ _ Hn) as (-> & _). do 2 wp_step. record_op.
  destruct (cn_role _ _ _ _ _ _ _ Hn) as (-> & _). do 2 wp_step. record_op.
  destruct (cn_type _ _ _ _ _ _ _ Hn) as (-> & _). do 2 wp_step. record_op. unfold mls_part in *.
  destruct (nz (mls p)) eqn:Hm; [|by wp_step]. destruct (cn_mls _ _ _ _ _ _ _ Hn Hm). wp_step.
  eapply wp_mono; [eapply to_string_spec; try done|].
  - rewrite !strlen_app in Hlen. unfold strlen in *. lia.
  - intros ? ? [-> ?]. cbn. do 2 wp_step. by record_op.
Qed.

Lemma record_to_string_ok h :
  hp_oom h = [] →
  wp (sepol_context_to_string (SepolContext (Some u) (Some r) (Some t) part)) h (λ q h',
    q = (STATUS_SUCCESS, Some (text_of u r t part)) ∧ hp_oom h' = []).
Proof using Hn.
  intros Ho. pose proof (cn_len _ _ _ _ _ _ _ Hn) as Hlen. unfold sepol_context_to_string.
  cbn [sc_user sc_role sc_type sc_mls]. do 6 wp_step. wp_step. apply wp_malloc_ok; [done|].
  intros h' Ho'. fold (text_of u r t part). rewrite (proj2 (Z.ltb_ge _ _)) by lia. by wp_step.
Qed.
End named.

(** ** Arbitrary text *)

Lemma strdup_any s h : wp (strdup s) h (λ r _, r = Some s ∨ r = None).
Proof. unfold strdup. wp_step. apply wp_any_malloc. intros r h'. wp_step. destruct r; auto. Qed.

Definition full (con : sepol_context) : Prop :=
  ∃ u r t m, con = SepolContext (Some u) (Some r) (Some t) m.

Ltac dup_any := wp_step; eapply wp_mono; [apply strdup_any|]; intros ? ? [-> | ->]; cbn; [|solve [repeat wp_step; eauto]].

Lemma record_from_string_any str h :
  str ≠ "<<none>>"%string →
  wp (sepol_context_from_string str) h (λ q _,
    (q.1 = STATUS_SUCCESS ∧ ∃ con, q.2 = Some con ∧ full con) ∨ q = (STATUS_ERR, None)).
Proof.
  intros Hs. unfold sepol_context_from_string. rewrite bool_decide_false by done.
  wp_step. unfold sepol_context_create. wp_step. apply wp_any_malloc. intros [a|] h0; wp_step; [|wp_step; auto].
  dup_any. destruct (scan colon str).2 as [[? high]|]; [|wp_step; auto].
  wp_step. unfold sepol_context_set_user. dup_any. destruct (scan colon high).2 as [[? rest]|]; [|wp_step; auto].
  wp_step. unfold sepol_context_set_role. dup_any. wp_step. unfold set_type_mls.
  destruct (scan colon rest).2 as [[? m]|].
  - wp_step. unfold sepol_context_set_type. dup_any. unfold sepol_context_set_mls. dup_any.
    left. split; [done|]. eexists. split; [done|]. by do 4 eexists.
  - unfold sepol_context_set_type. dup_any. left. split; [done|]. eexists. split; [done|]. by do 4 eexists.
Qed.

(** Success with a valid context, or failure. *)
Definition valid_or_error (p : policydb) (q : Z * option context_struct) : Prop :=
  (q.1 = STATUS_SUCCESS ∧ ∃ c, q.2 = Some c ∧ context_wf c ∧ context_valid p c) ∨ q = (STATUS_ERR, None).

Lemma checked_valid p c h :
  symbols_ok p → context_wf c →
  wp (valid ← get (context_is_valid p c);
      if negb valid then mret (STATUS_ERR, None) else mret (STATUS_SUCCESS, Some c)) h
    (λ q _, valid_or_error p q).
Proof.
  intros Hp Hc. destruct (is_valid_spec p c Hp Hc) as (b & -> & Hb). do 2 wp_step.
  destruct b; cbn [negb]; wp_step; [left|by right]. split; [done|]. exists c. split; [done|]. split; [done|]. by apply Hb.
Qed.

Lemma from_record_any p con h :
  symbols_ok p → full con → wp (context_from_record p (Some con)) h (λ q _, valid_or_error p q).
Proof.
  intros Hp (u & r & t & m & ->). unfold context_from_record. do 2 wp_step. cbn [sc_user sc_role sc_type sc_mls].
  wp_step. wp_step. wp_step. eapply wp_mono; [apply strdup_any|]. intros user h1 Hu.
  do 2 wp_step. wp_step. eapply wp_mono; [apply strdup_any|]. intros role h2 Hr.
  do 2 wp_step. wp_step. eapply wp_mono; [apply strdup_any|]. intros type h3 Ht.
  wp_step. apply wp_any_malloc. intros a h4.
  destruct Hu as [-> | ->]; [|wp_step; by right]. destruct Hr as [-> | ->]; [|wp_step; by right].
  destruct Ht as [-> | ->]; [|wp_step; by right]. destruct a as [a|]; [|wp_step; by right].
  destruct (sym_search _ _ u (so_users p Hp)) as ([ud|] & -> & Hud); do 2 wp_step; [|wp_step; by right].
  destruct (sym_search _ _ r (so_roles p Hp)) as ([rd|] & -> & Hrd); do 2 wp_step; [|wp_step; by right].
  destruct (sym_search _ _ t (so_types p Hp)) as ([td|] & -> & Htd); do 2 wp_step; [|wp_step; by right].
  wp_step; [wp_step; by right|]. specialize (Hud _ eq_refl). specialize (Hrd _ eq_refl). specialize (Htd _ eq_refl).
  assert (range_wf mls_range_init) as Hinit by (split; (split; [simpl; lia|apply wf_init])).
  wp_step. destruct m as [m|], (nz (mls p)) eqn:Hm.
  - eapply wp_mono; [apply from_string_safe; [done|apply Hinit|apply Hinit|done]|].
    intros [rc c] h5 [[Hrc (rg & Hc & Hrg)]|Hrc]; simpl in Hrc; subst rc; cbn -[context_is_valid].
    + simpl in Hc. subst c. apply checked_valid; [done|]. split_and!; [done|done|done|apply Hrg].
    + by right.
  - wp_step. cbn -[context_is_valid]. by right.
  - wp_step. cbn -[context_is_valid]. by right.
  - wp_step. cbn -[context_is_valid]. apply checked_valid; [done|]. split_and!; [done|done|done|apply Hinit].
Qed.

Lemma substring_whole s n : (String.length s ≤ n)%nat → String.substring 0 n s = s.
Proof.
  revert n. induction s as [|x s IH]; intros [|n] Hn; simpl in *; [done|done|lia|]. f_equal. apply IH. lia.
Qed.

(** ** The properties *)

(** C23: [context_is_valid] decides validity of a context under the policy: the
    user, role and type values are in range, the role is [object_r] or is
    authorized for the type and the user for the role, and with MLS the range
    is valid and within the user's.  It never indexes outside the tables. *)
Theorem context_is_valid_correct p c :
  symbols_ok p → context_wf c → ∃ b, context_is_valid p c = Some b ∧ (b = true ↔ context_valid p c).
Proof. apply is_valid_spec. Qed.

(** C37: For every string other than [<<none>>] and however memory runs out,
    [context_from_string] returns: an error, or success with a valid context. *)
Theorem context_from_string_safe p s len h :
  symbols_ok p → 0 ≤ len ≤ strlen s + 1 → String.substring 0 (Z.to_nat len) s ≠ "<<none>>"%string →
  wp (context_from_string p s len) h (λ q _, valid_or_error p q).
Proof.
  intros Hp Hlen Hs. unfold context_from_string. wp_step; [by right|]. wp_step.
  apply wp_any_malloc. intros [a|] h0; [|wp_step; by right]. rewrite (proj2 (Z.ltb_ge _ _)) by lia.
  wp_step. eapply wp_mono; [by apply record_from_string_any|].
  intros [rc con] h1 [[Hrc (con' & Hc & Hf)]|[= -> ->]]; [|by right].
  simpl in Hrc, Hc. subst. cbn. wp_step. eapply wp_mono; [by apply from_record_any|].
  intros [rc c] h2 [[Hrc (c' & Hc & Hv)]|[= -> ->]]; [|by right].
  simpl in Hrc, Hc. subst. left. simpl. eauto.
Qed.


(** The record form agrees with the text form: [context_to_record] succeeds,
    [context_from_record] of the record returns the context, and
    [sepol_context_to_string] of the record is the text [context_to_string]
    produces. *)
Theorem context_record_roundtrip p snm nm c u r t h :
  context_named p snm nm c u r t → context_is_valid p c = Some true → hp_oom h = [] →
  wp (context_to_record p c) h (λ q h', ∃ rec, q = (STATUS_SUCCESS, Some rec) ∧
    wp (context_from_record p (Some rec)) h' (λ q _, q = (STATUS_SUCCESS, Some c)) ∧
    wp (sepol_context_to_string rec) h' (λ q h'', ∃ s, q = (STATUS_SUCCESS, Some s) ∧
      wp (context_to_string p c) h'' (λ q _, q = (STATUS_SUCCESS, Some (s, strlen s + 1))))).
Proof.
  intros Hn Hv Ho. eapply wp_mono; [by eapply to_record_ok|]. intros ? h1 [-> Ho1].
  eexists. split; [done|]. split.
  - eapply wp_mono; [by eapply from_record_ok|]. by intros ? h2 [-> _].
  - eapply wp_mono; [by eapply record_to_string_ok|]. intros ? h2 [-> Ho2]. eexists. split; [done|].
    eapply wp_mono; [by eapply context_to_string_ok|]. by intros ? h3 [-> _].
Qed.

(** The text [<<none>>] has no record, and [context_from_string] dereferences
    the null pointer. *)
Theorem context_from_string_none p h :
  hp_oom h = [] → context_from_string p "<<none>>" 8 h = None.
Proof. destruct h as [n o]. simpl. by intros ->. Qed.

(** ** A policy with a user, two roles, two types and an attribute *)

Definition staff_user : user_datum :=
  UserDatum 1 (of_bits [1]) (of_bits [1]) (MlsRange (lvl 1 []) (lvl 2 [0; 1; 2; 3])) (lvl 1 []) 0.
Definition staff_roles : list (string * role_datum) :=
  [("object_r"%string, RoleDatum 1 (of_bits [0]) ebitmap_init ebitmap_init 0);
   ("staff_r"%string, RoleDatum 2 (of_bits [1]) (of_bits [0]) (of_bits [0]) 0)].
Definition staff_types : list (string * type_datum) :=
  [("staff_t"%string, TypeDatum 1 1 TYPE_TYPE ebitmap_init 0 0);
   ("file_t"%string, TypeDatum 2 1 TYPE_TYPE ebitmap_init 0 0);
   ("domain"%string, TypeDatum 3 1 TYPE_ATTRIB (of_bits [0]) 0 0)].
Definition staff_policy : policydb :=
  Policydb 1 (Symtab None 0) (Symtab (ht_of 2 staff_roles) 2) (Symtab (ht_of 2 staff_types) 3)
    (Symtab (ht_of 2 [("staff_u"%string, staff_user)]) 1) 0 demo_levels demo_cats
    [] (Some <$> staff_roles.*1) (Some <$> staff_types.*1) [Some "staff_u"%string]
    [Some "s0"%string; Some "s1"%string]
    [Some "c0"%string; Some "c1"%string; Some "c2"%string; Some "c3"%string] []
    [] (Some <$> staff_roles.*2) [Some staff_user] (Some <$> staff_types.*2)
    (Avtab None 0 0 0) [] (Avtab None 0 0 0) [] [] [] [] [] None [] [] ebitmap_init 33 0 2 0 0 0 POLICY_KERN (Symtab None 0) None [] None 0 ebitmap_init 0.
Definition staff_context : context_struct := Context 1 2 1 (MlsRange (lvl 1 [1]) (lvl 2 [0; 1; 2])).

(** The data of a table, checked. *)
Definition sym_check {V} (f : V → bool) (s : symtab V) : bool :=
  match s_table s with Some h => forallb (λ e, f e.2) (concat (ht_table h)) | None => false end.

Lemma sym_check_ok {V} (P : V → Prop) (f : V → bool) k l n :
  0 ≤ k ≤ 31 → sym_check f (Symtab (ht_of k l) n) = true → (∀ d, f d = true → P d) →
  sym_ok (Symtab (ht_of k l) n) P.
Proof.
  intros Hk Hc HP. destruct (ht_of_wf k l Hk) as (h & Hh & Hwf). exists h. split; [done|]. split; [done|].
  intros key d Hd%elem_of_list_to_map_2. unfold sym_check in Hc. simpl in Hc. rewrite Hh in Hc.
  rewrite forallb_forall in Hc. apply HP. by apply (Hc (key, d)), list_elem_of_In.
Qed.

Lemma staff_symbols : symbols_ok staff_policy.
Proof.
  split; try reflexivity.
  - apply (sym_check_ok _ (λ d, 0 <=? ud_value d)); [lia|vm_compute; reflexivity|intros; zbool; lia].
  - apply (sym_check_ok _ (λ d, 0 <=? rd_value d)); [lia|vm_compute; reflexivity|intros; zbool; lia].
  - apply (sym_check_ok _ (λ d, 0 <=? td_value d)); [lia|vm_compute; reflexivity|intros; zbool; lia].
  - apply (sym_check_ok _ (λ d, (0 <=? sens (ld_level d)) && (sens (ld_level d) <? 2 ^ 32)));
      [lia|vm_compute; reflexivity|intros ? [? ?]%andb_true_iff; zbool; lia].
  - apply (sym_check_ok _ (λ d, (0 <=? cd_value d) && (cd_value d <? 2 ^ 32)));
      [lia|vm_compute; reflexivity|intros ? [? ?]%andb_true_iff; zbool; lia].
Qed.

Lemma staff_named :
  context_named staff_policy demo_sens_name demo_cat_name staff_context "staff_u" "staff_r" "staff_t".
Proof.
  split.
  - split_and!; [reflexivity|reflexivity|eexists; split; vm_compute; reflexivity].
  - split_and!; [reflexivity|reflexivity|eexists; split; vm_compute; reflexivity].
  - split_and!; [reflexivity|reflexivity|]. eexists. split_and!; [vm_compute; reflexivity..|discriminate].
  - intros _. split; [destruct demo_names_ok as [A B C]; by split; [exact A|exact B|exact C]|].
    split; (apply demo_level_named; [lia|repeat constructor; lia|exact I|]);
      intros i Hi%of_bits_spec; first [set_solver by lia|repeat constructor; lia].
  - discriminate.
  - vm_compute. reflexivity.
Qed.

Lemma context_is_valid_correct_witness :
  (∃ b, context_is_valid staff_policy staff_context = Some b ∧
     (b = true ↔ context_valid staff_policy staff_context)) ∧
  context_is_valid staff_policy staff_context = Some true ∧
  context_is_valid staff_policy (Context 1 2 2 (c_range staff_context)) = Some false.
Proof.
  split; [|split; vm_compute; reflexivity]. apply context_is_valid_correct; [apply staff_symbols|].
  split_and!; [simpl; lia..|]. split; lvl_wf.
Defined.

Lemma context_from_string_safe_witness :
  wp (context_from_string staff_policy "staff_u:staff_r:staff_t:s0:c1" 29) (Heap 0 [])
    (λ q _, valid_or_error staff_policy q) ∧
  (fst <$> context_from_string staff_policy "staff_u:staff_r:domain:s0" 25 (Heap 0 [])) = Some (-1, None).
Proof.
  split; [|vm_compute; reflexivity].
  apply context_from_string_safe; [apply staff_symbols|vm_compute; split; discriminate|discriminate].
Defined.


Lemma context_record_roundtrip_witness :
  wp (context_to_record staff_policy staff_context) (Heap 0 []) (λ q h', ∃ rec,
    q = (STATUS_SUCCESS, Some rec) ∧
    wp (context_from_record staff_policy (Some rec)) h' (λ q _, q = (STATUS_SUCCESS, Some staff_context)) ∧
    wp (sepol_context_to_string rec) h' (λ q h'', ∃ s, q = (STATUS_SUCCESS, Some s) ∧
      wp (context_to_string staff_policy staff_context) h''
        (λ q _, q = (STATUS_SUCCESS, Some (s, strlen s + 1))))).
Proof.
  apply (context_record_roundtrip staff_policy demo_sens_name demo_cat_name staff_context
           "staff_u" "staff_r" "staff_t"); [apply staff_named|vm_compute; reflexivity|reflexivity].
Defined.
