(* ===== verification/Constraint.v ===== *)
(** * Constraint evaluation

    [constraint_expr_eval_reason] of [src/services.c] with the text it builds:
    the expression buffers, the stack that turns reverse Polish notation into
    infix text and the caller's reason buffer; and [sepol_av_to_string] of
    [src/util.c].  The static variables of the file that outlive a call are the
    fields of [text_state].  Text is shorter than [INT_MAX]. *)

From S2P Require Import Prelude Ebitmap Hashtab Avtab Mls Policydb MlsPolicy Rpn Context.

Definition EXPR_BUF_SIZE : Z := 1024.
Definition STACK_LEN : Z := 32.
Definition REASON_BUF_SIZE : Z := 2048.
Definition SHOW_GRANTED : Z := 1.
Definition POLICYDB_VERSION_CONSTRAINT_NAMES : Z := 29.

(** What [snprintf] stores in [size] bytes. *)
Definition snprintf (size : Z) (s : string) : string := String.substring 0 (Z.to_nat (size - 1)) s.

(** ** Permission names ([util.c]) *)

Definition perm_name (val : Z) (key : string) (datum : Z) (name : option string) : M (Z * option string) :=
  if val =? datum then mret (1, Some key) else mret (0, name).

(** [perm] keeps the name found for an earlier bit. *)
Fixpoint av_bits (todo : nat) (i : Z) (cladatum : class_datum) (av : Z) (name perm : option string)
    (avbuf : string) : M (option string) :=
  match todo with
  | O => mret (Some avbuf)
  | S todo =>
     if 32 <=? i then ub
     else if negb (nz (Z.land av (Z.shiftl 1 i))) then av_bits todo (i + 1) cladatum av name perm avbuf
     else
       '(rc, name) ← hashtab_map (s_table (cl_permissions cladatum)) (perm_name (i + 1)) name;
       '(rc, name) ←
         match cl_comdatum cladatum with
         | Some comdatum =>
            if negb (nz rc) then hashtab_map (s_table (cm_permissions comdatum)) (perm_name (i + 1)) name
            else mret (rc, name)
         | None => mret (rc, name)
         end;
       let perm := if nz rc then name else perm in
       match perm with
       | None => av_bits todo (i + 1) cladatum av name perm avbuf
       | Some s =>
          if 1024 <=? strlen avbuf + (1 + strlen s) then mret None
          else av_bits todo (i + 1) cladatum av name perm (avbuf +:+ " " +:+ s)
       end
  end.

Definition sepol_av_to_string (p : policydb) (tclass av : Z) : M (option string) :=
  cladatum ← get (aget (class_val_to_struct p) (u32 (tclass - 1)) ≫= id);
  av_bits (Z.to_nat (s_nprim (cl_permissions cladatum))) 0 cladatum av None None "".

(** ** Expression buffers *)

(** A buffer of [expr_list]: its text, [expr_buf_used] and [expr_buf_len]. *)
Record expr_buf := ExprBuf { eb_text : string; eb_used : Z; eb_len : Z }.

Fixpoint cat_loop (fuel : nat) (b : expr_buf) (s : string) : M expr_buf :=
  match fuel with
  | O => ub
  | S fuel =>
     let room := eb_len b - eb_used b in
     let text := String.substring 0 (Z.to_nat (eb_used b)) (eb_text b) +:+ snprintf room s in
     if strlen s >=? room then
       new_buf ← malloc;
       match new_buf with
       | None => mret (ExprBuf text (eb_used b) (eb_len b))
       | Some _ => cat_loop fuel (ExprBuf text (eb_used b) (eb_len b + EXPR_BUF_SIZE)) s
       end
     else mret (ExprBuf text (eb_used b + strlen s) (eb_len b))
  end.

(** Every iteration but the last adds [EXPR_BUF_SIZE] to the room. *)
Definition cat_expr_buf (b : expr_buf) (s : string) : M expr_buf :=
  cat_loop (S (S (Z.to_nat (strlen s)))) b s.

Definition msgcat (src tgt op : string) (failed : bool) (b : expr_buf) : M expr_buf :=
  cat_expr_buf b
    (snprintf 128
       (if failed then "(" +:+ src +:+ " " +:+ op +:+ " " +:+ tgt +:+ " -Fail-) "
        else "(" +:+ src +:+ " " +:+ op +:+ " " +:+ tgt +:+ ") ")).

(** The bits of [for (i = ebitmap_startbit(types); i < ebitmap_length(types); i++)]
    that are set. *)
Definition listed (types : ebitmap) : list Z :=
  filter (λ i, ebitmap_get_bit types i = true)
    (seqZ (ebitmap_startbit types) (ebitmap_length types - ebitmap_startbit types)).

Definition val_to_name (p : policydb) (type : Z) : list (option string) :=
  if type =? CEXPR_USER then p_user_val_to_name p
  else if type =? CEXPR_ROLE then p_role_val_to_name p
  else p_type_val_to_name p.

Fixpoint cat_names (p : policydb) (type : Z) (l : list Z) (b : expr_buf) : M expr_buf :=
  match l with
  | [] => mret b
  | i :: l =>
     n ← get (aget (val_to_name p type) i ≫= id);
     b ← cat_expr_buf b (snprintf 128 (" " +:+ n));
     cat_names p type l b
  end.

Definition get_name_list (p : policydb) (e : constraint_expr) (type : Z) (src op : string)
    (failed : bool) (b : expr_buf) : M expr_buf :=
  types ← get (if (policy_type p =? POLICY_KERN) &&
                  (POLICYDB_VERSION_CONSTRAINT_NAMES <=? policyvers p) && (type =? CEXPR_TYPE)
               then ts_types <$> ce_type_names e else Some (ce_names e));
  let l := listed types in
  let counter := Z.of_nat (length l) in
  b ← cat_expr_buf b (snprintf 128 ("(" +:+ src +:+ op));
  b ← (if counter =? 0 then cat_expr_buf b "<empty_set> " else mret b);
  b ← (if 1 <? counter then cat_expr_buf b " {" else mret b);
  b ← cat_names p type l b;
  b ← (if 1 <? counter then cat_expr_buf b " }" else mret b);
  cat_expr_buf b (if failed then " -Fail-) " else ") ").

(** ** The statement *)

(** The permissions of a [constrain] statement; the string is used at once. *)
Definition perms_text (p : policydb) (tclass : Z) (constraint : constraint_node) (state_num : Z) : M string :=
  if state_num <? 2 then
    av ← sepol_av_to_string p tclass (cn_permissions constraint);
    av ← get av;
    mret ("{" +:+ av +:+ " } (")
  else mret "(".

(** [realloc] and another attempt until the whole text fits; an attempt stops at
    the first part that does not. *)
Fixpoint class_loop (fuel : nat) (text : string) (class_buf_len : Z) : M (option string) :=
  match fuel with
  | O => ub
  | S fuel =>
     new_class_buf ← malloc;
     match new_class_buf with
     | None => mret None
     | Some _ =>
        if strlen text <? class_buf_len + EXPR_BUF_SIZE then mret (Some text)
        else class_loop fuel text (class_buf_len + EXPR_BUF_SIZE)
     end
  end.

Definition get_class_info (p : policydb) (tclass : Z) (constraint : constraint_node)
    (xcontext : option context_struct) : M (option string) :=
  let mls := b2z (existsb (λ e, CEXPR_L1L2 <=? ce_attr e) (cn_expr constraint)) in
  let state_num := match xcontext with None => mls | Some _ => mls + 2 end in
  statement ← get (["constrain "; "mlsconstrain "; "validatetrans "; "mlsvalidatetrans "]%string
                     !! Z.to_nat state_num);
  name ← get (aget (p_class_val_to_name p) (u32 (tclass - 1)) ≫= id);
  perms ← perms_text p tclass constraint state_num;
  let text := (statement +:+ name +:+ " " +:+ perms)%string in
  class_loop (S (Z.to_nat (strlen text))) text 0.

(** ** Operands *)

(** The two names of an attribute; [None] is the [BUG] of an unknown one. *)
Definition attr_names (attr : Z) : option (string * string) :=
  if attr =? CEXPR_USER then Some ("u1", "u2")
  else if attr =? CEXPR_TYPE then Some ("t1", "t2")
  else if attr =? CEXPR_ROLE then Some ("r1", "r2")
  else if attr =? CEXPR_L1L2 then Some ("l1", "l2")
  else if attr =? CEXPR_L1H2 then Some ("l1", "h2")
  else if attr =? CEXPR_H1L2 then Some ("h1", "l2")
  else if attr =? CEXPR_H1H2 then Some ("h1", "h2")
  else if attr =? CEXPR_L1H1 then Some ("l1", "h1")
  else if attr =? CEXPR_L2H2 then Some ("l2", "h2")
  else None.

(** The final [switch] of [CEXPR_ATTR]: [None] is its [BUG]. *)
Definition eq_op (op : Z) (equal : bool) : option (bool * string) :=
  if op =? CEXPR_EQ then Some (equal, "=="%string)
  else if op =? CEXPR_NEQ then Some (negb equal, "!="%string)
  else None.

Definition mls_ops (op : Z) (l1 l2 : mls_level) : option (bool * string) :=
  if op =? CEXPR_EQ then Some (mls_level_eq l1 l2, "eq"%string)
  else if op =? CEXPR_NEQ then Some (negb (mls_level_eq l1 l2), "!="%string)
  else if op =? CEXPR_DOM then Some (mls_level_dom l1 l2, "dom"%string)
  else if op =? CEXPR_DOMBY then Some (mls_level_dom l2 l1, "domby"%string)
  else if op =? CEXPR_INCOMP then Some (mls_level_incomp l2 l1, "incomp"%string)
  else None.

(** The roles are read before the operator is looked at, and only dominance
    dereferences them. *)
Definition role_ops (p : policydb) (op val1 val2 : Z) : option (option (bool * string)) :=
  r1 ← aget (role_val_to_struct p) (u32 (val1 - 1));
  r2 ← aget (role_val_to_struct p) (u32 (val2 - 1));
  if op =? CEXPR_DOM then
    r1 ← r1; Some (Some (ebitmap_get_bit (rd_dominates r1) (u32 (val2 - 1)), "dom"%string))
  else if op =? CEXPR_DOMBY then
    r2 ← r2; Some (Some (ebitmap_get_bit (rd_dominates r2) (u32 (val1 - 1)), "domby"%string))
  else if op =? CEXPR_INCOMP then
    r1 ← r1;
    if ebitmap_get_bit (rd_dominates r1) (u32 (val2 - 1)) then Some (Some (false, "incomp"%string))
    else
      r2 ← r2;
      Some (Some (negb (ebitmap_get_bit (rd_dominates r2) (u32 (val1 - 1))), "incomp"%string))
  else Some (eq_op op (val1 =? val2)).

Definition attr_value (p : policydb) (sc tc : context_struct) (e : constraint_expr) :
    option (option (bool * string)) :=
  let attr := ce_attr e in
  let op := ce_op e in
  if attr =? CEXPR_USER then Some (eq_op op (c_user sc =? c_user tc))
  else if attr =? CEXPR_TYPE then Some (eq_op op (c_type sc =? c_type tc))
  else if attr =? CEXPR_ROLE then role_ops p op (c_role sc) (c_role tc)
  else if attr =? CEXPR_L1L2 then Some (mls_ops op (level0 (c_range sc)) (level0 (c_range tc)))
  else if attr =? CEXPR_L1H2 then Some (mls_ops op (level0 (c_range sc)) (level1 (c_range tc)))
  else if attr =? CEXPR_H1L2 then Some (mls_ops op (level1 (c_range sc)) (level0 (c_range tc)))
  else if attr =? CEXPR_H1H2 then Some (mls_ops op (level1 (c_range sc)) (level1 (c_range tc)))
  else if attr =? CEXPR_L1H1 then Some (mls_ops op (level0 (c_range sc)) (level1 (c_range sc)))
  else if attr =? CEXPR_L2H2 then Some (mls_ops op (level0 (c_range tc)) (level1 (c_range tc)))
  else Some None.

(** The context of [CEXPR_NAMES] and its number. *)
Definition names_context (sc tc : context_struct) (xc : option context_struct) (attr : Z) :
    option context_struct * string :=
  if nz (Z.land attr CEXPR_TARGET) then (Some tc, "2"%string)
  else if nz (Z.land attr CEXPR_XTARGET) then (xc, "3"%string)
  else (Some sc, "1"%string).

(** The field, its letter and [u_r_t]; [None] is the [BUG]. *)
Definition names_field (c : context_struct) (attr : Z) : option (Z * string * Z) :=
  if nz (Z.land attr CEXPR_USER) then Some (c_user c, "u"%string, CEXPR_USER)
  else if nz (Z.land attr CEXPR_ROLE) then Some (c_role c, "r"%string, CEXPR_ROLE)
  else if nz (Z.land attr CEXPR_TYPE) then Some (c_type c, "t"%string, CEXPR_TYPE)
  else None.

(** ** Evaluation *)

(** [expr_list] holds the texts of the expressions seen so far, [el_len] is
    [expr_list_len]; [src] and [tgt] are duplicated anew for every operand. *)
Record eval_state := EvalState { ev_stack : stack; ev_texts : list string; el_len : Z }.

(** How an expression ends: with the stack and its text, or with [goto out]. *)
Inductive flow := Next (s : stack) (text : string) | Out (rc : Z).

Definition finish (s : stack) (b : M expr_buf) : M flow :=
  b ← b; mret (Next s (eb_text b)).

Definition sp_full (s : stack) : bool := sk_sp s =? CEXPR_MAXDEPTH - 1.

Definition eval_operator (e : constraint_expr) (s : stack) (b : expr_buf) : M flow :=
  if ce_expr_type e =? CEXPR_NOT then
    if sk_sp s <? 0 then mret (Out (- EINVAL))
    else s ← get (stack_un (λ x, b2z (negb (nz x))) s); finish s (cat_expr_buf b "not")
  else if ce_expr_type e =? CEXPR_AND then
    if sk_sp s <? 1 then mret (Out (- EINVAL))
    else s ← get (stack_bin Z.land s); finish s (cat_expr_buf b "and")
  else
    if sk_sp s <? 1 then mret (Out (- EINVAL))
    else s ← get (stack_bin Z.lor s); finish s (cat_expr_buf b "or").

Definition eval_attr (p : policydb) (sc tc : context_struct) (e : constraint_expr) (s : stack)
    (b : expr_buf) : M flow :=
  if sp_full s then mret (Out 0)
  else
    match attr_names (ce_attr e) with
    | None => mret (Out 0)
    | Some (src, tgt) =>
       src ← strdup src;
       tgt ← strdup tgt;
       r ← get (attr_value p sc tc e);
       match r with
       | None => mret (Out 0)
       | Some (v, op) =>
          s ← get (stack_push s (b2z v));
          src ← get src;
          tgt ← get tgt;
          finish s (msgcat src tgt op (negb v) b)
       end
    end.

Definition eval_names (p : policydb) (sc tc : context_struct) (xc : option context_struct)
    (e : constraint_expr) (s : stack) (b : expr_buf) : M flow :=
  if sp_full s then mret (Out 0)
  else
    let '(c, num) := names_context sc tc xc (ce_attr e) in
    match c with
    | None => mret (Out 0)
    | Some c =>
       match names_field c (ce_attr e) with
       | None => mret (Out 0)
       | Some (val1, letter, u_r_t) =>
          src ← strdup (letter +:+ num +:+ " ");
          match eq_op (ce_op e) (ebitmap_get_bit (ce_names e) (u32 (val1 - 1))) with
          | None => mret (Out 0)
          | Some (v, op) =>
             s ← get (stack_push s (b2z v));
             src ← get src;
             finish s (get_name_list p e u_r_t src op (negb v) b)
          end
       end
    end.

Definition eval_expr (p : policydb) (sc tc : context_struct) (xc : option context_struct)
    (e : constraint_expr) (s : stack) (b : expr_buf) : M flow :=
  if (ce_expr_type e =? CEXPR_NOT) || (ce_expr_type e =? CEXPR_AND) || (ce_expr_type e =? CEXPR_OR) then
    eval_operator e s b
  else if ce_expr_type e =? CEXPR_ATTR then eval_attr p sc tc e s b
  else if ce_expr_type e =? CEXPR_NAMES then eval_names p sc tc xc e s b
  else mret (Out 0).

(** [goto out] with [expr_counter]: when it is not 0 the loop that frees the
    buffers looks for a null pointer, and the elements of [expr_list] above the
    buffer of the current expression were never written. *)
Definition leave {A} (expr_counter rc : Z) : M (Z + A) :=
  if expr_counter =? 0 then mret (inl rc) else ub.

(** The loop over the expressions.  When the buffer of an expression cannot be
    allocated its null pointer ends the loop that frees them. *)
Fixpoint eval_exprs (p : policydb) (sc tc : context_struct) (xc : option context_struct)
    (es : list constraint_expr) (st : eval_state) : M (Z + eval_state) :=
  match es with
  | [] => mret (inr st)
  | e :: es =>
     let expr_counter := Z.of_nat (length (ev_texts st)) in
     grown ← (if el_len st <=? expr_counter then malloc else mret (Some 0));
     match grown with
     | None => leave expr_counter (- ENOMEM)
     | Some _ =>
        let len := if el_len st <=? expr_counter
                   then (if el_len st =? 0 then STACK_LEN else el_len st * 2) else el_len st in
        buf ← malloc;
        match buf with
        | None => mret (inl (- ENOMEM))
        | Some _ =>
           r ← eval_expr p sc tc xc e (ev_stack st) (ExprBuf "" 0 EXPR_BUF_SIZE);
           match r with
           | Out rc => leave expr_counter rc
           | Next s text => eval_exprs p sc tc xc es (EvalState s (ev_texts st ++ [text]) len)
           end
        end
     end
  end.

(** ** Infix text *)

(** The caller's buffer with [reason_buf_used] and [reason_buf_len]. *)
Record reason_buf := ReasonBuf { rb_text : option string; rb_used : Z; rb_len : Z }.

(** [stack] (its top first), [stack_len] and the reason buffer. *)
Record text_state := TextState { ts_stack : list string; ts_stack_len : Z; ts_reason : reason_buf }.

Definition set_stack (t : text_state) (l : list string) (len : Z) : text_state :=
  TextState l len (ts_reason t).

(** Without memory the entry is dropped. *)
Definition push (t : text_state) (expr_ptr : string) : M text_state :=
  if ts_stack_len t <=? Z.of_nat (length (ts_stack t)) then
    new_stack ← malloc;
    match new_stack with
    | None => mret t
    | Some _ =>
       mret (set_stack t (expr_ptr :: ts_stack t)
               (if ts_stack_len t =? 0 then STACK_LEN else ts_stack_len t * 2))
    end
  else mret (set_stack t (expr_ptr :: ts_stack t) (ts_stack_len t)).

Definition pop (t : text_state) : option string * text_state :=
  match ts_stack t with
  | [] => (None, t)
  | s :: l => (Some s, set_stack t l (ts_stack_len t))
  end.

Definition starts_with (prefix s : string) : bool := String.prefix prefix s.

(** One iteration of the conversion; [inl] is [goto out]. *)
Definition infix_step (t : text_state) (e : string) : M ((Z * text_state) + text_state) :=
  if starts_with "and" e || starts_with "or" e then
    let '(b, t) := pop t in
    b ← get b;
    let '(a, t) := pop t in
    a ← get a;
    r ← malloc;
    match r with
    | None => mret (inl (- ENOMEM, t))
    | Some _ => t ← push t (a +:+ " " +:+ e +:+ " " +:+ b); mret (inr t)
    end
  else if starts_with "not" e then
    let '(b, t) := pop t in
    b ← get b;
    r ← malloc;
    match r with
    | None => mret (inl (- ENOMEM, t))
    | Some _ =>
       t ← push t (if starts_with "not" b then e +:+ " (" +:+ b +:+ ")" else e +:+ b);
       mret (inr t)
    end
  else t ← push t e; mret (inr t).

Fixpoint infix (t : text_state) (l : list string) : M ((Z * text_state) + text_state) :=
  match l with
  | [] => mret (inr t)
  | e :: l =>
     r ← infix_step t e;
     match r with
     | inl out => mret (inl out)
     | inr t => infix t l
     end
  end.

(** The inner loop over one part; [false] is the failed [realloc], which loses
    the buffer.  A null buffer may only be written with size 0. *)
Fixpoint reason_loop (fuel : nat) (r : reason_buf) (s : string) : M (bool * reason_buf) :=
  match fuel with
  | O => ub
  | S fuel =>
     let room := rb_len r - rb_used r in
     if bool_decide (rb_text r = None) && (0 <? room) then ub
     else if strlen s >=? room then
       new_buf ← malloc;
       match new_buf with
       | None => mret (false, ReasonBuf None (rb_used r) (rb_len r))
       | Some _ =>
          reason_loop fuel
            (ReasonBuf (Some (String.substring 0 (Z.to_nat (rb_used r)) (default ""%string (rb_text r))))
               (rb_used r) (rb_len r + REASON_BUF_SIZE)) s
       end
     else
       mret (true, ReasonBuf (Some (String.substring 0 (Z.to_nat (rb_used r))
                                      (default ""%string (rb_text r)) +:+ s))
                     (rb_used r + strlen s) (rb_len r))
  end.

(** The loop over the parts. *)
Fixpoint add_reason (r : reason_buf) (parts : list string) : M reason_buf :=
  match parts with
  | [] => mret r
  | s :: parts =>
     '(ok, r) ← reason_loop (S (S (Z.to_nat (strlen s)))) r s;
     if (ok : bool) then add_reason r parts else mret r
  end.

(** [r_buf] is whether the caller passed a buffer.  A null infix text ends the
    parts early. *)
Definition constraint_expr_eval_reason (p : policydb) (sc tc : context_struct)
    (xc : option context_struct) (tclass : Z) (constraint : constraint_node) (r_buf : bool) (flags : Z)
    (t : text_state) : M (Z * text_state) :=
  class_buf ← get_class_info p tclass constraint xc;
  match class_buf with
  | None => mret (- ENOMEM, t)
  | Some class_buf =>
     r ← eval_exprs p sc tc xc (cn_expr constraint)
           (EvalState (Stack (replicate (Z.to_nat CEXPR_MAXDEPTH) (Some 0)) (-1)) [] 0);
     match r with
     | inl rc => mret (rc, t)
     | inr st =>
        answer_list ← malloc;
        match answer_list with
        | None => mret (- ENOMEM, t)
        | Some _ =>
           r ← infix t (ev_texts st);
           match r with
           | inl out => mret out
           | inr t =>
              let '(a, t) := pop t in
              s0 ← get (stack_read (ev_stack st) 0);
              let granted := ((match xc with Some _ => "Validatetrans" | None => "Constraint" end)
                                +:+ " " +:+ (if nz s0 then "GRANTED" else "DENIED") +:+ String "010" "")%string in
              if r_buf && ((s0 =? 0) || ((s0 =? 1) && (Z.land flags SHOW_GRANTED =? SHOW_GRANTED))) then
                r ← add_reason (ts_reason t)
                      (class_buf :: match a with Some a => [a; "); "; granted] | None => [] end);
                mret (s0, TextState (ts_stack t) (ts_stack_len t) r)
              else mret (s0, t)
           end
        end
     end
  end.
