(* ===== verification/ConstraintFacts.v ===== *)
(** * Facts about constraint evaluation

    Constraints as expressions over atoms, what an atom means, and the text of an
    expression; the buffers, the evaluation loop and the conversion to infix
    text against them. *)

From S2P Require Import Prelude Ebitmap EbitmapFacts Hashtab Avtab Mls Policydb MlsPolicy MlsString Rpn Context.
From S2P Require Import ContextSpec Constraint.

(** ** Atoms *)

Inductive who := Source | Target | XTarget.
Inductive field := FUser | FRole | FType.
Inductive level_pair := L1L2 | L1H2 | H1L2 | H1H2 | L1H1 | L2H2.
Inductive order := Equal | Different | Dom | DomBy | Incomp.

(** The operands of constraints: comparisons of the users, types, roles or levels
    of the two contexts, and membership of one context's field in a set. *)
Inductive atom :=
  | AUser (equal : bool)
  | AType (equal : bool)
  | ARole (o : order)
  | ALevel (l : level_pair) (o : order)
  | ANames (w : who) (f : field) (member : bool) (names : ebitmap) (type_names : option type_set).

Definition eq_code (b : bool) : Z := if b then CEXPR_EQ else CEXPR_NEQ.

Definition order_code (o : order) : Z :=
  match o with
  | Equal => CEXPR_EQ | Different => CEXPR_NEQ | Dom => CEXPR_DOM | DomBy => CEXPR_DOMBY
  | Incomp => CEXPR_INCOMP
  end.

Definition pair_code (l : level_pair) : Z :=
  match l with
  | L1L2 => CEXPR_L1L2 | L1H2 => CEXPR_L1H2 | H1L2 => CEXPR_H1L2 | H1H2 => CEXPR_H1H2
  | L1H1 => CEXPR_L1H1 | L2H2 => CEXPR_L2H2
  end.

Definition field_code (f : field) : Z :=
  match f with FUser => CEXPR_USER | FRole => CEXPR_ROLE | FType => CEXPR_TYPE end.

Definition who_code (w : who) : Z :=
  match w with Source => 0 | Target => CEXPR_TARGET | XTarget => CEXPR_XTARGET end.

Definition encode_atom (a : atom) : constraint_expr :=
  match a with
  | AUser b => CExpr CEXPR_ATTR CEXPR_USER (eq_code b) ebitmap_init (Some type_set_init)
  | AType b => CExpr CEXPR_ATTR CEXPR_TYPE (eq_code b) ebitmap_init (Some type_set_init)
  | ARole o => CExpr CEXPR_ATTR CEXPR_ROLE (order_code o) ebitmap_init (Some type_set_init)
  | ALevel l o => CExpr CEXPR_ATTR (pair_code l) (order_code o) ebitmap_init (Some type_set_init)
  | ANames w f b names tn => CExpr CEXPR_NAMES (Z.lor (field_code f) (who_code w)) (eq_code b) names tn
  end.

Definition encode_token (t : token atom) : constraint_expr :=
  match t with
  | TLeaf a => encode_atom a
  | TNot => CExpr CEXPR_NOT 0 0 ebitmap_init (Some type_set_init)
  | TBin OpAnd => CExpr CEXPR_AND 0 0 ebitmap_init (Some type_set_init)
  | TBin _ => CExpr CEXPR_OR 0 0 ebitmap_init (Some type_set_init)
  end.

(** Only conjunction and disjunction occur. *)
Fixpoint and_or {A} (e : bexpr A) : bool :=
  match e with
  | BLeaf _ => true
  | BNot e => and_or e
  | BBin o e1 e2 => (match o with OpAnd | OpOr => true | _ => false end) && and_or e1 && and_or e2
  end.

Fixpoint atoms {A} (e : bexpr A) : list A :=
  match e with
  | BLeaf a => [a]
  | BNot e => atoms e
  | BBin _ e1 e2 => atoms e1 ++ atoms e2
  end.

(** ** What atoms mean *)

Section semantics.
Context (p : policydb) (sc tc : context_struct) (xc : option context_struct).

(** The first role dominates the second. *)
Definition role_dominates (r1 r2 : Z) : bool :=
  match role_val_to_struct p !! Z.to_nat (r1 - 1) with
  | Some (Some d) => ebitmap_get_bit (rd_dominates d) (r2 - 1)
  | _ => false
  end.

Definition levels_of (l : level_pair) : mls_level * mls_level :=
  let s := c_range sc in
  let t := c_range tc in
  match l with
  | L1L2 => (level0 s, level0 t) | L1H2 => (level0 s, level1 t) | H1L2 => (level1 s, level0 t)
  | H1H2 => (level1 s, level1 t) | L1H1 => (level0 s, level1 s) | L2H2 => (level0 t, level1 t)
  end.

Definition context_of (w : who) : option context_struct :=
  match w with Source => Some sc | Target => Some tc | XTarget => xc end.

Definition field_of (f : field) (c : context_struct) : Z :=
  match f with FUser => c_user c | FRole => c_role c | FType => c_type c end.

Definition compare {A} (eqb dom : A → A → bool) (o : order) (x y : A) : bool :=
  match o with
  | Equal => eqb x y
  | Different => negb (eqb x y)
  | Dom => dom x y
  | DomBy => dom y x
  | Incomp => negb (dom x y) && negb (dom y x)
  end.

Definition atom_holds (a : atom) : bool :=
  match a with
  | AUser b => eqb b (c_user sc =? c_user tc)
  | AType b => eqb b (c_type sc =? c_type tc)
  | ARole o => compare Z.eqb role_dominates o (c_role sc) (c_role tc)
  | ALevel l o => compare mls_level_eq mls_level_dom o (levels_of l).1 (levels_of l).2
  | ANames w f b names _ =>
     match context_of w with
     | Some c => eqb b (ebitmap_get_bit names (field_of f c - 1))
     | None => false
     end
  end.

(** A value that a context of the policy can have. *)
Definition value_ok (v : Z) : Prop := 1 ≤ v < 2 ^ 32.

Definition role_ok (r : Z) : Prop :=
  value_ok r ∧ ∃ d, role_val_to_struct p !! Z.to_nat (r - 1) = Some (Some d).

(** The context an atom needs is there, and its roles are roles of the policy. *)
Definition atom_ok (a : atom) : Prop :=
  match a with
  | AUser _ | AType _ | ALevel _ _ => True
  | ARole _ => role_ok (c_role sc) ∧ role_ok (c_role tc)
  | ANames w f _ _ _ => ∃ c, context_of w = Some c ∧ value_ok (field_of f c)
  end.

(** ** Their text *)

Definition order_text (equal : string) (o : order) : string :=
  match o with
  | Equal => equal | Different => "!=" | Dom => "dom" | DomBy => "domby" | Incomp => "incomp"
  end.

Definition pair_text (l : level_pair) : string * string :=
  match l with
  | L1L2 => ("l1", "l2") | L1H2 => ("l1", "h2") | H1L2 => ("h1", "l2") | H1H2 => ("h1", "h2")
  | L1H1 => ("l1", "h1") | L2H2 => ("l2", "h2")
  end.

Definition compared (src tgt op : string) (holds : bool) : string :=
  snprintf 128 ("(" +:+ src +:+ " " +:+ op +:+ " " +:+ tgt +:+ (if holds then ") " else " -Fail-) ")).

Fixpoint names_text (type : Z) (l : list Z) : option string :=
  match l with
  | [] => Some ""%string
  | i :: l =>
     n ← (aget (val_to_name p type) i ≫= id);
     r ← names_text type l;
     Some (snprintf 128 (" " +:+ n) +:+ r)%string
  end.

(** The set whose members are printed: for types, the one written in the policy. *)
Definition printed_set (f : field) (names : ebitmap) (type_names : option type_set) : option ebitmap :=
  if (policy_type p =? POLICY_KERN) && (POLICYDB_VERSION_CONSTRAINT_NAMES <=? policyvers p) &&
     (field_code f =? CEXPR_TYPE)
  then ts_types <$> type_names else Some names.

Definition set_text_of (src op : string) (type : Z) (types : ebitmap) (holds : bool) : option string :=
  let l := listed types in
  let n := Z.of_nat (length l) in
  names ← names_text type l;
  Some (snprintf 128 ("(" +:+ src +:+ op) +:+ (if n =? 0 then "<empty_set> " else "") +:+
        (if 1 <? n then " {" else "") +:+ names +:+ (if 1 <? n then " }" else "") +:+
        (if holds then ") " else " -Fail-) ")).

Definition who_text (w : who) : string := match w with Source => "1" | Target => "2" | XTarget => "3" end.
Definition field_text (f : field) : string := match f with FUser => "u" | FRole => "r" | FType => "t" end.

Definition atom_text (a : atom) : option string :=
  match a with
  | AUser b => Some (compared "u1" "u2" (if b then "==" else "!=") (atom_holds a))
  | AType b => Some (compared "t1" "t2" (if b then "==" else "!=") (atom_holds a))
  | ARole o => Some (compared "r1" "r2" (order_text "==" o) (atom_holds a))
  | ALevel l o => Some (compared (pair_text l).1 (pair_text l).2 (order_text "eq" o) (atom_holds a))
  | ANames w f b names tn =>
     types ← printed_set f names tn;
     set_text_of (field_text f +:+ who_text w +:+ " ") (if b then "==" else "!=") (field_code f) types
       (atom_holds a)
  end.

(** The infix text of an expression. *)
Definition op_text (o : binop) : string := match o with OpAnd => "and" | _ => "or" end.

Fixpoint render (e : bexpr atom) : option string :=
  match e with
  | BLeaf a => atom_text a
  | BNot e =>
     s ← render e;
     Some (if starts_with "not" s then "not (" +:+ s +:+ ")" else "not" +:+ s)%string
  | BBin o e1 e2 =>
     s1 ← render e1;
     s2 ← render e2;
     Some (s1 +:+ " " +:+ op_text o +:+ " " +:+ s2)%string
  end.
End semantics.

(** ** Text *)

Lemma strlen_nonneg s : 0 ≤ strlen s.
Proof. unfold strlen. lia. Qed.

Lemma substring_app s t : String.substring 0 (String.length s) (s +:+ t) = s.
Proof. induction s as [|c s IH]; [by destruct t|]. rewrite str_app_cons. simpl. by rewrite IH. Qed.

Lemma substring_strlen s t : String.substring 0 (Z.to_nat (strlen s)) (s +:+ t) = s.
Proof. unfold strlen. rewrite Nat2Z.id. apply substring_app. Qed.

Lemma snprintf_whole size s : strlen s < size → snprintf size s = s.
Proof. intros Hs. unfold snprintf, strlen in *. apply substring_whole. lia. Qed.

Lemma prefix_cons c d s t : starts_with (String c s) (String d t) = Ascii.eqb c d && starts_with s t.
Proof.
  unfold starts_with. simpl. destruct (ascii_dec c d) as [->|Hcd]; [by rewrite Ascii.eqb_refl|].
  by rewrite (proj2 (Ascii.eqb_neq c d)).
Qed.

(** ** Buffers, with memory *)

(** The buffer holds [s], with room for its end. *)
Definition has (b : expr_buf) (s : string) : Prop :=
  String.substring 0 (Z.to_nat (eb_used b)) (eb_text b) = s ∧ eb_used b = strlen s ∧ eb_used b < eb_len b.

Definition buffer (b : expr_buf) (s : string) (h : heap) : Prop :=
  eb_text b = s ∧ has b s ∧ hp_oom h = [].

Lemma cat_loop_ok fuel b s t h :
  has b t → strlen s < eb_len b - eb_used b + EXPR_BUF_SIZE * Z.of_nat fuel → hp_oom h = [] →
  wp (cat_loop (S fuel) b s) h (λ b' h', buffer b' (t +:+ s) h').
Proof.
  revert b h. induction fuel as [|fuel IH]; intros b h (Ht & Hu & Hl) Hf Ho; cbn [cat_loop]; cbn zeta.
  - rewrite Z.geb_leb, (proj2 (Z.leb_gt _ _)) by lia. wp_step.
    rewrite Ht, snprintf_whole by lia. split; [done|]. split; [|done]. split; simpl; [|split].
    + rewrite Hu, <- strlen_app. rewrite <- (str_app_nil_r (t +:+ s)) at 2. apply substring_strlen.
    + by rewrite strlen_app, Hu.
    + lia.
  - rewrite Z.geb_leb. destruct (Z.leb_spec (eb_len b - eb_used b) (strlen s)).
    + wp_step. apply wp_malloc_ok; [done|]. intros h1 Ho1. apply IH; simpl; [|unfold EXPR_BUF_SIZE in *; lia|done].
      split; simpl; [|unfold EXPR_BUF_SIZE; split; lia]. rewrite Ht, Hu. apply substring_strlen.
    + wp_step. rewrite Ht, snprintf_whole by lia. split; [done|]. split; [|done]. split; simpl; [|split; [by rewrite strlen_app, Hu|lia]].
      rewrite Hu, <- strlen_app. rewrite <- (str_app_nil_r (t +:+ s)) at 2. apply substring_strlen.
Qed.

Lemma cat_expr_buf_ok b s t h :
  buffer b t h → wp (cat_expr_buf b s) h (λ b' h', buffer b' (t +:+ s) h').
Proof.
  intros (_ & Hb & Ho). apply cat_loop_ok; [done| |done]. pose proof (strlen_nonneg s).
  destruct Hb as (_ & _ & ?). unfold EXPR_BUF_SIZE. lia.
Qed.

Create HintDb text.
#[export] Hint Resolve cat_expr_buf_ok : text.

Lemma buffer_empty h : hp_oom h = [] → buffer (ExprBuf "" 0 EXPR_BUF_SIZE) "" h.
Proof. done. Qed.

(** A conditional append. *)
Lemma cat_if_ok (c : bool) b s t h :
  buffer b t h →
  wp (if c then cat_expr_buf b s else mret b) h (λ b' h', buffer b' (t +:+ (if c then s else "")) h').
Proof. intros Hb. destruct c; [by apply cat_expr_buf_ok|]. wp_step. by rewrite str_app_nil_r. Qed.

Lemma cat_names_ok p type l names b t h :
  names_text p type l = Some names → buffer b t h →
  wp (cat_names p type l b) h (λ b' h', buffer b' (t +:+ names) h').
Proof.
  revert names b t h. induction l as [|i l IH]; intros names b t h Hn Hb; simpl in Hn.
  - injection Hn as <-. cbn [cat_names]. wp_step. by rewrite str_app_nil_r.
  - apply bind_Some in Hn as (n & Hi & (r & Hr & [= <-])%bind_Some). cbn [cat_names]. rewrite Hi.
    do 2 wp_step. wp_step. eapply wp_mono; [by apply cat_expr_buf_ok|]. intros b1 h1 Hb1.
    eapply wp_mono; [apply (IH r b1 _ h1 Hr Hb1)|]. intros b2 h2 Hb2. by rewrite <- str_app_assoc.
Qed.

Lemma get_name_list_ok p e f src op holds types s b h :
  printed_set p f (ce_names e) (ce_type_names e) = Some types →
  set_text_of p src op (field_code f) types holds = Some s → buffer b "" h →
  wp (get_name_list p e (field_code f) src op (negb holds) b) h (λ b' h', buffer b' s h').
Proof.
  intros Hset Hs Hb. unfold set_text_of in Hs. apply bind_Some in Hs as (names & Hn & [= <-]).
  unfold get_name_list. unfold printed_set in Hset. rewrite Hset. do 2 wp_step. cbn zeta.
  wp_step. eapply wp_mono; [by apply cat_expr_buf_ok|]. intros b1 h1 Hb1.
  wp_step. eapply wp_mono; [apply (cat_if_ok _ _ _ _ _ Hb1)|]. intros b2 h2 Hb2.
  wp_step. eapply wp_mono; [apply (cat_if_ok _ _ _ _ _ Hb2)|]. intros b3 h3 Hb3.
  wp_step. eapply wp_mono; [apply (cat_names_ok _ _ _ _ _ _ _ Hn Hb3)|]. intros b4 h4 Hb4.
  wp_step. eapply wp_mono; [apply (cat_if_ok _ _ _ _ _ Hb4)|]. intros b5 h5 Hb5.
  eapply wp_mono; [apply (cat_expr_buf_ok _ _ _ _ Hb5)|]. intros b6 h6 Hb6.
  rewrite str_app_nil_l, !str_app_assoc in Hb6. by destruct holds.
Qed.

Lemma msgcat_ok src tgt op holds b h :
  buffer b "" h → wp (msgcat src tgt op (negb holds) b) h (λ b' h', buffer b' (compared src tgt op holds) h').
Proof.
  intros Hb. eapply wp_mono; [by apply cat_expr_buf_ok|]. intros b1 h1 Hb1. unfold compared.
  rewrite str_app_nil_l in Hb1. by destruct holds.
Qed.

(** ** Operands and operators *)

Notation maxdepth5 := (Z.to_nat CEXPR_MAXDEPTH).

Section eval.
Context (p : policydb) (sc tc : context_struct) (xc : option context_struct).

Local Notation atom_holds := (atom_holds p sc tc xc).
Local Notation atom_ok := (atom_ok p sc tc xc).
Local Notation atom_text := (atom_text p sc tc xc).

Lemma u32_pred v : value_ok v → u32 (v - 1) = v - 1.
Proof. intros Hv. apply u32_id. unfold value_ok in Hv. lia. Qed.

Lemma role_get r : role_ok p r → ∃ d, aget (role_val_to_struct p) (u32 (r - 1)) = Some (Some d) ∧
  ∀ r', ebitmap_get_bit (rd_dominates d) (r' - 1) = role_dominates p r r'.
Proof.
  intros [Hv [d Hd]]. exists d. rewrite u32_pred by done. unfold aget, value_ok, role_dominates in *.
  rewrite (proj2 (Z.ltb_ge _ _)) by lia. by rewrite Hd.
Qed.

Lemma role_ops_ok o r1 r2 :
  role_ok p r1 → role_ok p r2 →
  role_ops p (order_code o) r1 r2 =
    Some (Some (compare Z.eqb (role_dominates p) o r1 r2, order_text "==" o)).
Proof.
  intros H1 H2. pose proof (u32_pred r1 (proj1 H1)) as E1. pose proof (u32_pred r2 (proj1 H2)) as E2.
  destruct (role_get r1 H1) as (d1 & G1 & D1), (role_get r2 H2) as (d2 & G2 & D2).
  unfold role_ops. rewrite G1, G2, E1, E2. cbn [mbind option_bind].
  destruct o; cbn -[ebitmap_get_bit role_dominates]; rewrite ?D1, ?D2; try done. by destruct (role_dominates p r1 r2).
Qed.

Definition attr_texts (a : atom) : string * string * string :=
  match a with
  | AUser b => ("u1", "u2", if b then "==" else "!=")
  | AType b => ("t1", "t2", if b then "==" else "!=")
  | ARole o => ("r1", "r2", order_text "==" o)
  | ALevel l o => ((pair_text l).1, (pair_text l).2, order_text "eq" o)
  | ANames _ _ _ _ _ => ("", "", "")
  end%string.

Definition is_names (a : atom) : bool := match a with ANames _ _ _ _ _ => true | _ => false end.

Lemma attr_names_ok a : is_names a = false → attr_names (ce_attr (encode_atom a)) = Some (attr_texts a).1.
Proof. by destruct a as [| | |[] ?|]. Qed.

Lemma attr_value_ok a :
  is_names a = false → atom_ok a →
  attr_value p sc tc (encode_atom a) = Some (Some (atom_holds a, (attr_texts a).2)).
Proof.
  destruct a as [b|b|o|l o|]; intros Hn Hok; [| | | |done].
  - unfold attr_value. simpl. by destruct b, (c_user sc =? c_user tc).
  - unfold attr_value. simpl. by destruct b, (c_type sc =? c_type tc).
  - destruct Hok. by apply role_ops_ok.
  - destruct l, o; cbn -[mls_level_eq mls_level_dom mls_level_incomp]; try done;
      unfold mls_level_incomp; by rewrite andb_comm.
Qed.

Lemma attr_text_ok a :
  is_names a = false →
  atom_text a = Some (compared (attr_texts a).1.1 (attr_texts a).1.2 (attr_texts a).2 (atom_holds a)).
Proof. by destruct a. Qed.

(** What evaluating an operand does. *)
Definition pushed (l : list Z) (text : string) (v : bool) (r : flow) (h : heap) : Prop :=
  ∃ s, r = Next s text ∧ holds maxdepth5 s (l ++ [b2z v]) ∧ hp_oom h = [].

Lemma not_full s l : holds maxdepth5 s l → (length l < maxdepth5)%nat → sp_full s = false.
Proof.
  intros (_ & Hsp & _) Hl. unfold sp_full. apply Z.eqb_neq. rewrite Hsp. unfold CEXPR_MAXDEPTH in *. lia.
Qed.

Lemma eval_attr_ok a text s l b h :
  is_names a = false → atom_ok a → atom_text a = Some text → holds maxdepth5 s l →
  (length l < maxdepth5)%nat → buffer b "" h →
  wp (eval_attr p sc tc (encode_atom a) s b) h (pushed l text (atom_holds a)).
Proof.
  intros Hn Hok Ht Hs Hl Hb. pose proof Hb as (_ & Hb' & Ho). unfold eval_attr.
  rewrite (not_full s l), attr_names_ok by done. destruct (attr_texts a) as [[src tgt] op] eqn:Ea. cbn [fst].
  wp_step. eapply wp_mono; [by apply strdup_ok|]. intros ? h1 [-> Ho1].
  wp_step. eapply wp_mono; [by apply strdup_ok|]. intros ? h2 [-> Ho2].
  rewrite attr_value_ok by done. rewrite Ea. cbn [snd]. do 2 wp_step.
  destruct (stack_push_spec maxdepth5 s l (b2z (atom_holds a)) Hs Hl) as (s' & -> & Hs').
  do 6 wp_step. unfold finish. wp_step. rewrite attr_text_ok, Ea in Ht by done. injection Ht as <-.
  eapply wp_mono; [by apply msgcat_ok; split_and!; [apply Hb|..]|].
  intros b1 h3 (<- & _ & Ho3). wp_step. by exists s'.
Qed.

Lemma names_context_ok w f :
  names_context sc tc xc (Z.lor (field_code f) (who_code w)) = (context_of sc tc xc w, who_text w).
Proof. by destruct w, f. Qed.

Lemma names_field_ok w f c :
  names_field c (Z.lor (field_code f) (who_code w)) = Some (field_of f c, field_text f, field_code f).
Proof. by destruct w, f. Qed.

Lemma eq_op_ok (b v : bool) :
  eq_op (eq_code b) v = Some (eqb b v, if b then "=="%string else "!="%string).
Proof. by destruct b, v. Qed.

Lemma eval_names_ok w f m names tn text s l b h :
  let a := ANames w f m names tn in
  atom_ok a → atom_text a = Some text → holds maxdepth5 s l → (length l < maxdepth5)%nat → buffer b "" h →
  wp (eval_names p sc tc xc (encode_atom a) s b) h (pushed l text (atom_holds a)).
Proof.
  intros a (c & Hc & Hv) Ht Hs Hl Hb. pose proof Hb as (Hb1 & Hb2 & Ho). unfold eval_names.
  rewrite (not_full s l) by done. cbn [encode_atom a ce_attr ce_op ce_names].
  rewrite names_context_ok, Hc, names_field_ok. cbn [snd].
  wp_step. eapply wp_mono; [by apply strdup_ok|]. intros ? h1 [-> Ho1].
  rewrite eq_op_ok, u32_pred by done.
  destruct (stack_push_spec maxdepth5 s l (b2z (eqb m (ebitmap_get_bit names (field_of f c - 1)))) Hs Hl)
    as (s' & -> & Hs').
  do 4 wp_step. unfold finish. wp_step. unfold a in Ht. simpl in Ht. rewrite Hc in Ht.
  apply bind_Some in Ht as (types & Hset & Ht).
  eapply wp_mono; [by eapply get_name_list_ok; [exact Hset|exact Ht|split_and!]|].
  intros b1 h3 (<- & _ & Ho3). wp_step. exists s'. split; [done|]. split; [|done]. unfold a. simpl. by rewrite Hc.
Qed.

Lemma eval_leaf_ok a text s l b h :
  atom_ok a → atom_text a = Some text → holds maxdepth5 s l → (length l < maxdepth5)%nat → buffer b "" h →
  wp (eval_expr p sc tc xc (encode_atom a) s b) h (pushed l text (atom_holds a)).
Proof.
  intros Hok Ht Hs Hl Hb. destruct (is_names a) eqn:Ha.
  - destruct a; try done. by apply eval_names_ok.
  - replace (eval_expr p sc tc xc (encode_atom a) s b) with (eval_attr p sc tc (encode_atom a) s b) by by destruct a.
    by apply eval_attr_ok.
Qed.

Lemma eval_not_ok s l x b h :
  holds maxdepth5 s (l ++ [b2z x]) → buffer b "" h →
  wp (eval_expr p sc tc xc (encode_token TNot) s b) h (pushed l "not" (negb x)).
Proof.
  intros Hs Hb. change (eval_expr _ _ _ _ _ s b) with (eval_operator (encode_token TNot) s b).
  unfold eval_operator. cbn [encode_token ce_expr_type]. change (CEXPR_NOT =? CEXPR_NOT) with true. cbn iota.
  pose proof Hs as (_ & Hsp & _). rewrite length_app in Hsp. simpl in Hsp.
  rewrite (proj2 (Z.ltb_ge _ _)) by lia.
  destruct (stack_un_spec maxdepth5 s l (b2z x) (λ x, b2z (negb (nz x))) Hs) as (s' & -> & Hs').
  do 2 wp_step. unfold finish. wp_step. eapply wp_mono; [by apply cat_expr_buf_ok|].
  intros b1 h1 (Ht & _ & Ho). wp_step. rewrite Ht. exists s'. by rewrite b2z_not in Hs'.
Qed.

Lemma eval_bin_ok o s l x y b h :
  (match o with OpAnd | OpOr => true | _ => false end) = true →
  holds maxdepth5 s (l ++ [b2z x; b2z y]) → buffer b "" h →
  wp (eval_expr p sc tc xc (encode_token (TBin o)) s b) h (pushed l (op_text o) (binop_fun o x y)).
Proof.
  intros Hop Hs Hb. pose proof Hs as (_ & Hsp & _). rewrite length_app in Hsp. simpl in Hsp.
  set (f := match o with OpAnd => Z.land | _ => Z.lor end).
  replace (eval_expr _ _ _ _ _ s b)
    with (if sk_sp s <? 1 then mret (Out (- EINVAL))
          else s ← get (stack_bin f s); finish s (cat_expr_buf b (op_text o))) by by destruct o.
  rewrite (proj2 (Z.ltb_ge _ _)) by lia.
  destruct (stack_bin_spec maxdepth5 s l (b2z x) (b2z y) f Hs) as (s' & -> & Hs').
  do 2 wp_step. unfold finish. wp_step. eapply wp_mono; [by apply cat_expr_buf_ok|].
  intros b1 h1 (Ht & _ & Ho). wp_step. rewrite Ht. exists s'. split; [done|]. split; [|done].
  replace (b2z (binop_fun o x y)) with (f (b2z x) (b2z y)); [done|]. by destruct o, x, y.
Qed.

(** ** The loop *)

Fixpoint texts (e : bexpr atom) : list string :=
  match e with
  | BLeaf a => [default ""%string (atom_text a)]
  | BNot e => texts e ++ ["not"%string]
  | BBin o e1 e2 => texts e1 ++ texts e2 ++ [op_text o]
  end.

Lemma eval_step e es st l text v h Q :
  (∀ b h', buffer b "" h' → wp (eval_expr p sc tc xc e (ev_stack st) b) h' (pushed l text v)) →
  hp_oom h = [] →
  (∀ s len h', holds maxdepth5 s (l ++ [b2z v]) → hp_oom h' = [] →
     wp (eval_exprs p sc tc xc es (EvalState s (ev_texts st ++ [text]) len)) h' Q) →
  wp (eval_exprs p sc tc xc (e :: es) st) h Q.
Proof.
  intros He Ho HQ. cbn [eval_exprs]. cbn zeta. wp_step.
  apply (wp_mono _ _ (λ r h', is_Some r ∧ hp_oom h' = [])).
  { destruct (_ <=? _); [|by wp_step]. by apply wp_malloc_ok. }
  intros r h1 [[x ->] Ho1]. wp_step. apply wp_malloc_ok; [done|]. intros h2 Ho2. wp_step.
  eapply wp_mono; [by apply He, buffer_empty|]. intros r h3 (s & -> & Hs & Ho3). by apply HQ.
Qed.

(** The expression is evaluated on top of what the stack holds. *)
Lemma eval_rpn e es st l h Q :
  and_or e = true → Forall (λ a, atom_ok a ∧ is_Some (atom_text a)) (atoms e) →
  holds maxdepth5 (ev_stack st) l → (length l + bdepth e ≤ maxdepth5)%nat → hp_oom h = [] →
  (∀ s len h', holds maxdepth5 s (l ++ [b2z (beval atom_holds e)]) → hp_oom h' = [] →
     wp (eval_exprs p sc tc xc es (EvalState s (ev_texts st ++ texts e) len)) h' Q) →
  wp (eval_exprs p sc tc xc ((encode_token <$> rpn e) ++ es) st) h Q.
Proof.
  revert es st l h Q. induction e as [a|e IH|o e1 IH1 e2 IH2]; intros es st l h Q Hao Hat Hs Hl Ho HQ;
    cbn [and_or atoms rpn bdepth] in *.
  - apply list.Forall_singleton in Hat as [Hok [text Ht]].
    apply (eval_step _ _ _ l text (atom_holds a)); [|done|].
    + intros b h' Hb. apply eval_leaf_ok; [done|done|done|lia|done].
    + intros s len h' Hs' Ho'. specialize (HQ s len h' Hs' Ho'). cbn [texts] in HQ. by rewrite Ht in HQ.
  - rewrite fmap_app, <- app_assoc. apply (IH _ _ l); [done|done|done|lia|done|].
    intros s len h' Hs' Ho'. cbn [fmap list_fmap app].
    apply (eval_step _ _ _ l "not"%string (negb (beval atom_holds e))); [|done|].
    + intros b h1 Hb. by apply eval_not_ok.
    + intros s1 len1 h1 Hs1 Ho1. cbn [ev_texts]. rewrite <- app_assoc. by apply HQ.
  - apply andb_true_iff in Hao as [[Hop H1]%andb_true_iff H2]. apply Forall_app in Hat as [Ha1 Ha2].
    rewrite !fmap_app, <- !app_assoc. apply (IH1 _ _ l); [done|done|done|lia|done|].
    intros s len h' Hs' Ho'. apply (IH2 _ _ (l ++ [b2z (beval atom_holds e1)])); [done|done|done| |done|].
    { rewrite length_app. simpl. lia. }
    intros s1 len1 h1 Hs1 Ho1. cbn [fmap list_fmap app].
    apply (eval_step _ _ _ l (op_text o) (binop_fun o (beval atom_holds e1) (beval atom_holds e2))); [|done|].
    + intros b h2 Hb. apply eval_bin_ok; [done| |done]. cbn [ev_stack]. by rewrite <- app_assoc in Hs1.
    + intros s2 len2 h2 Hs2 Ho2. cbn [ev_texts]. rewrite <- !app_assoc. by apply HQ.
Qed.
End eval.

(** ** Conversion to infix text *)

Lemma push_ok t s h :
  hp_oom h = [] →
  wp (push t s) h (λ t' h', ts_stack t' = s :: ts_stack t ∧ ts_reason t' = ts_reason t ∧ hp_oom h' = []).
Proof.
  intros Ho. unfold push. destruct (_ <=? _); [|by wp_step]. wp_step. apply wp_malloc_ok; [done|].
  intros h' Ho'. by wp_step.
Qed.

Lemma pop_ok t s l : ts_stack t = s :: l → pop t = (Some s, set_stack t l (ts_stack_len t)).
Proof. unfold pop. by intros ->. Qed.

Lemma atom_text_paren p sc tc xc a s : atom_text p sc tc xc a = Some s → ∃ r, s = String "(" r.
Proof.
  destruct a; cbn [atom_text]; [intros [= <-]; by eexists..|].
  intros (ts & _ & (ns & _ & [= <-])%bind_Some)%bind_Some. by eexists.
Qed.

Section infix.
Context (p : policydb) (sc tc : context_struct) (xc : option context_struct).
Local Notation render := (render p sc tc xc).
Local Notation texts := (texts p sc tc xc).

Lemma infix_rpn e s t l h Q :
  render e = Some s → and_or e = true → hp_oom h = [] →
  (∀ t' h', ts_stack t' = s :: ts_stack t → ts_reason t' = ts_reason t → hp_oom h' = [] →
     wp (infix t' l) h' Q) →
  wp (infix t (texts e ++ l)) h Q.
Proof.
  revert s t l h Q. induction e as [a|e IH|o e1 IH1 e2 IH2]; intros s t l h Q Hr Hao Ho HQ;
    cbn [ConstraintFacts.render ConstraintFacts.texts and_or] in *.
  - rewrite Hr. destruct (atom_text_paren _ _ _ _ _ _ Hr) as [r ->]. cbn [app infix default from_option id].
    wp_step. unfold infix_step. rewrite !prefix_cons. cbn. wp_step.
    eapply wp_mono; [by apply push_ok|]. intros t' h' (Hst & Hre & Ho'). wp_step. by apply HQ.
  - apply bind_Some in Hr as (r & Hr & [= <-]). rewrite <- app_assoc. apply (IH r); [done|done|done|].
    intros t1 h1 Hst Hre Ho1. cbn [app infix]. wp_step. unfold infix_step. cbn -[starts_with].
    change (starts_with "and" "not") with false. change (starts_with "or" "not") with false.
    change (starts_with "not" "not") with true. cbn [orb]. rewrite (pop_ok _ _ _ Hst). cbn zeta iota beta.
    do 2 wp_step. wp_step. apply wp_malloc_ok; [done|]. intros h2 Ho2. wp_step.
    eapply wp_mono; [by apply push_ok|]. intros t' h' (Hst' & Hre' & Ho'). wp_step.
    apply HQ; [|by rewrite Hre'|done]. rewrite Hst'. by destruct (starts_with "not" r).
  - apply bind_Some in Hr as (s1 & Hr1 & (s2 & Hr2 & [= <-])%bind_Some).
    apply andb_true_iff in Hao as [[Hop H1]%andb_true_iff H2].
    rewrite <- !app_assoc. apply (IH1 s1); [done|done|done|]. intros t1 h1 Hst1 Hre1 Ho1.
    apply (IH2 s2); [done|done|done|]. intros t2 h2 Hst2 Hre2 Ho2. cbn [app infix]. wp_step.
    unfold infix_step. replace (starts_with "and" (op_text o) || starts_with "or" (op_text o)) with true by by destruct o.
    rewrite (pop_ok _ _ _ Hst2). cbn zeta iota beta. do 2 wp_step.
    rewrite (pop_ok (set_stack _ _ _) s1 (ts_stack t) Hst1). cbn zeta iota beta. do 2 wp_step.
    wp_step. apply wp_malloc_ok; [done|]. intros h3 Ho3. wp_step.
    eapply wp_mono; [by apply push_ok|]. intros t' h' (Hst' & Hre' & Ho'). wp_step.
    apply HQ; [done|rewrite Hre'; simpl; by rewrite Hre2|done].
Qed.
End infix.

(** ** The reason buffer *)

(** Nothing yet, or a text with room for its end. *)
Definition reason_ok (r : reason_buf) : Prop :=
  (rb_text r = None ∧ rb_used r = 0 ∧ rb_len r = 0) ∨
  (∃ s, rb_text r = Some s ∧ rb_used r = strlen s ∧ rb_used r < rb_len r).

Definition reason_text (r : reason_buf) : string := default ""%string (rb_text r).

Lemma reason_loop_ok fuel s r t h :
  String.substring 0 (Z.to_nat (rb_used r)) (reason_text r) = t → rb_used r = strlen t →
  ((rb_text r = None ∧ rb_len r = 0 ∧ rb_used r = 0) ∨ (is_Some (rb_text r) ∧ rb_used r < rb_len r)) →
  strlen s < rb_len r - rb_used r + REASON_BUF_SIZE * Z.of_nat fuel → hp_oom h = [] →
  wp (reason_loop (S fuel) r s) h (λ q h', q.1 = true ∧ reason_ok q.2 ∧ reason_text q.2 = t +:+ s ∧ hp_oom h' = []).
Proof.
  revert r h. induction fuel as [|fuel IH]; intros r h Ht Hu Hr Hf Ho; cbn [reason_loop]; cbn zeta;
    pose proof (strlen_nonneg s) as Hs; fold (reason_text r);
    (replace (bool_decide (rb_text r = None) && (0 <? rb_len r - rb_used r)) with false;
     [|symmetry; destruct Hr as [(-> & Hl & Hu0)|[[x ->] _]]; [|done];
       rewrite bool_decide_true, (proj2 (Z.ltb_ge _ _)) by (done || lia); done]);
    rewrite Z.geb_leb, Ht; destruct (Z.leb_spec (rb_len r - rb_used r) (strlen s)); try lia.
  - wp_step. split; [done|]. split; [|done]. right. eexists. simpl. split; [done|].
    rewrite strlen_app, <- Hu. lia.
  - wp_step. apply wp_malloc_ok; [done|]. intros h1 Ho1. apply IH; simpl; [|done| |unfold REASON_BUF_SIZE in *; lia|done].
    + rewrite Hu. rewrite <- (str_app_nil_r t) at 2. apply substring_strlen.
    + right. split; [by eexists|]. unfold REASON_BUF_SIZE. destruct Hr as [(_ & Hl & Hu0)|[_ ?]]; lia.
  - wp_step. split; [done|]. split; [|done]. right. eexists. simpl. split; [done|].
    rewrite strlen_app, <- Hu. lia.
Qed.

Lemma add_reason_ok parts r h :
  reason_ok r → hp_oom h = [] →
  wp (add_reason r parts) h (λ r' h', reason_ok r' ∧
    reason_text r' = foldl (λ t s, t +:+ s)%string (reason_text r) parts ∧ hp_oom h' = []).
Proof.
  revert r h. induction parts as [|s parts IH]; intros r h Hr Ho; cbn [add_reason foldl]; [by wp_step|].
  wp_step. eapply wp_mono; [apply (reason_loop_ok _ s r (reason_text r)); [| | | |done]|].
  - destruct Hr as [(Ht & Hu & _)|(x & Ht & Hu & _)]; unfold reason_text; rewrite Ht; simpl.
    + by rewrite Hu.
    + rewrite Hu. rewrite <- (str_app_nil_r x) at 2. apply substring_strlen.
  - destruct Hr as [(Ht & Hu & _)|(x & Ht & Hu & _)]; unfold reason_text; by rewrite Ht.
  - destruct Hr as [(Ht & Hu & Hl)|(x & Ht & Hu & Hl)]; [by left|]. right. rewrite Ht. by split.
  - pose proof (strlen_nonneg s). unfold REASON_BUF_SIZE.
    destruct Hr as [(Ht & Hu & Hl)|(x & Ht & Hu & Hl)]; lia.
  - intros [ok r'] h' (Hok & Hr' & Ht & Ho'). simpl in *. subst ok. rewrite <- Ht. by apply IH.
Qed.
