(* ===== verification/ConstraintSpec.v ===== *)
(** * The properties of constraint evaluation

    [constraint_expr_eval_reason] computes the value of the constraint and writes
    its infix text, and the names of permissions convert both ways. *)

From S2P Require Import Prelude Ebitmap EbitmapFacts EbitmapSpec Hashtab HashtabFacts HashtabSpec Avtab Mls.
From S2P Require Import Policydb MlsPolicy MlsFacts MlsSpec MlsString Rpn Context ContextSpec Constraint ConstraintFacts.

(** ** Names of permissions *)

Definition sym_entries {V} (t : option (hashtab string V)) : list (string * V) :=
  match t with Some h => concat (ht_table h) | None => [] end.

Definition table_wf {V} (t : option (hashtab string V)) : Prop := ∀ h, t = Some h → hwf h.

Definition comtable (c : class_datum) : option (hashtab string Z) :=
  cm ← cl_comdatum c; s_table (cm_permissions cm).

(** The permissions of the class are numbered from 1, and [pnm] names them; a
    name is in the table of the class or of its common. *)
Record class_named (c : class_datum) (pnm : Z → string) : Prop := {
  cl_wf : table_wf (s_table (cl_permissions c)) ∧ table_wf (comtable c);
  cl_count : 0 ≤ s_nprim (cl_permissions c) ≤ 32;
  cl_names i : 0 ≤ i < s_nprim (cl_permissions c) →
    find (λ e, i + 1 =? e.2) (sym_entries (s_table (cl_permissions c)) ++ sym_entries (comtable c)) =
      Some (pnm i, i + 1)
}.

Lemma map_perm t v name h :
  table_wf t →
  hashtab_map t (perm_name v) name h =
    Some (match find (λ e, v =? e.2) (sym_entries t) with Some e => (1, Some e.1) | None => (0, name) end, h).
Proof.
  intros Hw. destruct t as [t|]; [|done]. rewrite map_spec by by apply Hw. simpl.
  induction (concat (ht_table t)) as [|e l IH]; [done|]. cbn [map_chain find].
  unfold mbind at 1, M_bind at 1, perm_name at 1. destruct (v =? e.2); [done|]. cbn. apply IH.
Qed.

Lemma find_app {A} (f : A → bool) l1 l2 :
  find f (l1 ++ l2) = match find f l1 with Some x => Some x | None => find f l2 end.
Proof. induction l1 as [|x l1 IH]; simpl; [done|]. by destruct (f x). Qed.

(** The text of an access vector: its permissions in order. *)
Definition perms_of (pnm : Z → string) (n av : Z) : list string :=
  pnm <$> filter (λ i, Z.testbit av i = true) (seqZ 0 n).

Definition spaced (l : list string) : string := foldr (λ s r, " " +:+ s +:+ r)%string ""%string l.

Lemma nz_land_bit av i : 0 ≤ i → nz (Z.land av (Z.shiftl 1 i)) = Z.testbit av i.
Proof.
  intros Hi. rewrite Z.shiftl_1_l. unfold nz. destruct (Z.testbit av i) eqn:E.
  - apply negb_true_iff, Z.eqb_neq. intros H0. assert (Z.testbit (Z.land av (2 ^ i)) i = true) as Hb.
    { by rewrite Z.land_spec, E, Z.pow2_bits_true. }
    by rewrite H0, Z.bits_0 in Hb.
  - apply negb_false_iff, Z.eqb_eq, Z.bits_inj'. intros j Hj. rewrite Z.land_spec, Z.bits_0.
    destruct (Z.eq_dec i j) as [->|Hij]; [by rewrite E|]. rewrite Z.pow2_bits_false by done. apply andb_false_r.
Qed.

Lemma spaced_cons s l : spaced (s :: l) = (" " +:+ s +:+ spaced l)%string.
Proof. done. Qed.

(** The two lookups of the name of a permission. *)
Lemma perm_lookup c pnm i name h :
  class_named c pnm → 0 ≤ i < s_nprim (cl_permissions c) →
  ('(rc, name) ← hashtab_map (s_table (cl_permissions c)) (perm_name (i + 1)) name;
   match cl_comdatum c with
   | Some comdatum =>
      if negb (nz rc) then hashtab_map (s_table (cm_permissions comdatum)) (perm_name (i + 1)) name
      else mret (rc, name)
   | None => mret (rc, name)
   end) h = Some (1, Some (pnm i), h).
Proof.
  intros Hc Hi. pose proof (cl_names c pnm Hc i Hi) as Hf. destruct (cl_wf c pnm Hc) as [Hw1 Hw2].
  rewrite find_app in Hf. unfold mbind, M_bind. rewrite map_perm by done.
  destruct (find _ (sym_entries (s_table (cl_permissions c)))) as [e|]; [injection Hf as ->; by destruct (cl_comdatum c)|].
  unfold comtable in *. destruct (cl_comdatum c) as [cm|]; [|done]. simpl in *. rewrite map_perm by done.
  by rewrite Hf.
Qed.

Lemma av_bits_ok c pnm todo i av name perm buf text h :
  class_named c pnm → 0 ≤ i → i + Z.of_nat todo = s_nprim (cl_permissions c) →
  text = (buf +:+ spaced (pnm <$> filter (λ i, Z.testbit av i = true) (seqZ i (Z.of_nat todo))))%string →
  strlen text < 1024 → av_bits todo i c av name perm buf h = Some (Some text, h).
Proof.
  intros Hc. revert i name perm buf h. induction todo as [|todo IH]; intros i name perm buf h Hi Hn Ht Hl.
  { simpl in *. rewrite str_app_nil_r in Ht. by subst. }
  pose proof (cl_count c pnm Hc) as Hmax. rewrite seqZ_cons in Ht by lia. rewrite filter_cons in Ht.
  replace (Z.pred (Z.of_nat (S todo))) with (Z.of_nat todo) in Ht by lia.
  cbn [av_bits]. rewrite (proj2 (Z.leb_gt 32 i)) by lia. rewrite nz_land_bit by done.
  destruct (decide (Z.testbit av i = true)) as [E|E].
  - rewrite E. cbn [negb]. rewrite fmap_cons, spaced_cons in Ht.
    pose proof (perm_lookup c pnm i name h Hc ltac:(lia)) as Hp. unfold mbind, M_bind in *.
    destruct (hashtab_map (s_table (cl_permissions c)) (perm_name (i + 1)) name h) as [[[rc nm] h1]|]; [|done].
    rewrite Hp. cbn iota. change (nz 1) with true. cbn iota.
    rewrite (proj2 (Z.leb_gt 1024 _)).
    + apply IH; [lia|lia| |done]. by rewrite Ht, !str_app_assoc.
    + rewrite Ht, !strlen_app in Hl. change (strlen " ") with 1 in Hl.
      pose proof (strlen_nonneg (spaced (pnm <$> filter (λ i, Z.testbit av i = true) (seqZ (Z.succ i) (Z.of_nat todo))))). lia.
  - apply not_true_iff_false in E. rewrite E. cbn [negb]. apply IH; [lia|lia|done|done].
Qed.

(** The class of the decision, named. *)
Definition named_class (p : policydb) (tclass : Z) (c : class_datum) (pnm : Z → string) : Prop :=
  1 ≤ tclass < 2 ^ 32 ∧ class_val_to_struct p !! Z.to_nat (tclass - 1) = Some (Some c) ∧ class_named c pnm.

Lemma class_get {A} (l : list A) tclass x :
  1 ≤ tclass < 2 ^ 32 → l !! Z.to_nat (tclass - 1) = Some x → aget l (u32 (tclass - 1)) = Some x.
Proof.
  intros Ht Hx. rewrite u32_id by lia. unfold aget. by rewrite (proj2 (Z.ltb_ge _ _)) by lia.
Qed.

Lemma av_to_string_ok p tclass c pnm av h :
  named_class p tclass c pnm →
  strlen (spaced (perms_of pnm (s_nprim (cl_permissions c)) av)) < 1024 →
  sepol_av_to_string p tclass av h = Some (Some (spaced (perms_of pnm (s_nprim (cl_permissions c)) av)), h).
Proof.
  intros (Ht & Hc & Hn) Hlen. unfold sepol_av_to_string. rewrite (class_get _ _ _ Ht Hc).
  pose proof (cl_count c pnm Hn). cbn [mbind option_bind id get].
  unfold mbind, M_bind. cbn [mret M_ret]. unfold mret, M_ret.
  apply (av_bits_ok c pnm); [done|lia|lia| |done]. by rewrite Z2Nat.id by lia.
Qed.

(** ** The statement *)

Definition statement (xc : option context_struct) (constraint : constraint_node) : string :=
  match xc, existsb (λ e, CEXPR_L1L2 <=? ce_attr e) (cn_expr constraint) with
  | None, false => "constrain " | None, true => "mlsconstrain "
  | Some _, false => "validatetrans " | Some _, true => "mlsvalidatetrans "
  end.

Definition statement_text (xc : option context_struct) (constraint : constraint_node) (name : string)
    (perms : list string) : string :=
  statement xc constraint +:+ name +:+ " " +:+
  match xc with None => "{" +:+ spaced perms +:+ " } (" | Some _ => "(" end.

(** The text of the statement is defined: the class has a name, and the names
    of the permissions fit [sepol_av_to_string]'s buffer. *)
Definition statement_ok (p : policydb) (tclass : Z) (name : string) (c : class_datum) (pnm : Z → string) (av : Z) : Prop :=
  named_class p tclass c pnm ∧ p_class_val_to_name p !! Z.to_nat (tclass - 1) = Some (Some name) ∧
  strlen (spaced (perms_of pnm (s_nprim (cl_permissions c)) av)) < 1024.

Lemma class_loop_ok fuel text len h :
  strlen text < len + EXPR_BUF_SIZE * Z.of_nat (S fuel) → hp_oom h = [] →
  wp (class_loop (S fuel) text len) h (λ r h', r = Some text ∧ hp_oom h' = []).
Proof.
  revert len h. induction fuel as [|fuel IH]; intros len h Hl Ho; cbn [class_loop];
    (wp_step; apply wp_malloc_ok; [done|]; intros h1 Ho1; destruct (Z.ltb_spec (strlen text) (len + EXPR_BUF_SIZE)); [by wp_step|]).
  - lia.
  - apply IH; [unfold EXPR_BUF_SIZE in *; lia|done].
Qed.

Lemma get_class_info_ok p tclass name c pnm constraint xc h :
  statement_ok p tclass name c pnm (cn_permissions constraint) → hp_oom h = [] →
  wp (get_class_info p tclass constraint xc) h (λ r h',
    r = Some (statement_text xc constraint name (perms_of pnm (s_nprim (cl_permissions c)) (cn_permissions constraint)))
    ∧ hp_oom h' = []).
Proof.
  intros (Hc & Hname & Hlen) Ho. unfold get_class_info. cbn zeta.
  set (perms := perms_of _ _ _). set (text := statement_text _ _ _ _).
  rewrite (class_get _ _ _ (proj1 Hc) Hname).
  assert (∀ (st : Z) h Q, (∀ pt h', hp_oom h' = [] → (st <? 2 = false → pt = "("%string) →
     (st <? 2 = true → pt = ("{" +:+ spaced perms +:+ " } (")%string) → Q pt h') → hp_oom h = [] →
     wp (perms_text p tclass constraint st) h Q) as Hperms.
  { intros st h0 Q HQ Ho0. unfold perms_text. destruct (st <? 2) eqn:E.
    - wp_step. unfold wp. rewrite (av_to_string_ok _ _ _ _ _ _ Hc Hlen). simpl. by apply HQ.
    - wp_step. by apply HQ. }
  assert (∀ st, ["constrain "; "mlsconstrain "; "validatetrans "; "mlsvalidatetrans "]%string !! Z.to_nat st =
     Some (statement xc constraint) → (st <? 2 = true ↔ xc = None) →
     wp (s ← get (Some (statement xc constraint)); name ← get (Some (Some name) ≫= id);
         perms ← perms_text p tclass constraint st;
         class_loop (S (Z.to_nat (strlen (s +:+ name +:+ " " +:+ perms)))) (s +:+ name +:+ " " +:+ perms) 0) h
       (λ r h', r = Some text ∧ hp_oom h' = [])) as Hall.
  { intros st Hst Hx. do 2 wp_step. change (Some (Some name) ≫= id) with (Some name). do 3 wp_step. apply (Hperms st); [|done]. intros pt h' Ho' Hf Ht.
    replace (statement xc constraint +:+ name +:+ " " +:+ pt)%string with text.
    - apply class_loop_ok; [|done]. pose proof (strlen_nonneg text). unfold EXPR_BUF_SIZE. lia.
    - unfold text, statement_text. do 3 f_equal. destruct xc; [symmetry; apply Hf, not_true_is_false; by intros ?%Hx|].
      symmetry. by apply Ht, Hx. }
  unfold statement in *. destruct xc, (existsb _ _); cbn [b2z] in *.
  - apply (Hall 3); [done|]. by split.
  - apply (Hall 2); [done|]. by split.
  - apply (Hall 1); [done|]. by split.
  - apply (Hall 0); [done|]. by split.
Qed.

(** ** Evaluation *)

Definition encoded_constraint (perms : Z) (e : bexpr atom) : constraint_node :=
  CNode perms (encode_token <$> rpn e).

Definition verdict (xc : option context_struct) (v : bool) : string :=
  match xc with Some _ => "Validatetrans" | None => "Constraint" end +:+ " " +:+
  (if v then "GRANTED" else "DENIED") +:+ String "010" "".

(** The explanation of a constraint: the statement, the expression and the
    verdict. *)
Definition explanation (xc : option context_struct) (constraint : constraint_node) (name : string)
    (perms : list string) (expr : string) (v : bool) : string :=
  statement_text xc constraint name perms +:+ expr +:+ "); " +:+ verdict xc v.

Section constraint.
Context (p : policydb) (sc tc : context_struct) (xc : option context_struct).
Context (tclass : Z) (name : string) (c : class_datum) (pnm : Z → string) (perms : Z).
Context (Hst : statement_ok p tclass name c pnm perms).

(** The expression is one the security server can evaluate and print. *)
Definition expr_ok (e : bexpr atom) : Prop :=
  and_or e = true ∧ (bdepth e ≤ maxdepth5)%nat ∧
  Forall (λ a, atom_ok p sc tc xc a ∧ is_Some (atom_text p sc tc xc a)) (atoms e).

Lemma render_some e : expr_ok e → is_Some (render p sc tc xc e).
Proof.
  intros (_ & _ & Ha). induction e as [a|e IH|o e1 IH1 e2 IH2]; cbn [render atoms] in *.
  - by apply list.Forall_singleton in Ha as [_ ?].
  - destruct (IH Ha) as [s ->]. by eexists.
  - apply Forall_app in Ha as [H1 H2]. destruct (IH1 H1) as [s1 ->], (IH2 H2) as [s2 ->]. by eexists.
Qed.

Notation value e := (beval (atom_holds p sc tc xc) e).
Notation constraint e := (encoded_constraint perms e).

(** The reason buffer after a call. *)
Definition explained (r_buf : bool) (flags : Z) (e : bexpr atom) (r r' : reason_buf) : Prop :=
  reason_ok r' ∧
  ∃ expr, render p sc tc xc e = Some expr ∧
    if r_buf && (negb (value e) || (Z.land flags SHOW_GRANTED =? SHOW_GRANTED))
    then reason_text r' = reason_text r +:+
           explanation xc (constraint e) name (perms_of pnm (s_nprim (cl_permissions c)) perms) expr (value e)
    else r' = r.

Lemma constraint_ok e r_buf flags t h :
  expr_ok e → reason_ok (ts_reason t) → hp_oom h = [] →
  wp (constraint_expr_eval_reason p sc tc xc tclass (constraint e) r_buf flags t) h (λ q h',
    q.1 = b2z (value e) ∧ ts_stack q.2 = ts_stack t ∧ hp_oom h' = [] ∧
    explained r_buf flags e (ts_reason t) (ts_reason q.2)).
Proof using Hst.
  intros He Hre Ho. destruct (render_some e He) as [expr Hex]. destruct He as (Hao & Hd & Hat).
  unfold constraint_expr_eval_reason. wp_step. eapply wp_mono; [by apply get_class_info_ok|].
  intros ? h1 [-> Ho1]. wp_step. cbn [cn_expr encoded_constraint]. rewrite <- (app_nil_r (encode_token <$> _)).
  apply (eval_rpn p sc tc xc e [] _ []); [done|done| |simpl; lia|done|]; [split_and!; simpl; (done || lia)|].
  intros s len h2 Hs Ho2. cbn [eval_exprs ev_texts app]. wp_step. wp_step. apply wp_malloc_ok; [done|].
  intros h3 Ho3. wp_step. rewrite <- (app_nil_r (texts _ _ _ _ _)).
  apply (infix_rpn p sc tc xc e expr); [done|done|done|]. intros t' h4 Hst' Hre' Ho4. cbn [infix]. wp_step.
  rewrite (pop_ok _ _ _ Hst'). cbn iota beta. cbn [ev_stack].
  pose proof (holds_read _ _ _ 0 (b2z (value e)) Hs eq_refl) as Hrd. change (Z.of_nat 0) with 0 in Hrd.
  rewrite Hrd. do 2 wp_step.
  assert ((b2z (value e) =? 0) || (b2z (value e) =? 1) && (Z.land flags SHOW_GRANTED =? SHOW_GRANTED) =
          negb (value e) || (Z.land flags SHOW_GRANTED =? SHOW_GRANTED)) as -> by by destruct (value e).
  unfold explained. destruct (r_buf && _).
  - wp_step. cbn [ts_reason set_stack]. rewrite Hre'. eapply wp_mono; [by apply add_reason_ok|].
    intros r h5 (Hr & Ht & Ho5). wp_step. split_and!; [done|done|done|done|]. exists expr. split; [done|].
    cbn [snd ts_reason]. rewrite Ht. cbn [foldl]. rewrite !str_app_assoc. unfold explanation, verdict. rewrite ?str_app_assoc.
    by destruct (value e).
  - wp_step. cbn [ts_reason set_stack ts_stack snd fst]. split_and!; [done|done|done|by rewrite Hre'|]. by exists expr.
Qed.
End constraint.
