(* ===== verification/Services.v ===== *)
(** * The security server: access decisions and labels

    [src/services.c]: access vectors from rules, constraints, role rules and type
    bounds; labels of new objects; conversions of identifiers, classes and
    permissions.  The static variables [policydb], [sidtab] and the text buffers
    are the fields of [services]. *)

From S2P Require Import Prelude Ebitmap Hashtab Avtab Mls Policydb MlsPolicy Sidtab Conditional Context Rpn Constraint.

Record services := Services { sv_policydb : policydb; sv_sidtab : sidtab; sv_text : text_state }.

Definition set_sidtab (sv : services) (s : sidtab) : services := Services (sv_policydb sv) s (sv_text sv).
Definition set_text (sv : services) (t : text_state) : services :=
  Services (sv_policydb sv) (sv_sidtab sv) t.

Definition selinux_enforcing : Z := 1.
Definition latest_granting : Z := 0.

Definition SEPOL_COMPUTEAV_TE : Z := 1.
Definition SEPOL_COMPUTEAV_CONS : Z := 2.
Definition SEPOL_COMPUTEAV_RBAC : Z := 4.
Definition SEPOL_COMPUTEAV_BOUNDS : Z := 8.

(** ** Access vectors *)

Definition te_add_av (avd : av_decision) (node : avtab_node) : av_decision :=
  let specified := ak_specified (an_key node) in
  let data := ad_data (an_datum node) in
  if specified =? AVTAB_ALLOWED then
    AvDecision (Z.lor (avd_allowed avd) data) (avd_decided avd) (avd_auditallow avd) (avd_auditdeny avd)
      (avd_seqno avd)
  else if specified =? AVTAB_AUDITALLOW then
    AvDecision (avd_allowed avd) (avd_decided avd) (Z.lor (avd_auditallow avd) data) (avd_auditdeny avd)
      (avd_seqno avd)
  else if specified =? AVTAB_AUDITDENY then
    AvDecision (avd_allowed avd) (avd_decided avd) (avd_auditallow avd) (Z.land (avd_auditdeny avd) data)
      (avd_seqno avd)
  else avd.

(** The body of the two loops. *)
Definition te_pair (p : policydb) (tclass i j : Z) (avd : av_decision) : option av_decision :=
  let avkey := AvtabKey (u16 (i + 1)) (u16 (j + 1)) tclass AVTAB_AV in
  nodes ← avtab_search_nodes (te_avtab p) avkey;
  cond_compute_av (te_cond_avtab p) avkey (fold_left te_add_av nodes avd).

Fixpoint te_targets (p : policydb) (tclass i : Z) (js : list Z) (avd : av_decision) : option av_decision :=
  match js with
  | [] => Some avd
  | j :: js => avd ← te_pair p tclass i j avd; te_targets p tclass i js avd
  end.

Fixpoint te_sources (p : policydb) (tclass : Z) (tattr : ebitmap) (ii : list Z) (avd : av_decision) :
    option av_decision :=
  match ii with
  | [] => Some avd
  | i :: ii =>
     js ← ebitmap_for_each_positive_bit tattr;
     avd ← te_targets p tclass i js avd;
     te_sources p tclass tattr ii avd
  end.

Definition compute_te (p : policydb) (scontext tcontext : context_struct) (tclass : Z)
    (avd : av_decision) : option av_decision :=
  sattr ← aget (type_attr_map p) (u32 (c_type scontext - 1));
  tattr ← aget (type_attr_map p) (u32 (c_type tcontext - 1));
  ii ← ebitmap_for_each_positive_bit sattr;
  te_sources p tclass tattr ii avd.

Definition set_allowed (avd : av_decision) (allowed : Z) : av_decision :=
  AvDecision allowed (avd_decided avd) (avd_auditallow avd) (avd_auditdeny avd) (avd_seqno avd).

(** A constraint is evaluated when it concerns a permission still allowed. *)
Fixpoint apply_constraints (p : policydb) (scontext tcontext : context_struct) (tclass : Z)
    (constraints : list constraint_node) (r_buf : bool) (flags : Z) (avd : av_decision)
    (t : text_state) : M (av_decision * text_state) :=
  match constraints with
  | [] => mret (avd, t)
  | constraint :: next =>
     '(avd, t) ←
       (if nz (Z.land (cn_permissions constraint) (avd_allowed avd)) then
          '(rc, t) ← constraint_expr_eval_reason p scontext tcontext None tclass constraint r_buf flags t;
          mret (if rc =? 0 then set_allowed avd (Z.ldiff (avd_allowed avd) (cn_permissions constraint))
                else avd, t)
        else mret (avd, t));
     apply_constraints p scontext tcontext tclass next r_buf flags avd t
  end.

Definition check_roles (p : policydb) (scontext tcontext : context_struct) (tclass : Z)
    (avd : av_decision) : av_decision :=
  if (tclass =? process_class p) && nz (Z.land (avd_allowed avd) (process_trans_dyntrans p)) &&
     negb (c_role scontext =? c_role tcontext) &&
     negb (existsb (λ ra, (c_role scontext =? ra_role ra) && (c_role tcontext =? ra_new_role ra))
             (p_role_allow p))
  then set_allowed avd (Z.ldiff (avd_allowed avd) (process_trans_dyntrans p))
  else avd.

(** [if (requested & ~avd->allowed)]: the requested permissions left and the
    reason; a null [reason] is one the caller drops. *)
Definition note_reason (requested : Z) (avd : av_decision) (reason bit : Z) : Z * Z :=
  if nz (Z.ldiff requested (avd_allowed avd))
  then (Z.land requested (avd_allowed avd), Z.lor reason bit) else (requested, reason).

(** The code, the decision, the reason and the text. *)
Notation av_result := (Z * av_decision * Z * text_state)%type.

Definition set_ctype (c : context_struct) (type : Z) : context_struct :=
  Context (c_user c) (c_role c) type (c_range c).

(** [compute] is [context_struct_compute_av]: the two functions are mutually
    recursive. *)
Definition type_attribute_bounds_av
    (compute : context_struct → context_struct → av_decision → text_state → M av_result)
    (p : policydb) (scontext tcontext : context_struct) (avd : av_decision) (reason : Z)
    (t : text_state) : M (av_decision * Z * text_state) :=
  source ← get (aget (type_val_to_struct p) (u32 (c_type scontext - 1)) ≫= id);
  if td_bounds source =? 0 then mret (avd, reason, t)
  else
    target ← get (aget (type_val_to_struct p) (u32 (c_type tcontext - 1)) ≫= id);
    let lo_scontext := set_ctype scontext (td_bounds source) in
    let lo_tcontext := if nz (td_bounds target) then set_ctype tcontext (td_bounds target) else tcontext in
    '(_, lo_avd, _, t) ← compute lo_scontext lo_tcontext (AvDecision 0 0 0 0 0) t;
    let masked := Z.ldiff (avd_allowed avd) (avd_allowed lo_avd) in
    if masked =? 0 then mret (avd, reason, t)
    else mret (set_allowed avd (Z.ldiff (avd_allowed avd) masked),
               Z.lor reason SEPOL_COMPUTEAV_BOUNDS, t).

(** [fuel] bounds the recursion through the bounds of the source type. *)
Fixpoint context_struct_compute_av (fuel : nat) (p : policydb) (tclass requested : Z) (r_buf : bool)
    (flags : Z) (scontext tcontext : context_struct) (avd : av_decision) (t : text_state) : M av_result :=
  match fuel with
  | O => ub
  | S fuel =>
     if (tclass =? 0) || (s_nprim (p_classes p) <? tclass) then mret (- EINVAL, avd, 0, t)
     else
       tclass_datum ← get (aget (class_val_to_struct p) (tclass - 1));
       avd ← get (compute_te p scontext tcontext tclass
                    (AvDecision 0 (2 ^ 32 - 1) 0 (2 ^ 32 - 1) latest_granting));
       let '(requested, reason) := note_reason requested avd 0 SEPOL_COMPUTEAV_TE in
       tclass_datum ← get tclass_datum;
       '(avd, t) ← apply_constraints p scontext tcontext tclass (cl_constraints tclass_datum) r_buf flags
                     avd t;
       let '(requested, reason) := note_reason requested avd reason SEPOL_COMPUTEAV_CONS in
       let avd := check_roles p scontext tcontext tclass avd in
       let '(requested, reason) := note_reason requested avd reason SEPOL_COMPUTEAV_RBAC in
       '(avd, reason, t) ← type_attribute_bounds_av
                             (context_struct_compute_av fuel p tclass requested false 0)
                             p scontext tcontext avd reason t;
       mret (0, avd, reason, t)
  end.

(** A chain of bounds visits no type twice, so the number of types is enough. *)
Definition bounds_fuel (p : policydb) : nat := S (length (type_val_to_struct p)).

(** ** Validation of transitions *)

Fixpoint validate_loop (p : policydb) (ocontext ncontext tcontext : context_struct) (tclass : Z)
    (constraints : list constraint_node) (flags : Z) (t : text_state) : M (Z * text_state) :=
  match constraints with
  | [] => mret (0, t)
  | constraint :: next =>
     '(rc, t) ← constraint_expr_eval_reason p ocontext ncontext (Some tcontext) tclass constraint true
                  flags t;
     if rc =? 0 then mret (- EPERM, t)
     else validate_loop p ocontext ncontext tcontext tclass next flags t
  end.

(** [*reason_buf = NULL] and the two counters. *)
Definition reset_reason (t : text_state) : text_state :=
  TextState (ts_stack t) (ts_stack_len t) (ReasonBuf None 0 0).

Definition sepol_validate_transition_reason_buffer (sv : services) (oldsid newsid tasksid tclass flags : Z) :
    M (Z * services) :=
  let p := sv_policydb sv in
  if (tclass =? 0) || (s_nprim (p_classes p) <? tclass) then mret (- EINVAL, sv)
  else
    tclass_datum ← get (aget (class_val_to_struct p) (tclass - 1));
    ocontext ← get (sepol_sidtab_search (sv_sidtab sv) oldsid);
    match ocontext with
    | None => mret (- EINVAL, sv)
    | Some ocontext =>
       ncontext ← get (sepol_sidtab_search (sv_sidtab sv) newsid);
       match ncontext with
       | None => mret (- EINVAL, sv)
       | Some ncontext =>
          tcontext ← get (sepol_sidtab_search (sv_sidtab sv) tasksid);
          match tcontext with
          | None => mret (- EINVAL, sv)
          | Some tcontext =>
             tclass_datum ← get tclass_datum;
             '(rc, t) ← validate_loop p ocontext ncontext tcontext tclass (cl_validatetrans tclass_datum)
                          flags (reset_reason (sv_text sv));
             mret (rc, set_text sv t)
          end
       end
    end.

(** ** Decisions between identifiers *)

Definition compute_av_with (r_buf : bool) (flags : Z) (sv : services) (ssid tsid tclass requested : Z)
    (avd : av_decision) : M (Z * av_decision * Z * services) :=
  scontext ← get (sepol_sidtab_search (sv_sidtab sv) ssid);
  match scontext with
  | None => mret (- EINVAL, avd, 0, sv)
  | Some scontext =>
     tcontext ← get (sepol_sidtab_search (sv_sidtab sv) tsid);
     match tcontext with
     | None => mret (- EINVAL, avd, 0, sv)
     | Some tcontext =>
        let t := if r_buf then reset_reason (sv_text sv) else sv_text sv in
        '(rc, avd, reason, t) ←
          context_struct_compute_av (bounds_fuel (sv_policydb sv)) (sv_policydb sv) tclass requested r_buf
            flags scontext tcontext avd t;
        mret (rc, avd, reason, set_text sv t)
     end
  end.

Definition sepol_compute_av_reason := compute_av_with false 0.
Definition sepol_compute_av_reason_buffer (flags : Z) := compute_av_with true flags.

Definition sepol_compute_av (sv : services) (ssid tsid tclass requested : Z) (avd : av_decision) :
    M (Z * av_decision * services) :=
  '(rc, avd, _, sv) ← sepol_compute_av_reason sv ssid tsid tclass requested avd;
  mret (rc, avd, sv).

(** ** Classes and permissions *)

Definition sepol_string_to_security_class (sv : services) (class_name : string) : option (Z * option Z) :=
  tclass_datum ← hashtab_search (s_table (p_classes (sv_policydb sv))) class_name;
  Some (match tclass_datum with
        | None => (STATUS_ERR, None)
        | Some tclass_datum => (STATUS_SUCCESS, Some (cl_value tclass_datum))
        end).

(** [UINT32_C(1) << (value - 1)]. *)
Definition perm_bit (value : Z) : option Z :=
  let n := u32 (value - 1) in if 32 <=? n then None else Some (Z.shiftl 1 n).

Definition sepol_string_to_av_perm (sv : services) (tclass : Z) (name : string) : option (Z * option Z) :=
  let p := sv_policydb sv in
  if (tclass =? 0) || (s_nprim (p_classes p) <? tclass) then Some (- EINVAL, None)
  else
    tclass_datum ← (aget (class_val_to_struct p) (tclass - 1) ≫= id);
    perm_datum ← hashtab_search (s_table (cl_permissions tclass_datum)) name;
    match perm_datum with
    | Some v => av ← perm_bit v; Some (STATUS_SUCCESS, Some av)
    | None =>
       match cl_comdatum tclass_datum with
       | None => Some (STATUS_ERR, None)
       | Some comdatum =>
          perm_datum ← hashtab_search (s_table (cm_permissions comdatum)) name;
          match perm_datum with
          | Some v => av ← perm_bit v; Some (STATUS_SUCCESS, Some av)
          | None => Some (STATUS_ERR, None)
          end
       end
    end.

Definition sepol_av_perm_to_string (sv : services) (tclass av : Z) : M (option string) :=
  sepol_av_to_string (sv_policydb sv) tclass av.

(** ** Identifiers and text *)

Definition sepol_sid_to_context (sv : services) (sid : Z) : M (Z * option (string * Z)) :=
  context ← get (sepol_sidtab_search (sv_sidtab sv) sid);
  match context with
  | None => mret (- EINVAL, None)
  | Some context => context_to_string (sv_policydb sv) context
  end.

(** [want] is whether the caller passed a place for the identifier. *)
Definition sepol_context_to_sid (sv : services) (scontext : string) (scontext_len : Z) (want : bool) :
    M (Z * option Z * services) :=
  '(rc, context) ← context_from_string (sv_policydb sv) scontext scontext_len;
  if rc <? 0 then mret (STATUS_ERR, None, sv)
  else if negb want then mret (STATUS_SUCCESS, None, sv)
  else
    context ← get context;
    '(rc, sid, s) ← sepol_sidtab_context_to_sid (sv_sidtab sv) context;
    mret (if rc <? 0 then STATUS_ERR else STATUS_SUCCESS, Some sid, set_sidtab sv s).

(** ** Labels of new objects *)

Definition compute_sid_handle_invalid_context (p : policydb) (scontext tcontext newcontext : context_struct)
    (tclass : Z) : M Z :=
  if nz selinux_enforcing then mret (- EACCES)
  else
    '(_, s) ← context_to_string p scontext;
    '(_, t) ← context_to_string p tcontext;
    '(_, n) ← context_to_string p newcontext;
    _ ← get s; _ ← get t; _ ← get n;
    _ ← get (aget (p_class_val_to_name p) (u32 (tclass - 1)));
    mret 0.

(** The class's default is looked up when the class exists. *)
Definition default_user (cladatum : option class_datum) (specified : Z)
    (scontext tcontext : context_struct) : Z :=
  if (specified =? AVTAB_TRANSITION) || (specified =? AVTAB_CHANGE) then
    match cladatum with
    | Some c => if cl_default_user c =? DEFAULT_TARGET then c_user tcontext else c_user scontext
    | None => c_user scontext
    end
  else if specified =? AVTAB_MEMBER then c_user tcontext
  else 0.

Definition default_role (p : policydb) (cladatum : option class_datum) (tclass : Z)
    (scontext tcontext : context_struct) : Z :=
  let other := if tclass =? process_class p then c_role scontext else OBJECT_R_VAL in
  match cladatum with
  | Some c =>
     if cl_default_role c =? DEFAULT_SOURCE then c_role scontext
     else if cl_default_role c =? DEFAULT_TARGET then c_role tcontext else other
  | None => other
  end.

Definition default_type (p : policydb) (cladatum : option class_datum) (tclass : Z)
    (scontext tcontext : context_struct) : Z :=
  let other := if tclass =? process_class p then c_type scontext else c_type tcontext in
  match cladatum with
  | Some c =>
     if cl_default_type c =? DEFAULT_SOURCE then c_type scontext
     else if cl_default_type c =? DEFAULT_TARGET then c_type tcontext else other
  | None => other
  end.

(** The rule for the type: a permanent one, else the first enabled conditional
    one. *)
Definition type_rule (p : policydb) (avkey : avtab_key) : option (option avtab_datum) :=
  avdatum ← avtab_search (te_avtab p) avkey;
  match avdatum with
  | Some d => Some (Some d)
  | None =>
     nodes ← avtab_search_nodes (te_cond_avtab p) avkey;
     Some (an_datum <$> find (λ n, nz (Z.land (ak_specified (an_key n)) AVTAB_ENABLED)) nodes)
  end.

Definition role_rule (p : policydb) (scontext tcontext : context_struct) (tclass : Z) : option role_trans :=
  find (λ r, (rt_role r =? c_role scontext) && (rt_type r =? c_type tcontext) && (rt_tclass r =? tclass))
    (role_tr p).

(** The user, role and type of the new context. *)
Definition new_context (p : policydb) (cladatum : option class_datum) (scontext tcontext : context_struct)
    (tclass specified : Z) : option context_struct :=
  avdatum ← type_rule p (AvtabKey (u16 (c_type scontext)) (u16 (c_type tcontext)) tclass specified);
  let role := default_role p cladatum tclass scontext tcontext in
  Some (Context (default_user cladatum specified scontext tcontext)
          (if nz (Z.land specified AVTAB_TRANSITION) then
             match role_rule p scontext tcontext tclass with Some r => rt_new_role r | None => role end
           else role)
          (match avdatum with
           | Some d => ad_data d
           | None => default_type p cladatum tclass scontext tcontext
           end)
          mls_range_init).

(** An unknown identifier leaves through [out] in front of [context_init], and
    [context_destroy] then walks an uninitialised structure. *)
Definition sepol_compute_sid (sv : services) (ssid tsid tclass specified : Z) : M (Z * option Z * services) :=
  let p := sv_policydb sv in
  scontext ← get (sepol_sidtab_search (sv_sidtab sv) ssid ≫= id);
  tcontext ← get (sepol_sidtab_search (sv_sidtab sv) tsid ≫= id);
  cladatum ← get (if nz tclass && (tclass <=? s_nprim (p_classes p))
                  then aget (class_val_to_struct p) (tclass - 1) else Some None);
  newcontext ← get (new_context p cladatum scontext tcontext tclass specified);
  '(rc, newcontext) ← mls_compute_sid p scontext tcontext tclass specified newcontext;
  if nz rc then mret (rc, None, sv)
  else
    valid ← get (policydb_context_isvalid p newcontext);
    rc ← (if negb valid then compute_sid_handle_invalid_context p scontext tcontext newcontext tclass
          else mret 0);
    if nz rc then mret (rc, None, sv)
    else
      '(rc, sid, s) ← sepol_sidtab_context_to_sid (sv_sidtab sv) newcontext;
      mret (rc, Some sid, set_sidtab sv s).

Definition sepol_transition_sid (sv : services) (ssid tsid tclass : Z) :=
  sepol_compute_sid sv ssid tsid tclass AVTAB_TRANSITION.
Definition sepol_member_sid (sv : services) (ssid tsid tclass : Z) :=
  sepol_compute_sid sv ssid tsid tclass AVTAB_MEMBER.
Definition sepol_change_sid (sv : services) (ssid tsid tclass : Z) :=
  sepol_compute_sid sv ssid tsid tclass AVTAB_CHANGE.
