(* ===== verification/ServicesFacts.v ===== *)
(** * Facts about access decisions

    The rules that apply to a pair of contexts, the conditions under which a
    policy can be asked, and each stage of [context_struct_compute_av] against
    them. *)

From S2P Require Import Prelude Ebitmap EbitmapFacts EbitmapIter Hashtab HashtabFacts Avtab AvtabFacts Mls.
From S2P Require Import Policydb MlsPolicy MlsString Sidtab Conditional ConditionalSpec Context Rpn Constraint.
From S2P Require Import ConstraintFacts ConstraintSpec Services.

(** ** The rules of a pair of contexts *)

(** A rule of the permanent table, or ([true]) of the conditional one. *)
Notation table_rule := (bool * avtab_node)%type.

(** The rule is of the kind [k] and in force. *)
Definition rule_active (k : Z) (r : table_rule) : bool :=
  if r.1 then active_rule k r.2 else ak_specified (an_key r.2) =? k.

Definition rule_grants (k i : Z) (r : table_rule) : bool :=
  rule_active k r && Z.testbit (ad_data (an_datum r.2)) i.

Definition rule_silences (i : Z) (r : table_rule) : bool :=
  rule_active AVTAB_AUDITDENY r && negb (Z.testbit (ad_data (an_datum r.2)) i).

(** The decision with the rules [l] added. *)
Definition effect (l : list table_rule) (avd avd' : av_decision) : Prop :=
  avd_decided avd' = avd_decided avd ∧ avd_seqno avd' = avd_seqno avd ∧
  ∀ i, 0 ≤ i →
    Z.testbit (avd_allowed avd') i = Z.testbit (avd_allowed avd) i || existsb (rule_grants AVTAB_ALLOWED i) l ∧
    Z.testbit (avd_auditallow avd') i =
      Z.testbit (avd_auditallow avd) i || existsb (rule_grants AVTAB_AUDITALLOW i) l ∧
    Z.testbit (avd_auditdeny avd') i =
      Z.testbit (avd_auditdeny avd) i && negb (existsb (rule_silences i) l).

Lemma effect_nil avd : effect [] avd avd.
Proof. split; [done|]. split; [done|]. intros i Hi. simpl. by rewrite !orb_false_r, andb_true_r. Qed.

Lemma effect_app l1 l2 a b c : effect l1 a b → effect l2 b c → effect (l1 ++ l2) a c.
Proof.
  intros (D1 & S1 & H1) (D2 & S2 & H2). split; [congruence|]. split; [congruence|]. intros i Hi.
  destruct (H1 i Hi) as (A1 & B1 & C1), (H2 i Hi) as (-> & -> & ->). rewrite A1, B1, C1, !existsb_app.
  split_and!; btauto.
Qed.

Lemma effect_te l avd : effect ((false,.) <$> l) avd (fold_left te_add_av l avd).
Proof.
  revert avd. induction l as [|n l IH]; intros avd; [apply effect_nil|]. cbn [fold_left fmap list_fmap].
  apply (effect_app [_] _ _ (te_add_av avd n)); [|done]. unfold te_add_av. cbn zeta.
  split; [by repeat case_match|]. split; [by repeat case_match|]. intros i Hi. cbn [existsb].
  unfold rule_grants, rule_silences, rule_active. cbn [fst snd].
  generalize (ad_data (an_datum n)), (ak_specified (an_key n)). intros data sp.
  destruct (Z.eqb_spec sp AVTAB_ALLOWED) as [->|H1]; [|destruct (Z.eqb_spec sp AVTAB_AUDITALLOW) as [->|H2];
    [|destruct (Z.eqb_spec sp AVTAB_AUDITDENY) as [->|H3]]]; simpl;
    rewrite ?Z.lor_spec, ?Z.land_spec; split_and!; btauto.
Qed.

Lemma effect_cond l avd : effect ((true,.) <$> l) avd (fold_left cond_add_av l avd).
Proof.
  destruct (cond_add_av_spec l avd) as (HD & HS & H). split; [done|]. split; [done|]. intros i Hi.
  destruct (H i Hi) as (-> & -> & ->). clear. unfold rule_grants, rule_silences, rule_active.
  split_and!; f_equal; [induction l as [|n l IH]; simpl; [done|]; by rewrite IH..|].
  induction l as [|n l IH]; simpl; [done|]. rewrite IH, negb_orb. f_equal. btauto.
Qed.

(** The rules for one pair of type or attribute bits. *)
Definition pair_rules (p : policydb) (tclass i j : Z) : list table_rule :=
  let key := AvtabKey (u16 (i + 1)) (u16 (j + 1)) tclass AVTAB_AV in
  ((false,.) <$> matching (te_avtab p) key) ++ ((true,.) <$> matching (te_cond_avtab p) key).

(** The types and attributes of a type: the members of its map. *)
Definition type_bits (p : policydb) (type : Z) : list Z :=
  match type_attr_map p !! Z.to_nat (type - 1) with Some e => set_bits (e_node e) | None => [] end.

Definition te_rules (p : policydb) (sc tc : context_struct) (tclass : Z) : list table_rule :=
  i ← type_bits p (c_type sc); j ← type_bits p (c_type tc); pair_rules p tclass i j.

Section te.
Context (p : policydb) (tclass : Z) (Hte : awf (te_avtab p)) (Hcond : awf (te_cond_avtab p)).

Lemma te_pair_spec i j avd :
  ∃ avd', te_pair p tclass i j avd = Some avd' ∧ effect (pair_rules p tclass i j) avd avd'.
Proof using Hte Hcond.
  unfold te_pair, pair_rules, cond_compute_av. cbn zeta. rewrite !search_nodes_spec by done. simpl.
  eexists. split; [done|]. eapply effect_app; [apply effect_te|apply effect_cond].
Qed.

Lemma te_targets_spec i js avd :
  ∃ avd', te_targets p tclass i js avd = Some avd' ∧ effect (js ≫= pair_rules p tclass i) avd avd'.
Proof using Hte Hcond.
  revert avd. induction js as [|j js IH]; intros avd; [eexists; split; [done|apply effect_nil]|].
  cbn [te_targets]. destruct (te_pair_spec i j avd) as (a1 & -> & E1). simpl.
  destruct (IH a1) as (a2 & -> & E2). eexists. split; [done|]. by eapply effect_app.
Qed.

Lemma te_sources_spec tattr ii avd :
  wf tattr →
  ∃ avd', te_sources p tclass tattr ii avd = Some avd' ∧
    effect (ii ≫= λ i, set_bits (e_node tattr) ≫= pair_rules p tclass i) avd avd'.
Proof using Hte Hcond.
  intros Hw. revert avd. induction ii as [|i ii IH]; intros avd; [eexists; split; [done|apply effect_nil]|].
  cbn [te_sources]. rewrite positive_bits_set_bits by done. simpl.
  destruct (te_targets_spec i (set_bits (e_node tattr)) avd) as (a1 & -> & E1). simpl.
  destruct (IH a1) as (a2 & -> & E2). eexists. split; [done|]. by eapply effect_app.
Qed.

(** A type of the policy: its map is there. *)
Definition type_ok (t : Z) : Prop :=
  value_ok t ∧ ∃ e, type_attr_map p !! Z.to_nat (t - 1) = Some e ∧ wf e.

Lemma compute_te_spec sc tc avd :
  type_ok (c_type sc) → type_ok (c_type tc) →
  ∃ avd', compute_te p sc tc tclass avd = Some avd' ∧ effect (te_rules p sc tc tclass) avd avd'.
Proof using Hte Hcond.
  intros (Vs & sa & Hs & Ws) (Vt & ta & Ht & Wt). unfold compute_te, te_rules, type_bits.
  rewrite (class_get _ _ _ Vs Hs), (class_get _ _ _ Vt Ht). simpl. rewrite positive_bits_set_bits by done.
  simpl. rewrite Hs, Ht. by apply te_sources_spec.
Qed.
End te.

(** ** Contexts and constraints of a policy *)

(** The number of types and attributes. *)
Definition ntypes (p : policydb) : Z := Z.of_nat (length (type_val_to_struct p)).

Definition context_ok (p : policydb) (c : context_struct) : Prop :=
  value_ok (c_user c) ∧ role_ok p (c_role c) ∧ 1 ≤ c_type c ≤ ntypes p.

(** [x] is whether the expression may refer to a third context. *)
Definition atom_static (p : policydb) (x : bool) (a : atom) : Prop :=
  match a with
  | ANames w f _ names tn =>
     (w = XTarget → x = true) ∧
     ∃ types text, printed_set p f names tn = Some types ∧ names_text p (field_code f) (listed types) = Some text
  | _ => True
  end.

Definition expr_static (p : policydb) (x : bool) (e : bexpr atom) : Prop :=
  and_or e = true ∧ (bdepth e ≤ maxdepth5)%nat ∧ Forall (atom_static p x) (atoms e).

Lemma expr_static_ok p sc tc xc e :
  context_ok p sc → context_ok p tc → (∀ c, xc = Some c → context_ok p c) → ntypes p < 2 ^ 32 →
  expr_static p (bool_decide (is_Some xc)) e → expr_ok p sc tc xc e.
Proof.
  intros (Us & Rs & Ts) (Ut & Rt & Tt) Hx Hn (Hao & Hd & Ha). split; [done|]. split; [done|].
  eapply Forall_impl; [exact Ha|]. intros a Hs. destruct a as [b|b|o|l o|w f b names tn]; [by split..|].
  destruct Hs as (Hw & types & text & Hp & Ht). split; cbn [atom_ok atom_text].
  - assert (∃ c, context_of sc tc xc w = Some c ∧ context_ok p c) as (c & Hc & Uc & Rc & Tc).
    { destruct w; simpl; [by exists sc|by exists tc|]. specialize (Hw eq_refl). apply bool_decide_eq_true in Hw as [c ->].
      exists c. auto. }
    exists c. split; [done|]. destruct f; simpl; [done|apply Rc|unfold value_ok; lia].
  - rewrite Hp. simpl. unfold set_text_of. rewrite Ht. by eexists.
Qed.

(** A constraint is its permissions and its expression. *)
Definition encode_constraints (cs : list (Z * bexpr atom)) : list constraint_node :=
  (λ x, encoded_constraint x.1 x.2) <$> cs.

(** Permission [b] survives the constraints. *)
Definition constraints_allow (p : policydb) (sc tc : context_struct) (cs : list (Z * bexpr atom)) (b : Z) : bool :=
  forallb (λ x, negb (Z.testbit x.1 b) || beval (atom_holds p sc tc None) x.2) cs.

(** The rest of a decision. *)
Definition same_audit (avd avd' : av_decision) : Prop :=
  avd_decided avd' = avd_decided avd ∧ avd_auditallow avd' = avd_auditallow avd ∧
  avd_auditdeny avd' = avd_auditdeny avd ∧ avd_seqno avd' = avd_seqno avd.

#[global] Instance same_audit_preorder : PreOrder same_audit.
Proof. split; [done|]. intros ??? (?&?&?&?) (?&?&?&?). split_and!; congruence. Qed.

Lemma land_zero_bit a b i : nz (Z.land a b) = false → Z.testbit a i = true → Z.testbit b i = false.
Proof.
  unfold nz. intros H0%negb_false_iff%Z.eqb_eq Ha. assert (Z.testbit (Z.land a b) i = false) as Hi by by rewrite H0, Z.bits_0.
  rewrite Z.land_spec, Ha in Hi. done.
Qed.

Section decision.
Context (p : policydb) (tclass : Z) (name : string) (c : class_datum) (pnm : Z → string).

Lemma apply_constraints_spec sc tc cs r_buf flags avd t h :
  Forall (λ x, statement_ok p tclass name c pnm x.1 ∧ expr_ok p sc tc None x.2) cs →
  reason_ok (ts_reason t) → hp_oom h = [] →
  wp (apply_constraints p sc tc tclass (encode_constraints cs) r_buf flags avd t) h (λ q h',
    (∀ b, Z.testbit (avd_allowed q.1) b = Z.testbit (avd_allowed avd) b && constraints_allow p sc tc cs b) ∧
    same_audit avd q.1 ∧ reason_ok (ts_reason q.2) ∧ ts_stack q.2 = ts_stack t ∧ hp_oom h' = []).
Proof.
  intros Hcs. revert avd t h. induction Hcs as [|[perms e] cs [Hst He] _ IH]; intros avd t h Hr Ho.
  { split_and!; try done. intros b. simpl. by rewrite andb_true_r. }
  cbn [encode_constraints fmap list_fmap apply_constraints fst snd]. wp_step.
  apply (wp_mono _ _ (λ q h', (∀ b, Z.testbit (avd_allowed q.1) b = Z.testbit (avd_allowed avd) b &&
      (negb (Z.testbit perms b) || beval (atom_holds p sc tc None) e)) ∧
    same_audit avd q.1 ∧ reason_ok (ts_reason q.2) ∧ ts_stack q.2 = ts_stack t ∧ hp_oom h' = [])).
  - change (cn_permissions (encoded_constraint perms e)) with perms.
    destruct (nz (Z.land perms (avd_allowed avd))) eqn:E.
    + wp_step. eapply wp_mono; [by apply (constraint_ok _ _ _ _ _ _ _ _ _ Hst)|].
      intros [rc t'] h' (Hrc & Hstk & Ho' & Hex & _). simpl in *. subst rc. wp_step.
      destruct (beval _ e); cbn; (split_and!; try done); intros b; rewrite ?Z.ldiff_spec; btauto.
    + wp_step. split_and!; try done. intros b. cbn [fst].
      destruct (Z.testbit perms b) eqn:Eb; simpl; [|by rewrite andb_true_r]. by rewrite (land_zero_bit _ _ _ E Eb).
  - intros [avd1 t1] h1 (Hb1 & Hs1 & Hr1 & Hk1 & Ho1). simpl in *. fold (encode_constraints cs).
    eapply wp_mono; [by apply IH|]. intros [avd2 t2] h2 (Hb2 & Hs2 & Hr2 & Hk2 & Ho2). simpl in *.
    split_and!; [|by transitivity avd1|done|congruence|done]. intros b. rewrite Hb2, Hb1. cbn. btauto.
Qed.

(** The role change of a process transition is allowed. *)
Definition role_change_ok (sc tc : context_struct) (b : Z) : bool :=
  negb (tclass =? process_class p) || negb (Z.testbit (process_trans_dyntrans p) b) ||
  (c_role sc =? c_role tc) ||
  existsb (λ ra, (c_role sc =? ra_role ra) && (c_role tc =? ra_new_role ra)) (p_role_allow p).

Lemma check_roles_spec sc tc avd :
  (∀ b, Z.testbit (avd_allowed (check_roles p sc tc tclass avd)) b =
        Z.testbit (avd_allowed avd) b && role_change_ok sc tc b) ∧
  same_audit avd (check_roles p sc tc tclass avd).
Proof.
  unfold check_roles, role_change_ok. split; [|by case_match]. intros b.
  destruct (tclass =? process_class p); simpl; [|by rewrite andb_true_r].
  destruct (nz (Z.land (avd_allowed avd) (process_trans_dyntrans p))) eqn:E; simpl.
  - destruct (c_role sc =? c_role tc); simpl; [by rewrite orb_true_r, andb_true_r|].
    destruct (existsb _ _); simpl; [by rewrite orb_true_r, andb_true_r|]. rewrite Z.ldiff_spec. btauto.
  - destruct (Z.testbit (avd_allowed avd) b) eqn:Eb; simpl; [|done]. by rewrite (land_zero_bit _ _ _ E Eb).
Qed.
End decision.
