(* ===== verification/ServicesSpec.v ===== *)
(** * The properties of the security server

    Access decisions against a declarative specification, labels of new objects,
    and the behaviour on unknown identifiers. *)

From S2P Require Import Prelude Ebitmap EbitmapFacts EbitmapIter EbitmapSpec Hashtab HashtabFacts HashtabSpec Avtab.
From S2P Require Import AvtabFacts AvtabSpec Mls Policydb MlsPolicy MlsFacts MlsSpec MlsString Sidtab SidtabSpec.
From S2P Require Import Conditional ConditionalSpec Context ContextSpec Rpn Constraint ConstraintFacts ConstraintSpec.
From S2P Require Import Services ServicesFacts.

(** ** Bounds *)

Definition bounds_of (p : policydb) (t : Z) : Z :=
  match type_val_to_struct p !! Z.to_nat (t - 1) with Some (Some d) => td_bounds d | _ => 0 end.

(** A context with its type replaced by the type's bound, if it has one. *)
Definition lowered (p : policydb) (c : context_struct) : context_struct :=
  if nz (bounds_of p (c_type c)) then set_ctype c (bounds_of p (c_type c)) else c.

(** The number of bounds above a type, when the chain of bounds ends. *)
Inductive height (p : policydb) : Z → nat → Prop :=
  | height_top t : bounds_of p t = 0 → height p t 0
  | height_step t n : bounds_of p t ≠ 0 → height p (bounds_of p t) n → height p t (S n).

(** The types of the policy are all there. *)
Definition types_ok (p : policydb) : Prop :=
  ntypes p < 2 ^ 32 ∧
  ∀ t, 1 ≤ t ≤ ntypes p → type_ok p t ∧
    ∃ d, type_val_to_struct p !! Z.to_nat (t - 1) = Some (Some d) ∧ 0 ≤ td_bounds d ≤ ntypes p.

Lemma bounds_range p t : types_ok p → 1 ≤ t ≤ ntypes p → 0 ≤ bounds_of p t ≤ ntypes p.
Proof. intros [_ Hp] Ht. destruct (Hp t Ht) as (_ & d & Hd & Hb). unfold bounds_of. by rewrite Hd. Qed.

Lemma height_fun p t n m : height p t n → height p t m → n = m.
Proof.
  intros Hn. revert m. induction Hn as [t H0|t n Hne Hn IH]; intros m Hm; inversion Hm; subst; try done.
  f_equal. auto.
Qed.

(** The types of a chain are distinct. *)
Lemma height_path p t n :
  types_ok p → height p t n → 1 ≤ t ≤ ntypes p →
  ∃ l, length l = S n ∧ NoDup l ∧ ∀ x, x ∈ l → 1 ≤ x ≤ ntypes p ∧ ∃ k, (k ≤ n)%nat ∧ height p x k.
Proof.
  intros Hp. induction 1 as [t H0|t n Hne Hn IH]; intros Ht.
  - exists [t]. split; [done|]. split; [apply NoDup_singleton|]. intros x ->%list_elem_of_singleton.
    split; [done|]. exists 0%nat. split; [done|]. by constructor.
  - pose proof (bounds_range p t Hp Ht) as Hb. destruct IH as (l & Hl & Hnd & Hall); [lia|].
    exists (t :: l). split; [simpl; lia|]. split.
    + constructor; [|done]. intros Hin. destruct (Hall t Hin) as (_ & k & Hk & Hh).
      pose proof (height_fun p t k (S n) Hh ltac:(by constructor)). lia.
    + intros x [->|Hx]%elem_of_cons.
      * split; [done|]. exists (S n). split; [done|]. by constructor.
      * destruct (Hall x Hx) as (? & k & ? & ?). split; [done|]. exists k. split; [lia|done].
Qed.

Lemma height_bound p t n :
  types_ok p → height p t n → 1 ≤ t ≤ ntypes p → (n < length (type_val_to_struct p))%nat.
Proof.
  intros Hp Hh Ht. destruct (height_path p t n Hp Hh Ht) as (l & Hl & Hnd & Hall).
  assert (l ⊆+ seqZ 1 (ntypes p)) as Hsub%submseteq_length.
  { apply NoDup_submseteq; [done|]. intros x Hx. apply elem_of_seqZ. destruct (Hall x Hx). lia. }
  rewrite length_seqZ in Hsub. unfold ntypes in *. lia.
Qed.

(** ** The specification of access decisions *)

(** What the server needs of the policy to answer for a class: its constraints
    are the expressions [cs], and everything they print has a name. *)
Record server_ok (p : policydb) (tclass : Z) (name : string) (c : class_datum) (pnm : Z → string)
    (cs : list (Z * bexpr atom)) : Prop := {
  so_class : 1 ≤ tclass ≤ s_nprim (p_classes p);
  so_datum : class_val_to_struct p !! Z.to_nat (tclass - 1) = Some (Some c);
  so_te : awf (te_avtab p);
  so_cond : awf (te_cond_avtab p);
  so_types_ok : types_ok p;
  so_constraints : cl_constraints c = encode_constraints cs;
  so_statements : Forall (λ x, statement_ok p tclass name c pnm x.1 ∧ expr_static p false x.2) cs
}.

(** Permission [b] is granted: a rule allows it, no constraint forbids it, the
    role may change, and the bounding types, if any, are granted it too. *)
Inductive granted (p : policydb) (tclass : Z) (cs : list (Z * bexpr atom)) (b : Z) :
    context_struct → context_struct → Prop :=
  | granted_intro sc tc :
      existsb (rule_grants AVTAB_ALLOWED b) (te_rules p sc tc tclass) = true →
      constraints_allow p sc tc cs b = true →
      role_change_ok p tclass sc tc b = true →
      (bounds_of p (c_type sc) ≠ 0 →
       granted p tclass cs b (set_ctype sc (bounds_of p (c_type sc))) (lowered p tc)) →
      granted p tclass cs b sc tc.

Section decision.
Context (p : policydb) (tclass : Z) (name : string) (c : class_datum) (pnm : Z → string).
Context (cs : list (Z * bexpr atom)) (Hp : server_ok p tclass name c pnm cs).

(** What the first three stages grant. *)
Definition own_grant (sc tc : context_struct) (b : Z) : bool :=
  existsb (rule_grants AVTAB_ALLOWED b) (te_rules p sc tc tclass) && constraints_allow p sc tc cs b &&
  role_change_ok p tclass sc tc b.

Lemma granted_unfold sc tc b :
  granted p tclass cs b sc tc ↔
  own_grant sc tc b = true ∧
  (bounds_of p (c_type sc) ≠ 0 → granted p tclass cs b (set_ctype sc (bounds_of p (c_type sc))) (lowered p tc)).
Proof.
  unfold own_grant. rewrite !andb_true_iff. split.
  - inversion 1; subst. tauto.
  - intros [[[??]?]?]. by constructor.
Qed.

Lemma context_constraints sc tc :
  context_ok p sc → context_ok p tc →
  Forall (λ x, statement_ok p tclass name c pnm x.1 ∧ expr_ok p sc tc None x.2) cs.
Proof using Hp.
  intros Hs Ht. eapply Forall_impl; [apply (so_statements _ _ _ _ _ _ Hp)|]. intros x [Hst He].
  split; [done|]. apply expr_static_ok; [done|done|done|apply (proj1 (so_types_ok _ _ _ _ _ _ Hp))|done].
Qed.

Lemma context_lowered x b :
  context_ok p x → 1 ≤ b ≤ ntypes p → context_ok p (set_ctype x b).
Proof. by intros (? & ? & _) Hb. Qed.

Lemma lowered_ok x : context_ok p x → context_ok p (lowered p x).
Proof using Hp.
  intros Hx. pose proof (bounds_range p (c_type x) (so_types_ok _ _ _ _ _ _ Hp) (proj2 (proj2 Hx))) as Hb.
  unfold lowered, nz. destruct (Z.eqb_spec (bounds_of p (c_type x)) 0); simpl; [done|].
  apply context_lowered; [done|lia].
Qed.

Lemma type_get t : 1 ≤ t ≤ ntypes p →
  ∃ d, aget (type_val_to_struct p) (u32 (t - 1)) ≫= id = Some d ∧ td_bounds d = bounds_of p t.
Proof using Hp.
  intros Ht. destruct (so_types_ok _ _ _ _ _ _ Hp) as [Hn Htypes]. destruct (Htypes t Ht) as (_ & d & Hd & _).
  exists d. unfold bounds_of. assert (1 ≤ t < 2 ^ 32) as Hr by lia.
  rewrite (class_get _ _ _ Hr Hd), Hd. done.
Qed.

(** What a decision says. *)
Definition decides (sc tc : context_struct) (avd : av_decision) : Prop :=
  avd_decided avd = 2 ^ 32 - 1 ∧ avd_seqno avd = latest_granting ∧
  ∀ b, 0 ≤ b < 32 →
    (Z.testbit (avd_allowed avd) b = true ↔ granted p tclass cs b sc tc) ∧
    (Z.testbit (avd_auditallow avd) b = existsb (rule_grants AVTAB_AUDITALLOW b) (te_rules p sc tc tclass)) ∧
    (Z.testbit (avd_auditdeny avd) b = negb (existsb (rule_silences b) (te_rules p sc tc tclass))).

Definition decided (sc tc : context_struct) (t : text_state) (q : av_result) (h : heap) : Prop :=
  let '(rc, avd, reason, t') := q in
  rc = 0 ∧ decides sc tc avd ∧ reason_ok (ts_reason t') ∧ ts_stack t' = ts_stack t ∧ hp_oom h = [].

(** A decision in front of the bounds. *)
Definition staged (sc tc : context_struct) (avd : av_decision) : Prop :=
  (∀ b, 0 ≤ b → Z.testbit (avd_allowed avd) b = own_grant sc tc b) ∧
  ∀ avd', same_audit avd avd' →
    (∀ b, 0 ≤ b < 32 → Z.testbit (avd_allowed avd') b = true ↔ granted p tclass cs b sc tc) →
    decides sc tc avd'.

Lemma staged_roles sc tc a1 a2 :
  effect (te_rules p sc tc tclass) (AvDecision 0 (2 ^ 32 - 1) 0 (2 ^ 32 - 1) latest_granting) a1 →
  (∀ b, Z.testbit (avd_allowed a2) b = Z.testbit (avd_allowed a1) b && constraints_allow p sc tc cs b) →
  same_audit a1 a2 → staged sc tc (check_roles p sc tc tclass a2).
Proof.
  intros (D1 & S1 & E1) E2 H2. destruct (check_roles_spec p tclass sc tc a2) as (E3 & H3).
  pose proof (transitivity H2 H3) as (D3 & AA3 & AD3 & S3). split.
  - intros b Hb. rewrite E3, E2. destruct (E1 b Hb) as (-> & _). unfold own_grant. by rewrite Z.bits_0.
  - intros a4 (D4 & AA4 & AD4 & S4) Hg. split; [by rewrite D4, D3, D1|]. split; [by rewrite S4, S3, S1|].
    intros b Hb. split; [by apply Hg|]. rewrite AA4, AA3, AD4, AD3. destruct (E1 b) as (_ & -> & ->); [lia|].
    cbn [avd_auditallow avd_auditdeny]. rewrite Z.bits_0. change (2 ^ 32 - 1) with (Z.ones 32).
    by rewrite Z.ones_spec_low by lia.
Qed.

Lemma bounds_av_ok compute sc tc avd reason t h :
  context_ok p sc → context_ok p tc → staged sc tc avd → reason_ok (ts_reason t) → hp_oom h = [] →
  (bounds_of p (c_type sc) ≠ 0 → ∀ avd0 t0 h0, reason_ok (ts_reason t0) → hp_oom h0 = [] →
     wp (compute (set_ctype sc (bounds_of p (c_type sc))) (lowered p tc) avd0 t0) h0
       (decided (set_ctype sc (bounds_of p (c_type sc))) (lowered p tc) t0)) →
  wp (type_attribute_bounds_av compute p sc tc avd reason t) h (λ '(avd', reason', t') h',
    decided sc tc t (0, avd', reason', t') h').
Proof using Hp.
  intros Hs Ht [Hown Hdec] Hr Ho Hrec. unfold type_attribute_bounds_av.
  destruct (type_get (c_type sc) (proj2 (proj2 Hs))) as (ds & -> & Hds).
  destruct (type_get (c_type tc) (proj2 (proj2 Ht))) as (dt & -> & Hdt).
  do 2 wp_step. rewrite Hds. destruct (Z.eqb_spec (bounds_of p (c_type sc)) 0) as [H0|Hne].
  { wp_step. split_and!; [done| |done|done|done]. apply Hdec; [done|]. intros b Hb.
    rewrite Hown, granted_unfold by lia. tauto. }
  do 2 wp_step. cbn zeta. rewrite Hdt. fold (lowered p tc). wp_step. eapply wp_mono; [by apply Hrec|].
  intros [[[rc lo] rs] t3] h3 (-> & (_ & _ & Hlo) & Hr3 & Hk3 & Ho3). cbn zeta.
  assert (∀ a4, same_audit avd a4 →
    (∀ b, Z.testbit (avd_allowed a4) b = Z.testbit (avd_allowed avd) b && Z.testbit (avd_allowed lo) b) →
    decides sc tc a4) as Hfin.
  { intros a4 Ha4 Hb4. apply Hdec; [done|]. intros b Hb'. rewrite granted_unfold, Hb4, Hown by lia.
    rewrite andb_true_iff. destruct (Hlo b Hb') as (-> & _). tauto. }
  destruct (Z.eqb_spec (Z.ldiff (avd_allowed avd) (avd_allowed lo)) 0) as [Hm|Hm]; wp_step;
    (split_and!; [done| |done|congruence|done]); (apply Hfin; [done|]); intros b.
  - pose proof (f_equal (λ z, Z.testbit z b) Hm) as Hb'. cbn beta in Hb'. rewrite Z.ldiff_spec, Z.bits_0 in Hb'.
    destruct (Z.testbit (avd_allowed avd) b); [|done]. by apply negb_false_iff in Hb'.
  - cbn [set_allowed avd_allowed]. rewrite !Z.ldiff_spec. btauto.
Qed.

Lemma compute_av_ok fuel n sc tc requested r_buf flags avd t h :
  height p (c_type sc) n → (n < fuel)%nat → context_ok p sc → context_ok p tc →
  reason_ok (ts_reason t) → hp_oom h = [] →
  wp (context_struct_compute_av fuel p tclass requested r_buf flags sc tc avd t) h (decided sc tc t).
Proof using Hp.
  revert n sc tc requested r_buf flags avd t h.
  induction fuel as [|fuel IH]; intros n sc tc requested r_buf flags avd t h Hh Hf Hs Ht Hr Ho; [lia|].
  cbn [context_struct_compute_av]. pose proof (so_class _ _ _ _ _ _ Hp) as Hc.
  rewrite (proj2 (Z.eqb_neq tclass 0)), (proj2 (Z.ltb_ge _ tclass)) by lia. cbn [orb].
  pose proof (so_datum _ _ _ _ _ _ Hp) as Hd. unfold aget at 1. rewrite (proj2 (Z.ltb_ge _ 0)), Hd by lia. do 2 wp_step.
  pose proof (so_types_ok _ _ _ _ _ _ Hp) as [Hn Htypes].
  destruct (compute_te_spec p tclass (so_te _ _ _ _ _ _ Hp) (so_cond _ _ _ _ _ _ Hp) sc tc
              (AvDecision 0 (2 ^ 32 - 1) 0 (2 ^ 32 - 1) latest_granting)) as (a1 & -> & E1);
    [apply Htypes, Hs|apply Htypes, Ht|].
  do 2 wp_step. destruct (note_reason _ _ _ _) as [rq1 rs1]. do 2 wp_step. rewrite (so_constraints _ _ _ _ _ _ Hp).
  wp_step. eapply wp_mono; [apply (apply_constraints_spec _ _ _ _ _ _ _ _ _ _ _ _ _ (context_constraints _ _ Hs Ht) Hr Ho)|].
  intros [a2 t2] h2 (E2 & H2 & Hr2 & Hk2 & Ho2). cbn [fst snd] in *.
  destruct (note_reason _ _ _ _) as [rq2 rs2]. cbn zeta. destruct (note_reason _ _ _ _) as [rq3 rs3].
  pose proof (staged_roles _ _ _ _ E1 E2 H2) as Hst. wp_step.
  eapply wp_mono; [apply bounds_av_ok; [done|done|done|done|done|]|].
  - intros Hne avd0 t0 h0 Hr0 Ho0. inversion Hh as [|? m _ Hm]; [done|]. subst.
    pose proof (bounds_range p (c_type sc) (so_types_ok _ _ _ _ _ _ Hp) (proj2 (proj2 Hs))) as Hb.
    eapply IH; [done|lia|apply context_lowered; [done|lia]|by apply lowered_ok|done|done].
  - intros [[a4 rs4] t4] h4 (_ & Hdec & Hr4 & Hk4 & Ho4). wp_step. split_and!; [done|done|done|congruence|done].
Qed.
End decision.

(** ** Labels of new objects *)

(** The type a rule gives: the first permanent rule of the key, else the first
    conditional one in force, else the default. *)
Definition chosen_type (p : policydb) (cladatum : option class_datum) (sc tc : context_struct)
    (tclass specified : Z) : Z :=
  let key := AvtabKey (u16 (c_type sc)) (u16 (c_type tc)) tclass specified in
  match matching (te_avtab p) key with
  | n :: _ => ad_data (an_datum n)
  | [] =>
     match find (λ n, nz (Z.land (ak_specified (an_key n)) AVTAB_ENABLED)) (matching (te_cond_avtab p) key) with
     | Some n => ad_data (an_datum n)
     | None => default_type p cladatum tclass sc tc
     end
  end.

Definition chosen_role (p : policydb) (cladatum : option class_datum) (sc tc : context_struct)
    (tclass specified : Z) : Z :=
  match role_rule p sc tc tclass with
  | Some r => if nz (Z.land specified AVTAB_TRANSITION) then rt_new_role r
              else default_role p cladatum tclass sc tc
  | None => default_role p cladatum tclass sc tc
  end.

Lemma new_context_spec p cladatum sc tc tclass specified :
  awf (te_avtab p) → awf (te_cond_avtab p) →
  new_context p cladatum sc tc tclass specified =
    Some (Context (default_user cladatum specified sc tc) (chosen_role p cladatum sc tc tclass specified)
            (chosen_type p cladatum sc tc tclass specified) mls_range_init).
Proof.
  intros Ht Hc. unfold new_context, type_rule, chosen_type, chosen_role. cbn zeta.
  rewrite avtab_search_spec, search_nodes_spec by done.
  destruct (matching (te_avtab p) _) as [|n l]; simpl.
  - destruct (find _ _) as [n|]; simpl; destruct (nz _), (role_rule p sc tc tclass); done.
  - destruct (nz _), (role_rule p sc tc tclass); done.
Qed.

(** What labelling needs of the policy and the two contexts. *)
Record label_ok (p : policydb) (sc tc : context_struct) (tclass : Z) : Prop := {
  lo_te : awf (te_avtab p);
  lo_cond : awf (te_cond_avtab p);
  lo_symbols : symbols_ok p;
  lo_classes : classes_ok p;
  lo_range_tr : range_tr_ok p;
  lo_tclass : 0 ≤ tclass;
  lo_source : range_ordered (c_range sc);
  lo_target : range_ordered (c_range tc)
}.

(** The class's datum, if it has one. *)
Definition class_of (p : policydb) (tclass : Z) : option class_datum :=
  if nz tclass && (tclass <=? s_nprim (p_classes p))
  then match class_val_to_struct p !! Z.to_nat (tclass - 1) with Some d => d | None => None end else None.

Definition context_fields_nonneg (p : policydb) (cladatum : option class_datum) (sc tc : context_struct)
    (tclass specified : Z) : Prop :=
  0 ≤ default_user cladatum specified sc tc ∧ 0 ≤ chosen_role p cladatum sc tc tclass specified ∧
  0 ≤ chosen_type p cladatum sc tc tclass specified.

Lemma mls_part_spec p sc tc tclass specified nc h :
  label_ok p sc tc tclass → range_wf (c_range nc) →
  wp (mls_compute_sid p sc tc tclass specified nc) h (λ o _,
    (∃ r, o = (0, set_range nc r) ∧ range_wf r) ∨ o.1 < 0).
Proof.
  intros Hl Hnc. destruct (nz (mls p)) eqn:Hm.
  - eapply wp_mono; [eapply compute_range_spec; try done; apply Hl|]. intros o h' [(r & -> & [Hr _])|?]; eauto.
  - unfold mls_compute_sid. rewrite Hm. cbn [negb]. wp_step. left. exists (c_range nc). split; [|done].
    by destruct nc.
Qed.

(** The outcome of labelling: an error that changes nothing but the table, or an
    identifier of a valid context with the chosen user, role and type. *)
Definition labelled (sv : services) (sc tc : context_struct) (tclass specified : Z)
    (q : Z * option Z * services) : Prop :=
  let '(rc, sid, sv') := q in
  let p := sv_policydb sv in
  let cl := class_of p tclass in
  sv_policydb sv' = p ∧ swf (sv_sidtab sv') ∧ sidmap (sv_sidtab sv) ⊆ sidmap (sv_sidtab sv') ∧
  (rc < 0 ∨
   rc = 0 ∧ ∃ n nc, sid = Some n ∧ sidmap (sv_sidtab sv') !! n = Some nc ∧
     c_user nc = default_user cl specified sc tc ∧ c_role nc = chosen_role p cl sc tc tclass specified ∧
     c_type nc = chosen_type p cl sc tc tclass specified ∧ context_valid p nc).

Lemma class_lookup p tclass :
  classes_ok p → 0 ≤ tclass →
  (if nz tclass && (tclass <=? s_nprim (p_classes p))
   then aget (class_val_to_struct p) (tclass - 1) else Some None) = Some (class_of p tclass).
Proof.
  intros Hc Ht. unfold class_of, classes_ok, nz in *.
  destruct (Z.eqb_spec tclass 0), (Z.leb_spec tclass (s_nprim (p_classes p))); cbn [negb andb]; try done.
  unfold aget. rewrite (proj2 (Z.ltb_ge _ 0)) by lia.
  destruct (lookup_lt_is_Some_2 (class_val_to_struct p) (Z.to_nat (tclass - 1))) as [d Hd]; [lia|].
  by rewrite Hd.
Qed.

Lemma compute_sid_ok sv ssid tsid tclass specified sc tc h :
  swf (sv_sidtab sv) → sepol_sidtab_search (sv_sidtab sv) ssid = Some (Some sc) →
  sepol_sidtab_search (sv_sidtab sv) tsid = Some (Some tc) → label_ok (sv_policydb sv) sc tc tclass →
  context_fields_nonneg (sv_policydb sv) (class_of (sv_policydb sv) tclass) sc tc tclass specified →
  wp (sepol_compute_sid sv ssid tsid tclass specified) h (λ q _, labelled sv sc tc tclass specified q).
Proof.
  intros Hsid Hs Ht Hl (Hu & Hr & Hty). unfold sepol_compute_sid. cbn zeta. rewrite Hs, Ht. cbn [mbind option_bind id].
  do 4 wp_step. rewrite class_lookup by apply Hl. do 2 wp_step. rewrite new_context_spec by apply Hl. do 2 wp_step.
  wp_step. eapply wp_mono; [apply (mls_part_spec _ _ _ _ _ _ _ Hl)|].
  { split; (split; [simpl; lia|apply wf_init]). }
  intros [rc nc] h1 [(r & [= -> ->] & Hrw)|Hrc]; cbn [fst] in *; cycle 1.
  { unfold nz. rewrite (proj2 (Z.eqb_neq rc 0)) by lia. cbn [negb]. wp_step. split_and!; [done|done|done|by left]. }
  cbn [nz Z.eqb negb]. unfold policydb_context_isvalid.
  edestruct (is_valid_spec (sv_policydb sv)) as (v & -> & Hv); [apply Hl|by split_and!|]. do 2 wp_step. wp_step.
  destruct v; cbn [negb].
  - wp_step. cbn [nz Z.eqb negb]. wp_step. eapply wp_mono; [by apply context_to_sid_spec|].
    intros [[rc sid] s'] h2 (_ & Hs' & Hout). cbn [fst snd] in *. wp_step.
    destruct Hout as [(-> & _ & Hm & Hsub & _)|(-> & _ & -> & _)].
    + split_and!; [done|done|done|]. right. split; [done|]. eexists _, _. split; [done|]. split; [exact Hm|].
      split_and!; [done|done|done|]. by apply Hv.
    + split_and!; [done|done|done|by left].
  - unfold compute_sid_handle_invalid_context. change (nz selinux_enforcing) with true. cbn iota. wp_step.
    change (nz (- EACCES)) with true. cbn iota. wp_step. split_and!; [done|done|done|by left].
Qed.

Lemma compute_av_known sv ssid tsid tclass name c pnm cs sc tc n requested avd h :
  server_ok (sv_policydb sv) tclass name c pnm cs →
  sepol_sidtab_search (sv_sidtab sv) ssid = Some (Some sc) →
  sepol_sidtab_search (sv_sidtab sv) tsid = Some (Some tc) →
  context_ok (sv_policydb sv) sc → context_ok (sv_policydb sv) tc → height (sv_policydb sv) (c_type sc) n →
  reason_ok (ts_reason (sv_text sv)) → hp_oom h = [] →
  wp (sepol_compute_av sv ssid tsid tclass requested avd) h (λ q _,
    q.1.1 = 0 ∧ decides (sv_policydb sv) tclass cs sc tc q.1.2).
Proof.
  intros Hp Hs Ht Hsc Htc Hh Hr Ho. unfold sepol_compute_av, sepol_compute_av_reason, compute_av_with.
  rewrite Hs, Ht. wp_step. do 5 wp_step. eapply wp_mono.
  - eapply compute_av_ok; [done|done| |done|done|done|done]. unfold bounds_fuel.
    pose proof (height_bound _ _ _ (so_types_ok _ _ _ _ _ _ Hp) Hh (proj2 (proj2 Hsc))). lia.
  - intros [[[rc avd'] reason] t] h' (-> & Hd & _). do 2 wp_step. done.
Qed.

(** ** Permissions *)

(** A lookup by name in a well-formed table finds what the list of entries has. *)
Lemma search_entries {V} (t : option (hashtab string V)) k :
  table_wf t → hashtab_search t k = Some ((list_to_map (sym_entries t) : gmap string V) !! k).
Proof.
  intros Hw. destruct t as [t|]; [|done]. rewrite search_spec by by apply Hw. done.
Qed.

Lemma perm_bit_value i : 0 ≤ i < 32 → perm_bit (i + 1) = Some (2 ^ i).
Proof.
  intros Hi. unfold perm_bit. rewrite Z.add_simpl_r, u32_id by lia. cbn zeta.
  rewrite (proj2 (Z.leb_gt 32 i)) by lia. by rewrite Z.shiftl_1_l.
Qed.

Lemma perm_bit_ok sv tclass c pnm i :
  named_class (sv_policydb sv) tclass c pnm → tclass ≤ s_nprim (p_classes (sv_policydb sv)) →
  0 ≤ i < s_nprim (cl_permissions c) →
  NoDup (sym_entries (s_table (cl_permissions c)) ++ sym_entries (comtable c)).*1 →
  sepol_string_to_av_perm sv tclass (pnm i) = Some (STATUS_SUCCESS, Some (2 ^ i)).
Proof.
  intros (Ht & Hc & Hn) Hle Hi Hnd. pose proof (cl_count c pnm Hn) as Hmax. unfold sepol_string_to_av_perm. cbn zeta.
  rewrite (proj2 (Z.eqb_neq tclass 0)), (proj2 (Z.ltb_ge _ tclass)) by lia. cbn [orb].
  unfold aget. rewrite (proj2 (Z.ltb_ge _ 0)), Hc by lia. cbn [mbind option_bind id].
  destruct (cl_wf c pnm Hn) as [Hw1 Hw2]. rewrite search_entries by done. cbn [mbind option_bind].
  pose proof (cl_names c pnm Hn i Hi) as Hf. apply find_some in Hf as [Hin _]. apply list_elem_of_In in Hin.
  rewrite fmap_app in Hnd. apply NoDup_app in Hnd as (Hnd1 & Hno & Hnd2). apply elem_of_app in Hin as [Hin|Hin].
  - rewrite (elem_of_list_to_map_1 _ _ (i + 1)) by done. rewrite perm_bit_value by lia. done.
  - rewrite not_elem_of_list_to_map_1; cycle 1.
    { intros H1. apply (Hno _ H1). by apply (list_elem_of_fmap_2 fst) in Hin. }
    unfold comtable in *. destruct (cl_comdatum c) as [cm|]; [|by apply not_elem_of_nil in Hin]. simpl in *.
    rewrite search_entries by done. cbn [mbind option_bind].
    rewrite (elem_of_list_to_map_1 _ _ (i + 1)) by done. rewrite perm_bit_value by lia. done.
Qed.

(** ** The properties *)

(** C1: Access decisions.  For known identifiers [sepol_compute_av] returns with
    success and decides every permission by the policy: it is allowed exactly
    when a rule in force for a pair of types or attributes of the two contexts
    allows it, no constraint of the class on it is violated, a process
    transition that changes the role has a role rule, and, when the source type
    is bounded, the bounding types are granted it as well; the audit vectors are
    those of the rules.  The recursion through the bounds terminates. *)
Theorem sepol_compute_av_correct sv ssid tsid tclass name c pnm cs sc tc n requested avd h :
  server_ok (sv_policydb sv) tclass name c pnm cs →
  sepol_sidtab_search (sv_sidtab sv) ssid = Some (Some sc) →
  sepol_sidtab_search (sv_sidtab sv) tsid = Some (Some tc) →
  context_ok (sv_policydb sv) sc → context_ok (sv_policydb sv) tc → height (sv_policydb sv) (c_type sc) n →
  reason_ok (ts_reason (sv_text sv)) → hp_oom h = [] →
  wp (sepol_compute_av sv ssid tsid tclass requested avd) h (λ q _,
    q.1.1 = 0 ∧ decides (sv_policydb sv) tclass cs sc tc q.1.2).
Proof. apply compute_av_known. Qed.

(** C2: Bounds confine.  Whatever a bounded source type is allowed on a target
    is allowed to its bounding type on the target's bounding type (or the target
    itself): no decision escapes the parent. *)
Theorem sepol_bounds_confine sv ssid psid tsid ptsid tclass name c pnm cs sc tc n requested avd h :
  let p := sv_policydb sv in
  server_ok p tclass name c pnm cs →
  sepol_sidtab_search (sv_sidtab sv) ssid = Some (Some sc) →
  sepol_sidtab_search (sv_sidtab sv) tsid = Some (Some tc) →
  bounds_of p (c_type sc) ≠ 0 →
  sepol_sidtab_search (sv_sidtab sv) psid = Some (Some (set_ctype sc (bounds_of p (c_type sc)))) →
  sepol_sidtab_search (sv_sidtab sv) ptsid = Some (Some (lowered p tc)) →
  context_ok p sc → context_ok p tc → height p (c_type sc) n → reason_ok (ts_reason (sv_text sv)) → hp_oom h = [] →
  wp (sepol_compute_av sv ssid tsid tclass requested avd) h (λ child _,
    wp (sepol_compute_av sv psid ptsid tclass requested avd) h (λ parent _,
      ∀ b, 0 ≤ b < 32 → Z.testbit (avd_allowed child.1.2) b = true → Z.testbit (avd_allowed parent.1.2) b = true)).
Proof.
  intros p Hp Hs Ht Hb Hps Hpt Hsc Htc Hh Hr Ho. eapply wp_mono; [by eapply compute_av_known|].
  intros child h1 (_ & _ & _ & Hchild). inversion Hh as [|? m _ Hm]; [done|]. subst.
  pose proof (bounds_range p (c_type sc) (so_types_ok _ _ _ _ _ _ Hp) (proj2 (proj2 Hsc))) as Hrange.
  eapply wp_mono.
  { eapply compute_av_known; [done|exact Hps|exact Hpt| |by eapply lowered_ok|exact Hm|done|done].
    apply (context_lowered p); [done|]. change (sv_policydb sv) with p. lia. }
  intros parent h2 (_ & _ & _ & Hparent) b Hb'. destruct (Hchild b Hb') as (-> & _), (Hparent b Hb') as (-> & _).
  rewrite granted_unfold. tauto.
Qed.


(** An identifier the table does not know, without an unlabeled one to stand
    for it, makes [sepol_compute_sid] destroy a context it never initialised. *)
Theorem sepol_compute_sid_unknown sv ssid tsid tclass specified h :
  sepol_sidtab_search (sv_sidtab sv) ssid = Some None →
  sepol_compute_sid sv ssid tsid tclass specified h = None.
Proof. intros Hs. unfold sepol_compute_sid, mbind at 1, M_bind at 1. by rewrite Hs. Qed.

(** C3: Constraints.  For an expression over the operands the language has, within
    the depth of the stack, [constraint_expr_eval_reason] returns the value of
    the expression under the two (or three) contexts, leaves the conversion stack
    as it was, and appends to the reason buffer exactly the statement, the infix
    text of the expression and the verdict, when the constraint is violated or
    the caller asked for granted ones as well. *)
Theorem constraint_eval_correct p sc tc xc tclass name c pnm perms e r_buf flags t h :
  statement_ok p tclass name c pnm perms → expr_ok p sc tc xc e → reason_ok (ts_reason t) → hp_oom h = [] →
  wp (constraint_expr_eval_reason p sc tc xc tclass (encoded_constraint perms e) r_buf flags t) h (λ q _,
    q.1 = b2z (beval (atom_holds p sc tc xc) e) ∧ ts_stack q.2 = ts_stack t ∧
    explained p sc tc xc name c pnm perms r_buf flags e (ts_reason t) (ts_reason q.2)).
Proof.
  intros Hst He Hr Ho. eapply wp_mono; [by apply (constraint_ok _ _ _ _ _ _ _ _ _ Hst)|].
  intros q h' (? & ? & _ & ?). done.
Qed.


(** C39: The names of permissions convert both ways: for a permission of the class
    [sepol_string_to_av_perm] of its name is its bit, and
    [sepol_av_perm_to_string] of any access vector that fits the buffer lists the
    names of exactly its permissions, in order. *)
Theorem perm_names_roundtrip sv tclass c pnm :
  named_class (sv_policydb sv) tclass c pnm → tclass ≤ s_nprim (p_classes (sv_policydb sv)) →
  NoDup (sym_entries (s_table (cl_permissions c)) ++ sym_entries (comtable c)).*1 →
  (∀ i, 0 ≤ i < s_nprim (cl_permissions c) →
     sepol_string_to_av_perm sv tclass (pnm i) = Some (STATUS_SUCCESS, Some (2 ^ i))) ∧
  ∀ av h, strlen (spaced (perms_of pnm (s_nprim (cl_permissions c)) av)) < 1024 →
    sepol_av_perm_to_string sv tclass av h =
      Some (Some (spaced (perms_of pnm (s_nprim (cl_permissions c)) av)), h).
Proof.
  intros Hc Hn Hnd. split; [|intros av h; by apply av_to_string_ok].
  intros i Hi. by apply (perm_bit_ok _ _ c pnm).
Qed.

(** ** A policy for examples *)

(** Types: [staff_t] and its child [sub_t], bounded by it, are domains; [file_t]
    is a file type.  Domains may read and write files, writing is constrained to
    the owner or to [staff_t]. *)
Definition srv_types : list (string * type_datum) :=
  [("staff_t"%string, TypeDatum 1 1 TYPE_TYPE ebitmap_init 0 0);
   ("file_t"%string, TypeDatum 2 1 TYPE_TYPE ebitmap_init 0 0);
   ("sub_t"%string, TypeDatum 3 1 TYPE_TYPE ebitmap_init 0 1);
   ("domain"%string, TypeDatum 4 1 TYPE_ATTRIB (of_bits [0; 2]) 0 0)].

Definition srv_expr : bexpr atom :=
  BBin OpOr (BLeaf (AUser true)) (BLeaf (ANames Source FType true (of_bits [0]) (Some (TypeSet (of_bits [0]) ebitmap_init 0)))).
Definition srv_exprs : list (Z * bexpr atom) := [(2, srv_expr)].

(** Only [staff_t] may change the user of a file. *)
Definition srv_trans : list (Z * bexpr atom) :=
  [(0, BBin OpOr (BLeaf (AUser true)) (BLeaf (ANames XTarget FType true (of_bits [0]) (Some (TypeSet (of_bits [0]) ebitmap_init 0)))))].

Definition file_class : class_datum :=
  ClassDatum 1 None (Symtab (ht_of 2 [("read"%string, 1); ("write"%string, 2)]) 2)
    (encode_constraints srv_exprs) (encode_constraints srv_trans) 0 0 0 0.

Definition srv_te : avtab :=
  table_of 8 [(AvtabKey 4 2 1 AVTAB_ALLOWED, AvtabDatum 3 None);
              (AvtabKey 3 2 1 AVTAB_AUDITALLOW, AvtabDatum 1 None);
              (AvtabKey 3 2 1 AVTAB_TRANSITION, AvtabDatum 2 None)].

Definition srv_users : list (string * user_datum) :=
  [("staff_u"%string, UserDatum 1 (of_bits [1]) (of_bits [1]) mls_range_init (mls_level_init) 0);
   ("other_u"%string, UserDatum 2 (of_bits [1]) (of_bits [1]) mls_range_init (mls_level_init) 0)].

Definition srv_roles : list (string * role_datum) :=
  [("object_r"%string, RoleDatum 1 (of_bits [0]) ebitmap_init ebitmap_init 0);
   ("staff_r"%string, RoleDatum 2 (of_bits [1]) (of_bits [0; 2]) (of_bits [0; 2]) 0)].

Definition srv_policy : policydb :=
  Policydb 0 (Symtab (ht_of 2 [("file"%string, file_class)]) 1) (Symtab (ht_of 2 srv_roles) 2)
    (Symtab (ht_of 2 srv_types) 4) (Symtab (ht_of 2 srv_users) 2) 0 demo_levels demo_cats
    [Some "file"%string] (Some <$> srv_roles.*1) (Some <$> srv_types.*1) (Some <$> srv_users.*1)
    [Some "s0"%string; Some "s1"%string]
    [Some "c0"%string; Some "c1"%string; Some "c2"%string; Some "c3"%string] []
    [Some file_class] (Some <$> srv_roles.*2) (Some <$> srv_users.*2) (Some <$> srv_types.*2)
    srv_te [] (table_of 4 []) [] [] [] [] [] None
    [of_bits [0; 3]; of_bits [1]; of_bits [2; 3]; of_bits [3]] [] ebitmap_init 33 0 2 0 0 0 POLICY_KERN (Symtab None 0) None [] None 0 ebitmap_init 0.

Definition staff_sc : context_struct := Context 1 2 1 mls_range_init.
Definition sub_sc : context_struct := Context 1 2 3 mls_range_init.
Definition file_tc : context_struct := Context 2 1 2 mls_range_init.

Definition srv_sidtab : sidtab := sidtab_of [staff_sc; sub_sc; file_tc].

Definition no_text : text_state := TextState [] 0 (ReasonBuf None 0 0).
Definition srv : services := Services srv_policy srv_sidtab no_text.

Lemma srv_types_ok : types_ok srv_policy.
Proof.
  split; [reflexivity|]. intros t Ht. change (1 ≤ t ≤ 4) in Ht.
  assert (t = 1 ∨ t = 2 ∨ t = 3 ∨ t = 4) as [->|[->|[->| ->]]] by lia;
    (split; [split; [vm_compute; split; [discriminate|reflexivity]|eexists; split; [reflexivity|bits_wf]]
            |eexists; split; [reflexivity|vm_compute; split; discriminate]]).
Qed.

Definition file_perm (i : Z) : string := if i =? 0 then "read" else "write".

Lemma file_named : class_named file_class file_perm.
Proof.
  split.
  - split; [|done]. intros h Hh. destruct (ht_of_wf 2 [("read"%string, 1); ("write"%string, 2)]) as (h' & Hh' & Hw); [lia|].
    simpl in Hh. rewrite Hh' in Hh. by injection Hh as <-.
  - vm_compute. split; discriminate.
  - intros i Hi. change (0 ≤ i < 2) in Hi. assert (i = 0 ∨ i = 1) as [->| ->] by lia; vm_compute; reflexivity.
Qed.

Lemma srv_ok : server_ok srv_policy 1 "file" file_class file_perm srv_exprs.
Proof.
  split; [vm_compute; split; discriminate|reflexivity| | |apply srv_types_ok|reflexivity|].
  - apply table_of_wf; [lia|]. repeat (apply Forall_cons; split; [split; [discriminate|reflexivity]|]). constructor.
  - apply table_of_wf; [lia|constructor].
  - apply Forall_cons. split; [|constructor]. split.
    + split_and!; [split_and!; [lia|lia|reflexivity|apply file_named]|reflexivity|vm_compute; reflexivity].
    + split_and!; [reflexivity|vm_compute; lia|]. repeat constructor; [done|]. eexists _, _. by split; vm_compute.
Qed.

Lemma srv_context c :
  (1 ≤ c_user c ≤ 2) → (1 ≤ c_role c ≤ 2) → (1 ≤ c_type c ≤ 4) → context_ok srv_policy c.
Proof.
  intros Hu Hr Ht. split; [unfold value_ok; lia|]. split; [|exact Ht]. split; [unfold value_ok; lia|].
  assert (c_role c = 1 ∨ c_role c = 2) as [-> | ->] by lia; eexists; reflexivity.
Qed.

Lemma sub_height : height srv_policy 3 1.
Proof. apply height_step; [discriminate|]. apply height_top. reflexivity. Qed.

Definition no_decision : av_decision := AvDecision 0 0 0 0 0.

Lemma sepol_compute_av_correct_witness :
  wp (sepol_compute_av srv 2 3 1 3 no_decision) (Heap 0 []) (λ q _,
    q.1.1 = 0 ∧ decides srv_policy 1 srv_exprs sub_sc file_tc q.1.2) ∧
  (λ q, avd_allowed q.1.1.2) <$> sepol_compute_av srv 2 3 1 3 no_decision (Heap 0 []) = Some 1 ∧
  (λ q, avd_allowed q.1.1.2) <$> sepol_compute_av srv 1 3 1 3 no_decision (Heap 0 []) = Some 3.
Proof.
  split; [|split; vm_compute; reflexivity].
  apply (sepol_compute_av_correct srv 2 3 1 "file" file_class file_perm srv_exprs sub_sc file_tc 1).
  - apply srv_ok.
  - vm_compute. reflexivity.
  - vm_compute. reflexivity.
  - apply srv_context; simpl; lia.
  - apply srv_context; simpl; lia.
  - apply sub_height.
  - by left.
  - reflexivity.
Defined.

Lemma sepol_bounds_confine_witness :
  wp (sepol_compute_av srv 2 3 1 3 no_decision) (Heap 0 []) (λ child _,
    wp (sepol_compute_av srv 1 3 1 3 no_decision) (Heap 0 []) (λ parent _,
      ∀ b, 0 ≤ b < 32 → Z.testbit (avd_allowed child.1.2) b = true → Z.testbit (avd_allowed parent.1.2) b = true)).
Proof.
  apply (sepol_bounds_confine srv 2 1 3 3 1 "file" file_class file_perm srv_exprs sub_sc file_tc 1).
  - apply srv_ok.
  - vm_compute. reflexivity.
  - vm_compute. reflexivity.
  - discriminate.
  - vm_compute. reflexivity.
  - vm_compute. reflexivity.
  - apply srv_context; simpl; lia.
  - apply srv_context; simpl; lia.
  - apply sub_height.
  - by left.
  - reflexivity.
Defined.

Lemma srv_label sc tc :
  c_range sc = mls_range_init → c_range tc = mls_range_init → label_ok srv_policy sc tc 1.
Proof.
  assert (range_ordered mls_range_init) as Hr.
  { split; [split; (split; [simpl; lia|apply wf_init])|reflexivity]. }
  intros Hs Ht. split; [apply (so_te _ _ _ _ _ _ srv_ok)|apply (so_cond _ _ _ _ _ _ srv_ok)| |reflexivity|exact I|lia|by rewrite Hs|by rewrite Ht].
  split; [| | | | |reflexivity|reflexivity|reflexivity].
  - apply (sym_check_ok _ (λ d, 0 <=? ud_value d)); [lia|vm_compute; reflexivity|intros; zbool; lia].
  - apply (sym_check_ok _ (λ d, 0 <=? rd_value d)); [lia|vm_compute; reflexivity|intros; zbool; lia].
  - apply (sym_check_ok _ (λ d, 0 <=? td_value d)); [lia|vm_compute; reflexivity|intros; zbool; lia].
  - apply (so_levels staff_policy staff_symbols).
  - apply (so_cats staff_policy staff_symbols).
Qed.


Lemma sepol_compute_sid_unknown_witness :
  sepol_compute_sid (Services srv_policy demo_sidtab no_text) 99 1 1 AVTAB_TRANSITION (Heap 0 []) = None.
Proof. apply sepol_compute_sid_unknown. vm_compute. reflexivity. Defined.

Lemma constraint_eval_correct_witness :
  wp (constraint_expr_eval_reason srv_policy sub_sc file_tc None 1 (encoded_constraint 2 srv_expr)
        true 0 no_text) (Heap 0 []) (λ q _,
    q.1 = b2z (beval (atom_holds srv_policy sub_sc file_tc None) srv_expr) ∧ ts_stack q.2 = [] ∧
    explained srv_policy sub_sc file_tc None "file" file_class file_perm 2 true 0 srv_expr
      (ts_reason no_text) (ts_reason q.2)).
Proof.
  apply (constraint_eval_correct srv_policy sub_sc file_tc None 1 "file" file_class file_perm 2).
  - split_and!; [split_and!; [lia|lia|reflexivity|apply file_named]|reflexivity|vm_compute; reflexivity].
  - apply expr_static_ok; [apply srv_context; simpl; lia|apply srv_context; simpl; lia|done|reflexivity|].
    apply (proj2 (Forall_inv (so_statements _ _ _ _ _ _ srv_ok))).
  - by left.
  - reflexivity.
Defined.


Lemma perm_names_roundtrip_witness :
  (∀ i, 0 ≤ i < 2 → sepol_string_to_av_perm srv 1 (file_perm i) = Some (STATUS_SUCCESS, Some (2 ^ i))) ∧
  (∀ av h, strlen (spaced (perms_of file_perm 2 av)) < 1024 →
    sepol_av_perm_to_string srv 1 av h = Some (Some (spaced (perms_of file_perm 2 av)), h)).
Proof.
  apply (perm_names_roundtrip srv 1 file_class file_perm).
  - split_and!; [lia|lia|reflexivity|apply file_named].
  - vm_compute. discriminate.
  - apply (bool_decide_unpack _). vm_compute. exact I.
Defined.

(** The infix text loses the grouping: two constraints with different values
    are explained by the same expression. *)
Theorem constraint_text_ambiguous :
  let a := BLeaf (AUser false) in
  let b := BLeaf (AType true) in
  let run e := (λ q, (q.1.1, rb_text (ts_reason q.1.2))) <$>
    constraint_expr_eval_reason srv_policy staff_sc file_tc None 1 (encoded_constraint 2 e) true SHOW_GRANTED
      no_text (Heap 0 []) in
  ∃ text, run (BBin OpOr a (BBin OpAnd b b)) = Some (1, Some (text +:+ "GRANTED" +:+ String "010" "")%string) ∧
    run (BBin OpAnd (BBin OpOr a b) b) = Some (0, Some (text +:+ "DENIED" +:+ String "010" "")%string).
Proof.
  eexists ("constrain file { write } ((u1 != u2)  or (t1 == t2 -Fail-)  and (t1 == t2 -Fail-) ); Constraint "%string).
  split; vm_compute; reflexivity.
Qed.
