(* ===== verification/ObjectSid.v ===== *)
(** * The security server: labels of objects, users and policy changes

    [src/services.c]: the identifiers of file systems, ports, interfaces, nodes
    and InfiniBand objects, [genfs] and [fs_use]; the contexts a user can reach;
    loading a new policy. *)

From S2P Require Import Prelude Ebitmap Hashtab Avtab Mls Policydb MlsPolicy Sidtab Conditional Context Rpn Constraint.
From S2P Require Import Services.

Definition OCON_FS : Z := 1.
Definition OCON_PORT : Z := 2.
Definition OCON_NETIF : Z := 3.
Definition OCON_NODE : Z := 4.
Definition OCON_FSUSE : Z := 5.
Definition OCON_NODE6 : Z := 6.
Definition OCON_IBPKEY : Z := 7.
Definition OCON_IBENDPORT : Z := 8.

Definition SECINITSID_FS : Z := 4.
Definition SECINITSID_FILE : Z := 5.
Definition SECINITSID_PORT : Z := 9.
Definition SECINITSID_NETIF : Z := 10.
Definition SECINITSID_NETMSG : Z := 11.
Definition SECINITSID_NODE : Z := 12.

Definition AF_INET : Z := 2.
Definition AF_INET6 : Z := 10.

Definition SECURITY_FS_USE_GENFS : Z := 4.
Definition SECURITY_FS_USE_NONE : Z := 5.

(** ** Searching the object contexts *)

(** The loop over a list: the elements in front of the first match, the match
    and the rest.  [test] is [None] when the element is not of the list's kind. *)
Fixpoint ocon_find (test : ocontext_key → option bool) (l : list ocontext) :
    option (option (list ocontext * ocontext * list ocontext)) :=
  match l with
  | [] => Some None
  | c :: l =>
     b ← test (oc_key c);
     if (b : bool) then Some (Some ([], c, l))
     else
       r ← ocon_find test l;
       Some (match r with Some (pre, m, post) => Some (c :: pre, m, post) | None => None end)
  end.

Definition set_ocontexts (p : policydb) (l : list (list ocontext)) : policydb :=
  Policydb (mls p) (p_classes p) (p_roles p) (p_types p) (p_users p) (p_bools_nprim p) (p_levels p)
    (p_cats p) (p_class_val_to_name p) (p_role_val_to_name p) (p_type_val_to_name p)
    (p_user_val_to_name p) (p_sens_val_to_name p) (p_cat_val_to_name p) (p_bool_val_to_name p)
    (class_val_to_struct p) (role_val_to_struct p) (user_val_to_struct p) (type_val_to_struct p)
    (te_avtab p) (bool_val_to_struct p) (te_cond_avtab p) (cond_list p) (role_tr p) (p_role_allow p) l
    (p_genfs p) (range_tr p) (type_attr_map p) (attr_type_map p) (permissive_map p) (policyvers p)
    (handle_unknown p) (process_class p) (process_trans p) (process_trans_dyntrans p) (dir_class p)
    (policy_type p) (p_commons p) (p_bools_table p)
    (p_common_val_to_name p) (filename_trans p) (filename_trans_count p) (policycaps p) (target_platform p).

Definition set_sids (c : ocontext) (sid0 sid1 : Z) : ocontext :=
  OContext (oc_key c) (oc_v c) (oc_context0 c) (oc_context1 c) sid0 sid1.

(** The element is replaced in its list. *)
Definition store (sv : services) (index : Z) (pre : list ocontext) (c : ocontext) (post : list ocontext) :
    option services :=
  l ← aset (ocontexts (sv_policydb sv)) index (pre ++ c :: post);
  Some (Services (set_ocontexts (sv_policydb sv) l) (sv_sidtab sv) (sv_text sv)).

(** [if (!c->sid[0]) ...]: the identifier is computed once and kept. *)
Definition cached_sid (sv : services) (index : Z) (pre : list ocontext) (c : ocontext)
    (post : list ocontext) : M (Z * option Z * services) :=
  if oc_sid0 c =? 0 then
    '(rc, sid, s) ← sepol_sidtab_context_to_sid (sv_sidtab sv) (oc_context0 c);
    sv ← get (store (set_sidtab sv s) index pre (set_sids c sid (oc_sid1 c)) post);
    if nz rc then mret (rc, None, sv) else mret (0, Some sid, sv)
  else mret (0, Some (oc_sid0 c), sv).

(** The lookups that return one identifier, [other] when nothing matches. *)
Definition ocon_sid (test : ocontext_key → option bool) (index other : Z) (sv : services) :
    M (Z * option Z * services) :=
  l ← get (aget (ocontexts (sv_policydb sv)) index);
  r ← get (ocon_find test l);
  match r with
  | Some (pre, c, post) => cached_sid sv index pre c post
  | None => mret (0, Some other, sv)
  end.

(** The lookups that return two. *)
Definition ocon_sids (test : ocontext_key → option bool) (index other0 other1 : Z) (sv : services) :
    M (Z * option (Z * Z) * services) :=
  l ← get (aget (ocontexts (sv_policydb sv)) index);
  r ← get (ocon_find test l);
  match r with
  | Some (pre, c, post) =>
     if (oc_sid0 c =? 0) || (oc_sid1 c =? 0) then
       '(rc, sid0, s) ← sepol_sidtab_context_to_sid (sv_sidtab sv) (oc_context0 c);
       if nz rc then
         sv ← get (store (set_sidtab sv s) index pre (set_sids c sid0 (oc_sid1 c)) post);
         mret (rc, None, sv)
       else
         '(rc, sid1, s) ← sepol_sidtab_context_to_sid s (oc_context1 c);
         sv ← get (store (set_sidtab sv s) index pre (set_sids c sid0 sid1) post);
         if nz rc then mret (rc, None, sv) else mret (0, Some (sid0, sid1), sv)
     else mret (0, Some (oc_sid0 c, oc_sid1 c), sv)
  | None => mret (0, Some (other0, other1), sv)
  end.

Definition name_test (name : string) (k : ocontext_key) : option bool :=
  match k with OName n => Some (strcmp n name =? 0) | _ => None end.

Definition sepol_fs_sid (sv : services) (name : string) : M (Z * option (Z * Z) * services) :=
  ocon_sids (name_test name) OCON_FS SECINITSID_FS SECINITSID_FILE sv.

Definition ibpkey_test (subnet_prefix pkey : Z) (k : ocontext_key) : option bool :=
  match k with
  | OIbpkey prefix low high => Some ((low <=? pkey) && (high >=? pkey) && (subnet_prefix =? prefix))
  | _ => None
  end.

Definition sepol_ibpkey_sid (sv : services) (subnet_prefix pkey : Z) : M (Z * option Z * services) :=
  ocon_sid (ibpkey_test subnet_prefix pkey) OCON_IBPKEY SECINITSID_UNLABELED sv.

Definition ibendport_test (dev_name : string) (port : Z) (k : ocontext_key) : option bool :=
  match k with
  | OIbendport dev p => Some ((p =? port) && (strcmp dev_name dev =? 0))
  | _ => None
  end.

Definition sepol_ibendport_sid (sv : services) (dev_name : string) (port : Z) : M (Z * option Z * services) :=
  ocon_sid (ibendport_test dev_name port) OCON_IBENDPORT SECINITSID_UNLABELED sv.

Definition port_test (protocol port : Z) (k : ocontext_key) : option bool :=
  match k with
  | OPort proto low high => Some ((proto =? protocol) && (low <=? port) && (high >=? port))
  | _ => None
  end.

Definition sepol_port_sid (sv : services) (protocol port : Z) : M (Z * option Z * services) :=
  ocon_sid (port_test protocol port) OCON_PORT SECINITSID_PORT sv.

Definition sepol_netif_sid (sv : services) (name : string) : M (Z * option (Z * Z) * services) :=
  ocon_sids (name_test name) OCON_NETIF SECINITSID_NETIF SECINITSID_NETMSG sv.

Fixpoint match_ipv6_addrmask (n : nat) (input addr mask : list Z) : option bool :=
  match n with
  | O => Some true
  | S n =>
     match input, addr, mask with
     | i :: input, a :: addr, m :: mask =>
        if negb (a =? Z.land i m) then Some false else match_ipv6_addrmask n input addr mask
     | _, _, _ => None
     end
  end.

(** [addrp] points to the 32-bit words [addr]. *)
Definition node_test (addr : Z) (k : ocontext_key) : option bool :=
  match k with ONode a mask => Some (a =? Z.land addr mask) | _ => None end.
Definition node6_test (addr : list Z) (k : ocontext_key) : option bool :=
  match k with ONode6 a mask => match_ipv6_addrmask 4 addr a mask | _ => None end.

Definition sepol_node_sid (sv : services) (domain : Z) (addr : list Z) (addrlen : Z) :
    M (Z * option Z * services) :=
  if domain =? AF_INET then
    if negb (addrlen =? 4) then mret (- EINVAL, None, sv)
    else
      a ← get (head addr);
      ocon_sid (node_test a) OCON_NODE SECINITSID_NODE sv
  else if domain =? AF_INET6 then
    if negb (addrlen =? 16) then mret (- EINVAL, None, sv)
    else ocon_sid (node6_test addr) OCON_NODE6 SECINITSID_NODE sv
  else mret (0, Some SECINITSID_NODE, sv).

(** ** File systems without labels *)

(** The list is sorted: the loop stops at the first type that is not smaller. *)
Fixpoint genfs_find (fstype : string) (l : list genfs) : option (list genfs * genfs * list genfs) :=
  match l with
  | [] => None
  | g :: l =>
     let cmp := strcmp fstype (gf_fstype g) in
     if cmp <=? 0 then (if cmp =? 0 then Some ([], g, l) else None)
     else
       match genfs_find fstype l with
       | Some (pre, m, post) => Some (g :: pre, m, post)
       | None => None
       end
  end.

(** The prefix match of a path; [sclass] of the entry, 0 for any. *)
Fixpoint path_find (path : string) (sclass : Z) (l : list ocontext) :
    option (option (list ocontext * ocontext * list ocontext)) :=
  match l with
  | [] => Some None
  | c :: l =>
     name ← match oc_key c with OName n => Some n | _ => None end;
     if ((oc_v c =? 0) || (sclass =? oc_v c)) && String.prefix name path then Some (Some ([], c, l))
     else
       r ← path_find path sclass l;
       Some (match r with Some (pre, m, post) => Some (c :: pre, m, post) | None => None end)
  end.

Definition set_genfs (p : policydb) (l : list genfs) : policydb :=
  Policydb (mls p) (p_classes p) (p_roles p) (p_types p) (p_users p) (p_bools_nprim p) (p_levels p)
    (p_cats p) (p_class_val_to_name p) (p_role_val_to_name p) (p_type_val_to_name p)
    (p_user_val_to_name p) (p_sens_val_to_name p) (p_cat_val_to_name p) (p_bool_val_to_name p)
    (class_val_to_struct p) (role_val_to_struct p) (user_val_to_struct p) (type_val_to_struct p)
    (te_avtab p) (bool_val_to_struct p) (te_cond_avtab p) (cond_list p) (role_tr p) (p_role_allow p)
    (ocontexts p) l (range_tr p) (type_attr_map p) (attr_type_map p) (permissive_map p) (policyvers p)
    (handle_unknown p) (process_class p) (process_trans p) (process_trans_dyntrans p) (dir_class p)
    (policy_type p) (p_commons p) (p_bools_table p)
    (p_common_val_to_name p) (filename_trans p) (filename_trans_count p) (policycaps p) (target_platform p).

Definition sepol_genfs_sid (sv : services) (fstype path : string) (sclass : Z) : M (Z * option Z * services) :=
  match genfs_find fstype (p_genfs (sv_policydb sv)) with
  | None => mret (- ENOENT, Some SECINITSID_UNLABELED, sv)
  | Some (gpre, g, gpost) =>
     r ← get (path_find path sclass (gf_head g));
     match r with
     | None => mret (- ENOENT, Some SECINITSID_UNLABELED, sv)
     | Some (pre, c, post) =>
        if oc_sid0 c =? 0 then
          '(rc, sid, s) ← sepol_sidtab_context_to_sid (sv_sidtab sv) (oc_context0 c);
          let g := Genfs (gf_fstype g) (pre ++ set_sids c sid (oc_sid1 c) :: post) in
          let sv := Services (set_genfs (sv_policydb sv) (gpre ++ g :: gpost)) s (sv_text sv) in
          if nz rc then mret (rc, None, sv) else mret (0, Some sid, sv)
        else mret (0, Some (oc_sid0 c), sv)
     end
  end.

(** The code, the behaviour and the identifier. *)
Definition sepol_fs_use (sv : services) (fstype : string) : M (Z * Z * option Z * services) :=
  l ← get (aget (ocontexts (sv_policydb sv)) OCON_FSUSE);
  r ← get (ocon_find (name_test fstype) l);
  match r with
  | Some (pre, c, post) =>
     '(rc, sid, sv) ← cached_sid sv OCON_FSUSE pre c post;
     mret (rc, oc_v c, sid, sv)
  | None =>
     '(rc, sid, sv) ← sepol_genfs_sid sv fstype "/" (dir_class (sv_policydb sv));
     if nz rc then mret (0, SECURITY_FS_USE_NONE, sid, sv)
     else mret (0, SECURITY_FS_USE_GENFS, sid, sv)
  end.

(** ** The contexts a user can reach *)

Definition SIDS_NEL : Z := 25.

(** The state of the loops: [rc], [usercon], the identifiers found, [maxnel] and
    the server. *)
Record reach := Reach {
  re_rc : Z;
  re_usercon : context_struct;
  re_sids : list Z;
  re_maxnel : Z;
  re_sv : services
}.

(** [mysids[mynel++] = sid], after the array grew if it was full; [None] is the
    failed allocation. *)
Definition keep_sid (st : reach) (sid : Z) : M (option reach) :=
  if Z.of_nat (length (re_sids st)) <? re_maxnel st then
    mret (Some (Reach (re_rc st) (re_usercon st) (re_sids st ++ [sid]) (re_maxnel st) (re_sv st)))
  else
    mysids2 ← malloc;
    match mysids2 with
    | None => mret None
    | Some _ =>
       mret (Some (Reach (re_rc st) (re_usercon st) (re_sids st ++ [sid]) (re_maxnel st + SIDS_NEL) (re_sv st)))
    end.

(** The body of the inner loop; [inl] is [goto out] with its code. *)
Definition reach_type (fromcon : context_struct) (user : user_datum) (j : Z) (st : reach) :
    M ((Z * services) + reach) :=
  let p := sv_policydb (re_sv st) in
  let usercon := set_ctype (re_usercon st) (j + 1) in
  let st := Reach (re_rc st) usercon (re_sids st) (re_maxnel st) (re_sv st) in
  if c_type usercon =? c_type fromcon then mret (inr st)
  else
    let '(bad, usercon) := mls_setup_user_range fromcon user usercon (nz (mls p)) in
    let st := Reach (re_rc st) usercon (re_sids st) (re_maxnel st) (re_sv st) in
    if nz bad then mret (inr st)
    else
      '(rc, avd, _, t) ← context_struct_compute_av (bounds_fuel p) p (process_class p) (process_trans p) false
                           0 fromcon usercon (AvDecision 0 0 0 0 0) (sv_text (re_sv st));
      let st := Reach rc usercon (re_sids st) (re_maxnel st) (set_text (re_sv st) t) in
      if nz rc || negb (nz (Z.land (avd_allowed avd) (process_trans p))) then mret (inr st)
      else
        '(rc, sid, s) ← sepol_sidtab_context_to_sid (sv_sidtab (re_sv st)) usercon;
        let st := Reach rc usercon (re_sids st) (re_maxnel st) (set_sidtab (re_sv st) s) in
        if nz rc then mret (inl (rc, re_sv st))
        else
          r ← keep_sid st sid;
          mret (match r with None => inl (- ENOMEM, re_sv st) | Some st => inr st end).

Fixpoint reach_types (fromcon : context_struct) (user : user_datum) (js : list Z) (st : reach) :
    M ((Z * services) + reach) :=
  match js with
  | [] => mret (inr st)
  | j :: js =>
     r ← reach_type fromcon user j st;
     match r with inl out => mret (inl out) | inr st => reach_types fromcon user js st end
  end.

Fixpoint reach_roles (fromcon : context_struct) (user : user_datum) (ii : list Z) (st : reach) :
    M ((Z * services) + reach) :=
  match ii with
  | [] => mret (inr st)
  | i :: ii =>
     role ← get (aget (role_val_to_struct (sv_policydb (re_sv st))) i ≫= id);
     let u := re_usercon st in
     let st := Reach (re_rc st) (Context (c_user u) (i + 1) (c_type u) (c_range u)) (re_sids st)
                 (re_maxnel st) (re_sv st) in
     js ← get (ebitmap_for_each_positive_bit (rd_types role));
     r ← reach_types fromcon user js st;
     match r with inl out => mret (inl out) | inr st => reach_roles fromcon user ii st end
  end.

(** [junk] is what [usercon], which is not initialised, holds at the start.  The
    decision of an unknown process class leaves its code in [rc]. *)
Definition sepol_get_user_sids (sv : services) (fromsid : Z) (username : string) (junk : context_struct) :
    M (Z * option (list Z) * services) :=
  fromcon ← get (sepol_sidtab_search (sv_sidtab sv) fromsid);
  match fromcon with
  | None => mret (- EINVAL, None, sv)
  | Some fromcon =>
     user ← get (hashtab_search (s_table (p_users (sv_policydb sv))) username);
     match user with
     | None => mret (- EINVAL, None, sv)
     | Some user =>
        mysids ← malloc;
        match mysids with
        | None => mret (- ENOMEM, None, sv)
        | Some _ =>
           ii ← get (ebitmap_for_each_positive_bit (ud_roles user));
           r ← reach_roles fromcon user ii
                 (Reach 0 (Context (ud_value user) (c_role junk) (c_type junk) (c_range junk)) [] SIDS_NEL sv);
           mret (match r with
                 | inl (rc, sv) => (rc, None, sv)
                 | inr st => (re_rc st, Some (re_sids st), re_sv st)
                 end)
        end
     end
  end.

(** ** Loading a policy *)

Definition validate_perm (h : option (hashtab string Z)) (key : string) (perdatum : Z) (_ : unit) : M (Z * unit) :=
  perdatum2 ← get (hashtab_search h key);
  mret (match perdatum2 with
        | None => -1
        | Some v => if negb (perdatum =? v) then -1 else 0
        end, tt).

Definition validate_class (newp : policydb) (key : string) (cladatum : class_datum) (_ : unit) : M (Z * unit) :=
  cladatum2 ← get (hashtab_search (s_table (p_classes newp)) key);
  match cladatum2 with
  | None => mret (-1, tt)
  | Some cladatum2 =>
     if negb (cl_value cladatum =? cl_value cladatum2) then mret (-1, tt)
     else
       match cl_comdatum cladatum, cl_comdatum cladatum2 with
       | Some _, None | None, Some _ => mret (-1, tt)
       | com, com2 =>
          '(rc, _) ←
            match com, com2 with
            | Some com, Some com2 =>
               hashtab_map (s_table (cm_permissions com)) (validate_perm (s_table (cm_permissions com2))) tt
            | _, _ => mret (0, tt)
            end;
          if nz rc then mret (-1, tt)
          else
            '(rc, _) ← hashtab_map (s_table (cl_permissions cladatum))
                         (validate_perm (s_table (cl_permissions cladatum2))) tt;
            mret (if nz rc then -1 else 0, tt)
       end
  end.

Definition clone_sid (sid : Z) (context : context_struct) (s : sidtab) : M (Z * sidtab) :=
  sepol_sidtab_insert s sid context.

Definition convert_context_handle_invalid_context (p : policydb) (context : context_struct) : M Z :=
  if nz selinux_enforcing then mret (- EINVAL)
  else
    '(_, s) ← context_to_string p context;
    _ ← get s;
    mret 0.

(** [bad]: the old context is printed; without its text the pointer printed was
    never set. *)
Definition convert_bad (p : policydb) (oldc c : context_struct) (rc : Z) : M (Z * context_struct * unit) :=
  '(_, s) ← context_to_string p oldc;
  _ ← get s;
  mret (rc, c, tt).

(** [p] is the static [policydb], which is [oldp] while a policy is loaded. *)
Definition convert_context (p oldp newp : policydb) (_ : Z) (c : context_struct) (_ : unit) :
    M (Z * context_struct * unit) :=
  '(rc, oldc) ← context_cpy context_init c;
  if nz rc then mret (- ENOMEM, c, tt)
  else
    user ← get (name_of (p_user_val_to_name oldp) (c_user c));
    usrdatum ← get (hashtab_search (s_table (p_users newp)) user);
    match usrdatum with
    | None => convert_bad p oldc c (- EINVAL)
    | Some usrdatum =>
       let c := Context (ud_value usrdatum) (c_role c) (c_type c) (c_range c) in
       role ← get (name_of (p_role_val_to_name oldp) (c_role c));
       roledatum ← get (hashtab_search (s_table (p_roles newp)) role);
       match roledatum with
       | None => convert_bad p oldc c (- EINVAL)
       | Some roledatum =>
          let c := Context (c_user c) (rd_value roledatum) (c_type c) (c_range c) in
          type ← get (name_of (p_type_val_to_name oldp) (c_type c));
          typdatum ← get (hashtab_search (s_table (p_types newp)) type);
          match typdatum with
          | None => convert_bad p oldc c (- EINVAL)
          | Some typdatum =>
             let c := Context (c_user c) (c_role c) (td_value typdatum) (c_range c) in
             '(rc, c) ← mls_convert_context oldp newp c;
             if nz rc then convert_bad p oldc c rc
             else
               valid ← get (policydb_context_isvalid newp c);
               if negb valid then
                 rc ← convert_context_handle_invalid_context p oldc;
                 if nz rc then convert_bad p oldc c rc else mret (0, c, tt)
               else mret (0, c, tt)
          end
       end
    end.

(** [read] is the outcome of [policydb_init] ([None] when it fails) and of
    [policydb_read] on the new database: its code and the database.  [uninit] is
    what [newsidtab] holds before it is initialised; the code of
    [sepol_sidtab_init] is ignored.  When the file cannot be read [mypolicydb],
    the active database, is destroyed instead of the new one, and no server is
    left ([None]). *)
Definition sepol_load_policy (sv : services) (read : option (Z * policydb)) (uninit : sidtab) :
    M (Z * option services) :=
  match read with
  | None => mret (- ENOMEM, Some sv)
  | Some (bad, newp) =>
     if nz bad then mret (- EINVAL, None)
     else
       '(_, newsidtab) ← sepol_sidtab_init uninit;
       '(rc, _) ← hashtab_map (s_table (p_classes (sv_policydb sv))) (validate_class newp) tt;
       if nz rc then mret (- EINVAL, Some sv)
       else
         let sv := set_sidtab sv (sepol_sidtab_shutdown (sv_sidtab sv)) in
         '(rc, newsidtab) ← sepol_sidtab_map (sv_sidtab sv) clone_sid newsidtab;
         if nz rc then mret (- ENOMEM, Some sv)
         else
           '(newsidtab, _) ← sepol_sidtab_map_remove_on_error newsidtab
                               (convert_context (sv_policydb sv) (sv_policydb sv) newp) tt;
           mret (0, Some (Services newp (sepol_sidtab_set (sv_sidtab sv) newsidtab) (sv_text sv)))
  end.
