(* ===== verification/ObjectSidSpec.v ===== *)
(** * The properties of object labels

    Lookups of object contexts find the first entry that matches and always
    return the same identifier for it; transitions are validated against the
    class's rules. *)

From S2P Require Import Prelude Ebitmap EbitmapFacts EbitmapIter EbitmapSpec Hashtab HashtabFacts HashtabSpec Avtab.
From S2P Require Import AvtabFacts AvtabSpec Mls Policydb MlsPolicy MlsFacts MlsSpec MlsString Sidtab SidtabSpec SidtabMap.
From S2P Require Import Conditional ConditionalSpec Context ContextSpec Rpn Constraint ConstraintFacts ConstraintSpec.
From S2P Require Import Services ServicesFacts ServicesSpec ObjectSid.

(** ** Lookups of one identifier *)

Inductive query :=
  | QPort (protocol port : Z)
  | QNode (addr : Z)
  | QNode6 (addr : list Z)
  | QIbpkey (subnet_prefix pkey : Z)
  | QIbendport (dev_name : string) (port : Z).

Definition ask (sv : services) (q : query) : M (Z * option Z * services) :=
  match q with
  | QPort protocol port => sepol_port_sid sv protocol port
  | QNode addr => sepol_node_sid sv AF_INET [addr] 4
  | QNode6 addr => sepol_node_sid sv AF_INET6 addr 16
  | QIbpkey prefix pkey => sepol_ibpkey_sid sv prefix pkey
  | QIbendport dev port => sepol_ibendport_sid sv dev port
  end.

Definition query_index (q : query) : Z :=
  match q with
  | QPort _ _ => OCON_PORT | QNode _ => OCON_NODE | QNode6 _ => OCON_NODE6 | QIbpkey _ _ => OCON_IBPKEY
  | QIbendport _ _ => OCON_IBENDPORT
  end.

Definition query_default (q : query) : Z :=
  match q with
  | QPort _ _ => SECINITSID_PORT | QNode _ | QNode6 _ => SECINITSID_NODE
  | QIbpkey _ _ | QIbendport _ _ => SECINITSID_UNLABELED
  end.

(** What it means for an entry to match. *)
Definition matches (q : query) (k : ocontext_key) : Prop :=
  match q, k with
  | QPort protocol port, OPort proto low high => proto = protocol ∧ low ≤ port ≤ high
  | QNode addr, ONode a mask => a = Z.land addr mask
  | QNode6 addr, ONode6 a mask => ∀ i x m, addr !! i = Some x → mask !! i = Some m → a !! i = Some (Z.land x m)
  | QIbpkey prefix pkey, OIbpkey p low high => p = prefix ∧ low ≤ pkey ≤ high
  | QIbendport dev port, OIbendport d p => d = dev ∧ p = port
  | _, _ => False
  end.

(** The entry is of the kind of the list the query looks in. *)
Definition kind_ok (q : query) (k : ocontext_key) : Prop :=
  match q, k with
  | QPort _ _, OPort _ _ _ | QNode _, ONode _ _ | QIbpkey _ _, OIbpkey _ _ _ | QIbendport _ _, OIbendport _ _ => True
  | QNode6 addr, ONode6 a mask => length addr = 4%nat ∧ length a = 4%nat ∧ length mask = 4%nat
  | _, _ => False
  end.

Definition query_test (q : query) : ocontext_key → option bool :=
  match q with
  | QPort protocol port => port_test protocol port
  | QNode addr => node_test addr
  | QNode6 addr => node6_test addr
  | QIbpkey prefix pkey => ibpkey_test prefix pkey
  | QIbendport dev port => ibendport_test dev port
  end.

Lemma ask_ocon sv q : ask sv q = ocon_sid (query_test q) (query_index q) (query_default q) sv.
Proof. by destruct q. Qed.

Lemma ipv6_spec n (input addr mask : list Z) :
  length input = n → length addr = n → length mask = n →
  ∃ b, match_ipv6_addrmask n input addr mask = Some b ∧
    (b = true ↔ ∀ i x m, input !! i = Some x → mask !! i = Some m → addr !! i = Some (Z.land x m)).
Proof.
  revert input addr mask. induction n as [|n IH]; intros input addr mask Hi Ha Hm.
  { exists true. split; [done|]. split; [|done]. intros _ i x m Hx. by rewrite (nil_length_inv input Hi) in Hx. }
  destruct input as [|x input], addr as [|a addr], mask as [|m mask]; try discriminate. cbn [match_ipv6_addrmask].
  destruct (Z.eqb_spec a (Z.land x m)) as [->|Hne]; cbn [negb].
  - destruct (IH input addr mask) as (b & -> & Hb); [simpl in *; lia..|]. exists b. split; [done|]. rewrite Hb. split.
    + intros H [|i] y k Hy Hk; [simpl in *; congruence|]. by apply H.
    + intros H i y k Hy Hk. by apply (H (S i)).
  - exists false. split; [done|]. split; [done|]. intros H. specialize (H 0%nat x m eq_refl eq_refl). simpl in H. congruence.
Qed.

Lemma query_test_spec q k : kind_ok q k → ∃ b, query_test q k = Some b ∧ (b = true ↔ matches q k).
Proof.
  destruct q, k; cbn [kind_ok]; try done; intros H; cbn [query_test matches];
    try (eexists; split; [reflexivity|]; rewrite ?andb_true_iff, ?Z.geb_leb, ?Z.eqb_eq, ?Z.leb_le, ?strcmp_eq).
  - lia.
  - done.
  - destruct H as (? & ? & ?). by apply ipv6_spec.
  - intuition lia.
  - intuition congruence.
Qed.

(** The search finds the first match. *)
Lemma ocon_find_spec q l :
  Forall (λ c, kind_ok q (oc_key c)) l →
  ∃ r, ocon_find (query_test q) l = Some r ∧
    match r with
    | Some (pre, c, post) => l = pre ++ c :: post ∧ matches q (oc_key c) ∧ Forall (λ c, ¬ matches q (oc_key c)) pre
    | None => Forall (λ c, ¬ matches q (oc_key c)) l
    end.
Proof.
  induction 1 as [|c l Hc Hl IH]; [by exists None|]. cbn [ocon_find].
  destruct (query_test_spec q (oc_key c) Hc) as (b & -> & Hb). cbn [mbind option_bind]. destruct b.
  - eexists. split; [done|]. split; [done|]. split; [by apply Hb|constructor].
  - assert (¬ matches q (oc_key c)) as Hno by (by intros ?%Hb). destruct IH as (r & -> & Hr). cbn.
    destruct r as [[[pre m] post]|]; (eexists; split; [done|]).
    + destruct Hr as (-> & Hm & Hpre). split; [done|]. split; [done|]. by constructor.
    + by constructor.
Qed.

(** ** The cached identifiers *)

Definition entry_ok (m : gmap Z context_struct) (c : ocontext) : Prop :=
  (oc_sid0 c ≠ 0 → m !! oc_sid0 c = Some (oc_context0 c)) ∧
  (oc_sid1 c ≠ 0 → m !! oc_sid1 c = Some (oc_context1 c)).

(** Every identifier kept in the policy is the one of its context. *)
Definition cache_ok (sv : services) : Prop :=
  swf (sv_sidtab sv) ∧ Forall (Forall (entry_ok (sidmap (sv_sidtab sv)))) (ocontexts (sv_policydb sv)).

Lemma entry_ok_mono m m' c : m ⊆ m' → entry_ok m c → entry_ok m' c.
Proof. intros Hm [H0 H1]. split; intros Hne; eapply lookup_weaken; eauto. Qed.

Lemma entries_mono m m' (l : list (list ocontext)) :
  m ⊆ m' → Forall (Forall (entry_ok m)) l → Forall (Forall (entry_ok m')) l.
Proof.
  intros Hm Hl. eapply Forall_impl; [exact Hl|]. intros x Hx. eapply Forall_impl; [exact Hx|].
  intros c. by apply entry_ok_mono.
Qed.

Lemma sid_nonzero s n c : swf s → sidmap s !! n = Some c → n ≠ 0.
Proof.
  intros Hs Hn%sidmap_lookup; [|done]. destruct Hs as (t & Ht & _ & _ & _ & Hf). unfold nodes in Hn. rewrite Ht in Hn.
  rewrite Forall_forall in Hf. specialize (Hf _ Hn). simpl in Hf. lia.
Qed.

(** The entry at [index], with the entries around it. *)
Definition at_index (sv : services) (index : Z) (l : list ocontext) : Prop :=
  0 ≤ index ∧ ocontexts (sv_policydb sv) !! Z.to_nat index = Some l.

Lemma store_spec sv index pre c c' post :
  at_index sv index (pre ++ c :: post) →
  ∃ sv', store sv index pre c' post = Some sv' ∧ at_index sv' index (pre ++ c' :: post) ∧
    sv_sidtab sv' = sv_sidtab sv ∧
    (∀ P, Forall (Forall P) (ocontexts (sv_policydb sv)) → P c' → Forall (Forall P) (ocontexts (sv_policydb sv'))).
Proof.
  intros [Hi Hl]. unfold store, aset. pose proof (lookup_lt_Some _ _ _ Hl) as Hlt.
  rewrite (proj2 (Z.leb_le _ _)), (proj2 (Z.ltb_lt _ _)) by lia. cbn [andb mbind option_bind].
  eexists. split; [done|]. split; [|split; [done|]].
  - split; [done|]. simpl. apply list_lookup_insert_eq. lia.
  - intros P HP Hc'. simpl. apply Forall_insert; [done|]. rewrite Forall_forall in HP.
    pose proof (HP _ (list_elem_of_lookup_2 _ _ _ Hl)) as Hx. apply Forall_app in Hx as [H1 [_ H2]%Forall_cons].
    apply Forall_app. split; [done|]. by constructor.
Qed.

Lemma cached_sid_spec sv index pre c post h :
  cache_ok sv → at_index sv index (pre ++ c :: post) →
  wp (cached_sid sv index pre c post) h (λ '(rc, sid, sv') h',
    cache_ok sv' ∧ sidmap (sv_sidtab sv) ⊆ sidmap (sv_sidtab sv') ∧
    (rc = - ENOMEM ∧ sid = None ∨
     rc = 0 ∧ ∃ n c', sid = Some n ∧ sidmap (sv_sidtab sv') !! n = Some (oc_context0 c) ∧
       at_index sv' index (pre ++ c' :: post) ∧ oc_key c' = oc_key c ∧ oc_sid0 c' = n)).
Proof.
  intros [Hs Hc] Hat. unfold cached_sid.
  assert (entry_ok (sidmap (sv_sidtab sv)) c) as Hent.
  { destruct Hat as [_ Hl]. rewrite Forall_forall in Hc. pose proof (Hc _ (list_elem_of_lookup_2 _ _ _ Hl)) as Hx.
    rewrite Forall_forall in Hx. apply Hx. set_solver. }
  destruct (Z.eqb_spec (oc_sid0 c) 0) as [H0|H0].
  - wp_step. eapply wp_mono; [by apply context_to_sid_spec|]. intros [[rc sid] s'] h' (_ & Hs' & Hout). cbn [fst snd] in *.
    destruct (store_spec (set_sidtab sv s') index pre c (set_sids c sid (oc_sid1 c)) post Hat) as (sv' & -> & Hat' & Hst & Hall).
    do 2 wp_step. cbn [set_sidtab sv_sidtab sv_policydb] in *.
    destruct Hout as [(-> & _ & Hm & Hsub & _)|(-> & -> & -> & _)].
    + cbn [nz Z.eqb negb]. wp_step. cbn beta iota. unfold cache_ok. rewrite !Hst. split_and!; [done| |done|].
      * apply Hall; [by eapply entries_mono|]. split; simpl; [done|]. intros H1. eapply lookup_weaken; [by apply Hent|done].
      * right. split; [done|]. eexists _, _. split; [done|]. split; [done|]. by split_and!.
    + change (nz (- ENOMEM)) with true. cbn iota. wp_step. cbn beta iota. unfold cache_ok. rewrite !Hst. split_and!; [exact Hs| |reflexivity|by left].
      apply Hall; [done|]. split; simpl; [done|]. apply Hent.
  - wp_step. split; [by split|]. split; [reflexivity|]. right. split; [done|]. eexists _, _. split; [done|].
    split; [by apply Hent|]. by split_and!.
Qed.

(** C11: Labels of ports, nodes and InfiniBand objects.  The lookup returns the
    identifier of the context of the first entry that matches, or the initial
    identifier of its kind when none does; the identifiers kept in the policy
    stay those of their contexts, and asking again returns the same identifier
    and changes nothing.  The only failure is a missing identifier. *)
Theorem object_sid_correct sv q l h :
  cache_ok sv → at_index sv (query_index q) l → Forall (λ c, kind_ok q (oc_key c)) l →
  wp (ask sv q) h (λ '(rc, sid, sv') h',
    cache_ok sv' ∧ sidmap (sv_sidtab sv) ⊆ sidmap (sv_sidtab sv') ∧
    (rc = - ENOMEM ∧ sid = None ∨
     rc = 0 ∧ ∃ n, sid = Some n ∧ wp (ask sv' q) h' (λ r _, r = (0, Some n, sv')) ∧
       ((Forall (λ c, ¬ matches q (oc_key c)) l ∧ n = query_default q) ∨
        ∃ pre c post, l = pre ++ c :: post ∧ matches q (oc_key c) ∧ Forall (λ c, ¬ matches q (oc_key c)) pre ∧
          sidmap (sv_sidtab sv') !! n = Some (oc_context0 c)))).
Proof.
  intros Hc Hat Hk. rewrite ask_ocon. unfold ocon_sid. unfold aget. pose proof Hat as [Hi Hl].
  rewrite (proj2 (Z.ltb_ge _ 0)), Hl by lia. do 2 wp_step.
  destruct (ocon_find_spec q l Hk) as (r & Hf & Hr). rewrite Hf. do 2 wp_step.
  destruct r as [[[pre c] post]|]; cycle 1.
  { wp_step. split; [done|]. split; [done|]. right. split; [done|]. eexists. split; [done|]. split; [|by left].
    rewrite ask_ocon. unfold ocon_sid, aget. rewrite (proj2 (Z.ltb_ge _ 0)), Hl by lia. do 2 wp_step. rewrite Hf. do 3 wp_step. done. }
  destruct Hr as (-> & Hm & Hpre). eapply wp_mono; [by apply cached_sid_spec|].
  intros [[rc sid] sv'] h' (Hc' & Hsub & Hout). split; [done|]. split; [done|].
  destruct Hout as [?|(-> & n & c' & -> & Hn & Hat' & Hkey & Hsid)]; [by left|]. right. split; [done|].
  eexists. split; [done|]. split; [|right; by exists pre, c, post].
  rewrite ask_ocon. unfold ocon_sid, aget. destruct Hat' as [_ Hl']. rewrite (proj2 (Z.ltb_ge _ 0)), Hl' by lia. do 2 wp_step.
  assert (ocon_find (query_test q) (pre ++ c' :: post) = Some (Some (pre, c', post))) as ->.
  { clear -Hkey Hf. revert Hf. induction pre as [|x pre IH]; cbn [app ocon_find].
    - rewrite Hkey. destruct (query_test q (oc_key c)) as [[]|]; cbn; [done|..|done].
      destruct (ocon_find _ post) as [[[[? ?] ?]|]|]; cbn; congruence.
    - destruct (query_test q (oc_key x)) as [[]|]; cbn; [done| |done].
      destruct (ocon_find (query_test q) (pre ++ c :: post)) as [[[[p1 m1] q1]|]|]; cbn; try done.
      intros [= -> -> ->]. by rewrite IH. }
  do 2 wp_step. unfold cached_sid. rewrite Hsid, (proj2 (Z.eqb_neq n 0)); [by wp_step|].
  by eapply sid_nonzero; [apply Hc'|].
Qed.

(** ** Transitions *)

Section transition.
Context (p : policydb) (oc nc tc : context_struct) (tclass : Z) (name : string) (c : class_datum) (pnm : Z → string).

Definition transition_holds (e : bexpr atom) : bool := beval (atom_holds p oc nc (Some tc)) e.

(** What is reported: the rules up to the first that fails, those that hold only
    when they are asked for. *)
Fixpoint transition_report (flags : Z) (cs : list (Z * bexpr atom)) : option string :=
  match cs with
  | [] => Some ""%string
  | (perms, e) :: cs =>
     expr ← render p oc nc (Some tc) e;
     rest ← transition_report flags cs;
     let text := explanation (Some tc) (encoded_constraint perms e) name
                   (perms_of pnm (s_nprim (cl_permissions c)) perms) expr (transition_holds e) in
     Some (if transition_holds e
           then (if Z.land flags SHOW_GRANTED =? SHOW_GRANTED then text else ""%string) +:+ rest
           else text)
  end.

Lemma report_some flags cs :
  Forall (λ x, statement_ok p tclass name c pnm x.1 ∧ expr_ok p oc nc (Some tc) x.2) cs →
  is_Some (transition_report flags cs).
Proof.
  induction 1 as [|[perms e] cs [_ He] _ [rest IH]]; [by eexists|]. cbn [transition_report].
  destruct (render_some _ _ _ _ _ He) as [s Hs]. cbn [snd] in Hs. rewrite Hs, IH. by eexists.
Qed.

Lemma validate_loop_ok cs flags t h :
  Forall (λ x, statement_ok p tclass name c pnm x.1 ∧ expr_ok p oc nc (Some tc) x.2) cs →
  reason_ok (ts_reason t) → hp_oom h = [] →
  wp (validate_loop p oc nc tc tclass (encode_constraints cs) flags t) h (λ q _,
    q.1 = (if forallb (λ x, transition_holds x.2) cs then 0 else - EPERM) ∧ reason_ok (ts_reason q.2) ∧
    ∃ text, transition_report flags cs = Some text ∧ reason_text (ts_reason q.2) = reason_text (ts_reason t) +:+ text).
Proof.
  intros Hcs. revert t h. induction Hcs as [|[perms e] cs [Hst He] Hcs IH]; intros t h Hr Ho.
  { split; [done|]. split; [done|]. exists ""%string. split; [done|]. by rewrite str_app_nil_r. }
  cbn [encode_constraints fmap list_fmap validate_loop forallb fst snd transition_report]. wp_step.
  eapply wp_mono; [by apply (constraint_ok _ _ _ _ _ _ _ _ _ Hst)|].
  intros [rc t1] h1 (Hrc & _ & Ho1 & Hr1 & expr & Hex & Htext). cbn [fst snd] in *. rewrite Hex. cbn [mbind option_bind].
  assert (is_Some (transition_report flags cs)) as [rest Hrest] by by apply report_some.
  rewrite Hrest. cbn [mbind option_bind]. cbn [andb] in Htext. fold (transition_holds e) in *.
  destruct (transition_holds e); cbn [b2z negb orb andb] in *; subst rc; cbn [Z.eqb].
  - eapply wp_mono; [by apply IH|]. intros [rc t2] h2 (Hrc & Hr2 & text & Ht & Htext2). split; [done|]. split; [done|].
    eexists. split; [done|]. rewrite Htext2. rewrite Hrest in Ht. injection Ht as <-.
    destruct (_ =? _); [by rewrite Htext, str_app_assoc|]. by rewrite Htext, str_app_nil_l.
  - wp_step. split; [done|]. split; [done|]. eexists. by split.
Qed.
End transition.

(** C12: Validation of a transition.  With the three contexts known, the call
    succeeds exactly when every rule of the class holds of the old, the new and
    the task's context, and fails with [EPERM] otherwise; the report explains the
    first rule that fails, after those that hold when they are asked for. *)
Theorem validate_transition_correct sv oldsid newsid tasksid tclass name c pnm cs oc nc tc flags h :
  let p := sv_policydb sv in
  1 ≤ tclass ≤ s_nprim (p_classes p) → class_val_to_struct p !! Z.to_nat (tclass - 1) = Some (Some c) →
  cl_validatetrans c = encode_constraints cs →
  Forall (λ x, statement_ok p tclass name c pnm x.1 ∧ expr_static p true x.2) cs → ntypes p < 2 ^ 32 →
  sepol_sidtab_search (sv_sidtab sv) oldsid = Some (Some oc) → sepol_sidtab_search (sv_sidtab sv) newsid = Some (Some nc) →
  sepol_sidtab_search (sv_sidtab sv) tasksid = Some (Some tc) →
  context_ok p oc → context_ok p nc → context_ok p tc → hp_oom h = [] →
  wp (sepol_validate_transition_reason_buffer sv oldsid newsid tasksid tclass flags) h (λ q _,
    (q.1 = 0 ∨ q.1 = - EPERM) ∧
    (q.1 = 0 ↔ ∀ perms e, (perms, e) ∈ cs → beval (atom_holds p oc nc (Some tc)) e = true) ∧
    sv_policydb q.2 = p ∧ sv_sidtab q.2 = sv_sidtab sv ∧
    transition_report p oc nc tc name c pnm flags cs = Some (reason_text (ts_reason (sv_text q.2)))).
Proof.
  intros p Hcl Hdat Hv Hcs Hn Ho Hnw Ht Oo On Ot Hh. unfold sepol_validate_transition_reason_buffer. cbn zeta. fold p.
  rewrite (proj2 (Z.eqb_neq tclass 0)), (proj2 (Z.ltb_ge _ _)) by lia. cbn [orb].
  unfold aget. rewrite (proj2 (Z.ltb_ge _ 0)) by lia. rewrite Hdat, Ho, Hnw, Ht. repeat wp_step. cbn [mbind]. rewrite Hv.
  eapply wp_mono; [apply (validate_loop_ok _ _ _ _ _ name c pnm); [|by left|done]|].
  - eapply Forall_impl; [exact Hcs|]. intros x [Hs He]. split; [done|]. apply expr_static_ok; try done. by intros ? [= <-].
  - intros [rc t] h' (Hrc & _ & text & Hr & Htx). wp_step. cbn [fst snd set_text sv_policydb sv_sidtab sv_text]. cbn [fst snd] in Htx, Hrc. rewrite Hrc. clear Hrc.
    split_and!; [by destruct (forallb _ _); [left|right]| |done|done|by rewrite Htx, str_app_nil_l].
    transitivity (forallb (λ x, transition_holds p oc nc tc x.2) cs = true).
    { destruct (forallb _ _); split; done. }
    rewrite forallb_forall. split; [|by intros H [perms e] Hin; apply (H perms), list_elem_of_In].
    intros H perms e Hin. by apply (H (perms, e)), list_elem_of_In.
Qed.

(** ** Witnesses *)

(** Web ports, and the ports of the other users. *)
Definition web_ports : list ocontext :=
  [OContext (OPort 6 80 80) 0 file_tc file_tc 0 0; OContext (OPort 6 1 1023) 0 staff_sc staff_sc 1 0].

Definition net_policy : policydb :=
  set_ocontexts srv_policy [[]; []; web_ports; []; []; []; []; []; []].
Definition net : services := Services net_policy srv_sidtab no_text.

Lemma net_cache : cache_ok net.
Proof.
  split; [apply sidtab_of_wf|]. apply Forall_forall. intros l Hl.
  assert (l = [] ∨ l = web_ports) as [-> | ->] by (cbn in Hl; set_solver); [constructor|].
  repeat (apply Forall_cons; split); try constructor; intros H; by vm_compute in H |- *.
Qed.

Lemma object_sid_correct_witness :
  wp (ask net (QPort 6 443)) (Heap 0 []) (λ '(rc, sid, sv') h',
    cache_ok sv' ∧ sidmap (sv_sidtab net) ⊆ sidmap (sv_sidtab sv') ∧
    (rc = - ENOMEM ∧ sid = None ∨
     rc = 0 ∧ ∃ n, sid = Some n ∧ wp (ask sv' (QPort 6 443)) h' (λ r _, r = (0, Some n, sv')) ∧
       ((Forall (λ c, ¬ matches (QPort 6 443) (oc_key c)) web_ports ∧ n = SECINITSID_PORT) ∨
        ∃ pre c post, web_ports = pre ++ c :: post ∧ matches (QPort 6 443) (oc_key c) ∧
          Forall (λ c, ¬ matches (QPort 6 443) (oc_key c)) pre ∧
          sidmap (sv_sidtab sv') !! n = Some (oc_context0 c)))) ∧
  (λ q, q.1.1) <$> ask net (QPort 6 443) (Heap 0 []) = Some (0, Some 1) ∧
  (λ q, q.1.1) <$> ask net (QPort 6 80) (Heap 0 []) = Some (0, Some 3) ∧
  (λ q, q.1.1) <$> ask net (QPort 17 80) (Heap 0 []) = Some (0, Some SECINITSID_PORT).
Proof.
  split; [|split_and!; vm_compute; reflexivity].
  apply (object_sid_correct net (QPort 6 443) web_ports); [apply net_cache|split; [done|reflexivity]|].
  repeat constructor.
Defined.

Lemma validate_transition_correct_witness :
  wp (sepol_validate_transition_reason_buffer srv 3 1 2 1 0) (Heap 0 []) (λ q _,
    (q.1 = 0 ∨ q.1 = - EPERM) ∧
    (q.1 = 0 ↔ ∀ perms e, (perms, e) ∈ srv_trans → beval (atom_holds srv_policy file_tc staff_sc (Some sub_sc)) e = true) ∧
    sv_policydb q.2 = srv_policy ∧ sv_sidtab q.2 = srv_sidtab ∧
    transition_report srv_policy file_tc staff_sc sub_sc "file" file_class file_perm 0 srv_trans =
      Some (reason_text (ts_reason (sv_text q.2)))) ∧
  (λ q, q.1.1) <$> sepol_validate_transition_reason_buffer srv 3 1 2 1 0 (Heap 0 []) = Some (- EPERM) ∧
  (λ q, q.1.1) <$> sepol_validate_transition_reason_buffer srv 3 1 1 1 0 (Heap 0 []) = Some 0.
Proof.
  split; [|split; vm_compute; reflexivity].
  apply (validate_transition_correct srv 3 1 2 1 "file" file_class file_perm srv_trans file_tc staff_sc sub_sc);
    try (vm_compute; reflexivity); try (apply srv_context; simpl; lia).
  - vm_compute. split; discriminate.
  - apply Forall_cons. split; [|constructor]. split.
    + split_and!; [split_and!; [lia|lia|reflexivity|apply file_named]|reflexivity|vm_compute; reflexivity].
    + split_and!; [reflexivity|vm_compute; lia|]. apply Forall_cons. split; [done|]. apply Forall_cons. split; [|done]. split; [done|]. eexists _, _. by split; vm_compute.
Defined.
