(* ===== verification/LoadPolicySpec.v ===== *)
(** * The properties of loading a policy

    A new policy takes over when it keeps the classes and permissions of the
    active one; every identifier whose context has a valid counterpart in the new
    policy keeps its meaning, the others are dropped. *)

From S2P Require Import Prelude Ebitmap EbitmapFacts EbitmapIter EbitmapSpec Hashtab HashtabFacts HashtabSpec Avtab AvtabFacts AvtabSpec.
From S2P Require Import Mls Policydb MlsPolicy MlsFacts MlsSpec MlsString Sidtab SidtabSpec SidtabMap.
From S2P Require Import Conditional Context ContextSpec Rpn Constraint ConstraintFacts ConstraintSpec.
From S2P Require Import Services ServicesFacts ServicesSpec ObjectSid.

(** ** Classes and permissions *)

Definition sym_map {V} (t : option (hashtab string V)) : gmap string V := list_to_map (sym_entries t).

(** Every permission keeps its value. *)
Definition perms_kept (s s2 : symtab Z) : Prop := sym_map (s_table s) ⊆ sym_map (s_table s2).

Definition kept_as (d d2 : class_datum) : Prop :=
  cl_value d = cl_value d2 ∧
  match cl_comdatum d, cl_comdatum d2 with
  | Some com, Some com2 => perms_kept (cm_permissions com) (cm_permissions com2)
  | None, None => True
  | _, _ => False
  end ∧
  perms_kept (cl_permissions d) (cl_permissions d2).

Definition class_kept (newp : policydb) (name : string) (d : class_datum) : Prop :=
  ∃ d2, sym_map (s_table (p_classes newp)) !! name = Some d2 ∧ kept_as d d2.

Definition classes_kept (oldp newp : policydb) : Prop :=
  ∀ name d, sym_map (s_table (p_classes oldp)) !! name = Some d → class_kept newp name d.

(** The tables of the classes are well formed. *)
Definition class_wf (d : class_datum) : Prop :=
  table_wf (s_table (cl_permissions d)) ∧
  ∀ com, cl_comdatum d = Some com → table_wf (s_table (cm_permissions com)).

Definition classes_wf (p : policydb) : Prop :=
  table_wf (s_table (p_classes p)) ∧ ∀ name d, sym_map (s_table (p_classes p)) !! name = Some d → class_wf d.

Lemma sym_map_elem {V} (t : option (hashtab string V)) k v :
  table_wf t → sym_map t !! k = Some v ↔ (k, v) ∈ sym_entries t.
Proof. destruct t as [h|]; intros Hw; [|unfold sym_map; simpl; set_solver]. by apply dict_lookup, Hw. Qed.

(** A callback that only checks its entry, mapped over a table. *)
Lemma check_map {V} (t : option (hashtab string V)) (f : string → V → unit → M (Z * unit)) (P : string → V → Prop) h :
  table_wf t →
  (∀ k v, sym_map t !! k = Some v → ∃ rc, f k v tt h = Some (rc, tt, h) ∧ (rc = 0 ↔ P k v)) →
  ∃ rc, hashtab_map t f tt h = Some (rc, tt, h) ∧ (rc = 0 ↔ ∀ k v, sym_map t !! k = Some v → P k v).
Proof.
  intros Hw Hf. destruct t as [t|]; cycle 1.
  { exists 0. split; [done|]. split; [|done]. intros _ k v Hk. done. }
  rewrite map_spec by by apply Hw.
  assert (∀ k v, sym_map (Some t) !! k = Some v ↔ (k, v) ∈ concat (ht_table t)) as He by (intros; by apply (sym_map_elem (Some t))).
  setoid_rewrite He in Hf. setoid_rewrite He. clear He. induction (concat (ht_table t)) as [|[k v] l IH].
  { exists 0. split; [done|]. set_solver. }
  destruct (Hf k v) as (rc & Hk & HP); [set_solver|]. cbn [map_chain fst snd]. unfold mbind, M_bind. rewrite Hk. cbn [fst snd].
  unfold nz. destruct (Z.eqb_spec rc 0) as [E|E]; cbn [negb].
  - destruct IH as (rc' & -> & Hr); [set_solver|]. exists rc'. split; [done|]. rewrite Hr. set_solver.
  - exists rc. split; [done|]. set_solver.
Qed.

Lemma validate_perm_map (s s2 : symtab Z) h :
  table_wf (s_table s) → table_wf (s_table s2) →
  ∃ rc, hashtab_map (s_table s) (validate_perm (s_table s2)) tt h = Some (rc, tt, h) ∧ (rc = 0 ↔ perms_kept s s2).
Proof.
  intros H1 H2. destruct (check_map (s_table s) (validate_perm (s_table s2))
    (λ k v, sym_map (s_table s2) !! k = Some v) h) as (rc & Hm & Hr); [done| |].
  - intros k v _. unfold validate_perm. rewrite search_entries by done. fold (sym_map (s_table s2)).
    unfold mbind, M_bind. simpl. eexists. split; [done|]. destruct (_ !! k) as [v'|]; [|done].
    destruct (Z.eqb_spec v v') as [->|]; simpl; [done|]. split; [done|congruence].
  - exists rc. split; [done|]. rewrite Hr. unfold perms_kept. by rewrite map_subseteq_spec.
Qed.

Lemma validate_class_spec newp name d h :
  classes_wf newp → class_wf d → ∃ rc, validate_class newp name d tt h = Some (rc, tt, h) ∧ (rc = 0 ↔ class_kept newp name d).
Proof.
  intros [Ht Hc] [Hw Hcw]. unfold validate_class, class_kept. rewrite search_entries by done. fold (sym_map (s_table (p_classes newp))).
  rewrite bind_get. destruct (sym_map _ !! name) as [d2|] eqn:E; cycle 1.
  { eexists. split; [done|]. split; [done|]. by intros (? & ? & _). }
  destruct (Hc _ _ E) as [Hw2 Hcw2].
  assert ((∃ d3, Some d2 = Some d3 ∧ kept_as d d3) ↔ kept_as d d2) as Hq by naive_solver.
  setoid_rewrite Hq. clear Hq. unfold kept_as.
  destruct (Z.eqb_spec (cl_value d) (cl_value d2)) as [Hv|Hv]; cbn [negb]; cycle 1.
  { eexists. split; [done|]. split; [done|]. tauto. }
  destruct (validate_perm_map (cl_permissions d) (cl_permissions d2) h Hw Hw2) as (rp & Hp & Hrp).
  destruct (cl_comdatum d) as [com|], (cl_comdatum d2) as [com2|];
    [|eexists; split; [done|]; split; [done|tauto]..|].
  - destruct (validate_perm_map (cm_permissions com) (cm_permissions com2) h (Hcw _ eq_refl) (Hcw2 _ eq_refl)) as (rc & Hm & Hr).
    rewrite (bind_run _ _ _ _ _ Hm). unfold nz. destruct (Z.eqb_spec rc 0) as [E0|E0]; cbn [negb]; cycle 1.
    + eexists. split; [done|]. split; [done|]. tauto.
    + rewrite (bind_run _ _ _ _ _ Hp). eexists. split; [done|]. destruct (Z.eqb_spec rp 0); cbn [negb]; [tauto|split; [discriminate|tauto]].
  - rewrite (bind_run (mret (0, tt)) _ (0, tt) h h) by done. cbn [nz Z.eqb negb]. rewrite (bind_run _ _ _ _ _ Hp). eexists. split; [done|].
    unfold nz. destruct (Z.eqb_spec rp 0); cbn [negb]; [tauto|split; [discriminate|tauto]].
Qed.

Lemma validate_classes_spec oldp newp h :
  classes_wf oldp → classes_wf newp →
  ∃ rc, hashtab_map (s_table (p_classes oldp)) (validate_class newp) tt h = Some (rc, tt, h) ∧
    (rc = 0 ↔ classes_kept oldp newp).
Proof. intros [Ht Hc] Hn. apply check_map; [done|]. intros k d Hd. apply validate_class_spec; [done|by eapply Hc]. Qed.

(** ** Contexts by name *)

Section translate.
Context (oldp newp : policydb) (nm : Z → string) (Hnew : symbols_ok newp).

(** The category of the new policy with the name of category [i] of the old. *)
Definition cat_image (i k : Z) : Prop :=
  ∃ d, hashtab_search (s_table (p_cats newp)) (nm i) = Some (Some d) ∧ cd_value d = k + 1 ∧ 0 ≤ k < 2 ^ 32 - 64.

(** The loop over the categories: on success every one has an image, and the
    images are added. *)
Lemma convert_cats_spec bits e h :
  wf e → Forall (λ i, cat_name oldp i = Some (nm i)) bits → hp_oom h = [] →
  wp (convert_cats oldp newp bits e) h (λ q h', hp_oom h' = [] ∧ wf q.2 ∧
    ((q.1 = 0 ∧ Forall (λ i, ∃ k, cat_image i k) bits ∧
      ∀ k, 0 ≤ k < 2 ^ 32 → ebitmap_get_bit q.2 k = true ↔ ebitmap_get_bit e k = true ∨ ∃ i, i ∈ bits ∧ cat_image i k) ∨
     (q.1 ≠ 0 ∧ ¬ Forall (λ i, ∃ k, cat_image i k) bits))).
Proof using Hnew.
  intros Hw Hb. revert e h Hw. induction Hb as [|i bits Hi Hb IH]; intros e h Hw Ho; cbn [convert_cats].
  { wp_step. split; [done|]. split; [done|]. left. split; [done|]. split; [done|]. set_solver. }
  rewrite Hi. do 2 wp_step. destruct (sym_search _ _ (nm i) (so_cats newp Hnew)) as ([d|] & Hs & Hd); rewrite Hs; do 2 wp_step; cycle 1.
  { split; [done|]. split; [done|]. right. split; [done|]. intros [(k & d & Hd' & _) _]%Forall_cons. congruence. }
  specialize (Hd _ eq_refl). wp_step.
  eapply wp_mono; [apply set_bit_spec; [done|apply Z.mod_pos_bound; lia]|].
  intros [rc e1] h1 (Hle & Hw1 & Hout). cbn [fst snd] in *.
  assert (hp_oom h1 = []) as Ho1 by by eapply heap_le_nil.
  destruct Hout as [(-> & Hlt & Hbits)|[([= -> ->] & Hge)|([= -> ->] & _ & ?)]]; [|cbn|done].
  - cbn [nz Z.eqb negb].
    assert (u32 (cd_value d - 1) = cd_value d - 1) as Hu.
    { destruct (decide (cd_value d = 0)) as [E0|]; [rewrite E0 in Hlt; vm_compute in Hlt; discriminate|]. apply u32_id. lia. }
    rewrite Hu in Hlt, Hbits.
    assert (0 ≤ cd_value d - 1) as Hpos. { pose proof (Z.mod_pos_bound (cd_value d - 1) (2 ^ 32)). unfold u32 in Hu. lia. }
    assert (∀ k, cat_image i k ↔ k = cd_value d - 1) as Him.
    { intros k. split; [|intros ->; exists d; split; [done|lia]]. intros (d' & Hs' & Hv & _). rewrite Hs' in Hs. injection Hs as ->. lia. }
    eapply wp_mono; [by apply IH|]. intros [rc e2] h2 (Ho2 & Hw2 & Hr). cbn [fst snd] in *. split; [done|]. split; [done|].
    destruct Hr as [(-> & Hf & Hk)|[Hne Hf]]; [left|right; split; [done|by intros [_ ?]%Forall_cons]].
    split; [done|]. split; [constructor; [|done]; eexists; by apply Him|]. intros k Hk0. rewrite Hk, Hbits by done.
    setoid_rewrite elem_of_cons. destruct (Z.eqb_spec k (cd_value d - 1)) as [->|Hne].
    + split; [|by left]. intros _. right. exists i. split; [by left|by apply Him].
    + split; [intros [?|(j & Hj & Himg)]; [by left|right; exists j; by split; [right|]]|]. intros [?|(j & [->|Hj] & Himg)]; [by left|by apply Him in Himg|right; eauto].
  - split; [done|]. split; [done|]. right. split; [done|]. intros [(k & d' & Hs' & Hv & Hk) _]%Forall_cons.
    rewrite Hs' in Hs. injection Hs as ->. rewrite u32_id in Hge; lia.
Qed.

Context (snm : Z → string).

(** The level of the new policy with the same names. *)
Definition same_level (l l' : mls_level) : Prop :=
  (∃ lev, hashtab_search (s_table (p_levels newp)) (snm (sens l)) = Some (Some lev) ∧ sens l' = sens (ld_level lev)) ∧
  wf (cat l') ∧ (∀ i, has_cat l i → ∃ k, cat_image i k) ∧
  (∀ k, 0 ≤ k < 2 ^ 32 → has_cat l' k ↔ ∃ i, has_cat l i ∧ cat_image i k).

Definition same_range (r r' : mls_range) : Prop :=
  if nz (mls oldp) then same_level (level0 r) (level0 r') ∧ same_level (level1 r) (level1 r') else r' = r.

(** The context of the new policy with the names [u], [r] and [t] and the range
    of the same names. *)
Definition same_names (c : context_struct) (u r t : string) (c' : context_struct) : Prop :=
  (∃ d, hashtab_search (s_table (p_users newp)) u = Some (Some d) ∧ c_user c' = ud_value d) ∧
  (∃ d, hashtab_search (s_table (p_roles newp)) r = Some (Some d) ∧ c_role c' = rd_value d) ∧
  (∃ d, hashtab_search (s_table (p_types newp)) t = Some (Some d) ∧ c_type c' = td_value d) ∧
  same_range (c_range c) (c_range c').

Lemma same_level_fun l l1 l2 : same_level l l1 → same_level l l2 → l1 = l2.
Proof.
  intros ((lev & Hs & E1) & W1 & _ & B1) ((lev2 & Hs2 & E2) & W2 & _ & B2). destruct l1 as [s1 c1], l2 as [s2 c2]; simpl in *.
  f_equal; [congruence|]. apply wf_ext; [done..|]. intros i Hi. apply eq_true_iff_eq. by rewrite (B1 i Hi), (B2 i Hi).
Qed.

Lemma same_names_fun c u r t c1 c2 : same_names c u r t c1 → same_names c u r t c2 → c1 = c2.
Proof.
  intros ((? & U1 & ?) & (? & R1 & ?) & (? & T1 & ?) & G1) ((? & U2 & ?) & (? & R2 & ?) & (? & T2 & ?) & G2).
  assert (c_range c1 = c_range c2) as Hr.
  { unfold same_range in *. destruct (nz _); [|congruence]. destruct G1, G2, (c_range c1), (c_range c2).
    f_equal; by eapply same_level_fun. }
  destruct c1, c2; simpl in *. congruence.
Qed.

Lemma convert_level_spec l h :
  names_ok oldp snm nm → level_named oldp l → hp_oom h = [] →
  wp (convert_level oldp newp l) h (λ q h', hp_oom h' = [] ∧
    (q.1 = 0 ∧ same_level l q.2 ∨ q.1 ≠ 0 ∧ ∀ l', ¬ same_level l l')).
Proof using Hnew.
  intros Hok (Hsens & Hw & Hcats & _) Ho. unfold convert_level.
  destruct (names_sens _ _ _ Hok _ Hsens) as (-> & _). do 2 wp_step.
  destruct (sym_search _ _ (snm (sens l)) (so_levels newp Hnew)) as ([lev|] & Hs & Hd); rewrite Hs; do 2 wp_step; cycle 1.
  { split; [done|]. right. split; [done|]. intros l' ((lev & Hs' & _) & _). congruence. }
  cbn [cat]. destruct (positive_bits_spec _ Hw) as (bits & -> & _ & Hb). do 3 wp_step.
  eapply wp_mono; [apply convert_cats_spec; [apply wf_init| |done]|].
  { apply Forall_forall. intros i Hi. apply Hb in Hi. apply (names_cat _ _ _ Hok). split; [apply (wf_bit_range _ _ Hw Hi)|by apply Hcats]. }
  intros [rc e] h1 (Ho1 & Hwe & Hr). cbn [fst snd] in *. rewrite Forall_forall in Hr.
  destruct Hr as [(-> & Hall & Hk)|[Hne Hno]].
  - cbn [nz Z.eqb negb]. wp_step. split; [done|]. left. split; [done|]. split; [by exists lev|]. split; [done|]. split.
    + intros i Hi. by apply Hall, Hb.
    + intros k Hk0. unfold has_cat. cbn [cat snd]. rewrite Hk by done. setoid_rewrite Hb.
      split; [intros [Hf%(get_bit_range _ _ wf_init)|?]; [simpl in Hf; lia|done]|by right].
  - unfold nz. rewrite (proj2 (Z.eqb_neq _ _) Hne). cbn [negb]. wp_step. split; [done|]. right. split; [done|].
    intros l' (_ & _ & Hi & _). apply Hno. intros i Hin. by apply Hi, Hb.
Qed.
Lemma convert_range_spec c h :
  (nz (mls oldp) = true → names_ok oldp snm nm ∧ range_named oldp (c_range c)) → hp_oom h = [] →
  wp (mls_convert_context oldp newp c) h (λ q h', hp_oom h' = [] ∧
    c_user q.2 = c_user c ∧ c_role q.2 = c_role c ∧ c_type q.2 = c_type c ∧
    (q.1 = 0 ∧ same_range (c_range c) (c_range q.2) ∨ q.1 ≠ 0 ∧ ∀ r', ¬ same_range (c_range c) r')).
Proof using Hnew.
  intros Hm Ho. unfold mls_convert_context, same_range. destruct (nz (mls oldp)); cbn [negb]; cycle 1.
  { wp_step. split_and!; try done. by left. }
  destruct Hm as (Hok & H0 & H1); [done|]. wp_step. eapply wp_mono; [by apply convert_level_spec|].
  intros [rc l0] h1 [Ho1 Hr]. cbn [fst snd] in *. unfold nz. destruct Hr as [[-> Hl0]|[Hne Hno]]; cycle 1.
  { rewrite (proj2 (Z.eqb_neq _ _) Hne). cbn [negb]. wp_step. split_and!; try done. right. split; [done|]. intros r' [Hx _]. by eapply Hno. }
  cbn [Z.eqb negb]. wp_step. eapply wp_mono; [by apply convert_level_spec|]. intros [rc l1] h2 [Ho2 Hr]. cbn [fst snd] in *.
  wp_step. split_and!; try done. destruct Hr as [[-> Hl1]|[Hne Hno]]; [by left|right]. split; [done|]. intros r' [_ Hx]. by eapply Hno.
Qed.

(** The counterpart of a context: valid, and of the same names. *)
Definition counterpart (c c' : context_struct) : Prop :=
  ∃ u r t, context_named oldp snm nm c u r t ∧ same_names c u r t c' ∧ context_valid newp c'.

Definition convert_outcome (c : context_struct) (rc : Z) (c' : context_struct) : Prop :=
  rc = 0 ∧ counterpart c c' ∨ rc ≠ 0 ∧ ∀ c'', ¬ counterpart c c''.

Lemma named_fun c u r t u' r' t' :
  context_named oldp snm nm c u r t → context_named oldp snm nm c u' r' t' → u' = u ∧ r' = r ∧ t' = t.
Proof.
  intros [(U & _) (R & _) (T & _) _ _ _] [(U' & _) (R' & _) (T' & _) _ _ _]. split_and!; congruence.
Qed.

Lemma counterpart_fun c c1 c2 : counterpart c c1 → counterpart c c2 → c1 = c2.
Proof.
  intros (u & r & t & Hn & Hs & _) (u' & r' & t' & Hn' & Hs' & _). destruct (named_fun _ _ _ _ _ _ _ Hn Hn') as (-> & -> & ->).
  by eapply same_names_fun.
Qed.

Lemma convert_bad_spec c c' u r t rc h :
  context_named oldp snm nm c u r t → rc ≠ 0 → (∀ c'', same_names c u r t c'' → ¬ context_valid newp c'') → hp_oom h = [] →
  wp (convert_bad oldp c c' rc) h (λ q h', convert_outcome c q.1.1 q.1.2 ∧ hp_oom h' = []).
Proof.
  intros Hn Hrc Hno Ho. unfold convert_bad. wp_step. eapply wp_mono; [by eapply context_to_string_ok|].
  intros ? h1 [-> Ho1]. do 2 wp_step. wp_step. split; [|done]. right. split; [done|].
  intros c'' (u' & r' & t' & Hn' & Hs & Hv). destruct (named_fun _ _ _ _ _ _ _ Hn Hn') as (-> & -> & ->). by eapply Hno.
Qed.
Lemma same_level_wf l l' : same_level l l' → level_wf l'.
Proof using Hnew.
  intros ((lev & Hs & Hsens) & Hw & _). split; [|done]. rewrite Hsens.
  destruct (sym_search _ _ (snm (sens l)) (so_levels newp Hnew)) as (o & Ho & Hd). rewrite Ho in Hs. injection Hs as ->. by apply Hd.
Qed.

Lemma same_range_wf c u r t r' : context_named oldp snm nm c u r t → same_range (c_range c) r' → range_wf r'.
Proof using Hnew.
  intros Hn. unfold same_range. destruct (nz (mls oldp)) eqn:Hm.
  - intros [H0 H1]. split; by eapply same_level_wf.
  - intros ->. rewrite (cn_nomls _ _ _ _ _ _ _ Hn Hm). by repeat split; try apply wf_init.
Qed.

Lemma convert_context_spec sid c u r t h :
  context_named oldp snm nm c u r t → hp_oom h = [] →
  wp (convert_context oldp oldp newp sid c tt) h (λ q h', convert_outcome c q.1.1 q.1.2 ∧ hp_oom h' = []).
Proof using Hnew.
  intros Hn Ho. unfold convert_context. wp_step. eapply wp_mono; [apply context_cpy_spec|].
  intros [rc oldc] h1 [Hle Hcp]. pose proof (heap_le_nil _ _ Hle Ho) as Ho1.
  destruct Hcp as [[= -> ->]|[_ ?]]; [|done]. cbn [nz Z.eqb negb].
  destruct (cn_user _ _ _ _ _ _ _ Hn) as (-> & _), (cn_role _ _ _ _ _ _ _ Hn) as (Hr & _), (cn_type _ _ _ _ _ _ _ Hn) as (Ht & _).
  do 2 wp_step. destruct (sym_search _ _ u (so_users newp Hnew)) as ([ud|] & Hu & Hud); rewrite Hu; do 2 wp_step; cycle 1.
  { eapply convert_bad_spec; [done..| |done]. intros c'' ((d & Hd & _) & _). congruence. }
  cbn [c_role c_user c_type c_range]. rewrite Hr. do 2 wp_step.
  destruct (sym_search _ _ r (so_roles newp Hnew)) as ([rd|] & Hrs & Hrd); rewrite Hrs; do 2 wp_step; cycle 1.
  { eapply convert_bad_spec; [done..| |done]. intros c'' (_ & (d & Hd & _) & _). congruence. }
  cbn [c_role c_user c_type c_range]. rewrite Ht. do 2 wp_step.
  destruct (sym_search _ _ t (so_types newp Hnew)) as ([td|] & Hts & Htd); rewrite Hts; do 2 wp_step; cycle 1.
  { eapply convert_bad_spec; [done..| |done]. intros c'' (_ & _ & (d & Hd & _) & _). congruence. }
  cbn [c_role c_user c_type c_range]. wp_step.
  eapply wp_mono; [apply convert_range_spec; [apply Hn|done]|]. cbn [c_role c_user c_type c_range].
  intros [rc c'] h2 (Ho2 & Eu & Er & Et & Hrange). cbn [fst snd] in *. unfold nz.
  destruct Hrange as [[-> Hrange]|[Hne Hno]]; cycle 1.
  { rewrite (proj2 (Z.eqb_neq _ _) Hne). cbn [negb]. eapply convert_bad_spec; [done..| |done].
    intros c'' (_ & _ & _ & Hx). by destruct (Hno _ Hx). }
  cbn [Z.eqb negb].
  assert (same_names c u r t c') as Hsame by (split_and!; eauto).
  destruct (is_valid_spec newp c' Hnew) as (b & Hb & Hv).
  { split_and!; rewrite ?Eu, ?Er, ?Et; [by apply Hud|by apply Hrd|by apply Htd|by eapply same_range_wf]. }
  unfold policydb_context_isvalid. rewrite Hb. do 2 wp_step. destruct b; cbn [negb].
  - wp_step. split; [|done]. left. split; [done|]. exists u, r, t. split_and!; [done|done|by apply Hv].
  - unfold convert_context_handle_invalid_context. cbn [nz selinux_enforcing Z.eqb negb]. do 2 wp_step.
    eapply convert_bad_spec; [done..| |done]. intros c'' Hs'. rewrite <- (same_names_fun _ _ _ _ _ _ Hsame Hs').
    by intros ?%Hv.
Qed.
End translate.

(** ** The load *)

(** C5: Loading a policy.  With memory available, a new policy that does not keep
    the classes and permissions of the active one is refused and nothing changes;
    otherwise it becomes the active policy, the table of identifiers is well
    formed and open, and an identifier stands for a context exactly when that
    context is the valid counterpart, of the same names, of the one it stood for. *)
Theorem load_policy_correct sv newp uninit snm nm h :
  let oldp := sv_policydb sv in
  classes_wf oldp → classes_wf newp → symbols_ok newp → swf (sv_sidtab sv) →
  (∀ sid c, sidmap (sv_sidtab sv) !! sid = Some c → ∃ u r t, context_named oldp snm nm c u r t) → hp_oom h = [] →
  wp (sepol_load_policy sv (Some (0, newp)) uninit) h (λ q _,
    (q = (- EINVAL, Some sv) ∧ ¬ classes_kept oldp newp) ∨
    (q.1 = 0 ∧ classes_kept oldp newp ∧ ∃ sv', q.2 = Some sv' ∧ sv_policydb sv' = newp ∧ sv_text sv' = sv_text sv ∧
      swf (sv_sidtab sv') ∧ st_shutdown (sv_sidtab sv') = 0 ∧
      ∀ sid c', sidmap (sv_sidtab sv') !! sid = Some c' ↔
        ∃ c, sidmap (sv_sidtab sv) !! sid = Some c ∧ counterpart oldp newp nm snm c c')).
Proof.
  intros oldp Hco Hcn Hsym Hs Hnamed Ho. unfold sepol_load_policy. cbn [fst snd nz Z.eqb negb]. wp_step.
  eapply wp_mono; [apply init_spec|]. intros [ri s0] h1 [Hle Hi]. cbn [fst snd] in *.
  destruct Hi as [(_ & Hs0 & He)|[_ ?]]; [|done]. pose proof (heap_le_nil _ _ Hle Ho) as Ho1.
  destruct (validate_classes_spec oldp newp h1 Hco Hcn) as (rc & Hv & Hk). fold oldp. wp_step. apply (wp_result _ _ _ _ _ Hv). unfold nz.
  destruct (Z.eqb_spec rc 0) as [E|E]; cbn [negb]; [|wp_step; left; by rewrite <- Hk].
  cbn zeta. set (s1 := sepol_sidtab_shutdown (sv_sidtab sv)). assert (swf s1) as Hs1 by exact Hs. cbn [sv_sidtab set_sidtab sv_policydb].
  fold s1. change clone_sid with (λ sid c s, sepol_sidtab_insert s sid c). wp_step.
  eapply wp_mono; [by apply (clone_spec s1)|]. intros [rc2 s2] h2 [Hle2 Hout]. cbn [fst snd] in *.
  destruct Hout as [(-> & Hs2 & Hm2 & _)|[_ ?]]; [|done]. pose proof (heap_le_nil _ _ Hle2 Ho1) as Ho2. cbn [Z.eqb negb]. wp_step.
  eapply wp_mono; [apply (remove_on_error_spec _ (λ _, convert_outcome oldp newp nm snm)); [done| |done]|].
  { intros sid c [] h3 Hin Ho3. apply sidmap_lookup in Hin; [|done]. rewrite Hm2 in Hin. destruct (Hnamed sid c Hin) as (u & r & t & Hn).
    by eapply convert_context_spec. }
  intros [s3 []] h4 (Hs3 & Hconv & _). cbn [fst snd] in *. wp_step. right. split; [done|]. split; [by apply Hk|]. eexists. split; [done|].
  cbn [sv_policydb sv_sidtab sv_text]. split; [done|]. split; [done|]. split; [exact Hs3|]. split; [done|]. intros sid c'.
  change (sidmap (sepol_sidtab_set s1 s3)) with (sidmap s3). change (sidmap (sv_sidtab sv)) with (sidmap s1). rewrite <- Hm2.
  rewrite sidmap_lookup by done. setoid_rewrite (λ c, sidmap_lookup s2 sid c Hs2). split.
  - intros Hin. destruct (converted_elem _ _ _ _ _ Hconv Hin) as (c & Hc & [[_ Hp]|[? _]]); [|done]. by exists c.
  - intros (c & Hc & Hp). destruct (converted_lost _ _ _ _ _ Hconv Hc) as [(c2 & Hin & [[_ Hp2]|[? _]])|(rc3 & c2 & Hne & [[? _]|[_ Hno]])];
      [|done|done|by destruct (Hno c')]. by rewrite (counterpart_fun _ _ _ _ _ _ _ Hp Hp2).
Qed.

(** ** Witness *)

(** The types are renumbered, and [sub_t] is gone. *)
Definition new_types : list (string * type_datum) :=
  [("file_t"%string, TypeDatum 1 1 TYPE_TYPE ebitmap_init 0 0);
   ("staff_t"%string, TypeDatum 2 1 TYPE_TYPE ebitmap_init 0 0)].

Definition new_roles : list (string * role_datum) :=
  [("object_r"%string, RoleDatum 1 (of_bits [0]) ebitmap_init ebitmap_init 0);
   ("staff_r"%string, RoleDatum 2 (of_bits [1]) (of_bits [1]) (of_bits [1]) 0)].

Definition new_policy : policydb :=
  Policydb 0 (Symtab (ht_of 2 [("file"%string, file_class)]) 1) (Symtab (ht_of 2 new_roles) 2)
    (Symtab (ht_of 2 new_types) 2) (Symtab (ht_of 2 srv_users) 2) 0 demo_levels demo_cats
    [Some "file"%string] (Some <$> new_roles.*1) (Some <$> new_types.*1) (Some <$> srv_users.*1)
    [Some "s0"%string; Some "s1"%string]
    [Some "c0"%string; Some "c1"%string; Some "c2"%string; Some "c3"%string] []
    [Some file_class] (Some <$> new_roles.*2) (Some <$> srv_users.*2) (Some <$> new_types.*2)
    (table_of 4 []) [] (table_of 4 []) [] [] [] [] [] None
    [of_bits [0]; of_bits [1]] [] ebitmap_init 33 0 2 0 0 0 POLICY_KERN (Symtab None 0) None [] None 0 ebitmap_init 0.

Lemma new_symbols : symbols_ok new_policy.
Proof.
  split; try reflexivity.
  - apply (sym_check_ok _ (λ d, 0 <=? ud_value d)); [lia|vm_compute; reflexivity|intros; zbool; lia].
  - apply (sym_check_ok _ (λ d, 0 <=? rd_value d)); [lia|vm_compute; reflexivity|intros; zbool; lia].
  - apply (sym_check_ok _ (λ d, 0 <=? td_value d)); [lia|vm_compute; reflexivity|intros; zbool; lia].
  - apply (so_levels staff_policy staff_symbols).
  - apply (so_cats staff_policy staff_symbols).
Qed.

Lemma ht_of_table_wf {V} k (l : list (string * V)) : 0 ≤ k ≤ 31 → table_wf (ht_of k l).
Proof. intros Hk h Hh. destruct (ht_of_wf k l Hk) as (h' & Hh' & Hw). congruence. Qed.

Lemma file_classes_wf p : s_table (p_classes p) = ht_of 2 [("file"%string, file_class)] → classes_wf p.
Proof.
  intros E. assert (table_wf (ht_of 2 [("file"%string, file_class)])) as Hw by (apply ht_of_table_wf; lia).
  split; rewrite E; [exact Hw|]. intros name d Hd. apply (proj1 (sym_map_elem _ _ _ Hw)) in Hd.
  assert (sym_entries (ht_of 2 [("file"%string, file_class)]) = [("file"%string, file_class)]) as Hl by (vm_compute; reflexivity).
  rewrite Hl in Hd. apply list_elem_of_singleton in Hd.
  injection Hd as _ ->. split; [|discriminate]. cbn [cl_permissions file_class s_table]. apply ht_of_table_wf. lia.
Qed.

Definition no_name (_ : Z) : string := "".

Lemma srv_named sid c :
  sidmap srv_sidtab !! sid = Some c → ∃ u r t, context_named srv_policy no_name no_name c u r t.
Proof.
  intros Hc. apply sidmap_lookup in Hc; [|apply sidtab_of_wf].
  assert (nodes srv_sidtab = [(1, staff_sc); (2, sub_sc); (3, file_tc)]) as Hl by (vm_compute; reflexivity).
  rewrite Hl in Hc. clear Hl.
  apply elem_of_cons in Hc as [[= -> ->]|[[= -> ->]|[= -> ->]%list_elem_of_singleton]%elem_of_cons]; eexists _, _, _;
    (split; [split_and!; [reflexivity|reflexivity|eexists; split; vm_compute; reflexivity]..
            |split_and!; [reflexivity|reflexivity|eexists; split_and!; [vm_compute; reflexivity..|discriminate]]
            |discriminate|reflexivity|vm_compute; reflexivity]).
Qed.

Definition new_staff : context_struct := Context 1 2 2 mls_range_init.

Lemma load_policy_correct_witness :
  wp (sepol_load_policy srv (Some (0, new_policy)) demo_sidtab) (Heap 0 []) (λ q _,
    (q = (- EINVAL, Some srv) ∧ ¬ classes_kept srv_policy new_policy) ∨
    (q.1 = 0 ∧ classes_kept srv_policy new_policy ∧ ∃ sv', q.2 = Some sv' ∧ sv_policydb sv' = new_policy ∧
      sv_text sv' = no_text ∧ swf (sv_sidtab sv') ∧ st_shutdown (sv_sidtab sv') = 0 ∧
      ∀ sid c', sidmap (sv_sidtab sv') !! sid = Some c' ↔
        ∃ c, sidmap srv_sidtab !! sid = Some c ∧ counterpart srv_policy new_policy no_name no_name c c')) ∧
  (λ q : Z * option services * heap, (q.1.1, option_map (λ sv, nodes (sv_sidtab sv)) q.1.2)) <$> sepol_load_policy srv (Some (0, new_policy)) demo_sidtab (Heap 0 []) =
    Some (0, Some [(1, new_staff); (3, Context 2 1 1 mls_range_init)]).
Proof.
  split; [|vm_compute; reflexivity]. apply (load_policy_correct srv new_policy).
  - by apply file_classes_wf.
  - by apply file_classes_wf.
  - apply new_symbols.
  - apply sidtab_of_wf.
  - apply srv_named.
  - reflexivity.
Defined.
