(* ===== verification/UserSidsSpec.v ===== *)
(** * The contexts a user can reach

    [sepol_get_user_sids] returns the identifiers of exactly the contexts of the
    user that the calling process may change to. *)

From S2P Require Import Prelude Ebitmap EbitmapFacts EbitmapIter EbitmapSpec Hashtab HashtabFacts HashtabSpec Avtab AvtabFacts AvtabSpec.
From S2P Require Import Mls Policydb MlsPolicy MlsFacts MlsSpec MlsString Sidtab SidtabSpec SidtabMap.
From S2P Require Import Conditional Context ContextSpec Rpn Constraint ConstraintFacts ConstraintSpec.
From S2P Require Import Services ServicesFacts ServicesSpec ObjectSid LoadPolicySpec.

Section reach.
Context (p : policydb) (name : string) (cls : class_datum) (pnm : Z → string) (cs : list (Z * bexpr atom)).
Context (fromcon junk : context_struct) (user : user_datum).

(** The role is one of the user's, the type one of the role's. *)
Definition user_role (r t : Z) : Prop :=
  ∃ role, ebitmap_get_bit (ud_roles user) (r - 1) = true ∧
    role_val_to_struct p !! Z.to_nat (r - 1) = Some (Some role) ∧ ebitmap_get_bit (rd_types role) (t - 1) = true.

(** A process in [fromcon] may change to the context [c] of the user, whose range
    is the one [mls_setup_user_range] gives. *)
Definition reachable (c : context_struct) : Prop :=
  c_user c = ud_value user ∧ user_role (c_role c) (c_type c) ∧ c_type c ≠ c_type fromcon ∧
  (if nz (mls p) then mls_setup_user_range fromcon user c true = (0, c) else c_range c = c_range junk) ∧
  ∃ b, 0 ≤ b < 32 ∧ Z.testbit (process_trans p) b = true ∧ granted p (process_class p) cs b fromcon c.

(** The policy answers for the process class, and the user's roles and their
    types are those of the policy. *)
Record session_ok : Prop := {
  uo_server : server_ok p (process_class p) name cls pnm cs;
  uo_from : context_ok p fromcon;
  uo_height : ∃ n, height p (c_type fromcon) n;
  uo_perm : 0 ≤ process_trans p < 2 ^ 32;
  uo_value : value_ok (ud_value user);
  uo_roles : wf (ud_roles user);
  uo_structs i : ebitmap_get_bit (ud_roles user) i = true →
    i + 1 < 2 ^ 32 ∧ ∃ role, role_val_to_struct p !! Z.to_nat i = Some (Some role) ∧ wf (rd_types role) ∧
    ∀ j, ebitmap_get_bit (rd_types role) j = true → j < ntypes p
}.

Context (Hok : session_ok).

Lemma setup_range_idem u u' :
  mls_setup_user_range fromcon user u true = (0, u') → mls_setup_user_range fromcon user u' true = (0, u').
Proof.
  unfold mls_setup_user_range.
  repeat (match goal with |- context [if ?b then _ else _] => destruct b end); try discriminate; by intros [= <-].
Qed.

Lemma setup_range_eq c u :
  c_user u = c_user c → c_role u = c_role c → c_type u = c_type c →
  mls_setup_user_range fromcon user c true = (0, c) → mls_setup_user_range fromcon user u true = (0, c).
Proof.
  destruct c as [cu cr ct [c0 c1]], u as [uu ur ut [u0 u1]]. simpl. intros -> -> ->. unfold mls_setup_user_range.
  repeat (match goal with |- context [if ?b then _ else _] => destruct b end); try discriminate; by intros [= -> ->].
Qed.

Lemma setup_range_fields u q :
  mls_setup_user_range fromcon user u (nz (mls p)) = q →
  c_user q.2 = c_user u ∧ c_role q.2 = c_role u ∧ c_type q.2 = c_type u ∧ (nz (mls p) = false → q = (0, u)).
Proof.
  intros <-. unfold mls_setup_user_range. destruct (nz (mls p)); [|done].
  repeat (match goal with |- context [if ?b then _ else _] => destruct b end); done.
Qed.
(** The context the loop builds is the one to decide about. *)
Lemma built_context u u' :
  c_user u = ud_value user → user_role (c_role u) (c_type u) → c_type u ≠ c_type fromcon →
  (nz (mls p) = false → c_range u = c_range junk) →
  mls_setup_user_range fromcon user u (nz (mls p)) = (0, u') →
  (∀ c, reachable c → c_role c = c_role u → c_type c = c_type u → c = u') ∧
  (reachable u' ↔ ∃ b, 0 ≤ b < 32 ∧ Z.testbit (process_trans p) b = true ∧ granted p (process_class p) cs b fromcon u').
Proof.
  intros Hu Hrt Ht Hj Hs. destruct (setup_range_fields _ _ Hs) as (Eu & Er & Et & Hno). simpl in *. split.
  - intros c (Cu & _ & _ & Cr & _) Rc Tc. destruct (nz (mls p)).
    + assert (mls_setup_user_range fromcon user u true = (0, c)) as E by (apply setup_range_eq; congruence). congruence.
    + specialize (Hno eq_refl). injection Hno as ->. destruct c, u; simpl in *. f_equal; [congruence..|]. by rewrite Cr, Hj.
  - unfold reachable. rewrite Eu, Er, Et. split; [tauto|]. intros Hb. split_and!; try done.
    destruct (nz (mls p)); [by eapply setup_range_idem|]. specialize (Hno eq_refl). injection Hno as ->. by apply Hj.
Qed.

Lemma land_common a b :
  0 ≤ b < 2 ^ 32 → nz (Z.land a b) = true ↔ ∃ i, 0 ≤ i < 32 ∧ Z.testbit b i = true ∧ Z.testbit a i = true.
Proof.
  intros Hb. unfold nz. rewrite negb_true_iff, Z.eqb_neq. split.
  - intros Hne. destruct (decide (Exists (λ i, Z.testbit b i && Z.testbit a i = true) (seqZ 0 32))) as [He|Hn].
    + apply Exists_exists in He as (i & Hi%elem_of_seqZ & [??]%andb_true_iff). exists i. split; [lia|done].
    + destruct Hne. apply Z.bits_inj'. intros i Hi. rewrite Z.land_spec, Z.bits_0. destruct (decide (i < 32)) as [Hlt|Hge].
      * apply not_true_is_false. intros E. apply Hn. apply Exists_exists. exists i. split; [apply elem_of_seqZ; lia|].
        by rewrite andb_comm.
      * rewrite (testbit_out 32 b i) by lia. apply andb_false_r.
  - intros (i & Hi & H1 & H2) H0. pose proof (f_equal (λ z, Z.testbit z i) H0) as Hx. cbn beta in Hx.
    rewrite Z.land_spec, H1, H2, Z.bits_0 in Hx. done.
Qed.
(** ** The loops *)

Context (s0 : sidtab).

Definition server_kept (sv : services) : Prop :=
  sv_policydb sv = p ∧ swf (sv_sidtab sv) ∧ sidmap s0 ⊆ sidmap (sv_sidtab sv).

(** The identifiers found stand for reachable contexts, and every reachable one
    of the roles and types done is among them. *)
Definition inv (done : Z → Z → Prop) (st : reach) : Prop :=
  re_rc st = 0 ∧ server_kept (re_sv st) ∧ reason_ok (ts_reason (sv_text (re_sv st))) ∧
  c_user (re_usercon st) = ud_value user ∧ (nz (mls p) = false → c_range (re_usercon st) = c_range junk) ∧
  (∀ n, n ∈ re_sids st → ∃ c, sidmap (sv_sidtab (re_sv st)) !! n = Some c ∧ reachable c) ∧
  (∀ c, reachable c → done (c_role c) (c_type c) →
    ∃ n, n ∈ re_sids st ∧ sidmap (sv_sidtab (re_sv st)) !! n = Some c).

Definition step_ok (r : Z) (done : Z → Z → Prop) (out : (Z * services) + reach) (h : heap) : Prop :=
  hp_oom h = [] ∧
  match out with
  | inl (rc, sv) => rc = - ENOMEM ∧ server_kept sv
  | inr st => inv done st ∧ c_role (re_usercon st) = r
  end.

(** Nothing is found for the pair: no context of it is reachable. *)
Lemma inv_skip done r t st u sv :
  inv done st → server_kept sv → reason_ok (ts_reason (sv_text sv)) → sv_sidtab sv = sv_sidtab (re_sv st) →
  c_user u = ud_value user → (nz (mls p) = false → c_range u = c_range junk) →
  (∀ c, reachable c → c_role c = r → c_type c = t → False) →
  inv (λ r' t', done r' t' ∨ r' = r ∧ t' = t) (Reach 0 u (re_sids st) (re_maxnel st) sv).
Proof.
  intros (Hrc & Hk & _ & _ & _ & Hs & Hc) Hk' Hr' Est Hu Hj Hno. split_and!; try done; cbn [re_sids re_sv]; rewrite Est; [done|].
  intros c Hre [Hd|[E1 E2]]; [by apply Hc|]. by destruct (Hno c Hre E1 E2).
Qed.

(** The context is reachable, and its identifier is added. *)
Lemma inv_add done r t st u n max sv :
  inv done st → server_kept sv → reason_ok (ts_reason (sv_text sv)) →
  sidmap (sv_sidtab (re_sv st)) ⊆ sidmap (sv_sidtab sv) → sidmap (sv_sidtab sv) !! n = Some u → reachable u →
  (nz (mls p) = false → c_range u = c_range junk) →
  (∀ c, reachable c → c_role c = r → c_type c = t → c = u) →
  inv (λ r' t', done r' t' ∨ r' = r ∧ t' = t) (Reach 0 u (re_sids st ++ [n]) max sv).
Proof.
  intros (Hrc & Hk & _ & _ & _ & Hs & Hc) Hk' Hr' Hsub Hn Hre Hj Huniq. split_and!; try done; cbn [re_sids re_sv].
  - apply Hre.
  - intros m [Hm| ->%list_elem_of_singleton]%elem_of_app; [|by exists u].
    destruct (Hs m Hm) as (c & Hlk & ?). exists c. split; [by eapply lookup_weaken|done].
  - intros c Hrc' [Hd|[E1 E2]].
    + destruct (Hc c Hrc' Hd) as (m & Hm & Hlk). exists m. split; [set_solver|by eapply lookup_weaken].
    + rewrite (Huniq c Hrc' E1 E2). exists n. split; [set_solver|done].
Qed.

Lemma user_context u :
  c_user u = ud_value user → user_role (c_role u) (c_type u) → context_ok p u.
Proof using Hok.
  intros Hu (role & Hr & Hrs & Ht). destruct (uo_structs Hok _ Hr) as (Hlt & role' & Hrs' & Hw & Hj).
  rewrite Hrs in Hrs'. injection Hrs' as <-. pose proof (wf_bit_range _ _ (uo_roles Hok) Hr). pose proof (wf_bit_range _ _ Hw Ht).
  split; [rewrite Hu; apply (uo_value Hok)|]. split; [unfold role_ok; split; [unfold value_ok; lia|by exists role]|]. apply Hj in Ht. lia.
Qed.

Lemma keep_sid_ok st sid h (Q : option reach → heap → Prop) :
  hp_oom h = [] →
  (∀ max h', hp_oom h' = [] → Q (Some (Reach (re_rc st) (re_usercon st) (re_sids st ++ [sid]) max (re_sv st))) h') →
  wp (keep_sid st sid) h Q.
Proof.
  intros Ho HQ. unfold keep_sid. destruct (_ <? _); [wp_step; by apply HQ|]. wp_step. apply wp_malloc_ok; [done|].
  intros h' Ho'. wp_step. by apply HQ.
Qed.

Lemma decide_user u st t' h :
  server_kept (re_sv st) → reason_ok (ts_reason (sv_text (re_sv st))) → context_ok p u → hp_oom h = [] →
  t' = sv_text (re_sv st) →
  wp (context_struct_compute_av (bounds_fuel p) p (process_class p) (process_trans p) false 0 fromcon u
        (AvDecision 0 0 0 0 0) t') h (λ '(rc, avd, _, t) h',
    rc = 0 ∧ reason_ok (ts_reason t) ∧ hp_oom h' = [] ∧
    (nz (Z.land (avd_allowed avd) (process_trans p)) = true ↔
     ∃ b, 0 ≤ b < 32 ∧ Z.testbit (process_trans p) b = true ∧ granted p (process_class p) cs b fromcon u)).
Proof using Hok.
  intros Hk Hr Hu Ho ->. destruct (uo_height Hok) as [n Hn]. eapply wp_mono.
  - eapply (compute_av_ok _ _ _ _ _ _ (uo_server Hok)); [done| |apply Hok|done|done|done]. unfold bounds_fuel.
    pose proof (height_bound _ _ _ (so_types_ok _ _ _ _ _ _ (uo_server Hok)) Hn (proj2 (proj2 (uo_from Hok)))). lia.
  - intros [[[rc avd] reason] t] h' (-> & (_ & _ & Hd) & Hr' & _ & Ho'). split_and!; try done.
    rewrite land_common by apply Hok. split; intros (b & Hb & H1 & H2); exists b; (split; [done|]); (split; [done|]);
      by apply (Hd b Hb).
Qed.

Lemma reach_type_spec done r j st h :
  inv done st → c_role (re_usercon st) = r → user_role r (j + 1) → hp_oom h = [] →
  wp (reach_type fromcon user j st) h (step_ok r (λ r' t', done r' t' ∨ r' = r ∧ t' = j + 1)).
Proof using Hok.
  intros Hinv Hrole Hur Ho. pose proof Hinv as (Hrc & Hk & Hr & Hu & Hj & _). unfold reach_type. cbn zeta.
  set (u := set_ctype (re_usercon st) (j + 1)). cbn [re_sv re_rc re_sids re_maxnel]. rewrite (proj1 Hk), Hrc.
  destruct (Z.eqb_spec (c_type u) (c_type fromcon)) as [Ef|Ef].
  { wp_step. split; [done|]. split; [|done]. apply inv_skip; try done. intros c (_ & _ & Hne & _) _ Ht. by rewrite Ht in Hne. }
  destruct (mls_setup_user_range fromcon user u (nz (mls p))) as [bad u'] eqn:Es.
  destruct (setup_range_fields _ _ Es) as (Eu & Er & Et & Hno). cbn [snd] in *.
  assert (nz (mls p) = false → c_range u' = c_range junk) as Hj'.
  { intros Hm. specialize (Hno Hm). injection Hno as -> ->. by apply Hj. }
  assert (c_role u' = r) as Er' by by rewrite Er.
  unfold nz at 1. destruct (Z.eqb_spec bad 0) as [->|Hbad]; cbn [negb]; cycle 1.
  { wp_step. split; [done|]. split; [|exact Er']. apply inv_skip; try done; [by rewrite Eu|]. intros c Hre Rc Tc.
    destruct (nz (mls p)) eqn:Hm; [|by specialize (Hno eq_refl); injection Hno].
    destruct Hre as (Uc & _ & _ & Hset & _). rewrite Hm in Hset.
    rewrite (setup_range_eq c u) in Es; [by injection Es|by rewrite Uc|by rewrite Rc|by rewrite Tc|done]. }
  destruct (built_context u u') as [Huniq Hreach]; [done|by subst r|done|done|done|]. wp_step.
  eapply wp_mono; [eapply decide_user; [exact Hk|exact Hr|apply user_context; [by rewrite Eu|by rewrite Er, Et; subst r]|done|done]|].
  intros [[[rc avd] reason] t] h1 (-> & Hrt & Ho1 & Hg). cbn [nz Z.eqb negb orb re_sv]. rewrite <- Hreach in Hg.
  assert (server_kept (set_text (re_sv st) t)) as Hkt by exact Hk.
  destruct (nz (Z.land _ _)); cbn [negb]; cycle 1.
  { wp_step. split; [done|]. split; [|exact Er']. apply inv_skip; try done; [by rewrite Eu|]. intros c Hre Rc Tc.
    assert (c = u') as -> by (apply Huniq; [done|by rewrite Rc|by rewrite Tc]). by apply Hg in Hre. }
  assert (reachable u') as Hre by by apply Hg. wp_step. eapply wp_mono; [by apply context_to_sid_spec, Hk|].
  intros [[rc sid] s'] h2 (Hle & Hs' & Hout). cbn [fst snd re_sv re_sids re_maxnel re_rc re_usercon] in *.
  pose proof (heap_le_nil _ _ Hle Ho1) as Ho2. destruct Hout as [(-> & _ & Hm & Hsub & _)|(-> & -> & -> & _)]; cycle 1.
  { change (nz (- ENOMEM)) with true. cbn iota. wp_step. split; [done|]. split; [done|]. exact Hk. }
  cbn [nz Z.eqb negb]. wp_step. apply keep_sid_ok; [done|]. intros max h3 Ho3. wp_step. split; [done|]. split; [|exact Er'].
  cbn [re_rc re_usercon re_sids re_sv]. apply inv_add; try done; [|by intros c Hc Rc Tc; apply Huniq; [|rewrite Rc|rewrite Tc]].
  split; [apply Hk|]. split; [done|]. etrans; [apply Hk|done].
Qed.

Lemma inv_weaken (d d' : Z → Z → Prop) st :
  inv d st → (∀ r t, user_role r t → d' r t → d r t) → inv d' st.
Proof. intros (? & ? & ? & ? & ? & ? & Hc) Hd. split_and!; try done. intros c Hre Hx. apply Hc, Hd; try done. apply Hre. Qed.

Lemma reach_types_spec d r js st h :
  inv d st → c_role (re_usercon st) = r → Forall (λ j, user_role r (j + 1)) js → hp_oom h = [] →
  wp (reach_types fromcon user js st) h (step_ok r (λ r' t', d r' t' ∨ r' = r ∧ t' - 1 ∈ js)).
Proof using Hok.
  intros Hinv Hr Hjs. revert d st h Hinv Hr. induction Hjs as [|j js Hj _ IH]; intros d st h Hinv Hr Ho; cbn [reach_types].
  { wp_step. split; [done|]. split; [|done]. eapply inv_weaken; [done|]. set_solver. }
  wp_step. eapply wp_mono; [by apply (reach_type_spec d r)|]. intros [[rc sv]|st1] h1 [Ho1 Hst]; [by wp_step|].
  destruct Hst as [Hinv1 Hr1]. eapply wp_mono; [by apply IH|]. intros out h2 [Ho2 Hout]. split; [done|].
  destruct out as [[rc sv]|st2]; [done|]. destruct Hout as [Hinv2 Hr2]. split; [|done]. eapply inv_weaken; [done|].
  intros r' t' _ [?|[-> Ht]]; [by left; left|]. apply elem_of_cons in Ht as [Ht|Ht]; [|by right].
  left; right. split; [done|lia].
Qed.

Lemma reach_roles_spec d ii st h :
  inv d st → Forall (λ i, ebitmap_get_bit (ud_roles user) i = true) ii → hp_oom h = [] →
  wp (reach_roles fromcon user ii st) h (λ out _,
    match out with
    | inl (rc, sv) => rc = - ENOMEM ∧ server_kept sv
    | inr st => inv (λ r t, d r t ∨ r - 1 ∈ ii) st
    end).
Proof using Hok.
  intros Hinv Hii. revert d st h Hinv. induction Hii as [|i ii Hi _ IH]; intros d st h Hinv Ho; cbn [reach_roles].
  { wp_step. eapply inv_weaken; [done|]. set_solver. }
  pose proof Hinv as (Hrc & Hk & Hr & Hu & Hj & Hs & Hc). destruct (uo_structs Hok i Hi) as (Hlt & role & Hrole & Hw & Htypes).
  pose proof (wf_bit_range _ _ (uo_roles Hok) Hi) as Hi0. rewrite (proj1 Hk). unfold aget. rewrite (proj2 (Z.ltb_ge _ 0)), Hrole by lia.
  change (Some (Some role) ≫= id) with (Some role). do 2 wp_step. cbn zeta.
  destruct (positive_bits_spec _ Hw) as (js & -> & _ & Hjs). do 3 wp_step.
  eapply wp_mono; [apply (reach_types_spec d (i + 1)); [by split_and!|done| |done]|].
  { apply Forall_forall. intros j Hj'%Hjs. exists role. rewrite !Z.add_simpl_r. done. }
  intros [[rc sv]|st1] h1 [Ho1 Hst]; [by wp_step|]. destruct Hst as [Hinv1 _]. eapply wp_mono; [by apply IH|].
  intros [[rc sv]|st2] h2 Hout; [done|]. eapply inv_weaken; [done|]. intros r t (role' & _ & Hr' & Ht) [?|[E|?]%elem_of_cons];
    [by left; left| |by right]. left; right. split; [lia|]. apply Hjs. rewrite E, Hrole in Hr'. by injection Hr' as <-.
Qed.
End reach.


(** ** Witness *)

(** A process in [login_t] may change to [user_t], not to [admin_t]. *)
Definition process_perms : list (string * Z) := [("transition"%string, 1); ("dyntransition"%string, 2)].

Definition process_datum : class_datum := ClassDatum 1 None (Symtab (ht_of 2 process_perms) 2) [] [] 0 0 0 0.

Definition login_types : list (string * type_datum) :=
  [("login_t"%string, TypeDatum 1 1 TYPE_TYPE ebitmap_init 0 0);
   ("user_t"%string, TypeDatum 2 1 TYPE_TYPE ebitmap_init 0 0);
   ("admin_t"%string, TypeDatum 3 1 TYPE_TYPE ebitmap_init 0 0)].

Definition login_roles : list (string * role_datum) :=
  [("object_r"%string, RoleDatum 1 (of_bits [0]) ebitmap_init ebitmap_init 0);
   ("staff_r"%string, RoleDatum 2 (of_bits [1]) (of_bits [0; 1; 2]) (of_bits [0; 1; 2]) 0)].

Definition login_user : user_datum := UserDatum 1 (of_bits [1]) (of_bits [1]) mls_range_init mls_level_init 0.
Definition login_users : list (string * user_datum) := [("staff_u"%string, login_user)].

Definition login_policy : policydb :=
  Policydb 0 (Symtab (ht_of 2 [("process"%string, process_datum)]) 1) (Symtab (ht_of 2 login_roles) 2)
    (Symtab (ht_of 2 login_types) 3) (Symtab (ht_of 2 login_users) 1) 0 demo_levels demo_cats
    [Some "process"%string] (Some <$> login_roles.*1) (Some <$> login_types.*1) (Some <$> login_users.*1)
    [Some "s0"%string; Some "s1"%string]
    [Some "c0"%string; Some "c1"%string; Some "c2"%string; Some "c3"%string] []
    [Some process_datum] (Some <$> login_roles.*2) (Some <$> login_users.*2) (Some <$> login_types.*2)
    (table_of 4 [(AvtabKey 1 2 1 AVTAB_ALLOWED, AvtabDatum 1 None)]) [] (table_of 4 []) [] [] [] [] [] None
    [of_bits [0]; of_bits [1]; of_bits [2]] [] ebitmap_init 33 0 1 1 3 0 POLICY_KERN (Symtab None 0) None [] None 0 ebitmap_init 0.

Definition login_con : context_struct := Context 1 2 1 mls_range_init.
Definition login : services := Services login_policy (sidtab_of [login_con]) no_text.

Lemma login_ok : session_ok login_policy "process" process_datum (λ _, ""%string) [] login_con login_user.
Proof.
  assert (types_ok login_policy) as Ht.
  { split; [reflexivity|]. intros t Ht. change (1 ≤ t ≤ 3) in Ht.
    assert (t = 1 ∨ t = 2 ∨ t = 3) as [->|[->| ->]] by lia;
      (split; [split; [vm_compute; split; [discriminate|reflexivity]|eexists; split; [reflexivity|bits_wf]]
              |eexists; split; [reflexivity|vm_compute; split; discriminate]]). }
  split.
  - split; [vm_compute; split; discriminate|reflexivity| | |done|reflexivity|constructor].
    + apply table_of_wf; [lia|]. repeat (apply Forall_cons; split; [split; [discriminate|reflexivity]|]). constructor.
    + apply table_of_wf; [lia|constructor].
  - split; [vm_compute; split; [discriminate|reflexivity]|]. split; [|vm_compute; split; discriminate].
    split; [vm_compute; split; [discriminate|reflexivity]|eexists; reflexivity].
  - exists 0%nat. by apply height_top.
  - vm_compute. split; [discriminate|reflexivity].
  - vm_compute. split; [discriminate|reflexivity].
  - bits_wf.
  - intros i Hi. apply (of_bits_spec [1]) in Hi; [|repeat constructor; lia]. apply list_elem_of_singleton in Hi as ->. split; [lia|].
    eexists. split; [reflexivity|]. split; [bits_wf|]. intros j Hj. apply (of_bits_spec [0; 1; 2]) in Hj; [|repeat constructor; lia].
    change (ntypes login_policy) with 3. set_solver by lia.
Qed.

