(* ===== verification/Optimize.v ===== *)
(** * Optimisation of a binary policy

    [src/optimize.c]: rules that are covered by a more general rule are removed.
    Rules are reduced in place as far as others cover them; a conditional list
    points at nodes of [te_cond_avtab]. *)

From S2P Require Import Prelude Ebitmap Hashtab Avtab Mls Policydb Conditional.

(** ** Vectors of types *)

Definition TYPE_VEC_INIT_SIZE : Z := 16.

(** [count] is the length of [types]. *)
Record type_vec := TypeVec { tv_types : list Z; tv_capacity : Z }.

Definition tv_count (v : type_vec) : Z := Z.of_nat (length (tv_types v)).

Definition type_vec_init : M (option type_vec) :=
  types ← malloc;
  mret (match types with None => None | Some _ => Some (TypeVec [] TYPE_VEC_INIT_SIZE) end).

Definition type_vec_append (v : type_vec) (type : Z) : M (option type_vec) :=
  if tv_capacity v =? tv_count v then
    new_types ← malloc;
    mret (match new_types with
          | None => None
          | Some _ => Some (TypeVec (tv_types v ++ [type]) (u32 (tv_capacity v * 2)))
          end)
  else mret (Some (TypeVec (tv_types v ++ [type]) (tv_capacity v))).

(** Binary search in [types[s..e)]; the interval shrinks in every round. *)
Fixpoint vec_search (fuel : nat) (types : list Z) (type s e : Z) : option bool :=
  if s =? e then Some false
  else
    match fuel with
    | O => None
    | S fuel =>
       let mid := u32 (s + e) / 2 in
       x ← aget types mid;
       if x =? type then Some true
       else if x <? type then vec_search fuel types type (mid + 1) e
       else vec_search fuel types type s mid
    end.

Definition type_vec_contains (v : type_vec) (type : Z) : option bool :=
  vec_search (length (tv_types v)) (tv_types v) type 0 (tv_count v).

(** ** The attributes that cover a type *)

Fixpoint append_all (v : type_vec) (l : list Z) : M (option type_vec) :=
  match l with
  | [] => mret (Some v)
  | k :: l =>
     v ← type_vec_append v k;
     match v with None => mret None | Some v => append_all v l end
  end.

(** The loop over the attributes for the attribute with the types [types_i]. *)
Fixpoint append_supersets (p : policydb) (types_i : ebitmap) (todo : nat) (k : Z) (v : type_vec) :
    M (option type_vec) :=
  match todo with
  | O => mret (Some v)
  | S todo =>
     d ← get (aget (type_val_to_struct p) k);
     if match d with None => true | Some d => negb (td_flavor d =? TYPE_ATTRIB) end
     then append_supersets p types_i todo (k + 1) v
     else
       types_k ← get (aget (attr_type_map p) k);
       if ebitmap_contains types_k types_i then
         v ← type_vec_append v k;
         match v with None => mret None | Some v => append_supersets p types_i todo (k + 1) v end
       else append_supersets p types_i todo (k + 1) v
  end.

(** The vector of [map[i]]. *)
Definition type_map_entry (p : policydb) (i : Z) : M (option type_vec) :=
  v ← type_vec_init;
  match v with
  | None => mret None
  | Some v =>
     d ← get (aget (type_val_to_struct p) i);
     match d with
     | None => mret (Some v)
     | Some d =>
        if negb (td_flavor d =? TYPE_ATTRIB) then
          e ← get (aget (type_attr_map p) i);
          bits ← get (ebitmap_for_each_positive_bit e);
          append_all v bits
        else
          types_i ← get (aget (attr_type_map p) i);
          append_supersets p types_i (Z.to_nat (s_nprim (p_types p))) 0 v
     end
  end.

Fixpoint build_entries (p : policydb) (todo : nat) (i : Z) : M (option (list type_vec)) :=
  match todo with
  | O => mret (Some [])
  | S todo =>
     v ← type_map_entry p i;
     match v with
     | None => mret None
     | Some v =>
        l ← build_entries p todo (i + 1);
        mret (match l with None => None | Some l => Some (v :: l) end)
     end
  end.

Definition build_type_map (p : policydb) : M (option (list type_vec)) :=
  map ← malloc;
  match map with
  | None => mret None
  | Some _ => build_entries p (Z.to_nat (s_nprim (p_types p))) 0
  end.

(** ** Reducing a rule *)

Definition AVTAB_XPERMS_IOCTLFUNCTION : Z := 1.
Definition AVTAB_XPERMS_IOCTLDRIVER : Z := 2.
Definition EXTENDED_PERMS_LEN : nat := 8.

Definition xperm_test (x : Z) (p : list Z) : option bool :=
  w ← aget p (Z.shiftr x 5);
  Some (nz (Z.land 1 (Z.shiftr w (Z.land x 0x1f)))).

(** The words left and whether none has a bit left. *)
Fixpoint process_xperms (n : nat) (p1 p2 : list Z) : option (bool * list Z) :=
  match n with
  | O => Some (true, p1)
  | S n =>
     match p1, p2 with
     | x1 :: p1, x2 :: p2 =>
        let x := Z.ldiff x1 x2 in
        '(ret, p1) ← process_xperms n p1 p2;
        Some (if nz x then false else ret, x :: p1)
     | _, _ => None
     end
  end.

Definition set_perms (d : avtab_datum) (x : avtab_extended_perms) (perms : list Z) : avtab_datum :=
  AvtabDatum (ad_data d) (Some (Xperms (xp_specified x) (xp_driver x) perms)).

(** [d1] without what [d2] covers, and whether nothing is left. *)
Definition process_avtab_datum (specified : Z) (d1 d2 : avtab_datum) : option (bool * avtab_datum) :=
  if nz (Z.land specified AVTAB_AUDITDENY) then
    let data := Z.lor (ad_data d1) (Z.ldiff (2 ^ 32 - 1) (ad_data d2)) in
    Some (data =? 0xFFFFFFFF, AvtabDatum data (ad_xperms d1))
  else if nz (Z.land specified AVTAB_AV) then
    let data := Z.ldiff (ad_data d1) (ad_data d2) in
    Some (data =? 0, AvtabDatum data (ad_xperms d1))
  else if nz (Z.land specified AVTAB_XPERMS) then
    x1 ← ad_xperms d1;
    x2 ← ad_xperms d2;
    let reduce :=
      '(ret, perms) ← process_xperms EXTENDED_PERMS_LEN (xp_perms x1) (xp_perms x2);
      Some (ret, set_perms d1 x1 perms) in
    if xp_specified x1 =? AVTAB_XPERMS_IOCTLFUNCTION then
      if xp_specified x2 =? AVTAB_XPERMS_IOCTLFUNCTION then
        if negb (xp_driver x1 =? xp_driver x2) then Some (false, d1) else reduce
      else if xp_specified x2 =? AVTAB_XPERMS_IOCTLDRIVER then
        b ← xperm_test (xp_driver x1) (xp_perms x2); Some (b, d1)
      else Some (false, d1)
    else if xp_specified x1 =? AVTAB_XPERMS_IOCTLDRIVER then
      if xp_specified x2 =? AVTAB_XPERMS_IOCTLFUNCTION then Some (false, d1)
      else if xp_specified x2 =? AVTAB_XPERMS_IOCTLDRIVER then reduce
      else Some (false, d1)
    else Some (false, d1)
  else Some (false, d1).

Definition set_datum (n : avtab_node) (d : avtab_datum) : avtab_node := AvtabNode (an_addr n) (an_key n) d.

(** The loop over the targets for the source [st].  [entry] itself, whose datum
    [d1] is reduced, is never the rule found: its key is left out in its own
    table ([not_cond]), and otherwise it is in another table. *)
Fixpoint reduce_targets (tab : avtab) (entry : avtab_key) (not_cond : bool) (st : Z) (tts : list Z)
    (d1 : avtab_datum) : option (bool * avtab_datum) :=
  match tts with
  | [] => Some (false, d1)
  | ty :: tts =>
     if not_cond && (u32 (ak_source_type entry - 1) =? st) && (u32 (ak_target_type entry - 1) =? ty)
     then reduce_targets tab entry not_cond st tts d1
     else
       let key := AvtabKey (u16 (st + 1)) (u16 (ty + 1)) (ak_target_class entry) (ak_specified entry) in
       d2 ← avtab_search tab key;
       match d2 with
       | None => reduce_targets tab entry not_cond st tts d1
       | Some d2 =>
          '(covered, d1) ← process_avtab_datum (ak_specified entry) d1 d2;
          if (covered : bool) then Some (true, d1) else reduce_targets tab entry not_cond st tts d1
       end
  end.

Fixpoint reduce_sources (tab : avtab) (type_map : list type_vec) (entry : avtab_key) (not_cond : bool)
    (sts : list Z) (d1 : avtab_datum) : option (bool * avtab_datum) :=
  match sts with
  | [] => Some (false, d1)
  | st :: sts =>
     tts ← aget type_map (u32 (ak_target_type entry - 1));
     '(covered, d1) ← reduce_targets tab entry not_cond st (tv_types tts) d1;
     if (covered : bool) then Some (true, d1) else reduce_sources tab type_map entry not_cond sts d1
  end.

(** The answer and the datum [entry] is left with. *)
Definition is_avrule_redundant (entry : avtab_node) (tab : avtab) (type_map : list type_vec)
    (not_cond : bool) : option (bool * avtab_datum) :=
  let k := an_key entry in
  if negb (nz (Z.land (ak_specified k) (Z.lor AVTAB_AV AVTAB_XPERMS))) then Some (false, an_datum entry)
  else
    sts ← aget type_map (u32 (ak_source_type k - 1));
    reduce_sources tab type_map k not_cond (tv_types sts) (an_datum entry).

Definition is_type_attr (p : policydb) (i : Z) : option bool :=
  d ← aget (type_val_to_struct p) i ≫= id;
  Some (td_flavor d =? TYPE_ATTRIB).

Definition is_avrule_with_attr (entry : avtab_node) (p : policydb) : option bool :=
  s ← is_type_attr p (u32 (ak_source_type (an_key entry) - 1));
  if (s : bool) then Some true else is_type_attr p (u32 (ak_target_type (an_key entry) - 1)).

(** The loop over the rules of [list]; [e1] is the rule whose datum [d1] is
    reduced, rules with its source and target are left out. *)
Fixpoint reduce_cond (a : avtab) (type_map : list type_vec) (k1 : avtab_key) (l : list Z)
    (d1 : avtab_datum) : option (bool * avtab_datum) :=
  match l with
  | [] => Some (false, d1)
  | x :: next =>
     e2 ← node_at a x;
     let k2 := an_key e2 in
     let s1 := u32 (ak_source_type k1 - 1) in
     let t1 := u32 (ak_target_type k1 - 1) in
     let s2 := u32 (ak_source_type k2 - 1) in
     let t2 := u32 (ak_target_type k2 - 1) in
     if negb (ak_specified k1 =? ak_specified k2) || negb (ak_target_class k1 =? ak_target_class k2)
     then reduce_cond a type_map k1 next d1
     else if (s1 =? s2) && (t1 =? t2) then reduce_cond a type_map k1 next d1
     else
       sv ← aget type_map s1;
       bs ← type_vec_contains sv s2;
       if negb bs then reduce_cond a type_map k1 next d1
       else
         tv ← aget type_map t1;
         bt ← type_vec_contains tv t2;
         if negb bt then reduce_cond a type_map k1 next d1
         else
           '(covered, d1) ← process_avtab_datum (ak_specified k1) d1 (an_datum e2);
           if (covered : bool) then Some (true, d1) else reduce_cond a type_map k1 next d1
  end.

Definition is_cond_rule_redundant (e1 : avtab_node) (a : avtab) (l : list Z) (type_map : list type_vec) :
    option (bool * avtab_datum) :=
  if negb (nz (Z.land (ak_specified (an_key e1)) (Z.lor AVTAB_AV AVTAB_XPERMS)))
  then Some (false, an_datum e1)
  else reduce_cond a type_map (an_key e1) l (an_datum e1).

(** ** The unconditional rules *)

(** The chain of slot [i] is [pre ++ rest], and [cur] points behind [pre]. *)
Fixpoint optimize_chain (type_map : list type_vec) (i : Z) (pre rest : list avtab_node) (tab : avtab) :
    option avtab :=
  match rest with
  | [] => Some tab
  | cur :: next =>
     '(redundant, d) ← is_avrule_redundant cur tab type_map true;
     t ← av_htable tab;
     if (redundant : bool) then
       t ← aset t i (pre ++ next);
       optimize_chain type_map i pre next (Avtab (Some t) (u32 (av_nel tab - 1)) (av_nslot tab) (av_mask tab))
     else
       let cur := set_datum cur d in
       t ← aset t i (pre ++ cur :: next);
       optimize_chain type_map i (pre ++ [cur]) next (Avtab (Some t) (av_nel tab) (av_nslot tab) (av_mask tab))
  end.

Fixpoint optimize_slots (type_map : list type_vec) (todo : nat) (i : Z) (tab : avtab) : option avtab :=
  match todo with
  | O => Some tab
  | S todo =>
     t ← av_htable tab;
     chain ← aget t i;
     tab ← optimize_chain type_map i [] chain tab;
     optimize_slots type_map todo (i + 1) tab
  end.

Definition optimize_avtab (tab : avtab) (type_map : list type_vec) : option avtab :=
  optimize_slots type_map (Z.to_nat (av_nslot tab)) 0 tab.

(** ** The conditional rules *)

(** [node->datum = d] for the node at [addr]. *)
Definition write_datum (a : avtab) (addr : Z) (d : avtab_datum) : option avtab :=
  _ ← node_at a addr;
  t ← av_htable a;
  Some (Avtab (Some (fmap (M := list)
                       (fmap (M := list) (λ n, if an_addr n =? addr then set_datum n d else n)) t))
          (av_nel a) (av_nslot a) (av_mask a)).

(** The rules without attributes, in order, and [pcov], the others, last first. *)
Fixpoint separate (p : policydb) (a : avtab) (l pcov : list Z) : option (list Z * list Z) :=
  match l with
  | [] => Some ([], pcov)
  | x :: l =>
     e ← node_at a x;
     b ← is_avrule_with_attr e p;
     if (b : bool) then separate p a l (x :: pcov)
     else
       '(keep, pcov) ← separate p a l pcov;
       Some (x :: keep, pcov)
  end.

(** The second loop: the rules kept before and from [pcov_cur] on, the rules
    from [cond] on, the table and the list of the deleted rules.  [*pcov_cur] is
    [pcov] until the loop reaches it. *)
Fixpoint cond_list_loop (p : policydb) (type_map : list type_vec) (pcov : list Z) (reached : bool)
    (kept0 kept1 rest : list Z) (a : avtab) (del : list Z) : option (list Z * avtab * list Z) :=
  match rest with
  | [] => Some (kept0 ++ kept1, a, del)
  | x :: next =>
     let reached := reached || match pcov with y :: _ => x =? y | [] => false end in
     e ← node_at a x;
     '(redundant, d) ← is_avrule_redundant e (te_avtab p) type_map false;
     a ← write_datum a x d;
     '(redundant, a) ←
       (if (redundant : bool) then Some (true, a)
        else
          e ← node_at a x;
          '(redundant, d) ← is_cond_rule_redundant e a (if reached then kept1 ++ rest else pcov) type_map;
          a ← write_datum a x d;
          Some (redundant, a));
     if (redundant : bool) then cond_list_loop p type_map pcov reached kept0 kept1 next a (x :: del)
     else if reached then cond_list_loop p type_map pcov reached kept0 (kept1 ++ [x]) next a del
     else cond_list_loop p type_map pcov reached (kept0 ++ [x]) kept1 next a del
  end.

Definition optimize_cond_av_list (p : policydb) (type_map : list type_vec) (l : list Z) (a : avtab)
    (del : list Z) : option (list Z * avtab * list Z) :=
  '(keep, pcov) ← separate p a l [];
  cond_list_loop p type_map pcov false [] [] (keep ++ pcov) a del.

(** The loop over the conditionals; one without rules is dropped. *)
Fixpoint optimize_conds (p : policydb) (type_map : list type_vec) (l : list cond_node) (a : avtab)
    (del : list Z) : option (list cond_node * avtab * list Z) :=
  match l with
  | [] => Some ([], a, del)
  | c :: l =>
     '(tl, a, del) ← optimize_cond_av_list p type_map (cn_true c) a del;
     '(fl, a, del) ← optimize_cond_av_list p type_map (cn_false c) a del;
     '(l, a, del) ← optimize_conds p type_map l a del;
     Some (match tl, fl with [], [] => l | _, _ => set_rules c (cn_cur_state c) tl fl :: l end, a, del)
  end.

(** The first entry of [del] for the node, taken out. *)
Fixpoint take_deleted (x : Z) (del : list Z) : option (list Z) :=
  match del with
  | [] => None
  | y :: del => if y =? x then Some del else cons y <$> take_deleted x del
  end.

Fixpoint sweep_chain (cur : list avtab_node) (nel : Z) (del : list Z) : list avtab_node * Z * list Z :=
  match cur with
  | [] => ([], nel, del)
  | n :: next =>
     match take_deleted (an_addr n) del with
     | Some del => sweep_chain next (u32 (nel - 1)) del
     | None => let '(next, nel, del) := sweep_chain next nel del in (n :: next, nel, del)
     end
  end.

Fixpoint sweep_slots (t : list (list avtab_node)) (nel : Z) (del : list Z) :
    list (list avtab_node) * Z * list Z :=
  match t with
  | [] => ([], nel, del)
  | c :: t =>
     let '(c, nel, del) := sweep_chain c nel del in
     let '(t, nel, del) := sweep_slots t nel del in
     (c :: t, nel, del)
  end.

Definition optimize_cond_avtab (p : policydb) (type_map : list type_vec) : option (list cond_node * avtab) :=
  '(l, a, del) ← optimize_conds p type_map (cond_list p) (te_cond_avtab p) [];
  match del, av_htable a with
  | [], _ | _, None => Some (l, a)
  | _, Some t =>
     let '(t, nel, _) := sweep_slots t (av_nel a) del in
     Some (l, Avtab (Some t) nel (av_nslot a) (av_mask a))
  end.

Definition set_te (p : policydb) (a : avtab) : policydb :=
  Policydb (mls p) (p_classes p) (p_roles p) (p_types p) (p_users p) (p_bools_nprim p) (p_levels p)
    (p_cats p) (p_class_val_to_name p) (p_role_val_to_name p) (p_type_val_to_name p)
    (p_user_val_to_name p) (p_sens_val_to_name p) (p_cat_val_to_name p) (p_bool_val_to_name p)
    (class_val_to_struct p) (role_val_to_struct p) (user_val_to_struct p) (type_val_to_struct p)
    a (bool_val_to_struct p) (te_cond_avtab p) (cond_list p) (role_tr p) (p_role_allow p) (ocontexts p)
    (p_genfs p) (range_tr p) (type_attr_map p) (attr_type_map p) (permissive_map p) (policyvers p)
    (handle_unknown p) (process_class p) (process_trans p) (process_trans_dyntrans p) (dir_class p)
    (policy_type p) (p_commons p) (p_bools_table p)
    (p_common_val_to_name p) (filename_trans p) (filename_trans_count p) (policycaps p) (target_platform p).

Definition POLICYDB_VERSION_PERMISSIVE : Z := 23.

Definition policydb_optimize (p : policydb) : M (Z * policydb) :=
  if negb (policy_type p =? POLICY_KERN) then mret (-1, p)
  else if (policyvers p >=? POLICYDB_VERSION_AVTAB) && (policyvers p <=? POLICYDB_VERSION_PERMISSIVE)
  then mret (-1, p)
  else
    type_map ← build_type_map p;
    match type_map with
    | None => mret (-1, p)
    | Some type_map =>
       tab ← get (optimize_avtab (te_avtab p) type_map);
       let p := set_te p tab in
       '(l, a) ← get (optimize_cond_avtab p type_map);
       mret (0, set_cond p (bool_val_to_struct p) a l)
    end.
