(* ===== verification/OptimizeTypes.v ===== *)
(** * The type map of the optimiser

    The vector of a type or attribute holds only attributes (or the type itself)
    that every type with it has too; membership is decided by binary search. *)

From S2P Require Import Prelude Ebitmap EbitmapFacts EbitmapIter EbitmapSpec Hashtab Avtab Mls Policydb MlsFacts Optimize.

(** ** Binary search *)

Lemma vec_search_spec fuel types type s e :
  StronglySorted Z.lt types → Z.of_nat (length types) < 2 ^ 31 → 0 ≤ s ≤ e → e ≤ Z.of_nat (length types) →
  e - s ≤ Z.of_nat fuel →
  (∀ i x, types !! i = Some x → Z.of_nat i < s → x < type) → (∀ i x, types !! i = Some x → e ≤ Z.of_nat i → type < x) →
  vec_search fuel types type s e = Some (bool_decide (type ∈ types)).
Proof.
  intros Hs Hmax. revert s e. induction fuel as [|fuel IH]; intros s e Hse He Hf Hlo Hhi; cbn [vec_search].
  all: destruct (Z.eqb_spec s e) as [->|Hne].
  1,3: f_equal; symmetry; apply bool_decide_eq_false_2; intros (i & Hi)%list_elem_of_lookup;
    (destruct (decide (Z.of_nat i < e)); [specialize (Hlo _ _ Hi)|specialize (Hhi _ _ Hi)]; lia).
  { lia. }
  rewrite u32_id by lia. set (mid := (s + e) / 2).
  assert (s ≤ mid < e) as Hmid by (unfold mid; split; [apply Z.div_le_lower_bound; lia|apply Z.div_lt_upper_bound; lia]).
  unfold aget. rewrite (proj2 (Z.ltb_ge _ 0)) by lia. destruct (lookup_lt_is_Some_2 types (Z.to_nat mid)) as [x Hx]; [lia|].
  rewrite Hx. cbn [mbind option_bind].
  pose proof (λ i j y z, sorted_lookup types i j y z Hs) as Hord.
  destruct (Z.eqb_spec x type) as [->|Hxt].
  { f_equal. symmetry. apply bool_decide_eq_true_2. by eapply list_elem_of_lookup_2. }
  destruct (Z.ltb_spec x type) as [Hlt|Hge].
  - apply IH; [lia|lia|lia| |done]. intros i y Hy Hi. destruct (decide (Z.of_nat i = mid)) as [Ei|].
    + replace (Z.to_nat mid) with i in Hx by lia. congruence.
    + assert (y < x) by (eapply (Hord i (Z.to_nat mid)); [done|done|lia]). lia.
  - apply IH; [lia|lia|lia|done|]. intros i y Hy Hi. destruct (decide (Z.of_nat i = mid)) as [Ei|].
    + replace (Z.to_nat mid) with i in Hx by lia. assert (y = x) as -> by congruence. lia.
    + assert (x < y) by (eapply (Hord (Z.to_nat mid) i); [done|done|lia]). lia.
Qed.

(** Membership in a vector. *)
Definition vec_ok (v : type_vec) : Prop := StronglySorted Z.lt (tv_types v) ∧ tv_count v < 2 ^ 31.

Lemma type_vec_contains_spec v type : vec_ok v → type_vec_contains v type = Some (bool_decide (type ∈ tv_types v)).
Proof.
  intros [Hs Hc]. apply vec_search_spec; try done; unfold tv_count; try lia.
  intros i x Hi%lookup_lt_Some Hx. lia.
Qed.

(** ** Building the map *)

(** The outcome of a loop that appends [l], whatever memory is left. *)
Definition appended (v : type_vec) (l : list Z) (r : option type_vec) : Prop :=
  match r with Some v' => tv_types v' = tv_types v ++ l | None => True end.

Lemma append_spec v x h : wp (type_vec_append v x) h (λ r _, appended v [x] r).
Proof.
  unfold type_vec_append. destruct (_ =? _); [|by wp_step]. wp_step. apply wp_any_malloc. intros [a|] h'; by wp_step.
Qed.

Lemma appended_trans v l1 v1 l2 r : tv_types v1 = tv_types v ++ l1 → appended v1 l2 r → appended v (l1 ++ l2) r.
Proof. intros H1. destruct r as [v2|]; [|done]. simpl. intros ->. by rewrite H1, (assoc_L (++)). Qed.

Lemma append_all_spec v l h : wp (append_all v l) h (λ r _, appended v l r).
Proof.
  revert v h. induction l as [|x l IH]; intros v h; cbn [append_all].
  { wp_step. simpl. by rewrite app_nil_r. }
  wp_step. eapply wp_mono; [apply append_spec|]. intros [v1|] h1 H1; [|by wp_step].
  eapply wp_mono; [apply IH|]. intros r h2 Hr. by apply (appended_trans v [x] v1 l r).
Qed.

(** Attribute [k] of the policy, with its types. *)
Definition attribute (p : policydb) (k : Z) (types : ebitmap) : Prop :=
  0 ≤ k ∧ (∃ d, type_val_to_struct p !! Z.to_nat k = Some (Some d) ∧ td_flavor d = TYPE_ATTRIB) ∧
  attr_type_map p !! Z.to_nat k = Some types.

Definition plain_type (p : policydb) (x : Z) : Prop :=
  0 ≤ x ∧ ∃ d, type_val_to_struct p !! Z.to_nat x = Some (Some d) ∧ td_flavor d ≠ TYPE_ATTRIB.

(** [i] is in the map of the type [x] (from 0): [x] itself or an attribute. *)
Definition has_attr (p : policydb) (x i : Z) : Prop :=
  ∃ e, type_attr_map p !! Z.to_nat x = Some e ∧ ebitmap_get_bit e i = true.

(** The two maps between types and attributes agree. *)
Record maps_ok (p : policydb) : Prop := {
  mo_structs : Z.of_nat (length (type_val_to_struct p)) = s_nprim (p_types p);
  mo_types : Z.of_nat (length (type_attr_map p)) = s_nprim (p_types p);
  mo_attrs : Z.of_nat (length (attr_type_map p)) = s_nprim (p_types p);
  mo_max : s_nprim (p_types p) < 2 ^ 16;
  mo_wf1 : Forall wf (type_attr_map p);
  mo_wf2 : Forall wf (attr_type_map p);
  mo_bits x i : has_attr p x i → i < s_nprim (p_types p);
  mo_down x i : plain_type p x → has_attr p x i →
    i = x ∨ ∃ types, attribute p i types ∧ ebitmap_get_bit types x = true;
  mo_up x k types : plain_type p x → attribute p k types → ebitmap_get_bit types x = true → has_attr p x k
}.

(** What a vector for [i] may hold. *)
Definition covering (p : policydb) (i : Z) (l : list Z) : Prop :=
  StronglySorted Z.lt l ∧ Forall (λ k, 0 ≤ k < s_nprim (p_types p)) l ∧
  ∀ x, plain_type p x → has_attr p x i → ∀ k, k ∈ l → has_attr p x k.

Section build.
Context (p : policydb) (Hp : maps_ok p).

Lemma supersets_spec i types todo k v h :
  attribute p i types → 0 ≤ k → k + Z.of_nat todo = s_nprim (p_types p) →
  wp (append_supersets p types todo k v) h (λ r _, ∃ l, appended v l r ∧ StronglySorted Z.lt l ∧
    Forall (λ j, k ≤ j < s_nprim (p_types p) ∧ ∃ t, attribute p j t ∧ ebitmap_contains t types = true) l).
Proof using Hp.
  intros Hi. revert k v h. induction todo as [|todo IH]; intros k v h Hk Htodo; cbn [append_supersets].
  { wp_step. exists []. split; [simpl; by rewrite app_nil_r|]. split; constructor. }
  assert (∀ v h, wp (append_supersets p types todo (k + 1) v) h (λ r _, ∃ l, appended v l r ∧ StronglySorted Z.lt l ∧
    Forall (λ j, k < j < s_nprim (p_types p) ∧ ∃ t, attribute p j t ∧ ebitmap_contains t types = true) l)) as Hnext.
  { intros v1 h1. eapply wp_mono; [apply IH; lia|]. intros r h2 (l & Hr & Hs & Hl). exists l. split; [done|]. split; [done|].
    eapply Forall_impl; [exact Hl|]. intros j [Hj ?]. split; [lia|done]. }
  assert (∀ v h, wp (append_supersets p types todo (k + 1) v) h (λ r _, ∃ l, appended v l r ∧ StronglySorted Z.lt l ∧
    Forall (λ j, k ≤ j < s_nprim (p_types p) ∧ ∃ t, attribute p j t ∧ ebitmap_contains t types = true) l)) as Hskip.
  { intros v1 h1. eapply wp_mono; [apply Hnext|]. intros r h2 (l & Hr & Hs & Hl). exists l. split; [done|]. split; [done|].
    eapply Forall_impl; [exact Hl|]. intros j [Hj ?]. split; [lia|done]. }
  pose proof (mo_structs p Hp). pose proof (mo_attrs p Hp). unfold aget. rewrite !(proj2 (Z.ltb_ge _ 0)) by lia.
  destruct (lookup_lt_is_Some_2 (type_val_to_struct p) (Z.to_nat k)) as [d Hd]; [lia|]. rewrite Hd. do 2 wp_step.
  destruct d as [d|]; [|by apply Hskip]. destruct (Z.eqb_spec (td_flavor d) TYPE_ATTRIB) as [Hf|]; cbn [negb]; [|by apply Hskip].
  destruct (lookup_lt_is_Some_2 (attr_type_map p) (Z.to_nat k)) as [t Ht]; [lia|]. rewrite Ht. do 2 wp_step.
  destruct (ebitmap_contains t types) eqn:Hc; [|by apply Hskip]. wp_step. eapply wp_mono; [apply append_spec|].
  intros [v1|] h1 H1; [|wp_step; exists []; by repeat constructor]. eapply wp_mono; [apply Hnext|].
  intros r h2 (l & Hr & Hs & Hl). exists (k :: l). split; [by apply (appended_trans v [k] v1 l r)|]. split.
  - constructor; [done|]. eapply Forall_impl; [exact Hl|]. intros j [Hj _]. lia.
  - constructor; [split; [lia|]; exists t; split; [split_and!; [lia|by exists d|done]|done]|].
    eapply Forall_impl; [exact Hl|]. intros j [Hj ?]. split; [lia|done].
Qed.
Lemma lookup_wf (l : list ebitmap) i e : Forall wf l → l !! i = Some e → wf e.
Proof. intros Hl Hi. rewrite Forall_forall in Hl. by eapply Hl, list_elem_of_lookup_2. Qed.

Lemma entry_spec i h :
  0 ≤ i < s_nprim (p_types p) →
  wp (type_map_entry p i) h (λ r _, ∀ v, r = Some v → covering p i (tv_types v)).
Proof using Hp.
  intros Hi. unfold type_map_entry, type_vec_init. wp_step. wp_step. apply wp_any_malloc. intros [a|] h1; do 2 wp_step; [|by intros].
  pose proof (mo_structs p Hp). pose proof (mo_types p Hp). pose proof (mo_attrs p Hp).
  unfold aget. rewrite !(proj2 (Z.ltb_ge _ 0)) by lia.
  destruct (lookup_lt_is_Some_2 (type_val_to_struct p) (Z.to_nat i)) as [d Hd]; [lia|]. rewrite Hd. wp_step.
  destruct d as [d|]; [|wp_step; intros v [= <-]; split_and!; [constructor|constructor|]; intros x _ _ k Hk; by apply not_elem_of_nil in Hk].
  destruct (Z.eqb_spec (td_flavor d) TYPE_ATTRIB) as [Hf|Hf]; cbn [negb].
  - destruct (lookup_lt_is_Some_2 (attr_type_map p) (Z.to_nat i)) as [t Ht]; [lia|]. rewrite Ht. do 2 wp_step.
    assert (attribute p i t) as Hat by (split_and!; [lia|by exists d|done]).
    eapply wp_mono; [apply (supersets_spec i t); [done|lia|lia]|]. intros r h2 (l & Hr & Hs & Hl) v ->. simpl in Hr. rewrite Hr.
    split; [done|]. split; [eapply Forall_impl; [exact Hl|]; by intros j [? _]|]. intros x Hx Hxi k Hk.
    rewrite Forall_forall in Hl. destruct (Hl k Hk) as (_ & tk & Hak & Hc).
    destruct (mo_down p Hp x i Hx Hxi) as [->|(ti & Hai & Hbit)].
    { destruct Hx as (_ & d' & Hd' & Hne). rewrite Hd in Hd'. by injection Hd' as <-. }
    assert (ti = t) as -> by (destruct Hai as (_ & _ & E); rewrite Ht in E; by injection E).
    assert (wf t) as Wt by (eapply lookup_wf; [apply (mo_wf2 p Hp)|done]).
    assert (wf tk) as Wk by (eapply lookup_wf; [apply (mo_wf2 p Hp)|apply Hak]).
    apply (mo_up p Hp x k tk Hx Hak). apply (proj1 (contains_subset tk t Wk Wt) Hc); [apply (wf_bit_range _ _ Wt Hbit)|done].
  - destruct (lookup_lt_is_Some_2 (type_attr_map p) (Z.to_nat i)) as [e He]; [lia|]. rewrite He. do 2 wp_step.
    assert (wf e) as We by (eapply lookup_wf; [apply (mo_wf1 p Hp)|done]).
    destruct (positive_bits_spec e We) as (bits & -> & Hs & Hb). do 2 wp_step. eapply wp_mono; [apply append_all_spec|].
    intros r h2 Hr v ->. simpl in Hr. rewrite Hr. split; [done|]. split.
    + apply Forall_forall. intros k Hk%Hb. split; [apply (wf_bit_range _ _ We Hk)|]. apply (mo_bits p Hp i). by exists e.
    + intros x Hx Hxi k Hk. destruct (mo_down p Hp x i Hx Hxi) as [->|(ti & Hai & _)]; [exists e; split; [done|by apply Hb]|].
      destruct Hai as (_ & (d' & Hd' & Hat) & _). rewrite Hd in Hd'. by injection Hd' as <-.
Qed.

Lemma entries_spec todo i h :
  0 ≤ i → i + Z.of_nat todo = s_nprim (p_types p) →
  wp (build_entries p todo i) h (λ r _, ∀ m, r = Some m → length m = todo ∧
    ∀ j v, m !! j = Some v → covering p (i + Z.of_nat j) (tv_types v)).
Proof using Hp.
  revert i h. induction todo as [|todo IH]; intros i h Hi Htodo; cbn [build_entries].
  { wp_step. intros m [= <-]. by split. }
  wp_step. eapply wp_mono; [apply entry_spec; lia|]. intros [v|] h1 Hv; [|wp_step; by intros].
  wp_step. eapply wp_mono; [apply IH; lia|]. intros [m|] h2 Hm; wp_step; [|by intros]. intros m' [= <-].
  destruct (Hm m eq_refl) as [Hl Hc]. split; [simpl; lia|]. intros [|j] v' Hj; simpl in Hj.
  - injection Hj as <-. replace (i + Z.of_nat 0) with i by lia. by apply Hv.
  - replace (i + Z.of_nat (S j)) with (i + 1 + Z.of_nat j) by lia. by apply Hc.
Qed.

(** A map of the policy. *)
Definition map_ok (m : list type_vec) : Prop :=
  Z.of_nat (length m) = s_nprim (p_types p) ∧ ∀ j v, m !! j = Some v → covering p (Z.of_nat j) (tv_types v).

Lemma build_type_map_spec h :
  0 ≤ s_nprim (p_types p) → wp (build_type_map p) h (λ r _, ∀ m, r = Some m → map_ok m).
Proof using Hp.
  intros Hn. unfold build_type_map. wp_step. apply wp_any_malloc. intros [a|] h1; [|wp_step; by intros].
  eapply wp_mono; [apply entries_spec; lia|]. intros r h2 Hr m ->. destruct (Hr m eq_refl) as [Hl Hc]. split; [lia|]. intros j v Hj.
  by apply (Hc j v).
Qed.

Lemma map_vec m i v : map_ok m → m !! i = Some v → vec_ok v.
Proof using Hp.
  intros [Hl Hm] Hi. destruct (Hm i v Hi) as (Hs & Hb & _). split; [done|]. unfold tv_count. pose proof (mo_max p Hp).
  assert (Z.of_nat (length (tv_types v)) ≤ s_nprim (p_types p)); [|lia].
  assert (tv_types v ⊆+ seqZ 0 (s_nprim (p_types p))) as Hsub.
  { apply NoDup_submseteq; [by apply sorted_lt_NoDup|]. intros k Hk. rewrite Forall_forall in Hb. apply elem_of_seqZ. specialize (Hb k Hk). simpl in Hb. lia. }
  apply submseteq_length in Hsub. rewrite length_seqZ in Hsub. lia.
Qed.
End build.

(** ** With memory the map is built *)

(** While no allocation fails, [m] returns no null. *)
Definition gives {A} (m : M (option A)) : Prop :=
  ∀ h r h', m h = Some (r, h') → hp_oom h = [] → is_Some r ∧ hp_oom h' = [].

Lemma gives_ret {A} (x : A) : gives (mret (Some x)).
Proof. by intros h r h' [= <- <-]. Qed.

Lemma gives_malloc : gives malloc.
Proof. intros h r h' Hm Ho. unfold malloc in Hm. rewrite Ho in Hm. by injection Hm as <- <-. Qed.

Lemma gives_bind {A B} (m : M (option A)) (f : option A → M (option B)) : gives m → (∀ x, gives (f (Some x))) → gives (m ≫= f).
Proof.
  intros Hm Hf h r h' E Ho. unfold mbind, M_bind in E. destruct (m h) as [[o h1]|] eqn:E1; [|done].
  destruct (Hm _ _ _ E1 Ho) as [[x ->] Ho1]. by eapply Hf.
Qed.

Lemma gives_get {A B} (o : option A) (f : A → M (option B)) : (∀ x, gives (f x)) → gives (get o ≫= f).
Proof. intros Hf. destruct o as [x|]; [apply (Hf x)|done]. Qed.

Create HintDb gives.
#[local] Hint Resolve gives_ret gives_malloc : gives.

Lemma append_gives v x : gives (type_vec_append v x).
Proof. unfold type_vec_append. destruct (_ =? _); [apply gives_bind|]; auto with gives. Qed.

Lemma append_all_gives v l : gives (append_all v l).
Proof. revert v. induction l as [|x l IH]; intros v; cbn [append_all]; [auto with gives|]. apply gives_bind; [apply append_gives|done]. Qed.

Lemma append_supersets_gives p t todo k v : gives (append_supersets p t todo k v).
Proof.
  revert k v. induction todo as [|todo IH]; intros k v; cbn [append_supersets]; [auto with gives|]. apply gives_get. intros d.
  destruct (match d with None => true | Some d0 => negb (td_flavor d0 =? TYPE_ATTRIB) end); [done|]. apply gives_get. intros tk. destruct (ebitmap_contains _ _); [|done].
  apply gives_bind; [apply append_gives|done].
Qed.

Lemma entry_gives p i : gives (type_map_entry p i).
Proof.
  unfold type_map_entry, type_vec_init. apply gives_bind; [apply gives_bind; auto with gives|]. intros v. apply gives_get. intros [d|]; [|auto with gives].
  destruct (negb _); [|apply gives_get; intros; apply append_supersets_gives]. do 2 (apply gives_get; intros ?). apply append_all_gives.
Qed.

Lemma build_type_map_gives p : gives (build_type_map p).
Proof.
  apply gives_bind; [auto with gives|]. intros _. generalize 0. induction (Z.to_nat _) as [|todo IH]; intros i; cbn [build_entries]; [auto with gives|].
  apply gives_bind; [apply entry_gives|]. intros v. apply gives_bind; auto with gives.
Qed.
