(* ===== verification/OptimizeFacts.v ===== *)
(** * Facts about the optimisation of a policy

    What a rule says, and that reducing a rule by another only takes away what
    the other one says too. *)

From S2P Require Import Prelude Ebitmap EbitmapFacts EbitmapIter EbitmapSpec Hashtab Avtab AvtabFacts Mls Policydb.
From S2P Require Import Conditional ConditionalFacts Optimize.

(** ** What a rule says *)

(** A permission of an access vector, or an ioctl: driver and function. *)
Inductive saying := Perm (b : Z) | Ioctl (driver function : Z).

(** The kinds of rules that are reduced. *)
Definition av_kinds : list Z := [AVTAB_ALLOWED; AVTAB_AUDITALLOW; AVTAB_AUDITDENY].
Definition xperm_kinds : list Z := [AVTAB_XPERMS_ALLOWED; AVTAB_XPERMS_AUDITALLOW; AVTAB_XPERMS_DONTAUDIT].

Definition perm_bit_of (perms : list Z) (x : Z) : bool :=
  match perms !! Z.to_nat (Z.shiftr x 5) with Some w => Z.testbit w (Z.land x 0x1f) | None => false end.

(** An [AVTAB_AUDITDENY] rule says what is not to be audited: the clear bits. *)
Definition says (k : Z) (d : avtab_datum) (a : saying) : Prop :=
  match a with
  | Perm b =>
     k ∈ av_kinds ∧ 0 ≤ b < 32 ∧ Z.testbit (ad_data d) b = negb (k =? AVTAB_AUDITDENY)
  | Ioctl driver f =>
     k ∈ xperm_kinds ∧ 0 ≤ driver < 256 ∧ 0 ≤ f < 256 ∧
     ∃ x, ad_xperms d = Some x ∧
       (xp_specified x = AVTAB_XPERMS_IOCTLFUNCTION ∧ xp_driver x = driver ∧ perm_bit_of (xp_perms x) f = true ∨
        xp_specified x = AVTAB_XPERMS_IOCTLDRIVER ∧ perm_bit_of (xp_perms x) driver = true)
  end.

(** The data of a rule of kind [k]. *)
Definition datum_ok (k : Z) (d : avtab_datum) : Prop :=
  (k ∈ av_kinds → 0 ≤ ad_data d < 2 ^ 32) ∧
  (k ∈ xperm_kinds → ∃ x, ad_xperms d = Some x ∧ 0 ≤ xp_driver x < 256 ∧ length (xp_perms x) = 8%nat ∧
     Forall (λ w, 0 ≤ w < 2 ^ 32) (xp_perms x)).

(** [specified] is the kind [k], in force or not. *)
Definition of_kind (specified k : Z) : Prop := specified = k ∨ specified = Z.lor k AVTAB_ENABLED.

Lemma xperms_spec p1 p2 :
  length p1 = length p2 → Forall (λ w, 0 ≤ w < 2 ^ 32) p1 →
  ∃ ret p, process_xperms (length p1) p1 p2 = Some (ret, p) ∧ length p = length p1 ∧
    Forall (λ w, 0 ≤ w < 2 ^ 32) p ∧
    (∀ i b, (∃ w, p !! i = Some w ∧ Z.testbit w b = true) ↔
       ∃ w1 w2, p1 !! i = Some w1 ∧ p2 !! i = Some w2 ∧ Z.testbit w1 b = true ∧ Z.testbit w2 b = false) ∧
    (ret = true → Forall (λ w, w = 0) p).
Proof.
  revert p2. induction p1 as [|x1 p1 IH]; intros [|x2 p2] Hl Hb; try discriminate.
  { exists true, []. split_and!; try done. intros i b. split; [intros (? & ? & _)|intros (? & ? & ? & _)]; done. }
  apply Forall_cons in Hb as [Hx Hb]. injection Hl as Hl. destruct (IH p2 Hl Hb) as (ret & p & Hp & Hlen & Hf & Hbits & Hret).
  cbn [length process_xperms]. rewrite Hp. simpl. eexists _, _. split; [done|]. split; [simpl; lia|]. split; [|split].
  - constructor; [|done]. rewrite Z.ldiff_land. apply land_bound; [lia|done].
  - intros [|i] b; [|apply Hbits]. simpl. split.
    + intros (w & [= <-] & Hw). rewrite Z.ldiff_spec in Hw. apply andb_true_iff in Hw as [? ?%negb_true_iff]. by exists x1, x2.
    + intros (w1 & w2 & [= <-] & [= <-] & H1 & H2). eexists. split; [done|]. by rewrite Z.ldiff_spec, H1, H2.
  - unfold nz. destruct (Z.eqb_spec (Z.ldiff x1 x2) 0); [|done]. simpl. intros ->. constructor; [done|by apply Hret].
Qed.

Lemma perm_bit_lookup perms x :
  0 ≤ x → perm_bit_of perms x = true ↔ ∃ w, perms !! Z.to_nat (Z.shiftr x 5) = Some w ∧ Z.testbit w (Z.land x 0x1f) = true.
Proof. intros Hx. unfold perm_bit_of. destruct (perms !! _) as [w|]; [|by split; [|intros (? & ? & _)]]. naive_solver. Qed.

Lemma perm_bit_minus p1 p2 ret p x :
  length p1 = 8%nat → length p2 = 8%nat → Forall (λ w, 0 ≤ w < 2 ^ 32) p1 → 0 ≤ x →
  process_xperms EXTENDED_PERMS_LEN p1 p2 = Some (ret, p) →
  perm_bit_of p x = perm_bit_of p1 x && negb (perm_bit_of p2 x) ∧ (ret = true → perm_bit_of p x = false) ∧
  length p = 8%nat ∧ Forall (λ w, 0 ≤ w < 2 ^ 32) p.
Proof.
  intros L1 L2 Hb Hx Hp. destruct (xperms_spec p1 p2) as (ret' & p' & Hp' & Hl & Hf & Hbits & Hret); [lia|done|].
  rewrite L1 in Hp'. change 8%nat with EXTENDED_PERMS_LEN in Hp'. rewrite Hp in Hp'. injection Hp' as <- <-.
  split; [|split; [|split; [lia|done]]].
  - apply eq_true_iff_eq. rewrite andb_true_iff, negb_true_iff, !perm_bit_lookup, Hbits by done.
    unfold perm_bit_of. split.
    + intros (w1 & w2 & -> & -> & H1 & H2). split; [by exists w1|done].
    + intros [(w1 & H1 & B1) H2]. destruct (lookup_lt_is_Some_2 p2 (Z.to_nat (Z.shiftr x 5))) as [w2 Hw2].
      { apply lookup_lt_Some in H1. lia. }
      rewrite Hw2 in H2. by exists w1, w2.
  - intros Hr. unfold perm_bit_of. destruct (p !! _) as [w|] eqn:E; [|done].
    pose proof (Hret Hr) as H0. rewrite Forall_forall in H0. rewrite (H0 w) by by eapply list_elem_of_lookup_2. apply Z.bits_0.
Qed.

Lemma xperm_test_spec x p :
  0 ≤ x < 256 → length p = 8%nat → xperm_test x p = Some (perm_bit_of p x).
Proof.
  intros Hx Hl. unfold xperm_test, perm_bit_of, aget. assert (0 ≤ Z.shiftr x 5 < 8) as Hs.
  { rewrite Z.shiftr_div_pow2 by lia. change (2 ^ 5) with 32. split; [apply Z.div_pos; lia|apply Z.div_lt_upper_bound; lia]. }
  rewrite (proj2 (Z.ltb_ge _ 0)) by lia. destruct (lookup_lt_is_Some_2 p (Z.to_nat (Z.shiftr x 5))) as [w ->]; [lia|]. simpl. f_equal.
  rewrite Z.land_comm. change 1 with (Z.shiftl 1 0). unfold nz. rewrite land_bit, negb_involutive, Z.shiftr_spec by lia. done.
Qed.

(** The tests of [process_avtab_datum] on a kind. *)
Lemma kind_tests sp k :
  of_kind sp k → k ∈ av_kinds ++ xperm_kinds →
  nz (Z.land sp AVTAB_AUDITDENY) = (k =? AVTAB_AUDITDENY) ∧ nz (Z.land sp AVTAB_AV) = bool_decide (k ∈ av_kinds) ∧
  nz (Z.land sp AVTAB_XPERMS) = bool_decide (k ∈ xperm_kinds) ∧
  nz (Z.land sp (Z.lor AVTAB_AV AVTAB_XPERMS)) = true.
Proof.
  intros Hsp Hk. assert (Forall (λ k, ∀ sp, of_kind sp k →
    nz (Z.land sp AVTAB_AUDITDENY) = (k =? AVTAB_AUDITDENY) ∧ nz (Z.land sp AVTAB_AV) = bool_decide (k ∈ av_kinds) ∧
    nz (Z.land sp AVTAB_XPERMS) = bool_decide (k ∈ xperm_kinds) ∧
    nz (Z.land sp (Z.lor AVTAB_AV AVTAB_XPERMS)) = true) (av_kinds ++ xperm_kinds)) as Hall.
  { repeat constructor; destruct H as [-> | ->]; by vm_compute. }
  rewrite Forall_forall in Hall. by apply Hall.
Qed.

(** [d1'] is [d1] without things that [told] holds of; nothing is left when it
    is [covered]. *)
Definition reduced (k : Z) (told : saying → Prop) (d1 : avtab_datum) (covered : bool) (d1' : avtab_datum) : Prop :=
  datum_ok k d1' ∧ (∀ a, says k d1' a → says k d1 a) ∧
  (∀ a, says k d1 a → covered = false ∧ says k d1' a ∨ told a).

Lemma reduced_refl k told d : datum_ok k d → reduced k told d false d.
Proof. intros Hd. split; [done|]. split; [done|]. intros a Ha. by left. Qed.

Lemma reduced_trans k told d1 d2 c d3 : reduced k told d1 false d2 → reduced k told d2 c d3 → reduced k told d1 c d3.
Proof.
  intros (_ & S1 & K1) (O2 & S2 & K2). split; [done|]. split; [by auto|]. intros a Ha.
  destruct (K1 a Ha) as [[_ Ha2]|?]; [by apply K2|by right].
Qed.

Lemma reduced_weaken k (told told' : saying → Prop) d1 c d2 :
  (∀ a, told a → told' a) → reduced k told d1 c d2 → reduced k told' d1 c d2.
Proof. intros Hw (O & S1 & K). split; [done|]. split; [done|]. intros a Ha. destruct (K a Ha); auto. Qed.

Lemma kinds_disjoint k : k ∈ av_kinds → k ∈ xperm_kinds → False.
Proof. unfold av_kinds, xperm_kinds. rewrite !elem_of_cons, !elem_of_nil. intros [->|[->|[->|[]]]] [?|[?|[?|[]]]]; discriminate. Qed.

Lemma process_deny d1 d2 :
  let k := AVTAB_AUDITDENY in datum_ok k d1 → datum_ok k d2 →
  let data := Z.lor (ad_data d1) (Z.ldiff (2 ^ 32 - 1) (ad_data d2)) in
  reduced k (says k d2) d1 (data =? 0xFFFFFFFF) (AvtabDatum data (ad_xperms d1)).
Proof.
  intros k [H1 _] [H2 _] data. assert (k ∈ av_kinds) as Hk by (do 2 right; left). specialize (H1 Hk). specialize (H2 Hk).
  assert (∀ b, 0 ≤ b < 32 → Z.testbit data b = Z.testbit (ad_data d1) b || negb (Z.testbit (ad_data d2) b)) as Hb.
  { intros b Hb. unfold data. rewrite Z.lor_spec, Z.ldiff_spec. change (2 ^ 32 - 1) with (Z.ones 32). by rewrite Z.ones_spec_low by lia. }
  assert (∀ d dr f, says k d (Ioctl dr f) → False) as Hno by (intros d dr f (Hx & _); by eapply kinds_disjoint).
  split; [split; [intros _|by intros ?%(kinds_disjoint _ Hk)]|split].
  - simpl. apply lor_bound; [lia|done|]. rewrite Z.ldiff_land. apply land_bound; lia.
  - intros [b|dr f]; [|by intros ?%Hno]. intros (_ & Hr & Ht). split; [done|]. split; [done|]. cbn in Ht |- *. rewrite Hb in Ht by done.
    by apply orb_false_iff in Ht as [? _].
  - intros [b|dr f]; [|by intros ?%Hno]. intros (_ & Hr & Ht). cbn in Ht. destruct (Z.testbit (ad_data d2) b) eqn:E2.
    + left. split; [|split_and!; [done|lia|lia|cbn; by rewrite Hb, Ht, E2]].
      apply Z.eqb_neq. intros Hd. pose proof (f_equal (λ z, Z.testbit z b) Hd) as Hx. cbn beta in Hx. rewrite Hb, Ht, E2 in Hx by done.
      change 0xFFFFFFFF with (Z.ones 32) in Hx. by rewrite Z.ones_spec_low in Hx by lia.
    + right. split; [done|]. split; [done|exact E2].
Qed.

Lemma process_av k d1 d2 :
  k ∈ av_kinds → k ≠ AVTAB_AUDITDENY → datum_ok k d1 → datum_ok k d2 →
  let data := Z.ldiff (ad_data d1) (ad_data d2) in
  reduced k (says k d2) d1 (data =? 0) (AvtabDatum data (ad_xperms d1)).
Proof.
  intros Hk Hne [H1 _] [H2 _] data. specialize (H1 Hk). specialize (H2 Hk).
  assert (∀ d dr f, says k d (Ioctl dr f) → False) as Hno by (intros d dr f (Hx & _); by eapply kinds_disjoint).
  assert ((k =? AVTAB_AUDITDENY) = false) as Hf by by apply Z.eqb_neq.
  split; [split; [intros _|by intros ?%(kinds_disjoint _ Hk)]|split].
  - simpl. unfold data. rewrite Z.ldiff_land. by apply land_bound.
  - intros [b|dr f]; [|by intros ?%Hno]. intros (_ & Hr & Ht). split; [done|]. split; [done|]. rewrite Hf in *. cbn in Ht |- *.
    unfold data in Ht. rewrite Z.ldiff_spec in Ht. by apply andb_true_iff in Ht as [? _].
  - intros [b|dr f]; [|by intros ?%Hno]. intros (_ & Hr & Ht). rewrite Hf in Ht. cbn in Ht.
    destruct (Z.testbit (ad_data d2) b) eqn:E2; [right; split; [done|]; split; [done|by rewrite Hf]|]. left.
    assert (Z.testbit data b = true) as Hd by (unfold data; by rewrite Z.ldiff_spec, Ht, E2).
    split; [|split; [done|]; split; [done|by rewrite Hf]]. apply Z.eqb_neq. intros H0. by rewrite H0, Z.bits_0 in Hd.
Qed.

Lemma process_x k d1 d2 x1 x2 ret perms :
  k ∈ xperm_kinds → datum_ok k d1 → datum_ok k d2 → ad_xperms d1 = Some x1 → ad_xperms d2 = Some x2 →
  xp_specified x1 = xp_specified x2 →
  (xp_specified x1 = AVTAB_XPERMS_IOCTLFUNCTION → xp_driver x1 = xp_driver x2) →
  process_xperms EXTENDED_PERMS_LEN (xp_perms x1) (xp_perms x2) = Some (ret, perms) →
  reduced k (says k d2) d1 ret (set_perms d1 x1 perms).
Proof.
  intros Hk [_ H1] [_ H2] E1 E2 Hsp Hdr Hp. destruct (H1 Hk) as (? & E1' & D1 & L1 & F1), (H2 Hk) as (? & E2' & D2 & L2 & F2).
  rewrite E1 in E1'. injection E1' as <-. rewrite E2 in E2'. injection E2' as <-.
  pose proof (λ x Hx, perm_bit_minus _ _ _ _ x L1 L2 F1 Hx Hp) as Hm. destruct (Hm 0 (Z.le_refl 0)) as (_ & _ & L & F).
  split; [split; [by intros ?%kinds_disjoint|intros _; by eexists]|split].
  - intros [b|dr f]; [by intros (? & _); destruct (kinds_disjoint k)|]. intros (_ & Hd & Hf & x & [= <-] & Hx). do 3 (split; [done|]).
    exists x1. split; [done|]. cbn in Hx. destruct Hx as [(? & ? & Hb)|(? & Hb)]; [left|right];
      (destruct (Hm f) as (Hbf & _); [lia|]); (destruct (Hm dr) as (Hbd & _); [lia|]); split_and!; try done.
    + rewrite Hbf in Hb. by apply andb_true_iff in Hb as [? _].
    + rewrite Hbd in Hb. by apply andb_true_iff in Hb as [? _].
  - intros [b|dr f]; [by intros (? & _); destruct (kinds_disjoint k)|]. intros (_ & Hd & Hf & x & E & Hx). rewrite E1 in E. injection E as <-.
    destruct (Hm f) as (Hbf & Hrf & _); [lia|]. destruct (Hm dr) as (Hbd & Hrd & _); [lia|].
    destruct Hx as [(Sp & Dr & Hb)|(Sp & Hb)].
    + destruct (perm_bit_of (xp_perms x2) f) eqn:Ef.
      * right. do 3 (split; [done|]). exists x2. split; [done|]. left. split_and!; [congruence| |done]. rewrite <- Dr. symmetry. by apply Hdr.
      * left. rewrite Hb in Hbf. cbn in Hbf. split; [destruct ret; [by rewrite Hrf in Hbf|done]|]. do 3 (split; [done|]). eexists. split; [done|].
        by left.
    + destruct (perm_bit_of (xp_perms x2) dr) eqn:Ed.
      * right. do 3 (split; [done|]). exists x2. split; [done|]. right. split; [congruence|done].
      * left. rewrite Hb in Hbd. cbn in Hbd. split; [destruct ret; [by rewrite Hrd in Hbd|done]|]. do 3 (split; [done|]). eexists. split; [done|].
        by right.
Qed.

Lemma process_spec sp k d1 d2 :
  of_kind sp k → k ∈ av_kinds ++ xperm_kinds → datum_ok k d1 → datum_ok k d2 →
  ∃ c d1', process_avtab_datum sp d1 d2 = Some (c, d1') ∧ reduced k (says k d2) d1 c d1'.
Proof.
  intros Hsp Hk H1 H2. destruct (kind_tests sp k Hsp Hk) as (T1 & T2 & T3 & _). unfold process_avtab_datum. rewrite T1, T2, T3.
  destruct (Z.eqb_spec k AVTAB_AUDITDENY) as [->|Hne].
  { eexists _, _. split; [done|]. by apply process_deny. }
  destruct (decide (k ∈ av_kinds)) as [Hav|Hav]; [rewrite (bool_decide_eq_true_2 _ Hav)|rewrite (bool_decide_eq_false_2 _ Hav)].
  { eexists _, _. split; [done|]. by apply process_av. }
  apply elem_of_app in Hk as [?|Hx]; [done|]. rewrite bool_decide_eq_true_2 by done.
  destruct (proj2 H1 Hx) as (x1 & E1 & D1 & L1 & F1), (proj2 H2 Hx) as (x2 & E2 & D2 & L2 & F2). rewrite E1, E2. cbn [mbind option_bind].
  destruct (xperms_spec (xp_perms x1) (xp_perms x2)) as (ret & perms & Hp & _); [lia|done|].
  rewrite L1 in Hp. change 8%nat with EXTENDED_PERMS_LEN in Hp. rewrite Hp. cbn [mbind option_bind].
  assert (∃ c d1', Some (false, d1) = Some (c, d1') ∧ reduced k (says k d2) d1 c d1') as Hkeep.
  { eexists _, _. split; [done|]. by apply reduced_refl. }
  assert (∀ H : xp_specified x1 = xp_specified x2, (xp_specified x1 = AVTAB_XPERMS_IOCTLFUNCTION → xp_driver x1 = xp_driver x2) →
    ∃ c d1', Some (ret, set_perms d1 x1 perms) = Some (c, d1') ∧ reduced k (says k d2) d1 c d1') as Hred.
  { intros Hs Hd. eexists _, _. split; [done|]. by eapply process_x. }
  destruct (Z.eqb_spec (xp_specified x1) AVTAB_XPERMS_IOCTLFUNCTION) as [S1|S1].
  - destruct (Z.eqb_spec (xp_specified x2) AVTAB_XPERMS_IOCTLFUNCTION) as [S2|S2].
    + destruct (Z.eqb_spec (xp_driver x1) (xp_driver x2)) as [Ed|]; [|done]. apply Hred; [congruence|done].
    + destruct (Z.eqb_spec (xp_specified x2) AVTAB_XPERMS_IOCTLDRIVER) as [S3|]; [|done].
      rewrite xperm_test_spec by done. eexists _, _. split; [done|]. split; [done|]. split; [done|].
      intros [b|dr f]; [by intros (? & _); destruct (kinds_disjoint k)|]. intros Hs. pose proof Hs as (_ & Hd & Hf & x & E & Hxx).
      rewrite E1 in E. injection E as <-. destruct Hxx as [(_ & <- & _)|(? & _)]; [|congruence].
      destruct (perm_bit_of (xp_perms x2) (xp_driver x1)) eqn:Et; [right|by left]. do 3 (split; [done|]). exists x2. split; [done|]. by right.
  - destruct (Z.eqb_spec (xp_specified x1) AVTAB_XPERMS_IOCTLDRIVER) as [S1'|]; [|done].
    destruct (Z.eqb_spec (xp_specified x2) AVTAB_XPERMS_IOCTLFUNCTION) as [S2|S2]; [done|].
    destruct (Z.eqb_spec (xp_specified x2) AVTAB_XPERMS_IOCTLDRIVER) as [S3|]; [|done]. apply Hred; [congruence|]. by intros Hf%S1.
Qed.

(** ** Rules of a table *)

Definition kinds : list Z := av_kinds ++ xperm_kinds.

Definition spec_of (n : avtab_node) : Z := ak_specified (an_key n).

(** A rule of one kind with the data of the kind, or a rule that is never
    reduced. *)
Definition rule_ok (n : avtab_node) : Prop :=
  (∃ k, k ∈ kinds ∧ of_kind (spec_of n) k ∧ datum_ok k (an_datum n)) ∨
  nz (Z.land (spec_of n) (Z.lor AVTAB_AV AVTAB_XPERMS)) = false.

Lemma of_kind_specified sp k : of_kind sp k → k ∈ kinds → specified_of sp = k.
Proof.
  intros Hsp Hk. assert (Forall (λ k, ∀ sp, of_kind sp k → specified_of sp = k) kinds) as Hall.
  { unfold kinds. repeat constructor; intros ? [-> | ->]; reflexivity. }
  rewrite Forall_forall in Hall. by apply Hall.
Qed.

(** A rule that matches a kind is of this kind. *)
Lemma kind_match k n :
  k ∈ kinds → rule_ok n → nz (Z.land k (spec_of n)) = true → of_kind (spec_of n) k ∧ datum_ok k (an_datum n).
Proof.
  intros Hk Hn Hm.
  assert (Forall (λ k, Forall (λ k2, ∀ sp, of_kind sp k2 → nz (Z.land k sp) = true → k2 = k) kinds ∧
    Z.land k (Z.lor AVTAB_AV AVTAB_XPERMS) = k) kinds) as Hall.
  { unfold kinds. repeat constructor; intros ? [-> | ->]; by vm_compute. }
  rewrite Forall_forall in Hall. destruct (Hall k Hk) as [H1 H2]. destruct Hn as [(k2 & Hk2 & Hsp & Hd)|H0].
  - rewrite Forall_forall in H1. assert (k2 = k) as -> by by eapply H1. done.
  - exfalso. unfold nz in *. apply negb_false_iff, Z.eqb_eq in H0. apply negb_true_iff, Z.eqb_neq in Hm. apply Hm.
    rewrite <- H2, <- Z.land_assoc, (Z.land_comm _ (spec_of n)), H0. by destruct k.
Qed.

Section reduce.
Context (tab : avtab) (Htab : awf tab) (Hrules : Forall rule_ok (entries tab)).
Context (entry : avtab_key) (k : Z) (Hk : k ∈ kinds) (Hentry : of_kind (ak_specified entry) k).
Context (not_cond : bool).

Local Notation s_idx := (u32 (ak_source_type entry - 1)).
Local Notation t_idx := (u32 (ak_target_type entry - 1)).

(** A rule of the table for the types [st] and [ty] says [a]. *)
Definition rule_says (st ty : Z) (a : saying) : Prop :=
  (not_cond = true → ¬ (st = s_idx ∧ ty = t_idx)) ∧
  ∃ n, n ∈ entries tab ∧ ak_source_type (an_key n) = u16 (st + 1) ∧ ak_target_type (an_key n) = u16 (ty + 1) ∧
    ak_target_class (an_key n) = ak_target_class entry ∧ of_kind (spec_of n) k ∧ says k (an_datum n) a.

Lemma search_rule st ty :
  let key := AvtabKey (u16 (st + 1)) (u16 (ty + 1)) (ak_target_class entry) (ak_specified entry) in
  ∃ r, avtab_search tab key = Some r ∧
    ∀ d, r = Some d → datum_ok k d ∧
      ∃ n, n ∈ entries tab ∧ ak_source_type (an_key n) = u16 (st + 1) ∧ ak_target_type (an_key n) = u16 (ty + 1) ∧
        ak_target_class (an_key n) = ak_target_class entry ∧ of_kind (spec_of n) k ∧ an_datum n = d.
Proof using Htab Hrules Hk Hentry.
  intros key. rewrite avtab_search_spec by done. eexists. split; [done|]. intros d Hd.
  destruct (matching tab key) as [|n l] eqn:E; [done|]. injection Hd as <-.
  assert (n ∈ matching tab key) as Hn by (rewrite E; left). unfold matching in Hn. apply list_elem_of_filter in Hn as [Hm Hn].
  rewrite key_match_same in Hm. apply andb_true_iff in Hm as [(H1 & H2 & H3)%same_key_eq Hs]. simpl in *.
  rewrite (of_kind_specified _ _ Hentry Hk) in Hs. rewrite Forall_forall in Hrules. destruct (kind_match k n Hk (Hrules _ Hn) Hs).
  split; [done|]. exists n. by split_and!.
Qed.

Lemma reduce_targets_spec st tts d :
  datum_ok k d →
  ∃ c d', reduce_targets tab entry not_cond st tts d = Some (c, d') ∧
    reduced k (λ a, ∃ ty, ty ∈ tts ∧ rule_says st ty a) d c d'.
Proof using Htab Hrules Hk Hentry.
  revert d. induction tts as [|ty tts IH]; intros d Hd; cbn [reduce_targets].
  { eexists _, _. split; [done|]. by apply reduced_refl. }
  assert (∀ d, datum_ok k d → ∃ c d', reduce_targets tab entry not_cond st tts d = Some (c, d') ∧
    reduced k (λ a, ∃ ty', ty' ∈ ty :: tts ∧ rule_says st ty' a) d c d') as Hnext.
  { intros d1 Hd1. destruct (IH d1 Hd1) as (c & d' & -> & Hr). eexists _, _. split; [done|]. eapply reduced_weaken; [|done].
    intros a (ty' & ? & ?). exists ty'. split; [by right|done]. }
  destruct (not_cond && (s_idx =? st) && (t_idx =? ty)) eqn:Eself; [by apply Hnext|]. cbn zeta.
  destruct (search_rule st ty) as (r & -> & Hr). cbn [mbind option_bind]. destruct r as [d2|]; [|by apply Hnext].
  destruct (Hr _ eq_refl) as (Hd2 & n & Hn & S & T & C & Hsp & <-).
  destruct (process_spec _ _ d (an_datum n) Hentry Hk Hd Hd2) as (c & d' & -> & Hred). cbn [mbind option_bind].
  eapply (reduced_weaken _ _ (λ a, ∃ ty', ty' ∈ ty :: tts ∧ rule_says st ty' a)) in Hred.
  2:{ intros a Ha. exists ty. split; [left|]. split; [|exists n; by split_and!]. intros Hnc [E1 E2].
      rewrite Hnc, <- E1, <- E2, !Z.eqb_refl in Eself. done. }
  destruct c; [by eexists _, _|]. destruct (Hnext d' (proj1 Hred)) as (c & d'' & -> & Hr2). eexists _, _. split; [done|].
  by eapply reduced_trans.
Qed.

Lemma reduce_sources_spec type_map tts sts d :
  datum_ok k d → aget type_map t_idx = Some tts →
  ∃ c d', reduce_sources tab type_map entry not_cond sts d = Some (c, d') ∧
    reduced k (λ a, ∃ st ty, st ∈ sts ∧ ty ∈ tv_types tts ∧ rule_says st ty a) d c d'.
Proof using Htab Hrules Hk Hentry.
  intros Hd Ht. revert d Hd. induction sts as [|st sts IH]; intros d Hd; cbn [reduce_sources].
  { eexists _, _. split; [done|]. by apply reduced_refl. }
  rewrite Ht. cbn [mbind option_bind]. destruct (reduce_targets_spec st (tv_types tts) d Hd) as (c & d' & -> & Hred).
  cbn [mbind option_bind].
  eapply (reduced_weaken _ _ (λ a, ∃ st' ty, st' ∈ st :: sts ∧ ty ∈ tv_types tts ∧ rule_says st' ty a)) in Hred.
  2:{ intros a (ty & ? & ?). exists st, ty. split; [left|done]. }
  destruct c; [by eexists _, _|]. destruct (IH d' (proj1 Hred)) as (c & d'' & -> & Hr2). eexists _, _. split; [done|].
  eapply reduced_trans; [done|]. eapply reduced_weaken; [|done]. intros a (st' & ty & ? & ? & ?). exists st', ty. split; [by right|done].
Qed.
End reduce.
