(* ===== verification/OptimizeTable.v ===== *)
(** * Optimisation of a table

    Removing or reducing a rule whose loss another rule of the table makes up for
    does not change what the rules of the table say to a pair of types. *)

From S2P Require Import Prelude Ebitmap EbitmapFacts EbitmapIter EbitmapSpec Hashtab Avtab AvtabFacts Mls Policydb.
From S2P Require Import MlsFacts Conditional ConditionalFacts Optimize OptimizeTypes OptimizeFacts.

Section table.
Context (p : policydb) (Hp : maps_ok p) (m : list type_vec) (Hm : map_ok p m).

Local Notation nprim := (s_nprim (p_types p)).

(** ** What the rules say to a pair of types *)

(** The rule applies to the types [x] and [y] (from 0) and the class [c]. *)
Definition applies_to (x y c : Z) (n : avtab_node) : Prop :=
  ∃ i j, has_attr p x i ∧ has_attr p y j ∧ ak_source_type (an_key n) = u16 (i + 1) ∧
    ak_target_type (an_key n) = u16 (j + 1) ∧ ak_target_class (an_key n) = c.

Definition tells (L : list avtab_node) (k : Z) (a : saying) (x y c : Z) : Prop :=
  ∃ n, n ∈ L ∧ applies_to x y c n ∧ of_kind (spec_of n) k ∧ says k (an_datum n) a.

(** A rule that is reduced names types of the policy. *)
Definition named_types (n : avtab_node) : Prop :=
  nz (Z.land (spec_of n) (Z.lor AVTAB_AV AVTAB_XPERMS)) = true →
  1 ≤ ak_source_type (an_key n) ≤ nprim ∧ 1 ≤ ak_target_type (an_key n) ≤ nprim.

Definition node_ok (n : avtab_node) : Prop := rule_ok n ∧ named_types n.

(** The rule found covers the pairs of types of the rule looked up. *)
Lemma covers n n2 st ty sv tv x y c :
  plain_type p x → plain_type p y → applies_to x y c n →
  aget m (u32 (ak_source_type (an_key n) - 1)) = Some sv → aget m (u32 (ak_target_type (an_key n) - 1)) = Some tv →
  st ∈ tv_types sv → ty ∈ tv_types tv →
  ak_source_type (an_key n2) = u16 (st + 1) → ak_target_type (an_key n2) = u16 (ty + 1) →
  ak_target_class (an_key n2) = ak_target_class (an_key n) → applies_to x y c n2.
Proof using Hp Hm.
  intros Hx Hy (i & j & Hi & Hj & Es & Et & Ec) Hs Ht Hst Hty S T C.
  assert (∀ z i s v u, plain_type p z → has_attr p z i → s = u16 (i + 1) → aget m (u32 (s - 1)) = Some v → u ∈ tv_types v → has_attr p z u) as Hgo.
  { intros z i' s v u Hz Hi' -> Hv Hu. pose proof (mo_bits p Hp z i' Hi'). pose proof (mo_max p Hp).
    destruct Hi' as (e & He & Hb). assert (wf e) as We by (eapply lookup_wf; [apply (mo_wf1 p Hp)|done]).
    pose proof (wf_bit_range _ _ We Hb). assert (u16 (i' + 1) = i' + 1) as E16 by (apply Z.mod_small; lia). rewrite E16 in Hv.
    rewrite Z.add_simpl_r, u32_id in Hv by lia. unfold aget in Hv. rewrite (proj2 (Z.ltb_ge _ 0)) in Hv by lia.
    destruct (proj2 Hm _ _ Hv) as (_ & _ & Hc). rewrite Z2Nat.id in Hc by lia. apply (Hc z Hz); [by exists e|done]. }
  exists st, ty. split; [by eapply (Hgo x i)|]. split; [by eapply (Hgo y j)|]. split; [done|]. split; [done|congruence].
Qed.

(** ** Reducing a rule *)

(** What is left of a rule: [told] makes up for what is gone. *)
Definition left_of (told : Z → saying → Prop) (n : avtab_node) (c : bool) (d : avtab_datum) : Prop :=
  (∃ k, k ∈ kinds ∧ of_kind (spec_of n) k ∧ reduced k (told k) (an_datum n) c d) ∨
  (nz (Z.land (spec_of n) (Z.lor AVTAB_AV AVTAB_XPERMS)) = false ∧ c = false ∧ d = an_datum n).

Lemma aget_map i : 1 ≤ i ≤ nprim → ∃ v, aget m (u32 (i - 1)) = Some v.
Proof using Hp Hm.
  intros Hi. destruct Hm as [Hl _]. pose proof (mo_max p Hp). rewrite u32_id by lia. unfold aget. rewrite (proj2 (Z.ltb_ge _ 0)) by lia.
  apply lookup_lt_is_Some_2. lia.
Qed.

Lemma redundant_spec tab n nc :
  awf tab → Forall node_ok (entries tab) → node_ok n →
  ∃ c d, is_avrule_redundant n tab m nc = Some (c, d) ∧
    left_of (λ k a, ∃ sv tv st ty, aget m (u32 (ak_source_type (an_key n) - 1)) = Some sv ∧
      aget m (u32 (ak_target_type (an_key n) - 1)) = Some tv ∧ st ∈ tv_types sv ∧ ty ∈ tv_types tv ∧
      rule_says tab (an_key n) k nc st ty a) n c d.
Proof using Hp Hm.
  intros Ht Hr [Hok Hty]. unfold is_avrule_redundant. cbn zeta. fold (spec_of n).
  assert (Forall rule_ok (entries tab)) as Hrules by (eapply Forall_impl; [exact Hr|]; by intros ? [? _]).
  destruct Hok as [(k & Hk & Hsp & Hd)|H0]; cycle 1.
  { rewrite H0. eexists _, _. split; [done|]. right. by rewrite H0. }
  destruct (kind_tests _ _ Hsp Hk) as (_ & _ & _ & Hany). rewrite Hany. cbn [negb]. destruct (Hty Hany) as [Hs Htt].
  destruct (aget_map _ Hs) as [sv Hsv], (aget_map _ Htt) as [tv Htv]. rewrite Hsv. cbn [mbind option_bind].
  destruct (reduce_sources_spec tab Ht Hrules (an_key n) k Hk Hsp nc m tv (tv_types sv) (an_datum n) Hd Htv) as (c & d & -> & Hred).
  eexists _, _. split; [done|]. left. exists k. split; [done|]. split; [done|]. eapply reduced_weaken; [|done].
  intros a (st & ty & ? & ? & ?). by exists sv, tv, st, ty.
Qed.

(** The rule [n] between others, or what is left of it. *)
Definition replaced (n : avtab_node) (c : bool) (d : avtab_datum) : list avtab_node :=
  if c then [] else [set_datum n d].

(** If the others make up for the loss, nothing changes. *)
Lemma replaced_tells (U : list avtab_node) told l1 n l2 c d k a x y cl :
  left_of told n c d →
  (∀ k' a', of_kind (spec_of n) k' → k' ∈ kinds → applies_to x y cl n → told k' a' →
     tells (U ++ l1 ++ l2) k' a' x y cl) →
  k ∈ kinds →
  tells (U ++ l1 ++ n :: l2) k a x y cl ↔ tells (U ++ l1 ++ replaced n c d ++ l2) k a x y cl.
Proof.
  intros Hleft Htold Hk. split.
  - intros (r & Hr & Hap & Hsp & Hs).
    assert (r ∈ U ++ l1 ++ l2 ∨ r = n) as [Hin| ->] by set_solver; [exists r; set_solver|].
    destruct Hleft as [(k' & Hk' & Hsp' & _ & _ & Hred)|(H0 & -> & ->)].
    + assert (k' = k) as ->.
      { rewrite <- (of_kind_specified _ _ Hsp' Hk'). by apply of_kind_specified. }
      destruct (Hred a Hs) as [[-> Hd]|Ht]; [exists (set_datum n d); split; [set_solver|done]|].
      destruct (Htold k a Hsp' Hk' Hap Ht) as (r & Hr2 & ?). exists r. split; [set_solver|done].
    + exists (set_datum n (an_datum n)). split; [set_solver|done].
  - intros (r & Hr & Hap & Hsp & Hs).
    assert (r ∈ U ++ l1 ++ l2 ∨ r ∈ replaced n c d) as [Hin|Hin] by set_solver; [exists r; set_solver|].
    unfold replaced in Hin. destruct c; [by apply not_elem_of_nil in Hin|]. apply list_elem_of_singleton in Hin as ->.
    exists n. split; [set_solver|]. split; [exact Hap|]. split; [exact Hsp|].
    destruct Hleft as [(k' & Hk' & Hsp' & _ & Hsub & _)|(H0 & _ & ->)]; [|done].
    assert (k' = k) as ->. { rewrite <- (of_kind_specified _ _ Hsp' Hk'). by apply of_kind_specified. }
    by apply Hsub.
Qed.
(** ** The unconditional table *)

(** The keys of a chain decide whether it is well formed. *)
Lemma slot_ok_keys mask i c c' :
  (an_key <$> c') `sublist_of` (an_key <$> c) → slot_ok mask i c → slot_ok mask i c'.
Proof.
  intros Hsub [Hs Hf].
  assert (∀ l, StronglySorted node_le l ↔ StronglySorted (λ a b, key_before b a = false) (an_key <$> l)) as Hkeys.
  { induction l as [|n l IH]; [by split; constructor|]. cbn [fmap list_fmap]. split; intros [H1 H2]%StronglySorted_inv.
    - constructor; [by apply IH|]. by apply Forall_fmap.
    - constructor; [by apply IH|]. by apply Forall_fmap in H2. }
  split; [apply Hkeys; by eapply sublist_sorted, Hkeys|].
  apply (Forall_fmap an_key (λ k, key_ok k ∧ avtab_hash k mask = Z.of_nat i)).
  apply (Forall_fmap an_key (λ k, key_ok k ∧ avtab_hash k mask = Z.of_nat i)) in Hf. by eapply sublist_Forall.
Qed.

Definition with_table (tab : avtab) (t : list (list avtab_node)) (nel : Z) : avtab :=
  Avtab (Some t) nel (av_nslot tab) (av_mask tab).

Lemma replace_slot tab t i pre n next c d :
  awf tab → av_htable tab = Some t → t !! i = Some (pre ++ n :: next) →
  let t' := <[i := pre ++ replaced n c d ++ next]> t in
  awf (with_table tab t' (if c then u32 (av_nel tab - 1) else av_nel tab)).
Proof.
  intros Hw Ht Hi t'. unfold awf in *. rewrite Ht in Hw. cbn [with_table av_htable]. destruct Hw as (Hk & Hmask & Hl & Hn & Hc).
  pose proof (lookup_lt_Some _ _ _ Hi) as Hlt. split; [done|]. split; [done|]. split; [unfold t'; by rewrite length_insert|]. split.
  - cbn [av_nel]. rewrite Hn. unfold t'. rewrite (concat_slot t i _ Hi), concat_slot_insert, !length_app by done.
    unfold replaced. destruct c; simpl; [unfold u32; rewrite Zminus_mod_idemp_l; f_equal; lia|done].
  - intros j c' Hj. cbn [av_mask]. unfold t' in Hj. destruct (decide (j = i)) as [->|Hne].
    + rewrite list_lookup_insert_eq in Hj by done. injection Hj as <-. eapply slot_ok_keys; [|by apply Hc].
      rewrite !fmap_app. apply sublist_app; [done|]. unfold replaced. destruct c; cbn; [by apply sublist_cons|done].
    + rewrite list_lookup_insert_ne in Hj by done. by apply Hc.
Qed.

(** Two tables say the same to every pair of types. *)
Definition same_tells (U L L' : list avtab_node) : Prop :=
  ∀ k a x y c, k ∈ kinds → plain_type p x → plain_type p y → tells (U ++ L) k a x y c ↔ tells (U ++ L') k a x y c.

#[export] Instance same_tells_preorder U : PreOrder (same_tells U).
Proof.
  split; [by intros L k a x y c|]. intros L1 L2 L3 H12 H23 k a x y c Hk Hx Hy. by rewrite (H12 k), (H23 k).
Qed.

Lemma left_ok told n c d : node_ok n → left_of told n c d → node_ok (set_datum n d).
Proof.
  intros [Hok Hty] [(k & Hk & Hsp & Hd & _)|(H0 & _ & ->)]; (split; [|exact Hty]); [left|by right]. by exists k.
Qed.

(** The rule that makes up for the loss is another rule of the table. *)
Lemma other_rule tab l1 n l2 k a x y cl :
  entries tab = l1 ++ n :: l2 → plain_type p x → plain_type p y → applies_to x y cl n → node_ok n →
  k ∈ kinds → of_kind (spec_of n) k →
  (∃ sv tv st ty, aget m (u32 (ak_source_type (an_key n) - 1)) = Some sv ∧
     aget m (u32 (ak_target_type (an_key n) - 1)) = Some tv ∧ st ∈ tv_types sv ∧ ty ∈ tv_types tv ∧
     rule_says tab (an_key n) k true st ty a) →
  tells (l1 ++ l2) k a x y cl.
Proof using Hp Hm.
  intros He Hx Hy Hap [_ Hty] Hk Hsp (sv & tv & st & ty & Hsv & Htv & Hst & Htyin & Hself & n2 & Hn2 & S & T & C & Hsp2 & Hs).
  exists n2. split; [|split; [by eapply covers|done]]. rewrite He in Hn2.
  assert (n2 ∈ l1 ++ l2 ∨ n2 = n) as [?| ->] by set_solver; [done|]. exfalso. apply Hself; [done|].
  destruct (Hty (proj2 (proj2 (proj2 (kind_tests _ _ Hsp Hk))))) as [Rs Rt]. pose proof (mo_max p Hp).
  assert (∀ s v u, 1 ≤ s ≤ nprim → aget m (u32 (s - 1)) = Some v → u ∈ tv_types v → s = u16 (u + 1) → u = u32 (s - 1)) as Hgo.
  { intros s v u Hs' Hv Hu E. unfold aget in Hv. rewrite u32_id in Hv |- * by lia. rewrite (proj2 (Z.ltb_ge _ 0)) in Hv by lia.
    destruct (proj2 Hm _ _ Hv) as (_ & Hr & _). rewrite Forall_forall in Hr. specialize (Hr u Hu). simpl in Hr.
    rewrite E. unfold u16. rewrite Z.mod_small by lia. lia. }
  split; [by eapply (Hgo _ sv)|by eapply (Hgo _ tv)].
Qed.

Lemma optimize_chain_spec i pre rest tab t :
  awf tab → av_htable tab = Some t → t !! i = Some (pre ++ rest) → Forall node_ok (entries tab) →
  ∃ tab' t', optimize_chain m (Z.of_nat i) pre rest tab = Some tab' ∧ awf tab' ∧ av_htable tab' = Some t' ∧
    length t' = length t ∧ Forall node_ok (entries tab') ∧ same_tells [] (entries tab) (entries tab') ∧ (an_key <$> entries tab') `sublist_of` (an_key <$> entries tab).
Proof using Hp Hm.
  revert pre tab t. induction rest as [|n next IH]; intros pre tab t Hw Ht Hi Hr; cbn [optimize_chain].
  { exists tab, t. split_and!; try done. }
  assert (entries tab = (concat (take i t) ++ pre) ++ n :: next ++ concat (drop (S i) t)) as He.
  { unfold entries. rewrite Ht. cbn [default from_option id]. rewrite (concat_slot t i _ Hi). by rewrite <- !(assoc_L (++)). }
  assert (node_ok n) as Hn by (rewrite Forall_forall in Hr; apply Hr; rewrite He; set_solver).
  destruct (redundant_spec tab n true Hw Hr Hn) as (c & d & -> & Hleft). cbn [mbind option_bind]. rewrite Ht. cbn [mbind option_bind].
  pose proof (lookup_lt_Some _ _ _ Hi) as Hlt. pose proof (replace_slot tab t i pre n next c d Hw Ht Hi) as Hw'. cbn zeta in Hw'.
  set (tab1 := with_table _ _ _) in Hw'. set (t1 := <[i := pre ++ replaced n c d ++ next]> t) in *.
  assert (entries tab1 = (concat (take i t) ++ pre) ++ replaced n c d ++ next ++ concat (drop (S i) t)) as He1.
  { unfold entries, tab1, t1. cbn [with_table av_htable default from_option id]. rewrite concat_slot_insert by done. by rewrite <- !(assoc_L (++)). }
  assert (Forall node_ok (entries tab1)) as Hr1.
  { rewrite He in Hr. rewrite He1. apply Forall_app in Hr as [Hr1 [_ Hr2]%Forall_cons]. apply Forall_app. split; [done|].
    apply Forall_app. split; [|done]. unfold replaced. destruct c; [constructor|]. constructor; [|constructor]. by eapply left_ok. }
  assert (same_tells [] (entries tab) (entries tab1)) as Hsame.
  { intros k a x y cl Hk Hx Hy. rewrite He, He1. apply (replaced_tells [] _ _ _ _ _ _ _ _ _ _ _ Hleft); [|done].
    intros k' a' Hsp Hk' Hap Htold. by apply (other_rule tab (concat (take i t) ++ pre) n (next ++ concat (drop (S i) t))). }
  assert ((an_key <$> entries tab1) `sublist_of` (an_key <$> entries tab)) as Hsub.
  { rewrite He, He1, !(fmap_app _ (concat (take i t) ++ pre)). apply sublist_app; [done|]. unfold replaced. destruct c; cbn [app]; [by apply sublist_cons|done]. }
  assert (∀ pre', t1 !! i = Some (pre' ++ next) →
    ∃ tab' t', optimize_chain m (Z.of_nat i) pre' next tab1 = Some tab' ∧ awf tab' ∧ av_htable tab' = Some t' ∧
      length t' = length t ∧ Forall node_ok (entries tab') ∧ same_tells [] (entries tab) (entries tab') ∧ (an_key <$> entries tab') `sublist_of` (an_key <$> entries tab)) as Hgo.
  { intros pre' Hi'. destruct (IH pre' tab1 t1 Hw' eq_refl Hi' Hr1) as (tab' & t' & -> & ? & ? & Hl & ? & Hs & ?).
    exists tab', t'. split_and!; try done; [by rewrite Hl; unfold t1; rewrite length_insert|by etrans|by etrans]. }
  assert (t1 !! i = Some (pre ++ replaced n c d ++ next)) as Hi1 by by apply list_lookup_insert_eq.
  unfold aset. rewrite (proj2 (Z.leb_le _ _)), (proj2 (Z.ltb_lt _ _)), Nat2Z.id by lia. cbn [andb mbind option_bind].
  destruct c; cbn [mbind option_bind replaced app] in *; [by apply Hgo|]. apply Hgo. by rewrite <- (assoc_L (++)).
Qed.

Lemma optimize_slots_spec todo i tab t :
  awf tab → av_htable tab = Some t → length t = (i + todo)%nat → Forall node_ok (entries tab) →
  ∃ tab', optimize_slots m todo (Z.of_nat i) tab = Some tab' ∧ awf tab' ∧ Forall node_ok (entries tab') ∧
    same_tells [] (entries tab) (entries tab') ∧ (an_key <$> entries tab') `sublist_of` (an_key <$> entries tab).
Proof using Hp Hm.
  revert i tab t. induction todo as [|todo IH]; intros i tab t Hw Ht Hl Hr; cbn [optimize_slots]; [by exists tab|].
  rewrite Ht. cbn [mbind option_bind]. destruct (lookup_lt_is_Some_2 t i) as [c Hi]; [lia|].
  unfold aget. rewrite (proj2 (Z.ltb_ge _ 0)), Nat2Z.id, Hi by lia. cbn [mbind option_bind].
  destruct (optimize_chain_spec i [] c tab t) as (tab1 & t1 & -> & Hw1 & Ht1 & Hl1 & Hr1 & Hs1 & Hb1); [done..|]. cbn [mbind option_bind].
  replace (Z.of_nat i + 1) with (Z.of_nat (S i)) by lia.
  destruct (IH (S i) tab1 t1) as (tab2 & -> & Hw2 & Hr2 & Hs2 & Hb2); [done|done|lia|done|]. exists tab2. split_and!; try done; by etrans.
Qed.

Lemma optimize_avtab_spec tab :
  awf tab → Forall node_ok (entries tab) →
  ∃ tab', optimize_avtab tab m = Some tab' ∧ awf tab' ∧ Forall node_ok (entries tab') ∧ same_tells [] (entries tab) (entries tab') ∧
    (an_key <$> entries tab') `sublist_of` (an_key <$> entries tab).
Proof using Hp Hm.
  intros Hw Hr. unfold optimize_avtab. pose proof Hw as Hw'. unfold awf in Hw'. destruct (av_htable tab) as [t|] eqn:Ht.
  - destruct Hw' as (_ & _ & Hl & _). apply (optimize_slots_spec _ 0 tab t); [done|done|lia|done].
  - rewrite Hw'. by exists tab.
Qed.
End table.
