(* ===== verification/OptimizeCond.v ===== *)
(** * Optimisation of the conditional rules

    The rules of a conditional are reduced by the unconditional rules and by the
    rules of the same list, which are in force together; what the rules in force
    say to a pair of types does not change. *)

From S2P Require Import Prelude Ebitmap EbitmapFacts EbitmapIter EbitmapSpec Hashtab Avtab AvtabFacts Mls Policydb.
From S2P Require Import MlsFacts Conditional ConditionalFacts Optimize OptimizeTypes OptimizeFacts OptimizeTable.

(** ** Writing through a pointer *)

Definition addrs (a : avtab) : list Z := an_addr <$> entries a.

(** What stays of the nodes of a table whose data are written. *)
Definition names (a : avtab) : list (Z * avtab_key) := (λ n, (an_addr n, an_key n)) <$> entries a.

Lemma names_addrs a : addrs a = (names a).*1.
Proof. unfold names, addrs. by rewrite <- list_fmap_compose. Qed.

Lemma node_at_split a x n :
  node_at a x = Some n → NoDup (addrs a) →
  ∃ l1 l2, entries a = l1 ++ n :: l2 ∧ an_addr n = x ∧ x ∉ an_addr <$> l1 ∧ x ∉ an_addr <$> l2.
Proof.
  intros Hn Hnd. destruct (node_at_addr a x n Hn) as [Ha Hin]. apply list_elem_of_split in Hin as (l1 & l2 & E).
  exists l1, l2. split; [done|]. split; [done|]. unfold addrs in Hnd. rewrite E, fmap_app, fmap_cons, Ha in Hnd.
  apply NoDup_app in Hnd as (_ & Hd & [Hx _]%NoDup_cons). split; [|done]. intros H1. apply (Hd x H1). left.
Qed.

Lemma node_at_some a n : NoDup (addrs a) → n ∈ entries a → node_at a (an_addr n) = Some n.
Proof.
  intros Hnd Hin. assert (is_Some (node_at a (an_addr n))) as [n' Hn'].
  { unfold node_at. fold (entries a). destruct (list_find (λ n', an_addr n' = an_addr n) (entries a)) as [[i n']|] eqn:E; [by eexists|].
    apply list_find_None in E. rewrite Forall_forall in E. by destruct (E n Hin). }
  rewrite Hn'. destruct (node_at_addr _ _ _ Hn') as [Ha Hin']. f_equal.
  apply list_elem_of_lookup in Hin as (i & Hi), Hin' as (j & Hj).
  assert (i = j) as ->; [|congruence]. eapply (NoDup_lookup _ _ _ (an_addr n) Hnd); unfold addrs; rewrite list_lookup_fmap; [by rewrite Hi|].
  rewrite Hj. simpl. congruence.
Qed.

Lemma write_datum_spec a x d n l1 l2 :
  awf a → node_at a x = Some n → entries a = l1 ++ n :: l2 → an_addr n = x → x ∉ an_addr <$> l1 → x ∉ an_addr <$> l2 →
  ∃ a', write_datum a x d = Some a' ∧ entries a' = l1 ++ set_datum n d :: l2 ∧ awf a' ∧ names a' = names a.
Proof.
  intros Hw Hn He Ha H1 H2. unfold write_datum. rewrite Hn. cbn [mbind option_bind].
  destruct (av_htable a) as [t|] eqn:Ht; [|unfold entries in He; rewrite Ht in He; simpl in He; by destruct l1].
  cbn [mbind option_bind]. eexists. split; [done|]. set (g := λ n0 : avtab_node, if an_addr n0 =? x then set_datum n0 d else n0).
  assert (∀ l : list avtab_node, x ∉ an_addr <$> l → g <$> l = l) as Hid.
  { induction l as [|y l IH]; [done|]. rewrite fmap_cons. intros [Hy Hl]%not_elem_of_cons. rewrite fmap_cons, IH by done.
    f_equal. unfold g. by rewrite (proj2 (Z.eqb_neq _ _)). }
  assert (concat (fmap (M := list) (fmap (M := list) g) t) = l1 ++ set_datum n d :: l2) as Hc.
  { rewrite concat_fmap. unfold entries in He. rewrite Ht in He. simpl in He. rewrite He, fmap_app, fmap_cons, !Hid by done.
    unfold g at 1. by rewrite Ha, Z.eqb_refl. }
  assert (entries (Avtab (Some (fmap (M := list) (fmap (M := list) g) t)) (av_nel a) (av_nslot a) (av_mask a)) = l1 ++ set_datum n d :: l2) as He' by exact Hc.
  split; [done|]. split; [|unfold names; by rewrite He', He, !fmap_app].
  unfold awf in *. rewrite Ht in Hw. cbn [av_htable]. destruct Hw as (Hk & Hmk & Hl & Hnel & Hs).
  split; [done|]. split; [done|]. split; [by rewrite length_fmap|]. split; [cbn [av_nel]; by rewrite concat_fmap, length_fmap|].
  intros i c (c0 & -> & Hc0)%list_lookup_fmap_Some. eapply slot_ok_keys; [|by apply Hs].
  rewrite <- list_fmap_compose. assert (an_key ∘ g <$> c0 = an_key <$> c0) as ->; [|done].
  apply list_fmap_ext. intros j y _. unfold g. simpl. by destruct (_ =? _).
Qed.

Section cond.
Context (p : policydb) (Hp : maps_ok p) (m : list type_vec) (Hm : map_ok p m).

Local Notation nprim := (s_nprim (p_types p)).

(** ** Reducing a rule by those of its list *)

(** What the rule at [x], another than that of [k1], says where it covers it. *)
Definition listed_says (a : avtab) (l : list Z) (k1 : avtab_key) (k : Z) (say : saying) : Prop :=
  ∃ sv tv st ty x n2, aget m (u32 (ak_source_type k1 - 1)) = Some sv ∧ aget m (u32 (ak_target_type k1 - 1)) = Some tv ∧
    st ∈ tv_types sv ∧ ty ∈ tv_types tv ∧ x ∈ l ∧ node_at a x = Some n2 ∧ an_key n2 ≠ k1 ∧
    ak_source_type (an_key n2) = u16 (st + 1) ∧ ak_target_type (an_key n2) = u16 (ty + 1) ∧
    ak_target_class (an_key n2) = ak_target_class k1 ∧ of_kind (spec_of n2) k ∧ says k (an_datum n2) say.

Lemma aget_vec i v : aget m i = Some v → vec_ok v.
Proof using Hp Hm. unfold aget. destruct (_ <? _); [done|]. by apply map_vec with (p := p). Qed.

Lemma kind_self sp k : of_kind sp k → k ∈ kinds → nz (Z.land k sp) = true.
Proof.
  intros Hsp Hk. assert (Forall (λ k, ∀ sp, of_kind sp k → nz (Z.land k sp) = true) kinds) as Hall.
  { unfold kinds. repeat constructor; intros ? [-> | ->]; reflexivity. }
  rewrite Forall_forall in Hall. by apply Hall.
Qed.

Lemma reduce_cond_spec a k1 k l d :
  k ∈ kinds → of_kind (ak_specified k1) k → 1 ≤ ak_source_type k1 ≤ nprim → 1 ≤ ak_target_type k1 ≤ nprim →
  (∀ x, x ∈ l → ∃ n, node_at a x = Some n ∧ node_ok p n) → datum_ok k d →
  ∃ c d', reduce_cond a m k1 l d = Some (c, d') ∧ reduced k (listed_says a l k1 k) d c d'.
Proof using Hp Hm.
  intros Hk Hsp Hs Ht. destruct (aget_map p Hp m Hm _ Hs) as [sv Hsv], (aget_map p Hp m Hm _ Ht) as [tv Htv].
  revert d. induction l as [|x l IH]; intros d Hl Hd; cbn [reduce_cond].
  { eexists _, _. split; [done|]. by apply reduced_refl. }
  assert (∀ d, datum_ok k d → ∃ c d', reduce_cond a m k1 l d = Some (c, d') ∧ reduced k (listed_says a (x :: l) k1 k) d c d') as Hnext.
  { intros d1 Hd1. destruct (IH d1) as (c & d' & -> & Hr); [set_solver|done|]. eexists _, _. split; [done|]. eapply reduced_weaken; [|done].
    intros say (sv' & tv' & st & ty & x' & n2 & H). exists sv', tv', st, ty, x', n2. set_solver. }
  destruct (Hl x) as (n2 & Hn2 & [Hok Hty]); [left|]. rewrite Hn2. cbn [mbind option_bind]. cbn zeta.
  destruct (Z.eqb_spec (ak_specified k1) (ak_specified (an_key n2))) as [Esp|]; [|by apply Hnext].
  destruct (Z.eqb_spec (ak_target_class k1) (ak_target_class (an_key n2))) as [Ecl|]; [|by apply Hnext]. cbn [negb orb].
  destruct (_ && _) eqn:Eself; [by apply Hnext|]. rewrite Hsv, Htv. cbn [mbind option_bind].
  rewrite (type_vec_contains_spec sv) by by eapply aget_vec. cbn [mbind option_bind].
  destruct (decide (u32 (ak_source_type (an_key n2) - 1) ∈ tv_types sv)) as [Hin|Hin]; [rewrite bool_decide_eq_true_2 by done|rewrite bool_decide_eq_false_2 by done; by apply Hnext].
  cbn [negb]. rewrite (type_vec_contains_spec tv) by by eapply aget_vec. cbn [mbind option_bind].
  destruct (decide (u32 (ak_target_type (an_key n2) - 1) ∈ tv_types tv)) as [Hin'|Hin']; [rewrite bool_decide_eq_true_2 by done|rewrite bool_decide_eq_false_2 by done; by apply Hnext].
  cbn [negb]. destruct (kind_match k n2 Hk Hok) as [Hsp2 Hd2].
  { unfold spec_of. rewrite <- Esp. by apply kind_self. }
  destruct (process_spec _ _ d (an_datum n2) Hsp Hk Hd Hd2) as (c & d' & -> & Hred). cbn [mbind option_bind].
  eapply (reduced_weaken _ _ (listed_says a (x :: l) k1 k)) in Hred.
  2:{ intros say Hsay. pose proof (mo_max p Hp). destruct (Hty (proj2 (proj2 (proj2 (kind_tests _ _ Hsp2 Hk))))) as [R1 R2].
      assert (∀ s, 1 ≤ s ≤ nprim → s = u16 (u32 (s - 1) + 1)) as E by (intros s Hs'; rewrite u32_id by lia; unfold u16; rewrite Z.mod_small by lia; lia).
      eexists sv, tv, _, _, x, n2. do 4 (split; [done|]). split; [left|]. split; [done|]. split.
      { intros E1. by rewrite E1, !Z.eqb_refl in Eself. }
      split; [by apply E|]. split; [by apply E|]. done. }
  destruct c; [by eexists _, _|]. destruct (Hnext d' (proj1 Hred)) as (c & d'' & -> & Hr2). eexists _, _. split; [done|].
  by eapply reduced_trans.
Qed.

Lemma cond_redundant_spec a l n :
  node_ok p n → (∀ x, x ∈ l → ∃ n, node_at a x = Some n ∧ node_ok p n) →
  ∃ c d, is_cond_rule_redundant n a l m = Some (c, d) ∧ left_of (listed_says a l (an_key n)) n c d.
Proof using Hp Hm.
  intros [Hok Hty] Hl. unfold is_cond_rule_redundant. fold (spec_of n).
  destruct Hok as [(k & Hk & Hsp & Hd)|H0]; cycle 1.
  { rewrite H0. eexists _, _. split; [done|]. right. by rewrite H0. }
  destruct (kind_tests _ _ Hsp Hk) as (_ & _ & _ & Hany). rewrite Hany. cbn [negb]. destruct (Hty Hany) as [Hs Htt].
  destruct (reduce_cond_spec a (an_key n) k l (an_datum n) Hk Hsp Hs Htt Hl Hd) as (c & d & -> & Hred).
  eexists _, _. split; [done|]. left. by exists k.
Qed.

(** ** The rules of one list *)

Local Notation U := (entries (te_avtab p)).

Context (Hte : awf (te_avtab p)) (Hu : Forall (node_ok p) (entries (te_avtab p))).

(** The types a rule names are in the array of types. *)
Definition has_structs (n : avtab_node) : Prop :=
  is_Some (aget (type_val_to_struct p) (u32 (ak_source_type (an_key n) - 1)) ≫= id) ∧
  is_Some (aget (type_val_to_struct p) (u32 (ak_target_type (an_key n) - 1)) ≫= id).

Record cond_table_ok (a : avtab) : Prop := {
  ct_awf : awf a;
  ct_addrs : NoDup (addrs a);
  ct_nodes : Forall (node_ok p) (entries a);
  ct_structs : Forall has_structs (entries a)
}.

(** The rules in force, those not deleted of which [F] holds. *)
Definition live (F : Z → bool) (del : list Z) (a : avtab) : list avtab_node :=
  filter (λ n, F (an_addr n) = true ∧ an_addr n ∉ del) (entries a).

(** The rules of a list are in force together. *)
Definition uniform (F : Z → bool) (l : list Z) : Prop := ∃ b, ∀ x, x ∈ l → F x = b.

Lemma filter_del F x del (l : list avtab_node) :
  x ∉ an_addr <$> l →
  filter (λ n, F (an_addr n) = true ∧ an_addr n ∉ x :: del) l = filter (λ n, F (an_addr n) = true ∧ an_addr n ∉ del) l.
Proof.
  induction l as [|n l IH]; [done|]. rewrite fmap_cons. intros [Hx Hl]%not_elem_of_cons. rewrite !filter_cons, IH by done.
  repeat destruct (decide _); try done; exfalso; set_solver.
Qed.

(** One write to the datum of a rule, which is then kept or deleted. *)
Lemma write_step a x n told c d del :
  cond_table_ok a → node_at a x = Some n → x ∉ del → left_of told n c d →
  ∃ a', write_datum a x d = Some a' ∧ cond_table_ok a' ∧ names a' = names a ∧ node_at a' x = Some (set_datum n d) ∧
    ∀ F, (∀ k say x' y' cl, F x = true → plain_type p x' → plain_type p y' → of_kind (spec_of n) k → k ∈ kinds →
            applies_to p x' y' cl n → told k say →
            ∃ n2, n2 ∈ U ++ live F del a ∧ (n2 ∈ U ∨ an_addr n2 ≠ x) ∧ applies_to p x' y' cl n2 ∧ of_kind (spec_of n2) k ∧
              says k (an_datum n2) say) →
      same_tells p U (live F del a) (live F (if c then x :: del else del) a').
Proof.
  intros Ha Hn Hx Hleft. destruct (node_at_split a x n Hn (ct_addrs a Ha)) as (l1 & l2 & He & Hnx & H1 & H2).
  destruct (write_datum_spec a x d n l1 l2 (ct_awf a Ha) Hn He Hnx H1 H2) as (a' & -> & He' & Hw & Hnm). exists a'. split; [done|].
  assert (addrs a' = addrs a) as Had by by rewrite !names_addrs, Hnm.
  pose proof (ct_nodes a Ha) as Hno. pose proof (ct_structs a Ha) as Hst. rewrite He in Hno, Hst.
  apply Forall_app in Hno as [N1 [Nn N2]%Forall_cons], Hst as [S1 [Sn S2]%Forall_cons].
  assert (cond_table_ok a') as Ha'.
  { split; [done|rewrite Had; apply Ha| |]; rewrite He'; apply Forall_app; (split; [done|]); constructor; try done. by eapply left_ok. }
  split; [done|]. split; [done|]. split.
  { rewrite <- Hnx. apply (node_at_some a' (set_datum n d)); [apply Ha'|]. rewrite He'. set_solver. }
  intros F Htold k say x' y' cl Hk Hx' Hy'. unfold live. rewrite He, He', !filter_app, !filter_cons. cbn [set_datum an_addr]. rewrite Hnx.
  set (L1 := filter _ l1). set (L2 := filter _ l2).
  destruct (F x) eqn:EF.
  - rewrite (decide_True (P := true = true ∧ x ∉ del)) by done.
    assert (∀ k' say', of_kind (spec_of n) k' → k' ∈ kinds → applies_to p x' y' cl n → told k' say' →
      tells p (U ++ L1 ++ L2) k' say' x' y' cl) as Hmade.
    { intros k' say' Hsp Hk' Hap Ht. destruct (Htold k' say' x' y' cl eq_refl Hx' Hy' Hsp Hk' Hap Ht) as (n2 & Hin & Hne & Hr).
      exists n2. split; [|done]. apply elem_of_app in Hin as [Hin|Hin]; [by apply elem_of_app; left|].
      destruct Hne as [Hin2|Hne]; [by apply elem_of_app; left|]. apply elem_of_app. right. unfold live in Hin.
      rewrite He, filter_app, filter_cons, Hnx, EF, decide_True in Hin by done. fold L1 L2 in Hin. apply elem_of_app in Hin as [Hin|[->|Hin]%elem_of_cons]; [set_solver|done|set_solver]. }
    rewrite (replaced_tells p Hp m Hm U told L1 n L2 c d k say x' y' cl Hleft Hmade Hk). destruct c; cbn [replaced app].
    + rewrite decide_False by set_solver. by rewrite !filter_del.
    + by rewrite decide_True by done.
  - rewrite decide_False by naive_solver. rewrite decide_False by naive_solver. destruct c; [by rewrite !filter_del|done].
Qed.

Lemma node_in a x :
  cond_table_ok a → x ∈ addrs a → ∃ n, node_at a x = Some n ∧ an_addr n = x ∧ n ∈ entries a ∧ node_ok p n ∧ has_structs n.
Proof using.
  intros Ha (n & -> & Hn)%list_elem_of_fmap. exists n. split; [by apply node_at_some; [apply Ha|]|].
  destruct Ha as [_ _ H1 H2]. rewrite Forall_forall in H1, H2. split; [done|]. split; [done|]. split; [by apply H1|by apply H2].
Qed.

Lemma separate_spec a l pcov :
  cond_table_ok a → (∀ x, x ∈ l → x ∈ addrs a) →
  ∃ keep pcov', separate p a l pcov = Some (keep, pcov') ∧ keep ++ pcov' ≡ₚ l ++ pcov.
Proof using Hp Hm Hte Hu.
  intros Ha. revert pcov. induction l as [|x l IH]; intros pcov Hl; cbn [separate]; [by exists [], pcov|].
  destruct (node_in a x Ha) as (n & -> & _ & _ & _ & [ds Hs] & [dt Ht]); [set_solver|]. cbn [mbind option_bind].
  unfold is_avrule_with_attr, is_type_attr. rewrite Hs, Ht. cbn [mbind option_bind].
  destruct (IH (x :: pcov)) as (k1 & v1 & E1 & P1); [set_solver|]. destruct (IH pcov) as (k2 & v2 & E2 & P2); [set_solver|].
  assert (∃ keep pcov', separate p a l (x :: pcov) = Some (keep, pcov') ∧ keep ++ pcov' ≡ₚ (x :: l) ++ pcov) as Hattr.
  { exists k1, v1. split; [done|]. rewrite P1. by rewrite <- Permutation_middle. }
  destruct (td_flavor ds =? _); cbn [mbind option_bind]; [done|]. destruct (td_flavor dt =? _); [done|]. rewrite E2. cbn [mbind option_bind].
  exists (x :: k2), v2. split; [done|]. cbn [app]. by rewrite P2.
Qed.

(** What the loops give: the rules left, a table with the same names, and the
    rules that went to the list of the deleted ones. *)
Definition outcome (before : list Z) (a : avtab) (del : list Z) (r : option (list Z * avtab * list Z)) : Prop :=
  ∃ l a' gone, r = Some (l, a', gone ++ del) ∧ l ++ gone ≡ₚ before ∧ cond_table_ok a' ∧ names a' = names a ∧
    ∀ F, uniform F before → same_tells p U (live F del a) (live F (gone ++ del) a').

(** One iteration: the rule at [x], reduced by the unconditional rules and then
    by the rules of [cov]. *)
Definition reduce_rule (x : Z) (cov : list Z) (a : avtab) : option (bool * avtab) :=
  e ← node_at a x;
  '(redundant, d) ← is_avrule_redundant e (te_avtab p) m false;
  a ← write_datum a x d;
  if (redundant : bool) then Some (true, a)
  else
    e ← node_at a x;
    '(redundant, d) ← is_cond_rule_redundant e a cov m;
    a ← write_datum a x d;
    Some (redundant, a).

Lemma by_unconditional n k say x y cl :
  plain_type p x → plain_type p y → applies_to p x y cl n →
  (∃ sv tv st ty, aget m (u32 (ak_source_type (an_key n) - 1)) = Some sv ∧
     aget m (u32 (ak_target_type (an_key n) - 1)) = Some tv ∧ st ∈ tv_types sv ∧ ty ∈ tv_types tv ∧
     rule_says (te_avtab p) (an_key n) k false st ty say) →
  ∃ n2, n2 ∈ U ∧ applies_to p x y cl n2 ∧ of_kind (spec_of n2) k ∧ says k (an_datum n2) say.
Proof using Hp Hm.
  intros Hx Hy Hap (sv & tv & st & ty & Hsv & Htv & Hst & Hty & _ & n2 & Hn2 & S & T & C & Hsp2 & Hs).
  exists n2. split; [done|]. split; [by eapply covers|done].
Qed.

Lemma reduce_rule_spec x cov a del :
  cond_table_ok a → x ∈ addrs a → x ∉ del → (∀ y, y ∈ cov → y ∈ addrs a ∧ y ∉ del) →
  ∃ c a', reduce_rule x cov a = Some (c, a') ∧ cond_table_ok a' ∧ names a' = names a ∧
    ∀ F, (F x = true → ∀ y, y ∈ cov → F y = true) →
      same_tells p U (live F del a) (live F (if c then x :: del else del) a').
Proof using Hp Hm Hte Hu.
  intros Ha Hx Hxd Hcov. unfold reduce_rule. destruct (node_in a x Ha Hx) as (n & Hn & Hnx & Hin & Hok & _). rewrite Hn. cbn [mbind option_bind].
  destruct (redundant_spec p Hp m Hm (te_avtab p) n false Hte Hu Hok) as (c & d & -> & Hleft). cbn [mbind option_bind].
  destruct (write_step a x n _ c d del Ha Hn Hxd Hleft) as (a1 & -> & Ha1 & Hn1 & Hx1 & Hs1). cbn [mbind option_bind].
  assert (∀ F, same_tells p U (live F del a) (live F (if c then x :: del else del) a1)) as Hs1'.
  { intros F. apply Hs1. intros k say x' y' cl _ Hx' Hy' _ _ Hap Ht. destruct (by_unconditional n k say x' y' cl Hx' Hy' Hap Ht) as (n2 & ? & ?).
    exists n2. split; [by apply elem_of_app; left|]. by split; [left|]. }
  destruct c; [by exists true, a1|]. rewrite Hx1. cbn [mbind option_bind].
  assert (addrs a1 = addrs a) as Had by by rewrite !names_addrs, Hn1.
  destruct (cond_redundant_spec a1 cov (set_datum n d)) as (c2 & d2 & -> & Hleft2); [by eapply left_ok| |].
  { intros y Hy. destruct (node_in a1 y Ha1) as (n2 & ? & _ & _ & ? & _); [rewrite Had; by apply Hcov|by exists n2]. }
  cbn [mbind option_bind].
  destruct (write_step a1 x _ _ c2 d2 del Ha1 Hx1 Hxd Hleft2) as (a2 & -> & Ha2 & Hn2 & _ & Hs2). cbn [mbind option_bind].
  exists c2, a2. split; [done|]. split; [done|]. split; [congruence|]. intros F HF. etrans; [apply Hs1'|]. apply Hs2.
  intros k say x' y' cl HFx Hx' Hy' Hsp Hk Hap (sv & tv & st & ty & x2 & r & Hsv & Htv & Hst & Hty & Hx2 & Hr & Hne & S & T & C & Hsp2 & Hsay).
  destruct (node_at_addr _ _ _ Hr) as [Hax Hrin]. exists r. split; [|split; [right|]].
  - apply elem_of_app. right. apply list_elem_of_filter. split; [|done]. rewrite Hax. split; [by apply HF|by apply Hcov].
  - rewrite Hax. intros ->. rewrite Hx1 in Hr. injection Hr as <-. done.
  - split; [|done]. by eapply (covers p Hp m Hm (set_datum n d)).
Qed.

Lemma cond_list_loop_step pcov reached kept0 kept1 x next a del :
  let reached' := reached || match pcov with y :: _ => x =? y | [] => false end in
  cond_list_loop p m pcov reached kept0 kept1 (x :: next) a del =
  ('(c, a) ← reduce_rule x (if reached' then kept1 ++ x :: next else pcov) a;
   if (c : bool) then cond_list_loop p m pcov reached' kept0 kept1 next a (x :: del)
   else if reached' then cond_list_loop p m pcov reached' kept0 (kept1 ++ [x]) next a del
   else cond_list_loop p m pcov reached' (kept0 ++ [x]) kept1 next a del).
Proof using.
  cbn zeta. cbn [cond_list_loop]. unfold reduce_rule.
  destruct (node_at a x) as [e|]; [|done]. cbn [mbind option_bind].
  destruct (is_avrule_redundant e _ _ _) as [[c d]|]; [|done]. cbn [mbind option_bind].
  destruct (write_datum a x d) as [a1|]; [|done]. cbn [mbind option_bind]. destruct c; [done|].
  destruct (node_at a1 x) as [e1|]; [|done]. cbn [mbind option_bind].
  destruct (is_cond_rule_redundant e1 _ _ _) as [[c1 d1]|]; [|done]. cbn [mbind option_bind].
  by destruct (write_datum a1 x d1) as [a2|].
Qed.

Lemma uniform_perm F l l' : l ≡ₚ l' → uniform F l → uniform F l'.
Proof using. intros HP [b Hb]. exists b. intros x Hx. apply Hb. by rewrite HP. Qed.

Lemma uniform_sub F l l' : (∀ x, x ∈ l' → x ∈ l) → uniform F l → uniform F l'.
Proof using. intros Hs [b Hb]. exists b. auto. Qed.

(** The rest of a loop whose first step took [x] away. *)
Lemma outcome_gone x before a a1 del r :
  outcome before a1 (x :: del) r → names a1 = names a →
  (∀ F, uniform F (x :: before) → same_tells p U (live F del a) (live F (x :: del) a1)) → outcome (x :: before) a del r.
Proof using.
  intros (l & a' & gone & -> & HP & Ha' & Hn & Hs) Hn1 Hs1. exists l, a', (gone ++ [x]).
  split; [by rewrite <- (assoc_L (++))|]. split; [rewrite (assoc_L (++)), HP; by rewrite Permutation_app_comm|].
  split; [done|]. split; [congruence|]. intros F HF. etrans; [by apply Hs1|]. rewrite <- (assoc_L (++)). apply Hs.
  eapply uniform_sub; [|exact HF]. intros y. by right.
Qed.

Lemma outcome_kept before before' a a1 del r :
  outcome before' a1 del r → before' ≡ₚ before → names a1 = names a →
  (∀ F, uniform F before → same_tells p U (live F del a) (live F del a1)) → outcome before a del r.
Proof using.
  intros (l & a' & gone & -> & HP & Ha' & Hn & Hs) Hb Hn1 Hs1. exists l, a', gone.
  split; [done|]. split; [by rewrite HP|]. split; [done|]. split; [congruence|]. intros F HF. etrans; [by apply Hs1|]. apply Hs.
  by apply (uniform_perm F before); [symmetry|].
Qed.

Lemma cond_list_loop_spec pcov reached kept0 kept1 rest a del :
  cond_table_ok a → (∀ x, x ∈ kept0 ++ kept1 ++ rest → x ∈ addrs a ∧ x ∉ del) → NoDup (kept0 ++ kept1 ++ rest) →
  (reached = false → ∃ pre, rest = pre ++ pcov) →
  outcome (kept0 ++ kept1 ++ rest) a del (cond_list_loop p m pcov reached kept0 kept1 rest a del).
Proof using Hp Hm Hte Hu.
  revert reached kept0 kept1 a del. induction rest as [|x next IH]; intros reached kept0 kept1 a del Ha Hin Hnd Hpre.
  { exists (kept0 ++ kept1), a, []. cbn [cond_list_loop app]. rewrite !app_nil_r. do 4 (split; [done|]). done. }
  rewrite cond_list_loop_step. cbn zeta. set (reached' := reached || _).
  set (cov := if reached' then kept1 ++ x :: next else pcov).
  assert (∀ y, y ∈ cov → y ∈ kept0 ++ kept1 ++ x :: next) as Hcov.
  { intros y Hy. unfold cov in Hy. destruct reached' eqn:E; [set_solver|]. unfold reached' in E. apply orb_false_iff in E as [-> _].
    destruct (Hpre eq_refl) as [pre Er]. rewrite Er. set_solver. }
  assert (reached' = false → ∃ pre, next = pre ++ pcov) as Hpre'.
  { unfold reached'. intros [-> E]%orb_false_iff. destruct (Hpre eq_refl) as [[|z pre] Er]; cbn [app] in Er.
    - rewrite <- Er in E. by rewrite Z.eqb_refl in E.
    - injection Er as _ ->. by exists pre. }
  destruct (Hin x) as [Hx Hxd]; [set_solver|].
  destruct (reduce_rule_spec x cov a del Ha Hx Hxd) as (c & a1 & -> & Ha1 & Hn1 & Hs); [intros y Hy; apply Hin; by apply Hcov|]. cbn [mbind option_bind].
  assert (addrs a1 = addrs a) as Had by by rewrite !names_addrs, Hn1.
  assert (∀ F, uniform F (kept0 ++ kept1 ++ x :: next) → same_tells p U (live F del a) (live F (if c then x :: del else del) a1)) as Hs'.
  { intros F [b Hb]. apply Hs. intros HFx y Hy. rewrite (Hb y) by by apply Hcov. rewrite <- HFx. symmetry. apply Hb. set_solver. }
  assert (kept0 ++ kept1 ++ x :: next ≡ₚ x :: kept0 ++ kept1 ++ next) as HP by by rewrite !Permutation_middle.
  rewrite HP in Hnd. apply NoDup_cons in Hnd as [Hxn Hnd].
  assert (∀ y, y ∈ kept0 ++ kept1 ++ next → y ∈ addrs a1 ∧ y ∉ del) as Hin1 by (intros y Hy; rewrite Had; apply Hin; rewrite HP; by right).
  destruct c.
  - eapply (outcome_kept _ (x :: kept0 ++ kept1 ++ next) a a); [|by rewrite HP|done|done].
    eapply outcome_gone; [apply IH; [done| |done|done]|done|].
    + intros y Hy. destruct (Hin1 y Hy) as [? ?]. split; [done|]. intros [->|?]%elem_of_cons; done.
    + intros F HF. apply Hs'. by eapply uniform_perm; [symmetry|].
  - destruct reached'; (eapply outcome_kept; [apply IH; [done| | |done]| |done|done]).
    + intros y Hy. rewrite Had. apply Hin. set_solver.
    + rewrite <- (assoc_L (++)). cbn [app]. rewrite HP. by apply NoDup_cons.
    + by rewrite <- (assoc_L (++)).
    + intros y Hy. rewrite Had. apply Hin. set_solver.
    + rewrite <- (assoc_L (++)). cbn [app]. rewrite <- (Permutation_middle kept0). by apply NoDup_cons.
    + rewrite <- (assoc_L (++)). cbn [app]. by rewrite HP, <- (Permutation_middle kept0).
Qed.

Lemma optimize_cond_av_list_spec l a del :
  cond_table_ok a → (∀ x, x ∈ l → x ∈ addrs a ∧ x ∉ del) → NoDup l →
  outcome l a del (optimize_cond_av_list p m l a del).
Proof using Hp Hm Hte Hu.
  intros Ha Hl Hnd. unfold optimize_cond_av_list. destruct (separate_spec a l [] Ha) as (keep & pcov & -> & HP); [intros x Hx; by apply Hl|].
  cbn [mbind option_bind]. rewrite app_nil_r in HP.
  eapply outcome_kept; [apply cond_list_loop_spec; [done| | |]|done|done|done]; cbn [app].
  - intros x Hx. apply Hl. by rewrite <- HP.
  - by rewrite HP.
  - intros _. by exists keep.
Qed.

(** ** All conditionals *)

Definition all_rules (l : list cond_node) : list Z := concat (rules <$> l).

Definition lists_uniform (F : Z → bool) (l : list cond_node) : Prop :=
  Forall (λ c, uniform F (cn_true c) ∧ uniform F (cn_false c)) l.

(** A conditional of the result is one of the policy, with some of its rules. *)
Definition shrunk (c c' : cond_node) : Prop :=
  ∃ tl fl, c' = set_rules c (cn_cur_state c) tl fl ∧ (∀ x, x ∈ tl → x ∈ cn_true c) ∧ (∀ x, x ∈ fl → x ∈ cn_false c).

Lemma optimize_conds_spec l a del :
  cond_table_ok a → (∀ x, x ∈ all_rules l → x ∈ addrs a ∧ x ∉ del) → NoDup (all_rules l) →
  ∃ l' a' gone, optimize_conds p m l a del = Some (l', a', gone ++ del) ∧ all_rules l' ++ gone ≡ₚ all_rules l ∧
    cond_table_ok a' ∧ names a' = names a ∧ (∀ c', c' ∈ l' → ∃ c, c ∈ l ∧ shrunk c c') ∧
    ∀ F, lists_uniform F l → same_tells p U (live F del a) (live F (gone ++ del) a').
Proof using Hp Hm Hte Hu.
  revert a del. induction l as [|c l IH]; intros a del Ha Hin Hnd; cbn [optimize_conds].
  { exists [], a, []. do 4 (split; [done|]). split; [by intros ? ?%not_elem_of_nil|done]. }
  change (all_rules (c :: l)) with (rules c ++ all_rules l) in *. unfold rules in *. rewrite <- (assoc_L (++)) in *.
  apply NoDup_app in Hnd as (Nt & Dt & (Nf & Df & Nl)%NoDup_app).
  destruct (optimize_cond_av_list_spec (cn_true c) a del Ha) as (tl & a1 & g1 & -> & P1 & Ha1 & E1 & S1); [intros x Hx; apply Hin; set_solver|done|].
  cbn [mbind option_bind]. assert (addrs a1 = addrs a) as A1 by by rewrite !names_addrs, E1.
  assert (∀ x, x ∈ g1 → x ∈ cn_true c) as G1 by (intros x Hx; rewrite <- P1; set_solver).
  destruct (optimize_cond_av_list_spec (cn_false c) a1 (g1 ++ del) Ha1) as (fl & a2 & g2 & -> & P2 & Ha2 & E2 & S2); [|done|].
  { intros x Hx. destruct (Hin x) as [Hxa Hxd]; [set_solver|]. rewrite A1. split; [done|]. intros [Hg|?]%elem_of_app; [|done].
    apply (Dt x (G1 x Hg)). set_solver. }
  cbn [mbind option_bind]. assert (addrs a2 = addrs a) as A2 by by rewrite names_addrs, E2, <- names_addrs.
  assert (∀ x, x ∈ g2 → x ∈ cn_false c) as G2 by (intros x Hx; rewrite <- P2; set_solver).
  destruct (IH a2 (g2 ++ g1 ++ del) Ha2) as (l' & a' & g3 & -> & P3 & Ha' & E3 & C3 & S3); [|done|].
  { intros x Hx. destruct (Hin x) as [Hxa Hxd]; [set_solver|]. rewrite A2. split; [done|]. intros [Hg|[Hg|?]%elem_of_app]%elem_of_app; [| |done].
    - apply (Df x (G2 x Hg) Hx).
    - apply (Dt x (G1 x Hg)). set_solver. }
  cbn [mbind option_bind]. eexists _, a', (g3 ++ g2 ++ g1). split; [by rewrite <- !(assoc_L (++))|]. split.
  { assert (all_rules (match tl, fl with [], [] => l' | _, _ => set_rules c (cn_cur_state c) tl fl :: l' end) = tl ++ fl ++ all_rules l') as ->.
    { destruct tl, fl; [done|..]; unfold all_rules; cbn; unfold rules; cbn; by rewrite <- ?(assoc_L (++)). }
    rewrite <- P1, <- P2, <- P3. solve_Permutation. }
  split; [done|]. split; [congruence|]. split.
  - intros c' Hc'. assert (c' = set_rules c (cn_cur_state c) tl fl ∨ c' ∈ l') as [->|Hl] by (destruct tl, fl; set_solver).
    + exists c. split; [left|]. exists tl, fl. split; [done|]. split; intros x Hx; [rewrite <- P1|rewrite <- P2]; set_solver.
    + destruct (C3 c' Hl) as (c0 & ? & ?). exists c0. split; [by right|done].
  - intros F [[HF1 HF2] HF]%Forall_cons. rewrite <- !(assoc_L (++)). etrans; [by apply S1|]. etrans; [by apply S2|]. by apply S3.
Qed.
End cond.

(** ** Removing the deleted rules *)

Lemma take_deleted_spec x del :
  NoDup del →
  match take_deleted x del with
  | Some del' => x ∈ del ∧ NoDup del' ∧ ∀ y, y ∈ del' ↔ y ∈ del ∧ y ≠ x
  | None => x ∉ del
  end.
Proof.
  induction del as [|z del IH]; cbn [take_deleted]; [intros _; by intros ?%not_elem_of_nil|]. intros [Hz Hnd]%NoDup_cons.
  destruct (Z.eqb_spec z x) as [->|Hne].
  - split; [left|]. split; [done|]. intros y. set_solver.
  - specialize (IH Hnd). destruct (take_deleted x del) as [del'|]; cbn.
    + destruct IH as (Hx & Hnd' & Hy). split; [by right|]. split; [constructor; [rewrite Hy; naive_solver|done]|]. set_solver.
    + set_solver.
Qed.

Local Notation undeleted del := (filter (λ n : avtab_node, an_addr n ∉ del)).

Lemma filter_undeleted (del del' : list Z) (l : list avtab_node) :
  (∀ n, n ∈ l → an_addr n ∈ del ↔ an_addr n ∈ del') → undeleted del l = undeleted del' l.
Proof.
  induction l as [|n l IH]; intros Hl; [done|]. rewrite !filter_cons, IH by set_solver.
  pose proof (Hl n ltac:(left)). repeat destruct (decide _); naive_solver.
Qed.

(** What a part of the sweep leaves. *)
Definition swept (l l' : list avtab_node) (nel nel' : Z) (del del' : list Z) : Prop :=
  l' = undeleted del l ∧ nel' = u32 (nel - (Z.of_nat (length l) - Z.of_nat (length l'))) ∧ NoDup del' ∧
  ∀ y, y ∈ del' ↔ y ∈ del ∧ y ∉ an_addr <$> l.

Lemma sweep_chain_spec cur nel del :
  NoDup (an_addr <$> cur) → NoDup del → u32 nel = nel →
  let '(cur', nel', del') := sweep_chain cur nel del in swept cur cur' nel nel' del del'.
Proof.
  revert nel del. induction cur as [|n cur IH]; intros nel del Hn Hd Hnel; cbn [sweep_chain].
  { split; [done|]. split; [by rewrite Z.sub_diag, Z.sub_0_r|]. split; [done|]. set_solver. }
  rewrite fmap_cons in Hn. apply NoDup_cons in Hn as [Hn Hcur]. pose proof (take_deleted_spec (an_addr n) del Hd) as Ht.
  destruct (take_deleted (an_addr n) del) as [del1|].
  - destruct Ht as (Hin & Hd1 & Hy). assert (u32 (u32 (nel - 1)) = u32 (nel - 1)) as E by (unfold u32; by rewrite Zmod_mod).
    specialize (IH (u32 (nel - 1)) del1 Hcur Hd1 E). destruct (sweep_chain cur _ del1) as [[cur' nel'] del'].
    destruct IH as (-> & -> & Hd' & Hy'). split; [|split; [|split; [done|]]].
    + rewrite filter_cons, decide_False by naive_solver. apply filter_undeleted. intros n' Hn'. rewrite Hy. split; [naive_solver|].
      intros H. split; [done|]. intros E'. apply Hn. rewrite <- E'. by apply list_elem_of_fmap_2.
    + unfold u32. rewrite Zminus_mod_idemp_l. f_equal. cbn [length]. lia.
    + intros y. rewrite Hy', Hy, fmap_cons. set_solver.
  - specialize (IH nel del Hcur Hd Hnel). destruct (sweep_chain cur nel del) as [[cur' nel'] del'].
    destruct IH as (-> & -> & Hd' & Hy'). split; [by rewrite filter_cons, decide_True|].
    split; [f_equal; cbn [length]; lia|]. split; [done|]. intros y. rewrite Hy', fmap_cons. set_solver.
Qed.

Lemma swept_app l1 l1' l2 l2' nel nel1 nel2 del del1 del2 :
  NoDup (an_addr <$> l1 ++ l2) → swept l1 l1' nel nel1 del del1 → swept l2 l2' nel1 nel2 del1 del2 →
  swept (l1 ++ l2) (l1' ++ l2') nel nel2 del del2.
Proof.
  rewrite fmap_app. intros (_ & Hdis & _)%NoDup_app (-> & -> & Hd1 & Hy1) (-> & -> & Hd2 & Hy2). split; [|split; [|split; [done|]]].
  - rewrite filter_app. f_equal. apply filter_undeleted. intros n Hn. rewrite Hy1. split; [naive_solver|]. intros H. split; [done|].
    intros H1. apply (Hdis _ H1). by apply list_elem_of_fmap_2.
  - unfold u32. rewrite Zminus_mod_idemp_l, !length_app. f_equal. lia.
  - intros y. rewrite Hy2, Hy1, fmap_app. set_solver.
Qed.

Lemma sweep_slots_spec t nel del :
  NoDup (an_addr <$> concat t) → NoDup del → u32 nel = nel →
  let '(t', nel', del') := sweep_slots t nel del in
  swept (concat t) (concat t') nel nel' del del' ∧ Forall2 (λ c c', c' `sublist_of` c) t t'.
Proof.
  revert nel del. induction t as [|c t IH]; intros nel del Hn Hd Hnel; cbn [sweep_slots concat] in *.
  { split; [|constructor]. split; [done|]. split; [by rewrite Z.sub_diag, Z.sub_0_r|]. split; [done|]. set_solver. }
  pose proof Hn as Hn'. rewrite fmap_app in Hn'. apply NoDup_app in Hn' as (Hc & _ & Ht).
  pose proof (sweep_chain_spec c nel del Hc Hd Hnel) as H1. destruct (sweep_chain c nel del) as [[c' nel1] del1].
  assert (u32 nel1 = nel1) as E by (destruct H1 as (_ & -> & _); unfold u32; by rewrite Zmod_mod).
  pose proof (IH nel1 del1 Ht (proj1 (proj2 (proj2 H1))) E) as H2. destruct (sweep_slots t nel1 del1) as [[t' nel2] del2].
  destruct H2 as [H2 Hf]. split; [by eapply swept_app|]. constructor; [|done]. destruct H1 as (-> & _). apply sublist_filter.
Qed.

(** The table after the sweep. *)
Definition swept_table (a : avtab) (del : list Z) (a' : avtab) : Prop :=
  entries a' = undeleted del (entries a) ∧ (awf a → awf a').

Lemma sweep_table a t del :
  awf a → av_htable a = Some t → NoDup (addrs a) → NoDup del →
  let '(t', nel, _) := sweep_slots t (av_nel a) del in swept_table a del (Avtab (Some t') nel (av_nslot a) (av_mask a)).
Proof.
  intros Hw Ht Hnd Hd. unfold addrs, entries in Hnd. rewrite Ht in Hnd. cbn in Hnd.
  unfold awf in Hw. rewrite Ht in Hw. destruct Hw as (Hk & Hmk & Hl & Hnel & Hs).
  assert (u32 (av_nel a) = av_nel a) as E by (rewrite Hnel; unfold u32; by rewrite Zmod_mod).
  pose proof (sweep_slots_spec t (av_nel a) del Hnd Hd E) as H. destruct (sweep_slots t (av_nel a) del) as [[t' nel] del'].
  destruct H as ((He & Hn & _) & Hf). split; [unfold entries; by rewrite Ht|]. intros _. unfold awf. cbn [av_htable].
  split; [done|]. split; [done|]. split; [by rewrite <- (Forall2_length _ _ _ Hf)|]. split.
  - cbn [av_nel]. rewrite Hn, Hnel. unfold u32. rewrite Zminus_mod_idemp_l. f_equal. lia.
  - intros i c' Hc'. destruct (Forall2_lookup_r _ _ _ _ _ Hf Hc') as (c & Hc & Hsub). cbn [av_mask].
    eapply slot_ok_keys; [|by apply Hs]. by apply fmap_sublist.
Qed.

Section cond_avtab.
Context (p : policydb) (Hp : maps_ok p) (m : list type_vec) (Hm : map_ok p m).
Context (Hte : awf (te_avtab p)) (Hu : Forall (node_ok p) (entries (te_avtab p))).

Lemma undeleted_ok a del a' :
  cond_table_ok p a → swept_table a del a' →
  cond_table_ok p a' ∧ names a' `sublist_of` names a ∧ ∀ F, live F del a = live F [] a'.
Proof using.
  intros [H1 H2 H3 H4] [He Hw]. assert (entries a' `sublist_of` entries a) as Hsub by (rewrite He; apply sublist_filter).
  assert (names a' `sublist_of` names a) as Hn by by apply fmap_sublist.
  split; [split|split; [done|]].
  - by apply Hw.
  - eapply sublist_NoDup; [exact H2|]. by apply fmap_sublist.
  - by eapply sublist_Forall.
  - by eapply sublist_Forall.
  - intros F. unfold live. rewrite He. clear. induction (entries a) as [|n l IH]; [done|]. rewrite !filter_cons.
    destruct (decide (an_addr n ∉ del)); [rewrite filter_cons|]; repeat destruct (decide _); rewrite ?IH; try done; exfalso; set_solver.
Qed.

Lemma optimize_cond_avtab_spec :
  cond_table_ok p (te_cond_avtab p) → (∀ x, x ∈ all_rules (cond_list p) → x ∈ addrs (te_cond_avtab p)) →
  NoDup (all_rules (cond_list p)) →
  ∃ l a, optimize_cond_avtab p m = Some (l, a) ∧ cond_table_ok p a ∧ names a `sublist_of` names (te_cond_avtab p) ∧
    (∀ x, x ∈ all_rules l → x ∈ addrs a) ∧ NoDup (all_rules l) ∧ (∀ c', c' ∈ l → ∃ c, c ∈ cond_list p ∧ shrunk c c') ∧
    ∀ F, lists_uniform F (cond_list p) → same_tells p (entries (te_avtab p)) (live F [] (te_cond_avtab p)) (live F [] a).
Proof using Hp Hm Hte Hu.
  intros Ha Hin Hnd. unfold optimize_cond_avtab.
  destruct (optimize_conds_spec p Hp m Hm Hte Hu (cond_list p) (te_cond_avtab p) [] Ha) as (l & a & gone & -> & HP & Ha' & Hn & Hc & Hs); [|done|].
  { intros x Hx. split; [by apply Hin|]. by intros ?%not_elem_of_nil. }
  rewrite app_nil_r in *. cbn [mbind option_bind]. pose proof Hnd as Hnd'. rewrite <- HP in Hnd'. apply NoDup_app in Hnd' as (Nl & Hdis & Ng).
  assert (addrs a = addrs (te_cond_avtab p)) as Had by by rewrite !names_addrs, Hn.
  assert (∀ x, x ∈ all_rules l ++ gone → x ∈ addrs a) as Hall by (intros x Hx; rewrite Had; apply Hin; by rewrite <- HP).
  assert (∀ a', swept_table a gone a' → ∃ l0 a0, Some (l, a') = Some (l0, a0) ∧ cond_table_ok p a0 ∧ names a0 `sublist_of` names (te_cond_avtab p) ∧
    (∀ x, x ∈ all_rules l0 → x ∈ addrs a0) ∧ NoDup (all_rules l0) ∧ (∀ c', c' ∈ l0 → ∃ c, c ∈ cond_list p ∧ shrunk c c') ∧
    ∀ F, lists_uniform F (cond_list p) → same_tells p (entries (te_avtab p)) (live F [] (te_cond_avtab p)) (live F [] a0)) as Hfin.
  { intros a' Hsw. destruct (undeleted_ok a gone a' Ha' Hsw) as (Hok & Hsub & Hlive). exists l, a'. do 2 (split; [done|]).
    split; [by rewrite <- Hn|]. split; [|split; [done|]; split; [done|]; intros F HF; rewrite <- Hlive; by apply Hs].
    intros x Hx. destruct Hsw as [He _]. pose proof (Hall x ltac:(set_solver)) as (n & -> & Hin2)%list_elem_of_fmap.
    apply list_elem_of_fmap_2. rewrite He. apply list_elem_of_filter. split; [by apply Hdis|exact Hin2]. }
  assert (swept_table a [] a) as Hnil.
  { split; [|done]. clear. induction (entries a) as [|n l IH]; [done|]. rewrite filter_cons, decide_True by (by intros ?%not_elem_of_nil). by f_equal. }
  destruct gone as [|g gone]; [by apply Hfin|]. destruct (av_htable a) as [t|] eqn:Ht.
  - pose proof (sweep_table a t (g :: gone) (ct_awf p a Ha') Ht (ct_addrs p a Ha') Ng) as Hsw. destruct (sweep_slots _ _ _) as [[t' nel] del']. by apply Hfin.
  - exfalso. pose proof (Hall g ltac:(set_solver)) as (n & _ & Hn')%list_elem_of_fmap. unfold entries in Hn'. rewrite Ht in Hn'. by apply not_elem_of_nil in Hn'.
Qed.
End cond_avtab.
