(* ===== verification/OptimizeSpec.v ===== *)
(** * The property of the optimiser

    Optimising a policy changes no access decision: every pair of contexts is
    allowed, audited and silenced as before, in every state of the booleans. *)

From S2P Require Import Prelude Ebitmap EbitmapFacts EbitmapIter EbitmapSpec Hashtab HashtabFacts HashtabSpec Avtab AvtabFacts AvtabSpec.
From S2P Require Import Mls Policydb MlsPolicy MlsFacts MlsSpec MlsString Sidtab SidtabSpec Conditional ConditionalFacts ConditionalSpec.
From S2P Require Import Context Rpn Constraint ConstraintFacts ConstraintSpec Services ServicesFacts ServicesSpec.
From S2P Require Import Optimize OptimizeTypes OptimizeFacts OptimizeTable OptimizeCond.

(** ** The policies that are optimised *)

Record optimizable (p : policydb) : Prop := {
  op_maps : maps_ok p;
  op_te : awf (te_avtab p);
  op_rules : Forall (node_ok p) (entries (te_avtab p));
  op_plain : Forall (λ n, enabled n = false) (entries (te_avtab p));
  op_cond : cond_table_ok p (te_cond_avtab p);
  op_lists x : x ∈ all_rules (cond_list p) → x ∈ addrs (te_cond_avtab p);
  op_once : NoDup (all_rules (cond_list p))
}.

(** The conditional rules in force. *)
Definition in_force (p : policydb) (x : Z) : bool :=
  match node_at (te_cond_avtab p) x with Some n => enabled n | None => false end.

(** The rules of the policy when [F] tells the conditional rules in force. *)
Definition rules_with (F : Z → bool) (p : policydb) : list avtab_node :=
  entries (te_avtab p) ++ live F [] (te_cond_avtab p).

(** The type of a context is not an attribute, nor are its bounds. *)
Definition plain_context (p : policydb) (c : context_struct) : Prop :=
  1 ≤ c_type c ∧ plain_type p (c_type c - 1).

Definition plain_bounds (p : policydb) : Prop :=
  ∀ t, 1 ≤ t → plain_type p (t - 1) → bounds_of p t ≠ 0 → 1 ≤ bounds_of p t ∧ plain_type p (bounds_of p t - 1).

(** ** What the rules of a pair of contexts say *)

(** The rule is in force and says [Perm b]. *)
Definition says_perm (k b : Z) (r : table_rule) : bool :=
  rule_active k r && Bool.eqb (Z.testbit (ad_data (an_datum r.2)) b) (negb (k =? AVTAB_AUDITDENY)).

Section rules.
Context (p : policydb) (Hp : optimizable p).

Lemma type_bits_attr t i : i ∈ type_bits p t ↔ has_attr p (t - 1) i.
Proof using Hp.
  unfold type_bits, has_attr. destruct (type_attr_map p !! Z.to_nat (t - 1)) as [e|] eqn:E.
  - assert (wf e) as We by (eapply lookup_wf; [apply (mo_wf1 p (op_maps p Hp))|done]).
    destruct (positive_bits_spec e We) as (l & Hl & _ & Hb). rewrite positive_bits_set_bits in Hl by done. injection Hl as ->.
    rewrite Hb. split; [by exists e|]. by intros (e' & [= <-] & ?).
  - split; [by intros ?%not_elem_of_nil|]. by intros (e' & ? & _).
Qed.

Lemma in_force_node n : n ∈ entries (te_cond_avtab p) → in_force p (an_addr n) = enabled n.
Proof using Hp. intros Hn. unfold in_force. by rewrite (node_at_some _ n (ct_addrs p _ (op_cond p Hp)) Hn). Qed.

Lemma elem_of_rules_with n :
  n ∈ rules_with (in_force p) p ↔ n ∈ entries (te_avtab p) ∨ n ∈ entries (te_cond_avtab p) ∧ enabled n = true.
Proof using Hp.
  unfold rules_with, live. rewrite elem_of_app, list_elem_of_filter. split; (intros [?|H]; [by left|right]).
  - destruct H as [[Hf _] Hn]. split; [done|]. by rewrite <- in_force_node.
  - destruct H as [Hn He]. split; [|done]. rewrite in_force_node by done. split; [done|]. by intros ?%not_elem_of_nil.
Qed.

(** A rule of a kind is active exactly if it is in force. *)
Lemma active_te k n : k ∈ av_kinds → n ∈ entries (te_avtab p) → rule_active k (false, n) = true ↔ of_kind (spec_of n) k.
Proof using Hp.
  intros Hk Hn. unfold rule_active, of_kind, spec_of. cbn [fst snd]. rewrite Z.eqb_eq. split; [by left|]. intros [?|E]; [done|].
  pose proof (op_plain p Hp) as H0. rewrite Forall_forall in H0. specialize (H0 n Hn). simpl in H0. unfold enabled in H0. rewrite E in H0.
  assert (Forall (λ k, nz (Z.land (Z.lor k AVTAB_ENABLED) AVTAB_ENABLED) = true) av_kinds) as Hall by (repeat constructor).
  rewrite Forall_forall in Hall. rewrite Hall in H0 by done. done.
Qed.

Lemma active_cond k n :
  k ∈ av_kinds → n ∈ entries (te_cond_avtab p) → rule_active k (true, n) = true ↔ enabled n = true ∧ of_kind (spec_of n) k.
Proof using Hp.
  intros Hk Hn. unfold rule_active, active_rule. cbn [fst snd]. rewrite andb_true_iff.
  assert (k ∈ kinds) as Hk' by (apply elem_of_app; by left). split; intros [He Hs]; (split; [done|]).
  - rewrite Z.land_comm in Hs. pose proof (ct_nodes p _ (op_cond p Hp)) as Hr. rewrite Forall_forall in Hr.
    by apply (kind_match k n Hk' (proj1 (Hr n Hn))).
  - rewrite Z.land_comm. by apply kind_self.
Qed.

Lemma matching_kind a n i j tclass k :
  k ∈ av_kinds → of_kind (spec_of n) k →
  n ∈ matching a (AvtabKey (u16 (i + 1)) (u16 (j + 1)) tclass AVTAB_AV) ↔
  n ∈ entries a ∧ ak_source_type (an_key n) = u16 (i + 1) ∧ ak_target_type (an_key n) = u16 (j + 1) ∧ ak_target_class (an_key n) = tclass.
Proof using.
  intros Hk Hsp. unfold matching. rewrite list_elem_of_filter. unfold key_match. cbn [ak_source_type ak_target_type ak_target_class ak_specified].
  rewrite !andb_true_iff, !Z.eqb_eq. fold (spec_of n).
  assert (nz (Z.land (specified_of AVTAB_AV) (spec_of n)) = true) as E.
  { assert (Forall (λ k, ∀ sp, of_kind sp k → nz (Z.land (specified_of AVTAB_AV) sp) = true) av_kinds) as Hall.
    { repeat constructor; intros ? [-> | ->]; reflexivity. }
    rewrite Forall_forall in Hall. by eapply Hall. }
  rewrite E. naive_solver.
Qed.

Lemma te_rules_tells k b sc tc tclass :
  k ∈ av_kinds → 0 ≤ b < 32 →
  existsb (says_perm k b) (te_rules p sc tc tclass) = true ↔
  tells p (rules_with (in_force p) p) k (Perm b) (c_type sc - 1) (c_type tc - 1) tclass.
Proof using Hp.
  intros Hk Hb. rewrite existsb_exists. unfold te_rules. split.
  - intros (r & Hr%list_elem_of_In & [Hact Hbit%Bool.eqb_prop]%andb_true_iff).
    apply list_elem_of_bind in Hr as (i & (j & Hr & Hj)%list_elem_of_bind & Hi). rewrite type_bits_attr in Hi, Hj.
    unfold pair_rules in Hr. apply elem_of_app in Hr as [(n & -> & Hn)%list_elem_of_fmap|(n & -> & Hn)%list_elem_of_fmap]; cbn [snd] in *.
    + pose proof Hn as [_ Hin]%list_elem_of_filter. apply active_te in Hact; [|done|done].
      apply (matching_kind _ _ _ _ _ k) in Hn as (_ & S & T & C); [|done|done].
      exists n. split; [by apply elem_of_rules_with; left|]. split; [by exists i, j|]. by split_and!.
    + pose proof Hn as [_ Hin]%list_elem_of_filter. apply active_cond in Hact as [He Hact]; [|done|done].
      apply (matching_kind _ _ _ _ _ k) in Hn as (_ & S & T & C); [|done|done].
      exists n. split; [by apply elem_of_rules_with; right|]. split; [by exists i, j|]. by split_and!.
  - intros (n & Hn & (i & j & Hi & Hj & S & T & C) & Hsp & _ & _ & Hbit).
    assert (∃ c, rule_active k (c, n) = true ∧ (c, n) ∈ pair_rules p tclass i j) as (c & Hact & Hin).
    { apply elem_of_rules_with in Hn as [Hn|[Hn He]]; [exists false|exists true]; (split; [by apply active_te || by apply active_cond|]);
        apply elem_of_app; [left|right]; apply list_elem_of_fmap_2; by apply (matching_kind _ _ _ _ _ k). }
    exists (c, n). split; [|unfold says_perm; cbn [snd]; rewrite Hact, Hbit; by destruct (negb _)].
    apply list_elem_of_In, list_elem_of_bind. exists i. split; [|by apply type_bits_attr]. apply list_elem_of_bind. exists j.
    split; [done|by apply type_bits_attr].
Qed.
End rules.

(** ** Decisions of two policies *)

(** [p'] is [p] with other rules. *)
Definition optimized (p : policydb) (tab a : avtab) (l : list cond_node) : policydb :=
  set_cond (set_te p tab) (bool_val_to_struct p) a l.

Lemma existsb_same {A} (f g : A → bool) l : (∀ x, f x = g x) → existsb f l = existsb g l.
Proof. intros H. induction l as [|x l IH]; [done|]. simpl. by rewrite H, IH. Qed.

Section decisions.
Context (p : policydb) (tab a : avtab) (l : list cond_node).
Local Notation p' := (optimized p tab a l).
Context (Hp : optimizable p) (Hp' : optimizable p').
Context (Hsame : ∀ k b x y c, k ∈ kinds → plain_type p x → plain_type p y →
  tells p (rules_with (in_force p) p) k (Perm b) x y c ↔ tells p' (rules_with (in_force p') p') k (Perm b) x y c).

Lemma same_says k b sc tc tclass :
  k ∈ av_kinds → 0 ≤ b < 32 → plain_context p sc → plain_context p tc →
  existsb (says_perm k b) (te_rules p sc tc tclass) = existsb (says_perm k b) (te_rules p' sc tc tclass).
Proof using Hp Hp' Hsame.
  intros Hk Hb [_ Hs] [_ Ht]. apply eq_true_iff_eq. rewrite (te_rules_tells p Hp), (te_rules_tells p' Hp') by done.
  apply Hsame; [apply elem_of_app; by left|done|done].
Qed.

Lemma same_grants k b sc tc tclass :
  k ∈ [AVTAB_ALLOWED; AVTAB_AUDITALLOW] → 0 ≤ b < 32 → plain_context p sc → plain_context p tc →
  existsb (rule_grants k b) (te_rules p sc tc tclass) = existsb (rule_grants k b) (te_rules p' sc tc tclass).
Proof using Hp Hp' Hsame.
  intros Hk Hb Hs Ht. assert (k ∈ av_kinds ∧ negb (k =? AVTAB_AUDITDENY) = true) as [Hk' Hn].
  { apply elem_of_cons in Hk as [->|[->|Hk%elem_of_nil]%elem_of_cons]; [split; [left|done]|split; [right; left|done]|done]. }
  rewrite !(existsb_same (rule_grants k b) (says_perm k b)); [by apply same_says|..];
    intros [c n]; unfold rule_grants, says_perm; rewrite Hn; by destruct (Z.testbit _ _).
Qed.

Lemma same_silences b sc tc tclass :
  0 ≤ b < 32 → plain_context p sc → plain_context p tc →
  existsb (rule_silences b) (te_rules p sc tc tclass) = existsb (rule_silences b) (te_rules p' sc tc tclass).
Proof using Hp Hp' Hsame.
  intros Hb Hs Ht. rewrite !(existsb_same (rule_silences b) (says_perm AVTAB_AUDITDENY b));
    [apply same_says; [do 2 right; left|done|done|done]|..]; intros [c n]; unfold rule_silences, says_perm; by destruct (Z.testbit _ _).
Qed.

Context (Hb : plain_bounds p).

Lemma plain_lowered c : plain_context p c → plain_context p (lowered p c).
Proof using Hb.
  intros [H1 H2]. unfold lowered, nz. destruct (Z.eqb_spec (bounds_of p (c_type c)) 0) as [|Hne]; simpl; [done|]. by apply Hb.
Qed.

Lemma same_granted tclass cs b sc tc :
  0 ≤ b < 32 → plain_context p sc → plain_context p tc → granted p tclass cs b sc tc ↔ granted p' tclass cs b sc tc.
Proof using Hp Hp' Hsame Hb.
  intros Hr Hs Ht. assert (AVTAB_ALLOWED ∈ [AVTAB_ALLOWED; AVTAB_AUDITALLOW]) as Hk by left. split; intros Hg.
  - revert Hs Ht. induction Hg as [sc tc H1 H2 H3 _ IH]. intros Hs Ht. constructor; [by rewrite <- same_grants|done|done|].
    intros Hne. apply IH; [done|apply Hb; [apply Hs|apply Hs|done]|by apply plain_lowered].
  - revert Hs Ht. induction Hg as [sc tc H1 H2 H3 _ IH]. intros Hs Ht. constructor; [by rewrite same_grants|done|done|].
    intros Hne. apply IH; [done|apply Hb; [apply Hs|apply Hs|done]|by apply plain_lowered].
Qed.

Lemma same_decides tclass cs sc tc avd :
  plain_context p sc → plain_context p tc → decides p tclass cs sc tc avd ↔ decides p' tclass cs sc tc avd.
Proof using Hp Hp' Hsame Hb.
  intros Hs Ht. unfold decides. assert (AVTAB_AUDITALLOW ∈ [AVTAB_ALLOWED; AVTAB_AUDITALLOW]) as Hk by (right; left).
  split; intros (H1 & H2 & H3); (split; [done|]; split; [done|]); intros b Hr; destruct (H3 b Hr) as (E1 & E2 & E3).
  - rewrite <- same_granted, <- same_grants, <- same_silences by done. done.
  - rewrite same_granted, same_grants, same_silences by done. done.
Qed.
End decisions.

(** ** The optimiser *)

Lemma maps_te p tab : maps_ok p → maps_ok (set_te p tab).
Proof. intros []. by split. Qed.

Lemma cond_table_te p tab a : cond_table_ok p a → cond_table_ok (set_te p tab) a.
Proof. intros []. by split. Qed.

Lemma tells_app p L1 L2 k say x y c : tells p (L1 ++ L2) k say x y c ↔ tells p L1 k say x y c ∨ tells p L2 k say x y c.
Proof.
  unfold tells. split; [intros (n & [H|H]%elem_of_app & ?); [left|right]; by exists n|].
  intros [(n & H & ?)|(n & H & ?)]; exists n; (split; [apply elem_of_app; auto|done]).
Qed.

(** The rules in force say the same in the two policies. *)
Definition same_sayings (p p' : policydb) (F : Z → bool) : Prop :=
  ∀ k say x y c, k ∈ kinds → plain_type p x → plain_type p y →
    tells p (rules_with F p) k say x y c ↔ tells p' (rules_with F p') k say x y c.

(** [p'] has rules of [p] only, in conditionals of [p]. *)
Definition fewer_rules (p p' : policydb) : Prop :=
  (an_key <$> entries (te_avtab p')) `sublist_of` (an_key <$> entries (te_avtab p)) ∧
  names (te_cond_avtab p') `sublist_of` names (te_cond_avtab p) ∧
  ∀ c', c' ∈ cond_list p' → ∃ c, c ∈ cond_list p ∧ shrunk c c'.

(** A rule left is in force exactly if it was. *)
Lemma live_in_force p p' :
  NoDup (addrs (te_cond_avtab p)) → NoDup (addrs (te_cond_avtab p')) → names (te_cond_avtab p') `sublist_of` names (te_cond_avtab p) →
  rules_with (in_force p') p' = rules_with (in_force p) p'.
Proof.
  intros Hnd Hnd' Hsub. unfold rules_with, live. f_equal.
  assert (∀ n, n ∈ entries (te_cond_avtab p') → in_force p' (an_addr n) = in_force p (an_addr n)) as Hgo.
  { intros n Hn. unfold in_force. rewrite (node_at_some _ n Hnd' Hn).
    assert ((an_addr n, an_key n) ∈ names (te_cond_avtab p)) as (r & [= Ea Ek] & Hr)%list_elem_of_fmap.
    { assert (Forall (.∈ names (te_cond_avtab p)) (names (te_cond_avtab p'))) as Hf by (eapply sublist_Forall; [exact Hsub|]; by apply Forall_forall).
      rewrite Forall_forall in Hf. apply Hf, list_elem_of_fmap. by exists n. }
    rewrite Ea, (node_at_some _ r Hnd Hr). unfold enabled. by rewrite Ek. }
  revert Hgo. generalize (entries (te_cond_avtab p')). clear. induction l as [|n l IH]; intros Hgo; [done|].
  rewrite !filter_cons, IH, Hgo by set_solver. done.
Qed.

Section finish.
Context (p : policydb) (Hp : optimizable p) (tab a : avtab) (l : list cond_node).
Local Notation p' := (optimized p tab a l).
Context (Htab : awf tab) (Hrules : Forall (node_ok p) (entries tab)) (Htells : same_tells p [] (entries (te_avtab p)) (entries tab)).
Context (Hkeys : (an_key <$> entries tab) `sublist_of` (an_key <$> entries (te_avtab p))).
Context (Ha : cond_table_ok (set_te p tab) a) (Hnames : names a `sublist_of` names (te_cond_avtab p)).
Context (Hl : ∀ x, x ∈ all_rules l → x ∈ addrs a) (Honce : NoDup (all_rules l)).
Context (Hcond : ∀ F, lists_uniform F (cond_list p) →
  same_tells (set_te p tab) (entries tab) (live F [] (te_cond_avtab p)) (live F [] a)).

Lemma optimized_ok : optimizable p'.
Proof using All.
  destruct Hp as [[] _ _ H4 _ _ _]. destruct Ha. split; try done.
  apply (Forall_fmap an_key (λ k, nz (Z.land (ak_specified k) AVTAB_ENABLED) = false)).
  apply (Forall_fmap an_key (λ k, nz (Z.land (ak_specified k) AVTAB_ENABLED) = false)) in H4. by eapply sublist_Forall.
Qed.

Lemma optimized_sayings F : lists_uniform F (cond_list p) → same_sayings p p' F.
Proof using Htells Hcond.
  intros HF k say x y c Hk Hx Hy. transitivity (tells p (entries tab ++ live F [] (te_cond_avtab p)) k say x y c).
  - unfold rules_with. rewrite !tells_app. by rewrite (Htells k say x y c Hk Hx Hy).
  - by apply (Hcond F HF k say x y c).
Qed.

Lemma optimized_decides :
  lists_uniform (in_force p) (cond_list p) → plain_bounds p →
  ∀ tclass cs sc tc avd, plain_context p sc → plain_context p tc → decides p tclass cs sc tc avd ↔ decides p' tclass cs sc tc avd.
Proof using All.
  intros HF Hb tclass cs sc tc avd Hs Ht. apply same_decides; [done|apply optimized_ok| |done|done|done].
  intros k b x y c Hk Hx Hy. rewrite (live_in_force p p'); [by apply optimized_sayings|apply Hp|apply Ha|done].
Qed.
End finish.

(** C8: [policydb_optimize] changes no access decision.  On any memory it returns;
    either [-1], with the policy untouched, for a policy that is not a kernel
    policy, for the versions 20 to 23, or when an allocation fails, or [0], with a
    well-formed policy that has fewer rules in its tables and conditionals.  In
    every state of the booleans (any set of rules in force that has each
    conditional list as a whole or not at all) the rules in force of the two
    policies say the same to every pair of types, of each of the six kinds of rules
    including the ioctl permissions; so every access decision, with its audit
    vectors, is the same. *)
Theorem policydb_optimize_correct p h :
  optimizable p →
  wp (policydb_optimize p) h (λ '(rc, p') _,
    (rc = -1 ∧ p' = p ∧ (policy_type p = POLICY_KERN → ¬ (20 ≤ policyvers p ≤ 23) → hp_oom h ≠ [])) ∨
    (rc = 0 ∧ policy_type p = POLICY_KERN ∧ ¬ (20 ≤ policyvers p ≤ 23) ∧ optimizable p' ∧
     (∃ tab a l, p' = optimized p tab a l) ∧ fewer_rules p p' ∧
     (∀ F, lists_uniform F (cond_list p) → same_sayings p p' F) ∧
     (lists_uniform (in_force p) (cond_list p) → plain_bounds p →
      ∀ tclass cs sc tc avd, plain_context p sc → plain_context p tc →
        decides p tclass cs sc tc avd ↔ decides p' tclass cs sc tc avd))).
Proof.
  intros Hp. unfold policydb_optimize. destruct (Z.eqb_spec (policy_type p) POLICY_KERN) as [Hk|Hk]; cbn [negb]; [|wp_step; left; by split_and!].
  destruct ((policyvers p >=? POLICYDB_VERSION_AVTAB) && (policyvers p <=? POLICYDB_VERSION_PERMISSIVE)) eqn:Hv.
  { wp_step. left. split_and!; [done|done|]. intros _ H. exfalso. apply H. apply andb_true_iff in Hv as [?%Z.geb_le ?%Z.leb_le].
    unfold POLICYDB_VERSION_AVTAB, POLICYDB_VERSION_PERMISSIVE in *. lia. }
  assert (¬ (20 ≤ policyvers p ≤ 23)) as Hv'.
  { intros H. apply andb_false_iff in Hv as [Hv|?%Z.leb_gt]; [rewrite Z.geb_leb in Hv; apply Z.leb_gt in Hv|];
      unfold POLICYDB_VERSION_AVTAB, POLICYDB_VERSION_PERMISSIVE in *; lia. }
  pose proof (op_maps p Hp) as Hmaps. wp_step.
  assert (0 ≤ s_nprim (p_types p)) as Hn0 by (rewrite <- (mo_structs p Hmaps); lia).
  destruct (proj1 (wp_run _ _ _) (build_type_map_spec p Hmaps h Hn0)) as (r & h1 & Hrun & Hr).
  eapply wp_result; [exact Hrun|]. destruct r as [m|].
  2:{ wp_step. left. split_and!; [done|done|]. intros _ _ Ho. by destruct (proj1 (build_type_map_gives p _ _ _ Hrun Ho)). }
  specialize (Hr m eq_refl).
  destruct (optimize_avtab_spec p Hmaps m Hr (te_avtab p) (op_te p Hp) (op_rules p Hp)) as (tab & -> & Hw & Hrules & Hsame & Hsub). do 2 wp_step.
  destruct (optimize_cond_avtab_spec (set_te p tab) (maps_te p tab Hmaps) m Hr Hw Hrules (cond_table_te p tab _ (op_cond p Hp)) (op_lists p Hp) (op_once p Hp))
    as (l & a & -> & Ha & Hna & Hla & Hnl & Hsh & Hcs). do 2 wp_step. right.
  do 3 (split; [done|]). split; [exact (optimized_ok p Hp tab a l Hw Hrules Hsame Hsub Ha Hna Hla Hnl Hcs)|].
  split; [by exists tab, a, l|]. split; [done|]. split; [exact (optimized_sayings p tab a l Hsame Hcs)|].
  exact (optimized_decides p Hp tab a l Hw Hrules Hsame Hsub Ha Hna Hla Hnl Hcs).
Qed.

(** ** A policy for the example *)

(** The attribute [domain] of [staff_t] and [sub_t] may use files, [sub_t] may read
    them, which is redundant; with a boolean set, [staff_t] may write them, which
    is redundant too, and reading and writing is audited for [staff_t], writing
    for every domain. *)
Definition opt_te_rules : list (avtab_key * avtab_datum) :=
  [(AvtabKey 4 2 1 AVTAB_ALLOWED, AvtabDatum 3 None);
   (AvtabKey 3 2 1 AVTAB_ALLOWED, AvtabDatum 1 None);
   (AvtabKey 3 2 1 AVTAB_AUDITALLOW, AvtabDatum 1 None);
   (AvtabKey 3 2 1 AVTAB_TRANSITION, AvtabDatum 2 None)].

Definition opt_te : avtab := Eval vm_compute in table_of 8 opt_te_rules.

Definition opt_cond_rules : list (avtab_key * avtab_datum) :=
  [(AvtabKey 1 2 1 (Z.lor AVTAB_ALLOWED AVTAB_ENABLED), AvtabDatum 2 None);
   (AvtabKey 4 2 1 (Z.lor AVTAB_AUDITALLOW AVTAB_ENABLED), AvtabDatum 2 None);
   (AvtabKey 1 2 1 (Z.lor AVTAB_AUDITALLOW AVTAB_ENABLED), AvtabDatum 3 None)].

Definition opt_cond : avtab := Eval vm_compute in table_of 8 opt_cond_rules.

Definition opt_node : cond_node := CondNode 1 [] [1; 2; 3] [] 0 [] 0 0.

Definition opt_policy : policydb :=
  Policydb 0 (Symtab (ht_of 2 [("file"%string, file_class)]) 1) (Symtab (ht_of 2 srv_roles) 2)
    (Symtab (ht_of 2 srv_types) 4) (Symtab (ht_of 2 srv_users) 2) 0 demo_levels demo_cats
    [Some "file"%string] (Some <$> srv_roles.*1) (Some <$> srv_types.*1) (Some <$> srv_users.*1)
    [Some "s0"%string; Some "s1"%string]
    [Some "c0"%string; Some "c1"%string; Some "c2"%string; Some "c3"%string] []
    [Some file_class] (Some <$> srv_roles.*2) (Some <$> srv_users.*2) (Some <$> srv_types.*2)
    opt_te [] opt_cond [opt_node] [] [] [] [] None
    [of_bits [0; 3]; of_bits [1]; of_bits [2; 3]; of_bits [3]]
    [of_bits [0]; of_bits [1]; of_bits [2]; of_bits [0; 2]] ebitmap_init 33 0 2 0 0 0 POLICY_KERN (Symtab None 0) None [] None 0 ebitmap_init 0.

Lemma opt_plain x : plain_type opt_policy x → x = 0 ∨ x = 1 ∨ x = 2.
Proof.
  intros (H0 & d & Hd & Hf). pose proof (lookup_lt_Some _ _ _ Hd) as Hl. change (Z.to_nat x < 4)%nat in Hl.
  assert (x = 0 ∨ x = 1 ∨ x = 2 ∨ x = 3) as [->|[->|[->| ->]]] by lia; auto. by injection Hd as <-.
Qed.

Lemma some_bits l e i : Some (of_bits l) = Some e → Forall (λ b, 0 ≤ b < 2 ^ 32 - 64) l → ebitmap_get_bit e i = true ↔ i ∈ l.
Proof. intros [= <-]. apply of_bits_spec. Qed.

Lemma opt_attr x i :
  has_attr opt_policy x i → (x ≤ 0 ∧ (i = 0 ∨ i = 3)) ∨ (x = 1 ∧ i = 1) ∨ (x = 2 ∧ (i = 2 ∨ i = 3)) ∨ (x = 3 ∧ i = 3).
Proof.
  intros (e & He & Hb). pose proof (lookup_lt_Some _ _ _ He) as Hl. change (Z.to_nat x < 4)%nat in Hl.
  assert (x ≤ 0 ∨ x = 1 ∨ x = 2 ∨ x = 3) as [Hx|[->|[->| ->]]] by lia; [replace (Z.to_nat x) with 0%nat in He by lia|..];
    [apply (some_bits [0; 3] _ _ He) in Hb|apply (some_bits [1] _ _ He) in Hb|apply (some_bits [2; 3] _ _ He) in Hb|apply (some_bits [3] _ _ He) in Hb];
    try (repeat constructor; lia); rewrite !elem_of_cons, elem_of_nil in Hb; naive_solver.
Qed.

Lemma opt_maps : maps_ok opt_policy.
Proof.
  split; [done..| | | | |].
  - repeat (apply Forall_cons; split; [bits_wf|]). constructor.
  - repeat (apply Forall_cons; split; [bits_wf|]). constructor.
  - intros x i H%opt_attr. change (i < 4). lia.
  - intros x i Hx%opt_plain Hi%opt_attr.
    assert (i = x ∨ i = 3 ∧ (x = 0 ∨ x = 2)) as [->|[-> Hx2]] by lia; [by left|]. right. exists (of_bits [0; 2]).
    split; [split_and!; [lia|by eexists|done]|]. apply of_bits_spec; [repeat constructor; lia|]. destruct Hx2 as [->| ->]; [left|right; left].
  - intros x k types Hx%opt_plain (H0 & (d & Hd & Hf) & Ht) Hb. pose proof (lookup_lt_Some _ _ _ Hd) as Hl. change (Z.to_nat k < 4)%nat in Hl.
    assert (k = 0 ∨ k = 1 ∨ k = 2 ∨ k = 3) as [->|[->|[->| ->]]] by lia; injection Hd as <-; try discriminate.
    apply (some_bits [0; 2] _ _ Ht) in Hb; [|repeat constructor; lia]. rewrite !elem_of_cons, elem_of_nil in Hb.
    destruct Hb as [->|[->|[]]]; (eexists; split; [reflexivity|]); apply of_bits_spec; try (repeat constructor; lia); right; left.
Qed.

Lemma av_node_ok p n k :
  k ∈ av_kinds → of_kind (spec_of n) k → 0 ≤ ad_data (an_datum n) < 2 ^ 32 → 1 ≤ ak_source_type (an_key n) ≤ s_nprim (p_types p) →
  1 ≤ ak_target_type (an_key n) ≤ s_nprim (p_types p) → node_ok p n.
Proof.
  intros Hk Hsp Hd Hs Ht. split; [|done]. left. exists k. split; [apply elem_of_app; by left|]. split; [done|]. split; [done|].
  intros Hx. by destruct (kinds_disjoint k).
Qed.

Lemma opt_te_wf : awf opt_te.
Proof.
  assert (opt_te = table_of 8 opt_te_rules) as -> by (vm_compute; reflexivity).
  apply table_of_wf; [lia|]. repeat (apply Forall_cons; split; [split; [discriminate|reflexivity]|]). constructor.
Qed.

Lemma opt_cond_wf : awf opt_cond.
Proof.
  assert (opt_cond = table_of 8 opt_cond_rules) as -> by (vm_compute; reflexivity).
  apply table_of_wf; [lia|]. repeat (apply Forall_cons; split; [split; [discriminate|reflexivity]|]). constructor.
Qed.

Ltac av_node k := apply (av_node_ok _ _ k); [by apply (bool_decide_unpack _)|by (left + right)|simpl; lia|simpl; lia|simpl; lia].

Lemma opt_te_nodes : Forall (node_ok opt_policy) (entries opt_te).
Proof.
  repeat (apply Forall_cons; split); [av_node AVTAB_ALLOWED|av_node AVTAB_ALLOWED|av_node AVTAB_AUDITALLOW| |constructor].
  split; [by right|done].
Qed.

Lemma opt_cond_nodes : Forall (node_ok opt_policy) (entries opt_cond).
Proof. repeat (apply Forall_cons; split); [av_node AVTAB_ALLOWED|av_node AVTAB_AUDITALLOW|av_node AVTAB_AUDITALLOW|constructor]. Qed.

Lemma opt_cond_structs : Forall (has_structs opt_policy) (entries opt_cond).
Proof. repeat (apply Forall_cons; split); [by split; eexists..|constructor]. Qed.

Lemma opt_optimizable : optimizable opt_policy.
Proof.
  split; [apply opt_maps|apply opt_te_wf|apply opt_te_nodes|by repeat constructor| | |].
  - split; [apply opt_cond_wf| |apply opt_cond_nodes|apply opt_cond_structs]. apply (bool_decide_unpack _). vm_compute. exact I.
  - intros x Hx. change (x ∈ [1; 2; 3]) in Hx. change (x ∈ [1; 3; 2]). rewrite !elem_of_cons in *. tauto.
  - apply (bool_decide_unpack _). vm_compute. exact I.
Qed.

Lemma policydb_optimize_correct_witness :
  wp (policydb_optimize opt_policy) (Heap 0 []) (λ '(rc, p') _, rc = 0 ∧ fewer_rules opt_policy p' ∧
    ∀ avd, decides opt_policy 1 srv_exprs sub_sc file_tc avd ↔ decides p' 1 srv_exprs sub_sc file_tc avd) ∧
  (λ r, (r.1.1, av_nel (te_avtab r.1.2), av_nel (te_cond_avtab r.1.2))) <$> policydb_optimize opt_policy (Heap 0 []) = Some (0, 3, 2).
Proof.
  split; [|vm_compute; reflexivity].
  eapply wp_mono; [apply (policydb_optimize_correct opt_policy (Heap 0 []) opt_optimizable)|].
  intros [rc p'] h [(_ & _ & H)|(-> & _ & _ & _ & _ & Hf & _ & H)].
  { destruct H; [reflexivity|change (policyvers opt_policy) with 33; lia|reflexivity]. }
  split; [done|]. split; [done|]. intros avd. apply H.
  - constructor; [|constructor]. split; [exists true|exists true]; intros x Hx; [|by apply not_elem_of_nil in Hx].
    change (x ∈ [1; 2; 3]) in Hx. rewrite !elem_of_cons, elem_of_nil in Hx. destruct Hx as [->|[->|[->|[]]]]; vm_compute; reflexivity.
  - intros t Ht Hp%opt_plain. assert (t = 1 ∨ t = 2 ∨ t = 3) as [->|[->| ->]] by lia; [done|done|]. intros _.
    split; [vm_compute; discriminate|]. split; [vm_compute; discriminate|]. by eexists.
  - split; [simpl; lia|]. split; [simpl; lia|]. by eexists.
  - split; [simpl; lia|]. split; [simpl; lia|]. by eexists.
Defined.
