(* ===== verification/Validate.v ===== *)
(** * Validation of a policy

    [src/policydb_validate.c]: the checks [policydb_read] makes after reading.
    The policy is a kernel policy.  The fields the model leaves out are empty in
    such a policy, so their checks pass: the scope tables, the negative set and
    the flags of the types of a role, role attributes, the semantic levels of
    users and the source rules of conditionals.  A validator returns 0, or -1
    where the code jumps to [bad]. *)

From S2P Require Import Prelude Ebitmap Hashtab Avtab Mls Policydb Conditional ObjectSid Optimize.

Declare Scope validate_scope.

(** [if (f) goto bad;] and a [goto bad] unless [b]. *)
Notation "'check' f ;; k" := (mbind (λ rc, if nz rc then Some (-1) else k) f)
  (at level 100, f at level 99, k at level 200) : validate_scope.
Notation "'require' b ;; k" := (if (b : bool) then k else Some (-1))
  (at level 100, b at level 99, k at level 200) : validate_scope.

#[local] Open Scope validate_scope.

(** ** Symbol values *)

Record validate_t := Validate { vt_nprim : Z; vt_gaps : ebitmap }.

(** The array [flavors], by the index [SYM_*]. *)
Record flavors_t := Flavors {
  f_commons : validate_t;
  f_classes : validate_t;
  f_roles : validate_t;
  f_types : validate_t;
  f_users : validate_t;
  f_bools : validate_t;
  f_levels : validate_t;
  f_cats : validate_t
}.

Fixpoint gap_loop (val_to_name : list (option string)) (todo : nat) (i : Z) (gaps : ebitmap) : M (Z * ebitmap) :=
  match todo with
  | O => mret (0, gaps)
  | S todo =>
     name ← get (aget val_to_name i);
     match name with
     | Some _ => gap_loop val_to_name todo (i + 1) gaps
     | None =>
        '(rc, gaps) ← ebitmap_set_bit gaps i true;
        if nz rc then mret (-1, gaps) else gap_loop val_to_name todo (i + 1) gaps
     end
  end.

Definition create_gap_ebitmap (val_to_name : list (option string)) (nprim : Z) : M (Z * ebitmap) :=
  gap_loop val_to_name (Z.to_nat nprim) 0 ebitmap_init.

Definition validate_init (val_to_name : list (option string)) (nprim : Z) : M (option validate_t) :=
  '(rc, gaps) ← create_gap_ebitmap val_to_name nprim;
  mret (if nz rc then None else Some (Validate nprim gaps)).

(** In the versions 20 to 23 attributes are only in [type_attr_map]. *)
Definition type_gaps (p : policydb) : bool :=
  (policyvers p <? POLICYDB_VERSION_AVTAB) || (policyvers p >? POLICYDB_VERSION_PERMISSIVE).

Definition validate_array_init (p : policydb) : M (option flavors_t) :=
  commons ← validate_init (p_common_val_to_name p) (s_nprim (p_commons p));
  match commons with None => mret None | Some commons =>
  classes ← validate_init (p_class_val_to_name p) (s_nprim (p_classes p));
  match classes with None => mret None | Some classes =>
  roles ← validate_init (p_role_val_to_name p) (s_nprim (p_roles p));
  match roles with None => mret None | Some roles =>
  types ← (if type_gaps p then validate_init (p_type_val_to_name p) (s_nprim (p_types p))
           else mret (Some (Validate (s_nprim (p_types p)) ebitmap_init)));
  match types with None => mret None | Some types =>
  users ← validate_init (p_user_val_to_name p) (s_nprim (p_users p));
  match users with None => mret None | Some users =>
  bools ← validate_init (p_bool_val_to_name p) (p_bools_nprim p);
  match bools with None => mret None | Some bools =>
  levels ← validate_init (p_sens_val_to_name p) (s_nprim (p_levels p));
  match levels with None => mret None | Some levels =>
  cats ← validate_init (p_cat_val_to_name p) (s_nprim (p_cats p));
  match cats with None => mret None | Some cats =>
    mret (Some (Flavors commons classes roles types users bools levels cats))
  end end end end end end end end.

Definition value_isvalid (value nprim : Z) : bool := negb ((value =? 0) || (value >? nprim)).

Definition validate_value (value : Z) (flavor : validate_t) : Z :=
  if (value =? 0) || (value >? vt_nprim flavor) then -1
  else if ebitmap_get_bit (vt_gaps flavor) (u32 (value - 1)) then -1
  else 0.

Definition validate_ebitmap (map : ebitmap) (flavor : validate_t) : Z :=
  if (ebitmap_length map >? 0) && (ebitmap_highest_set_bit map >=? vt_nprim flavor) then -1
  else if ebitmap_match_any map (vt_gaps flavor) then -1
  else 0.

Definition one_of (x : Z) (l : list Z) : bool := bool_decide (x ∈ l).

Definition validate_type_set (s : type_set) (type : validate_t) : option Z :=
  check Some (validate_ebitmap (ts_types s) type) ;;
  check Some (validate_ebitmap (ts_negset s) type) ;;
  require one_of (ts_flags s) [0; TYPE_STAR; TYPE_COMP] ;;
  Some 0.

Definition validate_empty_type_set (s : type_set) : Z :=
  if negb (ebitmap_is_empty (ts_types s)) then -1
  else if negb (ebitmap_is_empty (ts_negset s)) then -1
  else if nz (ts_flags s) then -1
  else 0.

(** ** Constraints *)

Definition PERM_SYMTAB_SIZE : Z := 32.

Definition validate_constraint_expr (nperms : Z) (flavors : flavors_t) (cexp : constraint_expr) : option Z :=
  if ce_expr_type cexp =? CEXPR_NAMES then
    require negb (nz (Z.land (ce_attr cexp) CEXPR_XTARGET) && nz nperms) ;;
    check (if nz (Z.land (ce_attr cexp) CEXPR_TYPE) then Some 0
           else tn ← ce_type_names cexp; Some (validate_empty_type_set tn)) ;;
    require one_of (ce_op cexp) [CEXPR_EQ; CEXPR_NEQ] ;;
    if one_of (ce_attr cexp) [CEXPR_USER; Z.lor CEXPR_USER CEXPR_TARGET; Z.lor CEXPR_USER CEXPR_XTARGET] then
      check Some (validate_ebitmap (ce_names cexp) (f_users flavors)) ;; Some 0
    else if one_of (ce_attr cexp) [CEXPR_ROLE; Z.lor CEXPR_ROLE CEXPR_TARGET; Z.lor CEXPR_ROLE CEXPR_XTARGET] then
      check Some (validate_ebitmap (ce_names cexp) (f_roles flavors)) ;; Some 0
    else if one_of (ce_attr cexp) [CEXPR_TYPE; Z.lor CEXPR_TYPE CEXPR_TARGET; Z.lor CEXPR_TYPE CEXPR_XTARGET] then
      check Some (validate_ebitmap (ce_names cexp) (f_types flavors)) ;;
      tn ← ce_type_names cexp;
      check validate_type_set tn (f_types flavors) ;; Some 0
    else Some (-1)
  else if ce_expr_type cexp =? CEXPR_ATTR then
    require ebitmap_is_empty (ce_names cexp) ;;
    tn ← ce_type_names cexp;
    check Some (validate_empty_type_set tn) ;;
    require one_of (ce_op cexp) [CEXPR_EQ; CEXPR_NEQ] ||
      one_of (ce_op cexp) [CEXPR_DOM; CEXPR_DOMBY; CEXPR_INCOMP] &&
        negb (nz (Z.land (ce_attr cexp) CEXPR_USER) || nz (Z.land (ce_attr cexp) CEXPR_TYPE)) ;;
    require one_of (ce_attr cexp)
      [CEXPR_USER; CEXPR_ROLE; CEXPR_TYPE; CEXPR_L1L2; CEXPR_L1H2; CEXPR_H1L2; CEXPR_H1H2; CEXPR_L1H1; CEXPR_L2H2] ;;
    Some 0
  else
    require one_of (ce_expr_type cexp) [CEXPR_NOT; CEXPR_AND; CEXPR_OR] ;;
    require negb (nz (ce_op cexp)) ;;
    require negb (nz (ce_attr cexp)) ;;
    require ebitmap_is_empty (ce_names cexp) ;;
    tn ← ce_type_names cexp;
    check Some (validate_empty_type_set tn) ;;
    Some 0.

(** [for (x = l; x; x = x->next)] over a validator. *)
Fixpoint validate_all {A} (f : A → option Z) (l : list A) : option Z :=
  match l with
  | [] => Some 0
  | x :: l => check f x ;; validate_all f l
  end.

Definition validate_constraint_node (nperms : Z) (flavors : flavors_t) (cons : constraint_node) : option Z :=
  require negb ((nperms =? 0) && nz (cn_permissions cons)) ;;
  require negb ((nperms >? 0) && (cn_permissions cons =? 0)) ;;
  require negb ((nperms >? 0) && negb (nperms =? PERM_SYMTAB_SIZE) &&
                (cn_permissions cons >=? Z.shiftl 1 nperms)) ;;
  require match cn_expr cons with [] => false | _ => true end ;;
  validate_all (validate_constraint_expr nperms flavors) (cn_expr cons).

Definition validate_constraint_nodes (nperms : Z) (cons : list constraint_node) (flavors : flavors_t) : option Z :=
  validate_all (validate_constraint_node nperms flavors) cons.

(** ** Symbols *)

Definition validate_common_datum (common : common_datum) (flavors : flavors_t) : option Z :=
  check Some (validate_value (cm_value common) (f_commons flavors)) ;;
  require negb (s_nprim (cm_permissions common) >? PERM_SYMTAB_SIZE) ;;
  Some 0.

Definition validate_class_datum (class : class_datum) (flavors : flavors_t) : option Z :=
  check Some (validate_value (cl_value class) (f_classes flavors)) ;;
  check match cl_comdatum class with Some c => validate_common_datum c flavors | None => Some 0 end ;;
  require negb (s_nprim (cl_permissions class) >? PERM_SYMTAB_SIZE) ;;
  check validate_constraint_nodes (s_nprim (cl_permissions class)) (cl_constraints class) flavors ;;
  check validate_constraint_nodes 0 (cl_validatetrans class) flavors ;;
  require one_of (cl_default_user class) [0; DEFAULT_SOURCE; DEFAULT_TARGET] ;;
  require one_of (cl_default_role class) [0; DEFAULT_SOURCE; DEFAULT_TARGET] ;;
  require one_of (cl_default_type class) [0; DEFAULT_SOURCE; DEFAULT_TARGET] ;;
  require one_of (cl_default_range class)
    [0; DEFAULT_SOURCE_LOW; DEFAULT_SOURCE_HIGH; DEFAULT_SOURCE_LOW_HIGH; DEFAULT_TARGET_LOW;
     DEFAULT_TARGET_HIGH; DEFAULT_TARGET_LOW_HIGH; DEFAULT_GLBLUB] ;;
  Some 0.

Definition validate_role_datum (role : role_datum) (flavors : flavors_t) : option Z :=
  check Some (validate_value (rd_value role) (f_roles flavors)) ;;
  check Some (validate_ebitmap (rd_dominates role) (f_roles flavors)) ;;
  check Some (validate_ebitmap (rd_types role) (f_types flavors)) ;;
  check Some (if nz (rd_bounds role) then validate_value (rd_bounds role) (f_roles flavors) else 0) ;;
  Some 0.

Definition validate_simpletype (value : Z) (p : policydb) (flavors : flavors_t) : option Z :=
  check Some (validate_value value (f_types flavors)) ;;
  type ← aget (type_val_to_struct p) (value - 1);
  match type with
  | None => Some (-1)
  | Some type => if td_flavor type =? TYPE_ATTRIB then Some (-1) else Some 0
  end.

Definition TYPE_FLAGS_PERMISSIVE : Z := 1.
Definition TYPE_FLAGS_EXPAND_ATTR_TRUE : Z := 2.
Definition TYPE_FLAGS_EXPAND_ATTR_FALSE : Z := 4.
Definition TYPE_FLAGS_EXPAND_ATTR : Z := Z.lor TYPE_FLAGS_EXPAND_ATTR_TRUE TYPE_FLAGS_EXPAND_ATTR_FALSE.

Definition validate_type_datum (type : type_datum) (p : policydb) (flavors : flavors_t) : option Z :=
  check Some (validate_value (td_value type) (f_types flavors)) ;;
  check Some (if nz (td_primary type) then validate_value (td_primary type) (f_types flavors) else 0) ;;
  check
    (if one_of (td_flavor type) [TYPE_TYPE; TYPE_ALIAS] then
       require ebitmap_is_empty (td_types type) ;;
       check (if nz (td_bounds type) then validate_simpletype (td_bounds type) p flavors else Some 0) ;; Some 0
     else if td_flavor type =? TYPE_ATTRIB then
       check Some (validate_ebitmap (td_types type) (f_types flavors)) ;;
       require negb (nz (td_bounds type)) ;; Some 0
     else Some (-1)) ;;
  require one_of (td_flags type)
    [0; TYPE_FLAGS_PERMISSIVE; TYPE_FLAGS_EXPAND_ATTR_TRUE; TYPE_FLAGS_EXPAND_ATTR_FALSE; TYPE_FLAGS_EXPAND_ATTR] ;;
  Some 0.

Definition validate_mls_level (level : mls_level) (fsens cats : validate_t) : Z :=
  if nz (validate_value (sens level) fsens) then -1
  else if nz (validate_ebitmap (cat level) cats) then -1
  else 0.

Definition validate_level_datum (level : level_datum) (flavors : flavors_t) : Z :=
  validate_mls_level (ld_level level) (f_levels flavors) (f_cats flavors).

Definition validate_mls_range (range : mls_range) (fsens cats : validate_t) : Z :=
  if nz (validate_mls_level (level0 range) fsens cats) then -1
  else if nz (validate_mls_level (level1 range) fsens cats) then -1
  else 0.

Definition validate_user_datum (user : user_datum) (flavors : flavors_t) (p : policydb) : option Z :=
  check Some (validate_value (ud_value user) (f_users flavors)) ;;
  check Some (validate_ebitmap (ud_roles user) (f_roles flavors)) ;;
  check Some (if nz (mls p) && negb (policy_type p =? POLICY_MOD)
              then validate_mls_range (ud_exp_range user) (f_levels flavors) (f_cats flavors) else 0) ;;
  check Some (if nz (mls p) && negb (policy_type p =? POLICY_MOD)
              then validate_mls_level (ud_exp_dfltlevel user) (f_levels flavors) (f_cats flavors) else 0) ;;
  check Some (if nz (ud_bounds user) then validate_value (ud_bounds user) (f_users flavors) else 0) ;;
  Some 0.

Definition COND_BOOL_FLAGS_TUNABLE : Z := 1.

Definition validate_bool_datum (boolean : cond_bool_datum) (flavors : flavors_t) : option Z :=
  check Some (validate_value (cb_value boolean) (f_bools flavors)) ;;
  require one_of (cb_state boolean) [0; 1] ;;
  require one_of (cb_flags boolean) [0; COND_BOOL_FLAGS_TUNABLE] ;;
  Some 0.

(** [for (i = 0; i < nprim; i++)]: an array entry is null exactly in a gap. *)
Fixpoint gaps_match {A} (l : list (option A)) (gaps : ebitmap) (todo : nat) (i : Z) : option Z :=
  match todo with
  | O => Some 0
  | S todo =>
     x ← aget l i;
     if Bool.eqb (bool_decide (is_Some x)) (ebitmap_get_bit gaps i) then Some (-1)
     else gaps_match l gaps todo (i + 1)
  end.

Definition validate_datum_array_gaps (p : policydb) (flavors : flavors_t) : option Z :=
  check gaps_match (class_val_to_struct p) (vt_gaps (f_classes flavors)) (Z.to_nat (s_nprim (p_classes p))) 0 ;;
  check gaps_match (role_val_to_struct p) (vt_gaps (f_roles flavors)) (Z.to_nat (s_nprim (p_roles p))) 0 ;;
  check (if type_gaps p then
           gaps_match (type_val_to_struct p) (vt_gaps (f_types flavors)) (Z.to_nat (s_nprim (p_types p))) 0
         else Some 0) ;;
  check gaps_match (user_val_to_struct p) (vt_gaps (f_users flavors)) (Z.to_nat (s_nprim (p_users p))) 0 ;;
  check gaps_match (bool_val_to_struct p) (vt_gaps (f_bools flavors)) (Z.to_nat (p_bools_nprim p)) 0 ;;
  Some 0.

Definition validate_datum (value nprim : Z) : Z := b2z (negb (value_isvalid value nprim)).

(** A validator as a callback of [hashtab_map]. *)
Definition validate_entries {K V} `{HashKey K} (t : option (hashtab K V)) (f : K → V → option Z) : M Z :=
  '(rc, _) ← hashtab_map t (λ k d s, rc ← get (f k d); mret (rc, s)) tt;
  mret rc.

Definition validate_datum_array_entries (p : policydb) (flavors : flavors_t) : M Z :=
  rc ← validate_entries (s_table (p_commons p)) (λ _ d, validate_common_datum d flavors);
  if nz rc then mret (-1) else
  rc ← validate_entries (s_table (p_classes p)) (λ _ d, validate_class_datum d flavors);
  if nz rc then mret (-1) else
  rc ← validate_entries (s_table (p_roles p)) (λ _ d, validate_role_datum d flavors);
  if nz rc then mret (-1) else
  rc ← validate_entries (s_table (p_types p)) (λ _ d, validate_type_datum d p flavors);
  if nz rc then mret (-1) else
  rc ← validate_entries (s_table (p_users p)) (λ _ d, validate_user_datum d flavors p);
  if nz rc then mret (-1) else
  rc ← (if nz (mls p) then validate_entries (s_table (p_levels p)) (λ _ d, Some (validate_level_datum d flavors))
        else mret 0);
  if nz rc then mret (-1) else
  rc ← validate_entries (s_table (p_cats p)) (λ _ d, Some (validate_datum (cd_value d) (vt_nprim (f_cats flavors))));
  if nz rc then mret (-1) else
  rc ← validate_entries (p_bools_table p) (λ _ d, validate_bool_datum d flavors);
  if nz rc then mret (-1) else mret 0.

(** ** Rules *)

Definition validate_avtab_key (key : avtab_key) (conditional : bool) (p : policydb) (flavors : flavors_t) : option Z :=
  check
    (if (policy_type p =? POLICY_KERN) && nz (Z.land (ak_specified key) AVTAB_TYPE) then
       check validate_simpletype (ak_source_type key) p flavors ;;
       check validate_simpletype (ak_target_type key) p flavors ;; Some 0
     else
       check Some (validate_value (ak_source_type key) (f_types flavors)) ;;
       check Some (validate_value (ak_target_type key) (f_types flavors)) ;; Some 0) ;;
  check Some (validate_value (ak_target_class key) (f_classes flavors)) ;;
  let specified := Z.land 0xFFF (ak_specified key) in
  require one_of specified
      [AVTAB_ALLOWED; AVTAB_AUDITALLOW; AVTAB_AUDITDENY; AVTAB_TRANSITION; AVTAB_MEMBER; AVTAB_CHANGE] ||
    one_of specified [AVTAB_XPERMS_ALLOWED; AVTAB_XPERMS_AUDITALLOW; AVTAB_XPERMS_DONTAUDIT] && negb conditional ;;
  Some 0.

Definition validate_xperms (xperms : avtab_extended_perms) : Z :=
  if one_of (xp_specified xperms) [AVTAB_XPERMS_IOCTLDRIVER; AVTAB_XPERMS_IOCTLFUNCTION] then 0 else -1.

Definition validate_avtab_key_and_datum (k : avtab_key) (d : avtab_datum) (p : policydb) (flavors : flavors_t) :
    option Z :=
  check validate_avtab_key k false p flavors ;;
  check (if nz (Z.land (ak_specified k) AVTAB_TYPE) then validate_simpletype (ad_data d) p flavors else Some 0) ;;
  check (if nz (Z.land (ak_specified k) AVTAB_XPERMS)
         then x ← ad_xperms d; Some (validate_xperms x) else Some 0) ;;
  Some 0.

Definition validate_avtab (a : avtab) (p : policydb) (flavors : flavors_t) : M Z :=
  '(rc, _) ← avtab_map a (λ k d s, rc ← get (validate_avtab_key_and_datum k d p flavors); mret (rc, s)) tt;
  mret (if nz rc then -1 else 0).

(** The nodes [avtab_ptr] runs through from the node at [x]: the rest of its
    chain. *)
Fixpoint suffix_at (x : Z) (c : list avtab_node) : option (list avtab_node) :=
  match c with
  | [] => None
  | n :: next => if an_addr n =? x then Some c else suffix_at x next
  end.

Definition chain_from (a : avtab) (x : Z) : option (list avtab_node) :=
  t ← av_htable a;
  head (omap (suffix_at x) t).

Definition validate_cond_av_list (cond_av : list Z) (p : policydb) (flavors : flavors_t) : option Z :=
  validate_all (λ x,
    c ← chain_from (te_cond_avtab p) x;
    validate_all (λ n, validate_avtab_key (an_key n) true p flavors) c) cond_av.

Definition validate_bool_id_array (bool_ids : list Z) (nbools : Z) (boolean : validate_t) : option Z :=
  require negb (nbools >=? COND_MAX_BOOLS) ;;
  validate_all (λ i, b ← aget bool_ids i; Some (validate_value b boolean)) (seqZ 0 nbools).

(** [depth] counts from -1. *)
Fixpoint cond_expr_depth (expr : list cond_expr) (boolean : validate_t) (depth : Z) : option Z :=
  match expr with
  | [] => if depth =? 0 then Some 0 else Some (-1)
  | e :: expr =>
     if ce_type e =? COND_BOOL then
       check Some (validate_value (ce_bool e) boolean) ;;
       require negb (depth =? COND_EXPR_MAXDEPTH - 1) ;;
       cond_expr_depth expr boolean (depth + 1)
     else if ce_type e =? COND_NOT then
       require negb (depth <? 0) ;;
       cond_expr_depth expr boolean depth
     else if one_of (ce_type e) [COND_OR; COND_AND; COND_XOR; COND_EQ; COND_NEQ] then
       require negb (depth <? 1) ;;
       cond_expr_depth expr boolean (depth - 1)
     else Some (-1)
  end.

Definition validate_cond_expr (expr : list cond_expr) (boolean : validate_t) : option Z :=
  require match expr with [] => false | _ => true end ;;
  cond_expr_depth expr boolean (-1).

Definition COND_NODE_FLAGS_TUNABLE : Z := 1.

Definition validate_cond_list (cond : list cond_node) (p : policydb) (flavors : flavors_t) : option Z :=
  validate_all (λ c,
    check validate_cond_expr (cn_cond c) (f_bools flavors) ;;
    check validate_cond_av_list (cn_true c) p flavors ;;
    check validate_cond_av_list (cn_false c) p flavors ;;
    check validate_bool_id_array (cn_bool_ids c) (cn_nbools c) (f_bools flavors) ;;
    require one_of (cn_cur_state c) [0; 1] ;;
    require one_of (cn_flags c) [0; COND_NODE_FLAGS_TUNABLE] ;;
    Some 0) cond.

Definition validate_role_transes (role_trans : list role_trans) (flavors : flavors_t) : option Z :=
  validate_all (λ t,
    check Some (validate_value (rt_role t) (f_roles flavors)) ;;
    check Some (validate_value (rt_type t) (f_types flavors)) ;;
    check Some (validate_value (rt_tclass t) (f_classes flavors)) ;;
    check Some (validate_value (rt_new_role t) (f_roles flavors)) ;;
    Some 0) role_trans.

Definition validate_role_allows (role_allow : list role_allow) (flavors : flavors_t) : option Z :=
  validate_all (λ a,
    check Some (validate_value (ra_role a) (f_roles flavors)) ;;
    check Some (validate_value (ra_new_role a) (f_roles flavors)) ;;
    Some 0) role_allow.

Definition validate_filename_trans (k : filename_trans_key) (d : list filename_trans_datum) (flavors : flavors_t) :
    option Z :=
  check Some (validate_value (ft_ttype k) (f_types flavors)) ;;
  check Some (validate_value (ft_tclass k) (f_classes flavors)) ;;
  require match d with [] => false | _ => true end ;;
  validate_all (λ ftd,
    check Some (validate_ebitmap (ft_stypes ftd) (f_types flavors)) ;;
    check Some (validate_value (ft_otype ftd) (f_types flavors)) ;;
    Some 0) d.

Definition validate_filename_trans_hashtab (t : option (hashtab filename_trans_key (list filename_trans_datum)))
    (flavors : flavors_t) : M Z :=
  rc ← validate_entries t (λ k d, validate_filename_trans k d flavors);
  mret (if nz rc then -1 else 0).

(** ** Object contexts *)

Definition validate_context (con : context_struct) (flavors : flavors_t) (mls : Z) : Z :=
  if nz (validate_value (c_user con) (f_users flavors)) then -1
  else if nz (validate_value (c_role con) (f_roles flavors)) then -1
  else if nz (validate_value (c_type con) (f_types flavors)) then -1
  else if nz mls && nz (validate_mls_range (c_range con) (f_levels flavors) (f_cats flavors)) then -1
  else 0.

Definition SEPOL_TARGET_SELINUX : Z := 0.
Definition SEPOL_TARGET_XEN : Z := 1.
Definition OCON_NUM : Z := 9.
Definition SECURITY_FS_USE_XATTR : Z := 1.
Definition SECURITY_FS_USE_TRANS : Z := 2.
Definition SECURITY_FS_USE_TASK : Z := 3.

(** The fields of the union are those of the list [i]. *)
Definition validate_ocontext (i : Z) (p : policydb) (flavors : flavors_t) (octx : ocontext) : option Z :=
  check Some (validate_context (oc_context0 octx) flavors (mls p)) ;;
  if target_platform p =? SEPOL_TARGET_SELINUX then
    if one_of i [OCON_FS; OCON_NETIF] then
      check Some (validate_context (oc_context1 octx) flavors (mls p)) ;; Some 0
    else if i =? OCON_PORT then
      match oc_key octx with
      | OPort _ low_port high_port => require negb (low_port >? high_port) ;; Some 0
      | _ => None
      end
    else if i =? OCON_FSUSE then
      require one_of (oc_v octx) [SECURITY_FS_USE_XATTR; SECURITY_FS_USE_TRANS; SECURITY_FS_USE_TASK] ;; Some 0
    else Some 0
  else Some 0.

Definition validate_ocontexts (p : policydb) (flavors : flavors_t) : option Z :=
  validate_all (λ i, l ← aget (ocontexts p) i; validate_all (validate_ocontext i p flavors) l) (seqZ 0 OCON_NUM).

Definition validate_genfs (p : policydb) (flavors : flavors_t) : option Z :=
  validate_all (λ g, validate_all (λ octx,
    check Some (validate_context (oc_context0 octx) flavors (mls p)) ;;
    check Some (if nz (oc_v octx) then validate_value (oc_v octx) (f_classes flavors) else 0) ;;
    Some 0) (gf_head g)) (p_genfs p).

(** ** The policy *)

Definition validate_permissives (p : policydb) (flavors : flavors_t) : option Z :=
  bits ← ebitmap_for_each_positive_bit (permissive_map p);
  validate_all (λ i, validate_simpletype i p flavors) bits.

Definition validate_range_transition (rt : range_trans) (r : mls_range) (flavors : flavors_t) : option Z :=
  check Some (validate_value (rt_source_type rt) (f_types flavors)) ;;
  check Some (validate_value (rt_target_type rt) (f_types flavors)) ;;
  check Some (validate_value (rt_target_class rt) (f_classes flavors)) ;;
  check Some (validate_mls_range r (f_levels flavors) (f_cats flavors)) ;;
  Some 0.

Definition validate_range_transitions (p : policydb) (flavors : flavors_t) : M Z :=
  rc ← validate_entries (range_tr p) (λ k r, validate_range_transition k r flavors);
  mret (if nz rc then -1 else 0).

Definition validate_typeattr_map (p : policydb) (flavors : flavors_t) : option Z :=
  validate_all (λ i, e ← aget (type_attr_map p) i; Some (validate_ebitmap e (f_types flavors)))
    (seqZ 0 (s_nprim (p_types p))).

Definition POLICYDB_VERSION_MIN : Z := 15.
Definition POLICYDB_VERSION_MAX : Z := 33.
Definition POLICYDB_VERSION_BOOL : Z := 16.
Definition POLICYDB_VERSION_FILENAME_TRANS : Z := 25.
Definition SEPOL_DENY_UNKNOWN : Z := 0.
Definition SEPOL_REJECT_UNKNOWN : Z := 2.
Definition SEPOL_ALLOW_UNKNOWN : Z := 4.

Definition validate_properties (p : policydb) : Z :=
  if (policyvers p <? POLICYDB_VERSION_MIN) || (policyvers p >? POLICYDB_VERSION_MAX) then -1
  else if negb (one_of (target_platform p) [SEPOL_TARGET_SELINUX; SEPOL_TARGET_XEN]) then -1
  else if negb (one_of (mls p) [0; 1]) then -1
  else if negb (one_of (handle_unknown p) [SEPOL_DENY_UNKNOWN; SEPOL_REJECT_UNKNOWN; SEPOL_ALLOW_UNKNOWN]) then -1
  else 0.

(** The checks of [policydb_validate] once the flavors are there. *)
Definition validate_parts (p : policydb) (flavors : flavors_t) : M Z :=
  if nz (validate_properties p) then mret (-1) else
  rc ← validate_avtab (te_avtab p) p flavors;
  if nz rc then mret (-1) else
  rc ← get (if policyvers p >=? POLICYDB_VERSION_BOOL then validate_cond_list (cond_list p) p flavors else Some 0);
  if nz rc then mret (-1) else
  rc ← get (validate_role_transes (role_tr p) flavors);
  if nz rc then mret (-1) else
  rc ← get (validate_role_allows (p_role_allow p) flavors);
  if nz rc then mret (-1) else
  rc ← (if policyvers p >=? POLICYDB_VERSION_FILENAME_TRANS
        then validate_filename_trans_hashtab (filename_trans p) flavors else mret 0);
  if nz rc then mret (-1) else
  rc ← get (validate_ocontexts p flavors);
  if nz rc then mret (-1) else
  rc ← get (validate_genfs p flavors);
  if nz rc then mret (-1) else
  rc ← get (validate_datum_array_gaps p flavors);
  if nz rc then mret (-1) else
  rc ← validate_datum_array_entries p flavors;
  if nz rc then mret (-1) else
  rc ← get (validate_permissives p flavors);
  if nz rc then mret (-1) else
  rc ← validate_range_transitions p flavors;
  if nz rc then mret (-1) else
  rc ← get (if policyvers p >=? POLICYDB_VERSION_AVTAB then validate_typeattr_map p flavors else Some 0);
  if nz rc then mret (-1) else mret 0.

(** For a kernel policy. *)
Definition policydb_validate (p : policydb) : M Z :=
  f ← validate_array_init p;
  match f with
  | None => mret (-1)
  | Some flavors => validate_parts p flavors
  end.
