(* ===== verification/ValidateFacts.v ===== *)
(** * Facts about the validation of policies

    What it means for the parts of a policy to be valid, and that the validators
    decide it. *)

From S2P Require Import Prelude Ebitmap EbitmapFacts EbitmapIter EbitmapSpec Hashtab HashtabFacts Avtab AvtabFacts Mls.
From S2P Require Import Policydb MlsPolicy MlsFacts Conditional ConditionalFacts Context Rpn Constraint ConstraintFacts.
From S2P Require Import ConstraintSpec ObjectSid Optimize Validate.

#[local] Open Scope validate_scope.

(** ** Validators decide *)

(** The validator returns, 0 exactly if [Q] holds. *)
Definition tests (r : option Z) (Q : Prop) : Prop := ∃ rc, r = Some rc ∧ (rc = 0 ∧ Q ∨ rc ≠ 0 ∧ ¬ Q).

Lemma tests_pure z (Q : Prop) : (z = 0 ↔ Q) → tests (Some z) Q.
Proof. intros H. exists z. split; [done|]. destruct (decide (z = 0)); [left|right]; tauto. Qed.

Lemma tests_iff r (Q Q' : Prop) : (Q ↔ Q') → tests r Q → tests r Q'.
Proof. intros H (rc & E & ?). exists rc. split; [done|]. tauto. Qed.

Lemma tests_ok : tests (Some 0) True.
Proof. by apply tests_pure. Qed.

Lemma tests_bad (Q : Prop) : ¬ Q → tests (Some (-1)) Q.
Proof. intros H. by apply tests_pure. Qed.

Lemma tests_check f k (Q R : Prop) : tests f Q → (Q → tests k R) → tests (check f ;; k) (Q ∧ R).
Proof.
  intros (rc & -> & [[-> HQ]|[Hne HQ]]) Hk; cbn [mbind option_bind].
  - destruct (Hk HQ) as (rc & -> & H). exists rc. split; [done|]. tauto.
  - unfold nz. rewrite (proj2 (Z.eqb_neq _ _)) by done. by apply tests_bad; intros [? _].
Qed.

Lemma tests_check_last f (Q : Prop) : tests f Q → tests (check f ;; Some 0) Q.
Proof. intros H. eapply tests_iff; [|apply (tests_check f (Some 0) Q True H); intros _; apply tests_ok]. tauto. Qed.

Lemma tests_require (b : bool) k (Q R : Prop) : (b = true ↔ Q) → (Q → tests k R) → tests (require b ;; k) (Q ∧ R).
Proof. intros Hb Hk. destruct b; [|apply tests_bad; intros [HQ _]; by apply Hb in HQ]. eapply tests_iff; [|apply Hk; by apply Hb]. tauto. Qed.

Lemma tests_require_last (b : bool) (Q : Prop) : (b = true ↔ Q) → tests (require b ;; Some 0) Q.
Proof. intros Hb. eapply tests_iff; [|apply (tests_require b (Some 0) Q True Hb); intros _; apply tests_ok]. tauto. Qed.

Lemma tests_get {A} (o : option A) x f (Q : Prop) : o = Some x → tests (f x) Q → tests (mbind f o) Q.
Proof. by intros ->. Qed.

Lemma tests_all {A} (f : A → option Z) (l : list A) (Q : A → Prop) :
  (∀ x, x ∈ l → tests (f x) (Q x)) → tests (validate_all f l) (Forall Q l).
Proof.
  induction l as [|x l IH]; intros H; cbn [validate_all]; [eapply tests_iff; [|apply tests_ok]; by rewrite Forall_nil|].
  eapply tests_iff; [symmetry; apply Forall_cons|]. apply tests_check; [apply H; left|]. intros _. apply IH. intros y Hy. apply H. by right.
Qed.

Lemma one_of_spec x l : one_of x l = true ↔ x ∈ l.
Proof. apply bool_decide_eq_true. Qed.

Create HintDb tests.
#[export] Hint Resolve tests_ok tests_pure one_of_spec : tests.

(** Walk through a chain of checks. *)
Ltac tests_step :=
  lazymatch goal with
  | |- tests (check _ ;; Some 0) _ => apply tests_check_last
  | |- tests (check _ ;; _) (_ ∧ _) => apply tests_check; [|intros ?]
  | |- tests (require _ ;; Some 0) _ => apply tests_require_last
  | |- tests (require _ ;; _) (_ ∧ _) => apply tests_require; [|intros ?]
  end.

(** The same for programs. *)
Definition tests_m (m : M Z) (Q : Prop) : Prop := ∀ h, ∃ rc, m h = Some (rc, h) ∧ (rc = 0 ∧ Q ∨ rc ≠ 0 ∧ ¬ Q).

Lemma tests_m_get r (Q : Prop) : tests r Q → tests_m (get r) Q.
Proof. intros (rc & -> & H) h. by exists rc. Qed.

Lemma tests_m_then m k (Q R : Prop) :
  tests_m m Q → (Q → tests_m k R) → tests_m (rc ← m; if nz rc then mret (-1) else k) (Q ∧ R).
Proof.
  intros Hm Hk h. destruct (Hm h) as (rc & E & H). rewrite (bind_run _ _ _ _ _ E). destruct H as [[-> HQ]|[Hne HQ]].
  - destruct (Hk HQ h) as (rc & E2 & ?). exists rc. split; [exact E2|]. tauto.
  - unfold nz. rewrite (proj2 (Z.eqb_neq _ _)) by done. exists (-1). split; [done|]. right. by split; [|intros [? _]].
Qed.

Lemma tests_m_iff m (Q Q' : Prop) : (Q ↔ Q') → tests_m m Q → tests_m m Q'.
Proof. intros H Hm h. destruct (Hm h) as (rc & E & ?). exists rc. split; [done|]. tauto. Qed.

Lemma tests_m_last m (Q : Prop) : tests_m m Q → tests_m (rc ← m; if nz rc then mret (-1) else mret 0) Q.
Proof.
  intros Hm. eapply tests_m_iff; [|apply (tests_m_then m (mret 0) Q True Hm); intros _ h; exists 0; by split; [|left]]. tauto.
Qed.

Lemma tests_m_norm m (Q : Prop) : tests_m m Q → tests_m (rc ← m; mret (if nz rc then -1 else 0)) Q.
Proof.
  intros Hm h. destruct (Hm h) as (rc & E & H). rewrite (bind_run _ _ _ _ _ E). unfold nz.
  destruct (Z.eqb_spec rc 0) as [->|Hne]; simpl; [exists 0|exists (-1)]; (split; [done|]); [left|right]; (split; [done|]); tauto.
Qed.

Section entries.
Context {K V : Type} `{HashKeyLaws K}.

(** What a symbol table holds. *)
Definition all_entries (t : option (hashtab K V)) (Q : K → V → Prop) : Prop :=
  ∀ h, t = Some h → Forall (λ e, Q e.1 e.2) (concat (ht_table h)).

Lemma validate_chain f (l : list (K * V)) (Q : K → V → Prop) h :
  (∀ e, e ∈ l → tests (f e.1 e.2) (Q e.1 e.2)) →
  ∃ rc, map_chain (λ k d s, rc ← get (f k d); mret (rc, s)) l tt h = Some ((rc, tt), h) ∧
    (rc = 0 ∧ Forall (λ e, Q e.1 e.2) l ∨ rc ≠ 0 ∧ ¬ Forall (λ e, Q e.1 e.2) l).
Proof.
  induction l as [|e l IH]; intros Hl; cbn [map_chain]; [exists 0; split; [done|]; left; by split|].
  destruct (Hl e) as (rc & E & Hrc); [left|]. rewrite E. rewrite !(bind_run _ _ (rc, ()) h h) by done. cbn [fst snd].
  destruct Hrc as [[-> HQ]|[Hne HQ]].
  - cbn [nz Z.eqb negb]. destruct IH as (rc & -> & Hr); [intros e' He'; apply Hl; by right|]. exists rc. split; [done|].
    rewrite Forall_cons. tauto.
  - unfold nz. rewrite (proj2 (Z.eqb_neq _ _)) by done. exists rc. split; [done|]. right. rewrite Forall_cons. tauto.
Qed.

Lemma validate_entries_spec (t : option (hashtab K V)) f (Q : K → V → Prop) :
  (∀ h, t = Some h → hwf h) → all_entries t (λ k v, tests (f k v) (Q k v)) →
  tests_m (validate_entries t f) (all_entries t Q).
Proof.
  intros Hw Hl h. unfold validate_entries, all_entries in *. destruct t as [t|].
  - assert (∀ e, e ∈ concat (ht_table t) → tests (f e.1 e.2) (Q e.1 e.2)) as Ht.
    { specialize (Hl t eq_refl). by rewrite Forall_forall in Hl. }
    destruct (validate_chain f (concat (ht_table t)) Q h Ht) as (rc & E & Hr).
    rewrite <- (map_spec _ t) in E by by apply Hw. rewrite (bind_run _ _ _ _ _ E). exists rc. split; [done|].
    destruct Hr as [[-> HQ]|[Hne HQ]]; [left|right]; (split; [done|]); [by intros ? [= <-]|]. intros H'. by apply HQ, H'.
  - exists 0. split; [done|]. left. by split.
Qed.
End entries.

(** ** Symbols and sets of symbols *)

(** The value [v] has a name. *)
Definition named (names : list (option string)) (nprim v : Z) : Prop :=
  1 ≤ v ≤ nprim ∧ ∃ s, names !! Z.to_nat (v - 1) = Some (Some s).

Definition common_sym (p : policydb) : Z → Prop := named (p_common_val_to_name p) (s_nprim (p_commons p)).
Definition class_sym (p : policydb) : Z → Prop := named (p_class_val_to_name p) (s_nprim (p_classes p)).
Definition role_sym (p : policydb) : Z → Prop := named (p_role_val_to_name p) (s_nprim (p_roles p)).
Definition user_sym (p : policydb) : Z → Prop := named (p_user_val_to_name p) (s_nprim (p_users p)).
Definition bool_sym (p : policydb) : Z → Prop := named (p_bool_val_to_name p) (p_bools_nprim p).
Definition sens_sym (p : policydb) : Z → Prop := named (p_sens_val_to_name p) (s_nprim (p_levels p)).
Definition cat_sym (p : policydb) : Z → Prop := named (p_cat_val_to_name p) (s_nprim (p_cats p)).

(** Attributes of the versions 20 to 23 have no name. *)
Definition type_sym (p : policydb) (v : Z) : Prop :=
  1 ≤ v ≤ s_nprim (p_types p) ∧
  (type_gaps p = true → ∃ s, p_type_val_to_name p !! Z.to_nat (v - 1) = Some (Some s)).

(** Bit [i] of a set stands for the value [i + 1]. *)
Definition set_of (S : Z → Prop) (e : ebitmap) : Prop := ∀ i, ebitmap_get_bit e i = true → S (i + 1).

(** A flavor describes the values [S]. *)
Record flavor_ok (f : validate_t) (S : Z → Prop) : Prop := {
  fl_range : 0 ≤ vt_nprim f < 2 ^ 32;
  fl_wf : wf (vt_gaps f);
  fl_values v : S v ↔ 1 ≤ v ≤ vt_nprim f ∧ ebitmap_get_bit (vt_gaps f) (v - 1) = false
}.

Lemma validate_value_spec v f S : flavor_ok f S → 0 ≤ v → validate_value v f = 0 ↔ S v.
Proof.
  intros [Hr _ Hv] H0. rewrite Hv. unfold validate_value.
  destruct (Z.eqb_spec v 0) as [->|]; cbn [orb]; [split; [done|lia]|]. rewrite Z.gtb_ltb.
  destruct (Z.ltb_spec (vt_nprim f) v); [split; [done|lia]|]. rewrite u32_id by lia.
  destruct (ebitmap_get_bit (vt_gaps f) (v - 1)); split; try done; try lia.
Qed.

Lemma empty_bits e : wf e → ebitmap_is_empty e = true ↔ e = ebitmap_init.
Proof.
  intros Hw. split; [|by intros ->]. intros He%Z.eqb_eq. apply (wf_ext e ebitmap_init Hw wf_init). intros i Hi.
  destruct (ebitmap_get_bit e i) eqn:Hb; [apply (get_bit_range _ _ Hw) in Hb; lia|].
  unfold ebitmap_get_bit. simpl. by case_match.
Qed.

Lemma validate_ebitmap_spec e f S : flavor_ok f S → wf e → validate_ebitmap e f = 0 ↔ set_of S e.
Proof.
  intros [Hr Hg Hv] He. unfold validate_ebitmap, ebitmap_length.
  assert (∀ i, ebitmap_get_bit e i = true → 0 ≤ i < 2 ^ 32) as Hrange by (intros i; by apply wf_bit_range).
  assert ((e_highbit e >? 0) && (ebitmap_highest_set_bit e >=? vt_nprim f) = true ↔
    ∃ i, ebitmap_get_bit e i = true ∧ vt_nprim f ≤ i) as Hhigh.
  { destruct (decide (e_node e = [])) as [Hn|Hn].
    - assert (e_highbit e = 0) as -> by (destruct He as [_ ->]; by rewrite Hn). split; [done|]. intros (i & Hi & _).
      unfold ebitmap_get_bit in Hi. rewrite Hn in Hi. simpl in Hi. by case_match.
    - destruct (highest_set_bit_spec e He Hn) as (Hb & Hset & Hlast). rewrite andb_true_iff, Z.geb_le, Z.gtb_lt. split.
      + intros [_ H]. by exists (ebitmap_highest_set_bit e).
      + intros (i & Hi & Hle). pose proof (get_bit_range _ _ He Hset). split; [lia|].
        destruct (decide (i ≤ ebitmap_highest_set_bit e)); [lia|]. rewrite Hlast in Hi; [done|]. specialize (Hrange i Hi). lia. }
  destruct ((e_highbit e >? 0) && _) eqn:E.
  { split; [done|]. intros H. destruct (proj1 Hhigh eq_refl) as (i & Hi & Hle). apply H, Hv in Hi. lia. }
  destruct (ebitmap_match_any e (vt_gaps f)) eqn:Em.
  { split; [done|]. intros H. apply match_any_overlap in Em as (i & Hi & H1 & H2); [|done..]. apply H, Hv in H1 as [_ H1].
    by rewrite Z.add_simpl_r, H2 in H1. }
  split; [intros _|done]. intros i Hi. apply Hv. rewrite Z.add_simpl_r. split.
  - specialize (Hrange i Hi). split; [lia|]. destruct (decide (i < vt_nprim f)); [lia|].
    assert (false = true); [|done]. apply Hhigh. exists i. split; [done|lia].
  - destruct (ebitmap_get_bit (vt_gaps f) i) eqn:Hgap; [|done]. assert (false = true); [|done]. rewrite <- Em.
    apply match_any_overlap; [done..|]. by exists i; split; [apply Hrange|].
Qed.

(** ** The flavors *)

(** So many symbols that the bitmap of gaps has no bits for the last. *)
Definition crowded (names : list (option string)) : Prop := 2 ^ 32 - 64 ≤ Z.of_nat (length names).

Lemma gap_loop_spec names todo i gaps h :
  wf gaps → 0 ≤ i → i + Z.of_nat todo ≤ Z.of_nat (length names) → i + Z.of_nat todo ≤ 2 ^ 32 →
  wp (gap_loop names todo i gaps) h (λ r h', heap_le h h' ∧
    ((r.1 = 0 ∧ wf r.2 ∧ ∀ j, 0 ≤ j < 2 ^ 32 →
        (ebitmap_get_bit r.2 j = true ↔ ebitmap_get_bit gaps j = true ∨ i ≤ j < i + Z.of_nat todo ∧ names !! Z.to_nat j = Some None)) ∨
     (r.1 = -1 ∧ (hp_oom h ≠ [] ∨ crowded names)))).
Proof.
  revert i gaps h. induction todo as [|todo IH]; intros i gaps h Hg Hi Hl Hr; cbn [gap_loop].
  { wp_step. split; [done|]. left. split; [done|]. split; [done|]. intros j Hj. simpl. split; [by left|]. intros [?|[? _]]; [done|lia]. }
  unfold aget. rewrite (proj2 (Z.ltb_ge _ _)) by lia. destruct (lookup_lt_is_Some_2 names (Z.to_nat i)) as [o Ho]; [lia|]. rewrite Ho. do 2 wp_step.
  destruct o as [s|].
  - eapply wp_mono; [apply IH; [done|lia|lia|lia]|]. intros r h' [Hle [(H1 & H2 & H3)|?]]; (split; [done|]); [left|by right].
    split; [done|]. split; [done|]. intros j Hj. rewrite (H3 j Hj). split; (intros [?|[Hij Hn]]; [by left|right]).
    + split; [lia|done].
    + split; [|done]. destruct (decide (j = i)) as [->|]; [congruence|lia].
  - wp_step. eapply wp_mono; [apply set_bit_spec; [done|lia]|]. intros [rc g] h1 (Hle1 & Hw1 & Hcase). cbn [fst snd] in *.
    destruct Hcase as [(-> & _ & Hbits)|[[[= -> ->] Hbig]|([= -> ->] & _ & Ho1)]].
    + cbn [nz Z.eqb negb]. eapply wp_mono; [apply IH; [done|lia|lia|lia]|]. intros r h' [Hle [(H1 & H2 & H3)|[H1 H2]]].
      * split; [by etrans|]. left. split; [done|]. split; [done|]. intros j Hj. rewrite (H3 j Hj), Hbits by done.
        destruct (Z.eqb_spec j i) as [->|Hne]; [split; [intros _; right; split; [lia|done]|by left]|].
        split; (intros [?|[Hij Hn]]; [by left|right; split; [lia|done]]).
      * split; [by etrans|]. right. split; [done|]. destruct H2; [left|by right]. by eapply heap_le_oom.
    + change (nz (- EINVAL)) with true. cbn iota. wp_step. split; [done|]. right. split; [done|]. right. unfold crowded. lia.
    + change (nz (- ENOMEM)) with true. cbn iota. wp_step. split; [done|]. right. by split; [|left].
Qed.

(** The array of names is there. *)
Definition names_data (names : list (option string)) (nprim : Z) : Prop :=
  0 ≤ nprim < 2 ^ 32 ∧ Z.of_nat (length names) = nprim.

(** A program that allocates: a value, or [None] if memory ran out or for [F]. *)
Definition gives_or_fails {A} (m : M (option A)) (h : heap) (F : Prop) (Q : A → Prop) : Prop :=
  wp m h (λ r h', heap_le h h' ∧ match r with Some x => Q x | None => hp_oom h ≠ [] ∨ F end).

Lemma validate_init_spec names nprim h :
  names_data names nprim →
  gives_or_fails (validate_init names nprim) h (crowded names) (λ f, flavor_ok f (named names nprim) ∧ vt_nprim f = nprim).
Proof.
  intros [Hr Hl]. unfold gives_or_fails, validate_init, create_gap_ebitmap. wp_step.
  eapply wp_mono; [apply gap_loop_spec; [apply wf_init|lia|lia|lia]|]. intros [rc g] h' [Hle [(H1 & Hw & Hb)|[H1 H2]]]; cbn [fst snd] in *; subst rc.
  - cbn [nz Z.eqb negb]. wp_step. split; [done|]. split; [|done]. split; [done|done|]. intros v. simpl. unfold named.
    split; (intros [Hv Hs]; split; [done|]).
    + destruct Hs as [s Hs]. destruct (ebitmap_get_bit g (v - 1)) eqn:E; [|done]. apply Hb in E as [E|[_ E]]; [| |lia]; [|congruence].
      unfold ebitmap_get_bit in E. simpl in E. by case_match.
    + destruct (lookup_lt_is_Some_2 names (Z.to_nat (v - 1))) as [[s|] Ho]; [lia|by exists s|].
      rewrite (proj2 (Hb (v - 1) ltac:(lia))) in Hs; [done|]. right. split; [lia|done].
  - change (nz (-1)) with true. cbn iota. wp_step. by split.
Qed.

Lemma gives_bind_or_fail {A B} (m : M (option A)) (k : A → M (option B)) h (F G : Prop) (Q : A → Prop) (R : B → Prop) :
  gives_or_fails m h F Q → (F → G) → (∀ x h', Q x → gives_or_fails (k x) h' G R) →
  gives_or_fails (r ← m; match r with None => mret None | Some x => k x end) h G R.
Proof.
  intros Hm HG Hk. unfold gives_or_fails in *. apply wp_bind. eapply wp_mono; [exact Hm|]. intros [x|] h1 [Hle Hx]; [|wp_step; tauto].
  eapply wp_mono; [by apply Hk|]. intros r h2 [Hle2 Hr]. split; [by etrans|]. destruct r; [done|].
  destruct Hr; [left|by right]. by eapply heap_le_oom.
Qed.

Record flavors_ok (p : policydb) (f : flavors_t) : Prop := {
  fo_commons : flavor_ok (f_commons f) (common_sym p);
  fo_classes : flavor_ok (f_classes f) (class_sym p);
  fo_roles : flavor_ok (f_roles f) (role_sym p);
  fo_types : flavor_ok (f_types f) (type_sym p);
  fo_users : flavor_ok (f_users f) (user_sym p);
  fo_bools : flavor_ok (f_bools f) (bool_sym p);
  fo_levels : flavor_ok (f_levels f) (sens_sym p);
  fo_cats : flavor_ok (f_cats f) (cat_sym p);
  fs_classes : vt_nprim (f_classes f) = s_nprim (p_classes p);
  fs_roles : vt_nprim (f_roles f) = s_nprim (p_roles p);
  fs_types : vt_nprim (f_types f) = s_nprim (p_types p);
  fs_users : vt_nprim (f_users f) = s_nprim (p_users p);
  fs_bools : vt_nprim (f_bools f) = p_bools_nprim p;
  fs_cats : vt_nprim (f_cats f) = s_nprim (p_cats p)
}.

(** The arrays of names have the sizes of their symbol tables. *)
Record arrays_data (p : policydb) : Prop := {
  ar_commons : names_data (p_common_val_to_name p) (s_nprim (p_commons p));
  ar_classes : names_data (p_class_val_to_name p) (s_nprim (p_classes p));
  ar_roles : names_data (p_role_val_to_name p) (s_nprim (p_roles p));
  ar_types : names_data (p_type_val_to_name p) (s_nprim (p_types p));
  ar_users : names_data (p_user_val_to_name p) (s_nprim (p_users p));
  ar_bools : names_data (p_bool_val_to_name p) (p_bools_nprim p);
  ar_levels : names_data (p_sens_val_to_name p) (s_nprim (p_levels p));
  ar_cats : names_data (p_cat_val_to_name p) (s_nprim (p_cats p));
  ar_class_structs : Z.of_nat (length (class_val_to_struct p)) = s_nprim (p_classes p);
  ar_role_structs : Z.of_nat (length (role_val_to_struct p)) = s_nprim (p_roles p);
  ar_type_structs : Z.of_nat (length (type_val_to_struct p)) = s_nprim (p_types p);
  ar_user_structs : Z.of_nat (length (user_val_to_struct p)) = s_nprim (p_users p);
  ar_bool_structs : Z.of_nat (length (bool_val_to_struct p)) = p_bools_nprim p;
  ar_type_maps : Z.of_nat (length (type_attr_map p)) = s_nprim (p_types p);
  ar_ocontexts : Z.of_nat (length (ocontexts p)) = OCON_NUM
}.

Lemma flavor_ext f S S' : (∀ v, S v ↔ S' v) → flavor_ok f S → flavor_ok f S'.
Proof. intros HS [H1 H2 H3]. split; [done|done|]. intros v. by rewrite <- HS. Qed.

Lemma validate_types_spec p h :
  arrays_data p →
  gives_or_fails (if type_gaps p then validate_init (p_type_val_to_name p) (s_nprim (p_types p))
                  else mret (Some (Validate (s_nprim (p_types p)) ebitmap_init))) h
    (crowded (p_type_val_to_name p)) (λ f, flavor_ok f (type_sym p) ∧ vt_nprim f = s_nprim (p_types p)).
Proof.
  intros Ha. unfold type_sym. destruct (type_gaps p) eqn:E.
  - eapply wp_mono; [apply validate_init_spec, Ha|]. intros [f|] h' [Hle Hf]; (split; [done|]); [|done].
    destruct Hf as [Hf Hn]. split; [|done]. eapply flavor_ext; [|exact Hf]. intros v. unfold named. split; intros [? H]; (split; [done|]); [done|]. by apply H.
  - unfold gives_or_fails. wp_step. split; [done|]. split; [|done]. split; [apply (ar_types p Ha)|apply wf_init|]. intros v. simpl. split; intros [? _]; (split; [done|]); [|done].
    unfold ebitmap_get_bit. simpl. by case_match.
Qed.

Definition crowded_policy (p : policydb) : Prop :=
  Exists crowded [p_common_val_to_name p; p_class_val_to_name p; p_role_val_to_name p; p_type_val_to_name p;
                  p_user_val_to_name p; p_bool_val_to_name p; p_sens_val_to_name p; p_cat_val_to_name p].

Lemma validate_array_init_spec p h :
  arrays_data p → gives_or_fails (validate_array_init p) h (crowded_policy p) (λ f, flavors_ok p f).
Proof.
  intros Ha. unfold validate_array_init.
  do 3 (eapply gives_bind_or_fail; [apply validate_init_spec, Ha|unfold crowded_policy; rewrite !Exists_cons; tauto|]; intros ? ? [? ?]).
  eapply gives_bind_or_fail; [by apply validate_types_spec|unfold crowded_policy; rewrite !Exists_cons; tauto|]. intros ? ? [? ?].
  do 4 (eapply gives_bind_or_fail; [apply validate_init_spec, Ha|unfold crowded_policy; rewrite !Exists_cons; tauto|]; intros ? ? [? ?]).
  unfold gives_or_fails. wp_step. split; [done|]. by split.
Qed.

(** ** Constraints *)

Definition type_set_data (s : type_set) : Prop := wf (ts_types s) ∧ wf (ts_negset s).

Definition cexpr_data (e : constraint_expr) : Prop :=
  wf (ce_names e) ∧ ∃ ts, ce_type_names e = Some ts ∧ type_set_data ts.

Definition cnode_data (c : constraint_node) : Prop :=
  0 ≤ cn_permissions c < 2 ^ 32 ∧ Forall cexpr_data (cn_expr c).

Definition valid_type_set (p : policydb) (s : type_set) : Prop :=
  set_of (type_sym p) (ts_types s) ∧ set_of (type_sym p) (ts_negset s) ∧ ts_flags s ∈ [0; TYPE_STAR; TYPE_COMP].

Definition field_sym (p : policydb) (f : field) : Z → Prop :=
  match f with FUser => user_sym p | FRole => role_sym p | FType => type_sym p end.

(** A set of names is of symbols of the policy; only rules on transitions, which
    have no permissions, know a third context. *)
Definition valid_token (p : policydb) (nperms : Z) (t : token atom) : Prop :=
  match t with
  | TLeaf (ANames w f _ names tn) =>
     (w = XTarget → nperms = 0) ∧ set_of (field_sym p f) names ∧
     match f with
     | FType => ∃ ts, tn = Some ts ∧ valid_type_set p ts
     | _ => tn = Some type_set_init
     end
  | TBin o => o = OpAnd ∨ o = OpOr
  | _ => True
  end.

(** A valid element of a constraint is the encoding of a token. *)
Definition valid_cexpr (p : policydb) (nperms : Z) (e : constraint_expr) : Prop :=
  ∃ t, e = encode_token t ∧ valid_token p nperms t.

Definition valid_cnode (p : policydb) (nperms : Z) (c : constraint_node) : Prop :=
  (nperms = 0 → cn_permissions c = 0) ∧ (0 < nperms → cn_permissions c ≠ 0) ∧
  (0 < nperms < 32 → cn_permissions c < 2 ^ nperms) ∧ cn_expr c ≠ [] ∧ Forall (valid_cexpr p nperms) (cn_expr c).

Lemma empty_type_set_spec ts : type_set_data ts → validate_empty_type_set ts = 0 ↔ ts = type_set_init.
Proof.
  destruct ts as [t n fl]. intros [H1 H2]. unfold validate_empty_type_set. cbn [ts_types ts_negset ts_flags] in *.
  destruct (ebitmap_is_empty t) eqn:E1; cbn [negb].
  2:{ split; [done|]. intros [= -> -> ->]. done. }
  apply (empty_bits t H1) in E1 as ->. destruct (ebitmap_is_empty n) eqn:E2; cbn [negb].
  2:{ split; [done|]. intros [= -> ->]. done. }
  apply (empty_bits n H2) in E2 as ->. unfold nz. destruct (Z.eqb_spec fl 0) as [->|]; [done|]. cbn [negb]. split; [done|]. by intros [= ->].
Qed.

Section validators.
Context (p : policydb) (f : flavors_t) (Hf : flavors_ok p f).

Lemma type_set_spec ts : type_set_data ts → tests (validate_type_set ts (f_types f)) (valid_type_set p ts).
Proof using Hf.
  intros [H1 H2]. unfold validate_type_set, valid_type_set. tests_step; [apply tests_pure, validate_ebitmap_spec; [apply Hf|done]|].
  tests_step; [apply tests_pure, validate_ebitmap_spec; [apply Hf|done]|]. tests_step. apply one_of_spec.
Qed.

(** The encodings of the parts of an atom. *)
Lemma eq_codes op : op ∈ [CEXPR_EQ; CEXPR_NEQ] ↔ ∃ b, op = eq_code b.
Proof. rewrite !elem_of_cons, elem_of_nil. split; [intros [->|[->|[]]]; [by exists true|by exists false]|]. intros [[] ->]; auto. Qed.

Lemma order_codes op : op ∈ [CEXPR_EQ; CEXPR_NEQ] ∨ op ∈ [CEXPR_DOM; CEXPR_DOMBY; CEXPR_INCOMP] ↔ ∃ o, op = order_code o.
Proof.
  rewrite !elem_of_cons, !elem_of_nil. split.
  - intros [[->|[->|[]]]|[->|[->|[->|[]]]]]; [by exists Equal|by exists Different|by exists Dom|by exists DomBy|by exists Incomp].
  - intros [[] ->]; auto 6.
Qed.

Lemma names_codes attr fi :
  attr ∈ [field_code fi; Z.lor (field_code fi) CEXPR_TARGET; Z.lor (field_code fi) CEXPR_XTARGET] ↔
  ∃ w, attr = Z.lor (field_code fi) (who_code w).
Proof.
  rewrite !elem_of_cons, elem_of_nil. split.
  - intros [->|[->|[->|[]]]]; [exists Source; by rewrite Z.lor_0_r|by exists Target|by exists XTarget].
  - intros [[] ->]; [left; by rewrite Z.lor_0_r|auto..].
Qed.

Lemma encode_type t :
  ce_expr_type (encode_token t) =
  match t with TLeaf (ANames _ _ _ _ _) => CEXPR_NAMES | TLeaf _ => CEXPR_ATTR | TNot => CEXPR_NOT | TBin OpAnd => CEXPR_AND | TBin _ => CEXPR_OR end.
Proof. by destruct t as [[]| |[]]. Qed.

Lemma names_spec nperms e fi ts :
  cexpr_data e → ce_type_names e = Some ts → ce_expr_type e = CEXPR_NAMES →
  (∃ w, ce_attr e = Z.lor (field_code fi) (who_code w)) →
  valid_cexpr p nperms e ↔
    (ce_attr e = Z.lor (field_code fi) CEXPR_XTARGET → nperms = 0) ∧ (∃ b, ce_op e = eq_code b) ∧
    set_of (field_sym p fi) (ce_names e) ∧ match fi with FType => valid_type_set p ts | _ => ts = type_set_init end.
Proof using.
  intros Hd Hts Hty [w Hw]. assert (∀ w w' fi', Z.lor (field_code fi) (who_code w) = Z.lor (field_code fi') (who_code w') → fi = fi' ∧ w = w') as Hinj.
  { by destruct fi; intros [] [] []. }
  split.
  - intros (t & -> & Ht). rewrite encode_type in Hty. destruct t as [[| | | |w' fi' b names tn]| |[]]; try discriminate.
    cbn [encode_token encode_atom ce_attr ce_op ce_names ce_type_names] in *. destruct (Hinj _ _ _ (eq_sym Hw)) as [<- <-].
    destruct Ht as (Hx & Hs & Hn). split; [|split; [by exists b|]].
    + intros E. apply Hx. by destruct (Hinj _ XTarget fi E).
    + split; [done|]. destruct fi; [congruence|congruence|]. destruct Hn as (ts' & E & ?). congruence.
  - intros (Hx & [b Hb] & Hs & Hn). exists (TLeaf (ANames w fi b (ce_names e) (Some ts))). split.
    + destruct e; cbn in *. congruence.
    + split; [intros ->; by apply Hx|]. split; [done|]. destruct fi; [congruence|congruence|by exists ts].
Qed.

Lemma names_fields w fi (attr := Z.lor (field_code fi) (who_code w)) :
  nz (Z.land attr CEXPR_XTARGET) = (match w with XTarget => true | _ => false end) ∧
  nz (Z.land attr CEXPR_TYPE) = (match fi with FType => true | _ => false end) ∧
  one_of attr [CEXPR_USER; Z.lor CEXPR_USER CEXPR_TARGET; Z.lor CEXPR_USER CEXPR_XTARGET] =
    (match fi with FUser => true | _ => false end) ∧
  one_of attr [CEXPR_ROLE; Z.lor CEXPR_ROLE CEXPR_TARGET; Z.lor CEXPR_ROLE CEXPR_XTARGET] =
    (match fi with FRole => true | _ => false end) ∧
  one_of attr [CEXPR_TYPE; Z.lor CEXPR_TYPE CEXPR_TARGET; Z.lor CEXPR_TYPE CEXPR_XTARGET] =
    (match fi with FType => true | _ => false end).
Proof. by destruct w, fi. Qed.

Lemma negb_and (b c : bool) (P Q : Prop) : (b = true ↔ P) → (c = true ↔ ¬ Q) → (Q ∨ ¬ Q) → negb (b && c) = true ↔ (P → Q).
Proof. destruct b, c; simpl; intuition congruence. Qed.

Lemma nz_spec x : nz x = true ↔ x ≠ 0.
Proof. unfold nz. rewrite negb_true_iff. apply Z.eqb_neq. Qed.

Lemma nz_zero x : negb (nz x) = true ↔ x = 0.
Proof. unfold nz. rewrite negb_involutive. apply Z.eqb_eq. Qed.

Lemma names_by_field attr :
  (∃ fi w, attr = Z.lor (field_code fi) (who_code w)) ∨
  (¬ ∃ fi w, attr = Z.lor (field_code fi) (who_code w)) ∧
  one_of attr [CEXPR_USER; Z.lor CEXPR_USER CEXPR_TARGET; Z.lor CEXPR_USER CEXPR_XTARGET] = false ∧
  one_of attr [CEXPR_ROLE; Z.lor CEXPR_ROLE CEXPR_TARGET; Z.lor CEXPR_ROLE CEXPR_XTARGET] = false ∧
  one_of attr [CEXPR_TYPE; Z.lor CEXPR_TYPE CEXPR_TARGET; Z.lor CEXPR_TYPE CEXPR_XTARGET] = false.
Proof.
  pose proof (names_codes attr FUser) as HU. pose proof (names_codes attr FRole) as HR. pose proof (names_codes attr FType) as HT.
  cbn [field_code] in *. rewrite <- one_of_spec in HU, HR, HT.
  destruct (one_of attr [CEXPR_USER; _; _]); [left; exists FUser; by apply HU|].
  destruct (one_of attr [CEXPR_ROLE; _; _]); [left; exists FRole; by apply HR|].
  destruct (one_of attr [CEXPR_TYPE; _; _]); [left; exists FType; by apply HT|]. right. split; [|done].
  intros [[] Hw]; [apply HU in Hw|apply HR in Hw|apply HT in Hw]; done.
Qed.

Lemma validate_names_spec nperms e :
  cexpr_data e → ce_expr_type e = CEXPR_NAMES → tests (validate_constraint_expr nperms f e) (valid_cexpr p nperms e).
Proof using Hf.
  intros Hd Hty. unfold validate_constraint_expr. rewrite Hty, Z.eqb_refl.
  pose proof Hd as (Hn & ts & Hts & Hdt).
  destruct (names_by_field (ce_attr e)) as [(fi & w & Hw)|(Hno & HU & HR & HT)].
  - eapply tests_iff; [symmetry; by apply (names_spec nperms e fi ts Hd Hts Hty); exists w|]. rewrite Hw.
    destruct (names_fields w fi) as (Ex & Et & EU & ER & ET). rewrite Ex, Et, EU, ER, ET.
    apply (tests_iff _ ((Z.lor (field_code fi) (who_code w) = Z.lor (field_code fi) CEXPR_XTARGET → nperms = 0) ∧
      match fi with FType => True | _ => ts = type_set_init end ∧ (ce_op e ∈ [CEXPR_EQ; CEXPR_NEQ]) ∧
      set_of (field_sym p fi) (ce_names e) ∧ match fi with FType => valid_type_set p ts | _ => True end)).
    { rewrite eq_codes. destruct fi; tauto. }
    tests_step; [apply negb_and; [by destruct w, fi|apply nz_spec|lia]|].
    tests_step; [by destruct fi; [by eapply tests_get, tests_pure, empty_type_set_spec..|apply tests_ok]|]. tests_step; [apply one_of_spec|].
    destruct fi; cbn iota.
    1,2: eapply tests_iff; [symmetry; apply and_True|]; tests_step; apply tests_pure, validate_ebitmap_spec; [apply Hf|done].
    tests_step; [apply tests_pure, validate_ebitmap_spec; [apply Hf|done]|]. eapply tests_get; [exact Hts|].
    tests_step. by apply type_set_spec.
  - rewrite HU, HR, HT.
    eapply (tests_iff _ ((_ → _) ∧ (nz (Z.land (ce_attr e) CEXPR_TYPE) = true ∨ ts = type_set_init) ∧ ce_op e ∈ [CEXPR_EQ; CEXPR_NEQ] ∧ False)).
    { split; [tauto|]. intros (t & -> & _). rewrite encode_type in Hty. destruct t as [[| | | |w fi b names tn]| |[]]; try discriminate.
      destruct Hno. by exists fi, w. }
    tests_step; [apply negb_and; [reflexivity|apply nz_spec|lia]|].
    tests_step; [|tests_step; [apply one_of_spec|apply tests_bad; tauto]].
    destruct (nz (Z.land (ce_attr e) CEXPR_TYPE)); [eapply tests_iff; [|apply tests_ok]; tauto|].
    eapply tests_iff; [|by eapply tests_get, tests_pure, empty_type_set_spec]. naive_solver.
Qed.

(** Users and types are only compared for equality. *)
Definition ordered_attr (attr : Z) : bool := negb (nz (Z.land attr CEXPR_USER) || nz (Z.land attr CEXPR_TYPE)).

Lemma order_ok op attr :
  (∃ o, op = order_code o) → ordered_attr attr = true →
  op ∈ [CEXPR_EQ; CEXPR_NEQ] ∨ op ∈ [CEXPR_DOM; CEXPR_DOMBY; CEXPR_INCOMP] ∧ ordered_attr attr = true.
Proof. intros H%order_codes Ha. tauto. Qed.

Lemma attr_codes op attr :
  attr ∈ [CEXPR_USER; CEXPR_ROLE; CEXPR_TYPE; CEXPR_L1L2; CEXPR_L1H2; CEXPR_H1L2; CEXPR_H1H2; CEXPR_L1H1; CEXPR_L2H2] →
  op ∈ [CEXPR_EQ; CEXPR_NEQ] ∨ op ∈ [CEXPR_DOM; CEXPR_DOMBY; CEXPR_INCOMP] ∧ ordered_attr attr = true →
  ∃ a, encode_atom a = CExpr CEXPR_ATTR attr op ebitmap_init (Some type_set_init) ∧ is_names a = false.
Proof.
  intros Ha Hop. assert (ordered_attr attr = false → ∃ b, op = eq_code b) as Heq.
  { intros E. apply eq_codes. destruct Hop as [?|[_ ?]]; [done|congruence]. }
  assert (∃ o, op = order_code o) as [o Ho] by (apply order_codes; tauto). rewrite !elem_of_cons, elem_of_nil in Ha.
  destruct Ha as [->|[->|[->|[->|[->|[->|[->|[->|[->|[]]]]]]]]]].
  - destruct (Heq eq_refl) as [b ->]. by exists (AUser b).
  - rewrite Ho. by exists (ARole o).
  - destruct (Heq eq_refl) as [b ->]. by exists (AType b).
  - rewrite Ho. by exists (ALevel L1L2 o).
  - rewrite Ho. by exists (ALevel L1H2 o).
  - rewrite Ho. by exists (ALevel H1L2 o).
  - rewrite Ho. by exists (ALevel H1H2 o).
  - rewrite Ho. by exists (ALevel L1H1 o).
  - rewrite Ho. by exists (ALevel L2H2 o).
Qed.

Lemma validate_attr_spec nperms e :
  cexpr_data e → ce_expr_type e = CEXPR_ATTR → tests (validate_constraint_expr nperms f e) (valid_cexpr p nperms e).
Proof using Hf.
  intros (Hn & ts & Hts & Hdt) Hty. unfold validate_constraint_expr. rewrite Hty. cbn [Z.eqb CEXPR_ATTR CEXPR_NAMES Pos.eqb].
  eapply (tests_iff _ (ce_names e = ebitmap_init ∧ ts = type_set_init ∧
    (ce_op e ∈ [CEXPR_EQ; CEXPR_NEQ] ∨ ce_op e ∈ [CEXPR_DOM; CEXPR_DOMBY; CEXPR_INCOMP] ∧
      ordered_attr (ce_attr e) = true) ∧
    ce_attr e ∈ [CEXPR_USER; CEXPR_ROLE; CEXPR_TYPE; CEXPR_L1L2; CEXPR_L1H2; CEXPR_H1L2; CEXPR_H1H2; CEXPR_L1H1; CEXPR_L2H2])).
  - split.
    + intros (Hne & -> & Hop & Ha). destruct (attr_codes _ _ Ha Hop) as (a & Hea & Hx).
      exists (TLeaf a). split; [|by destruct a]. destruct e as [ty attr op names tn].
      cbn [ce_expr_type ce_attr ce_op ce_names ce_type_names encode_token] in *. congruence.
    + intros (t & -> & _). rewrite encode_type in Hty. destruct t as [[b|b|o|l o|]| |[]]; try discriminate.
      all: cbn [encode_token encode_atom ce_attr ce_op ce_names ce_type_names] in *; injection Hts as <-.
      all: (split; [done|split; [done|]]).
      1,2: split; [left; apply eq_codes; by exists b|rewrite !elem_of_cons; tauto].
      all: split; [apply order_ok; [by exists o|by try destruct l]|rewrite !elem_of_cons; try destruct l; tauto].
  - tests_step; [by apply empty_bits|]. eapply tests_get; [exact Hts|]. tests_step; [by apply tests_pure, empty_type_set_spec|].
    tests_step; [by rewrite orb_true_iff, andb_true_iff, !one_of_spec|]. tests_step. apply one_of_spec.
Qed.

Lemma validate_connective_spec nperms e :
  cexpr_data e → ce_expr_type e ≠ CEXPR_NAMES → ce_expr_type e ≠ CEXPR_ATTR →
  tests (validate_constraint_expr nperms f e) (valid_cexpr p nperms e).
Proof using Hf.
  intros (Hn & ts & Hts & Hdt) H1 H2. unfold validate_constraint_expr. rewrite !(proj2 (Z.eqb_neq _ _)) by done.
  eapply (tests_iff _ (ce_expr_type e ∈ [CEXPR_NOT; CEXPR_AND; CEXPR_OR] ∧ ce_op e = 0 ∧ ce_attr e = 0 ∧
    ce_names e = ebitmap_init ∧ ts = type_set_init)).
  - rewrite !elem_of_cons, elem_of_nil. split.
    + destruct e as [ty attr op names tn]. cbn [ce_expr_type ce_attr ce_op ce_names ce_type_names] in *. subst tn.
      intros ([->|[->|[->|[]]]] & -> & -> & -> & ->); [by exists TNot|exists (TBin OpAnd)|exists (TBin OpOr)]; (split; [done|]); simpl; tauto.
    + intros (t & -> & Ht). rewrite encode_type in *. destruct t as [[]| |[]]; try done; injection Hts as <-; (split; [tauto|done]).
  - tests_step; [apply one_of_spec|]. do 2 (tests_step; [apply nz_zero|]). tests_step; [by apply empty_bits|].
    eapply tests_get; [exact Hts|]. tests_step. by apply tests_pure, empty_type_set_spec.
Qed.

Lemma validate_constraint_expr_spec nperms e :
  cexpr_data e → tests (validate_constraint_expr nperms f e) (valid_cexpr p nperms e).
Proof using Hf.
  intros Hd. destruct (decide (ce_expr_type e = CEXPR_NAMES)); [by apply validate_names_spec|].
  destruct (decide (ce_expr_type e = CEXPR_ATTR)); [by apply validate_attr_spec|by apply validate_connective_spec].
Qed.

Lemma validate_constraint_node_spec nperms c :
  0 ≤ nperms ≤ 32 → cnode_data c → tests (validate_constraint_node nperms f c) (valid_cnode p nperms c).
Proof using Hf.
  intros Hr [Hp Hd]. unfold validate_constraint_node, valid_cnode.
  tests_step; [apply negb_and; [apply Z.eqb_eq|apply nz_spec|lia]|].
  tests_step; [apply negb_and; [apply Z.gtb_lt|rewrite Z.eqb_eq; lia|lia]|].
  tests_step.
  { rewrite negb_true_iff. unfold PERM_SYMTAB_SIZE. destruct (Z.gtb_spec nperms 0), (Z.eqb_spec nperms 32); simpl; try (split; [lia|done]).
    rewrite Z.shiftl_mul_pow2, Z.mul_1_l by lia. rewrite Z.geb_leb, Z.leb_gt. split; [auto|]. intros H'. apply H'. lia. }
  tests_step; [by destruct (cn_expr c)|]. apply tests_all. intros e He. apply validate_constraint_expr_spec.
  by rewrite Forall_forall in Hd; apply Hd.
Qed.
End validators.

(** ** Symbols *)

Definition level_data (l : mls_level) : Prop := 0 ≤ sens l ∧ wf (cat l).
Definition range_data (r : mls_range) : Prop := level_data (level0 r) ∧ level_data (level1 r).

Definition common_data (c : common_datum) : Prop := 0 ≤ cm_value c ∧ 0 ≤ s_nprim (cm_permissions c).

Definition class_data (c : class_datum) : Prop :=
  0 ≤ cl_value c ∧ (∀ cm, cl_comdatum c = Some cm → common_data cm) ∧ 0 ≤ s_nprim (cl_permissions c) ∧
  Forall cnode_data (cl_constraints c) ∧ Forall cnode_data (cl_validatetrans c).

Definition role_data (r : role_datum) : Prop :=
  0 ≤ rd_value r ∧ wf (rd_dominates r) ∧ wf (rd_types r) ∧ 0 ≤ rd_bounds r.

Definition type_data (t : type_datum) : Prop :=
  0 ≤ td_value t ∧ 0 ≤ td_primary t ∧ wf (td_types t) ∧ 0 ≤ td_bounds t.

Definition user_data (u : user_datum) : Prop :=
  0 ≤ ud_value u ∧ wf (ud_roles u) ∧ range_data (ud_exp_range u) ∧ level_data (ud_exp_dfltlevel u) ∧ 0 ≤ ud_bounds u.

(** Zero stands for no symbol. *)
Definition optional (S : Z → Prop) (v : Z) : Prop := v ≠ 0 → S v.

(** The value of a type that is not an attribute. *)
Definition simple_type (p : policydb) (v : Z) : Prop :=
  type_sym p v ∧ ∃ td, type_val_to_struct p !! Z.to_nat (v - 1) = Some (Some td) ∧ td_flavor td ≠ TYPE_ATTRIB.

Definition valid_level (p : policydb) (l : mls_level) : Prop := sens_sym p (sens l) ∧ set_of (cat_sym p) (cat l).
Definition valid_range (p : policydb) (r : mls_range) : Prop := valid_level p (level0 r) ∧ valid_level p (level1 r).

Definition valid_common (p : policydb) (c : common_datum) : Prop :=
  common_sym p (cm_value c) ∧ s_nprim (cm_permissions c) ≤ PERM_SYMTAB_SIZE.

Definition valid_class (p : policydb) (c : class_datum) : Prop :=
  class_sym p (cl_value c) ∧ (∀ cm, cl_comdatum c = Some cm → valid_common p cm) ∧
  s_nprim (cl_permissions c) ≤ PERM_SYMTAB_SIZE ∧
  Forall (valid_cnode p (s_nprim (cl_permissions c))) (cl_constraints c) ∧ Forall (valid_cnode p 0) (cl_validatetrans c) ∧
  cl_default_user c ∈ [0; DEFAULT_SOURCE; DEFAULT_TARGET] ∧ cl_default_role c ∈ [0; DEFAULT_SOURCE; DEFAULT_TARGET] ∧
  cl_default_type c ∈ [0; DEFAULT_SOURCE; DEFAULT_TARGET] ∧
  cl_default_range c ∈
    [0; DEFAULT_SOURCE_LOW; DEFAULT_SOURCE_HIGH; DEFAULT_SOURCE_LOW_HIGH; DEFAULT_TARGET_LOW; DEFAULT_TARGET_HIGH;
     DEFAULT_TARGET_LOW_HIGH; DEFAULT_GLBLUB].

Definition valid_role (p : policydb) (r : role_datum) : Prop :=
  role_sym p (rd_value r) ∧ set_of (role_sym p) (rd_dominates r) ∧ set_of (type_sym p) (rd_types r) ∧
  optional (role_sym p) (rd_bounds r).

(** Types have no members and attributes no bounds. *)
Definition valid_type (p : policydb) (t : type_datum) : Prop :=
  type_sym p (td_value t) ∧ optional (type_sym p) (td_primary t) ∧
  (td_flavor t ∈ [TYPE_TYPE; TYPE_ALIAS] ∧ td_types t = ebitmap_init ∧ optional (simple_type p) (td_bounds t) ∨
   td_flavor t = TYPE_ATTRIB ∧ set_of (type_sym p) (td_types t) ∧ td_bounds t = 0) ∧
  td_flags t ∈ [0; TYPE_FLAGS_PERMISSIVE; TYPE_FLAGS_EXPAND_ATTR_TRUE; TYPE_FLAGS_EXPAND_ATTR_FALSE; TYPE_FLAGS_EXPAND_ATTR].

Definition valid_user (p : policydb) (u : user_datum) : Prop :=
  user_sym p (ud_value u) ∧ set_of (role_sym p) (ud_roles u) ∧
  (mls p ≠ 0 → valid_range p (ud_exp_range u)) ∧ (mls p ≠ 0 → valid_level p (ud_exp_dfltlevel u)) ∧
  optional (user_sym p) (ud_bounds u).

Definition valid_bool (p : policydb) (b : cond_bool_datum) : Prop :=
  bool_sym p (cb_value b) ∧ cb_state b ∈ [0; 1] ∧ cb_flags b ∈ [0; COND_BOOL_FLAGS_TUNABLE].

Section symbols.
Context (p : policydb) (f : flavors_t) (Hf : flavors_ok p f) (Ha : arrays_data p) (Hk : policy_type p = POLICY_KERN).

Lemma optional_spec v g S : flavor_ok g S → 0 ≤ v → (if nz v then validate_value v g else 0) = 0 ↔ optional S v.
Proof.
  intros Hg Hv. unfold optional, nz. destruct (Z.eqb_spec v 0); simpl; [by split|]. rewrite (validate_value_spec v g S) by done. tauto.
Qed.

Lemma simpletype_spec v : 0 ≤ v → tests (validate_simpletype v p f) (simple_type p v).
Proof using Hf Ha.
  intros Hv. unfold validate_simpletype, simple_type. tests_step; [by apply tests_pure, validate_value_spec; [apply Hf|]|].
  destruct H as [Hr _]. unfold aget. rewrite (proj2 (Z.ltb_ge _ _)) by lia.
  destruct (lookup_lt_is_Some_2 (type_val_to_struct p) (Z.to_nat (v - 1))) as [o Ho]; [pose proof (ar_type_structs p Ha); lia|].
  eapply tests_get; [exact Ho|]. rewrite Ho. destruct o as [td|]; [|apply tests_bad; naive_solver].
  destruct (Z.eqb_spec (td_flavor td) TYPE_ATTRIB); [apply tests_bad; naive_solver|]. eapply tests_iff; [|apply tests_ok]. naive_solver.
Qed.

Lemma validate_mls_level_spec l : level_data l → validate_mls_level l (f_levels f) (f_cats f) = 0 ↔ valid_level p l.
Proof using Hf.
  intros [H1 H2]. unfold validate_mls_level, valid_level.
  pose proof (validate_value_spec (sens l) (f_levels f) _ (fo_levels p f Hf) H1) as Hs.
  pose proof (validate_ebitmap_spec (cat l) (f_cats f) _ (fo_cats p f Hf) H2) as Hc.
  unfold nz. rewrite <- Hs, <- Hc. destruct (Z.eqb_spec (validate_value (sens l) (f_levels f)) 0); simpl; [|split; [done|tauto]].
  destruct (Z.eqb_spec (validate_ebitmap (cat l) (f_cats f)) 0); simpl; [tauto|split; [done|tauto]].
Qed.

Lemma validate_mls_range_spec r : range_data r → validate_mls_range r (f_levels f) (f_cats f) = 0 ↔ valid_range p r.
Proof using Hf.
  intros [H1 H2]. unfold validate_mls_range, valid_range, nz. rewrite <- !validate_mls_level_spec by done.
  destruct (Z.eqb_spec (validate_mls_level (level0 r) (f_levels f) (f_cats f)) 0); simpl; [|split; [done|tauto]].
  destruct (Z.eqb_spec (validate_mls_level (level1 r) (f_levels f) (f_cats f)) 0); simpl; [tauto|split; [done|tauto]].
Qed.

Lemma validate_common_spec c : common_data c → tests (validate_common_datum c f) (valid_common p c).
Proof using Hf.
  intros [H1 H2]. unfold validate_common_datum, valid_common. tests_step; [by apply tests_pure, validate_value_spec; [apply Hf|]|].
  tests_step. rewrite negb_true_iff, Z.gtb_ltb. apply Z.ltb_ge.
Qed.

Lemma at_most x y : negb (x >? y) = true ↔ x ≤ y.
Proof. rewrite negb_true_iff, Z.gtb_ltb. apply Z.ltb_ge. Qed.

Lemma class_datum_spec c : class_data c → tests (validate_class_datum c f) (valid_class p c).
Proof using Hf.
  intros (H1 & H2 & H3 & H4 & H5). rewrite Forall_forall in H4, H5. unfold validate_class_datum, valid_class.
  tests_step; [by apply tests_pure, validate_value_spec; [apply Hf|]|]. tests_step.
  { destruct (cl_comdatum c) as [cm|]; [|by eapply tests_iff; [|apply tests_ok]].
    eapply tests_iff; [|apply validate_common_spec; by apply H2]. naive_solver. }
  tests_step; [apply at_most|].
  do 2 (tests_step; [apply tests_all; intros n Hn; apply validate_constraint_node_spec; [done|unfold PERM_SYMTAB_SIZE in *; lia|auto]|]).
  do 3 (tests_step; [apply one_of_spec|]). tests_step. apply one_of_spec.
Qed.

Lemma validate_role_spec r : role_data r → tests (validate_role_datum r f) (valid_role p r).
Proof using Hf.
  intros (H1 & H2 & H3 & H4). unfold validate_role_datum, valid_role. tests_step; [by apply tests_pure, validate_value_spec; [apply Hf|]|].
  do 2 (tests_step; [by apply tests_pure, validate_ebitmap_spec; [apply Hf|]|]). tests_step.
  by apply tests_pure, optional_spec; [apply Hf|].
Qed.

Lemma validate_type_spec t : type_data t → tests (validate_type_datum t p f) (valid_type p t).
Proof using Hf Ha.
  intros (H1 & H2 & H3 & H4). unfold validate_type_datum, valid_type. tests_step; [by apply tests_pure, validate_value_spec; [apply Hf|]|].
  tests_step; [by apply tests_pure, optional_spec; [apply Hf|]|]. tests_step; [|tests_step; apply one_of_spec].
  pose proof (one_of_spec (td_flavor t) [TYPE_TYPE; TYPE_ALIAS]) as Hfl. destruct (one_of _ _) eqn:E.
  - apply (tests_iff _ (td_types t = ebitmap_init ∧ optional (simple_type p) (td_bounds t))).
    { split; [intros []; left; tauto|]. intros [?|[Hat _]]; [tauto|]. by rewrite Hat in E. }
    tests_step; [by apply empty_bits|]. tests_step. unfold optional, nz. destruct (Z.eqb_spec (td_bounds t) 0) as [Hz|Hz]; simpl.
    + by eapply tests_iff; [|apply tests_ok].
    + eapply tests_iff; [|by apply simpletype_spec]. tauto.
  - destruct (Z.eqb_spec (td_flavor t) TYPE_ATTRIB) as [Hat|Hat].
    + apply (tests_iff _ (set_of (type_sym p) (td_types t) ∧ td_bounds t = 0)).
      { split; [tauto|]. intros [[?%Hfl _]|]; [congruence|tauto]. }
      tests_step; [by apply tests_pure, validate_ebitmap_spec; [apply Hf|]|]. tests_step. apply nz_zero.
    + apply tests_bad. intros [[?%Hfl _]|[? _]]; congruence.
Qed.

Lemma if_mls (r : Z) (Q : Prop) :
  (r = 0 ↔ Q) → (if nz (mls p) && negb (policy_type p =? POLICY_MOD) then r else 0) = 0 ↔ (mls p ≠ 0 → Q).
Proof using Hk. intros H. rewrite Hk. unfold nz. destruct (Z.eqb_spec (mls p) 0); simpl; [by split|]. tauto. Qed.

Lemma validate_user_spec u : user_data u → tests (validate_user_datum u f p) (valid_user p u).
Proof using Hf Hk.
  intros (H1 & H2 & H3 & H4 & H5). unfold validate_user_datum, valid_user.
  tests_step; [by apply tests_pure, validate_value_spec; [apply Hf|]|]. tests_step; [by apply tests_pure, validate_ebitmap_spec; [apply Hf|]|].
  tests_step; [by apply tests_pure, if_mls, validate_mls_range_spec|]. tests_step; [by apply tests_pure, if_mls, validate_mls_level_spec|].
  tests_step. by apply tests_pure, optional_spec; [apply Hf|].
Qed.

Lemma validate_bool_spec b : 0 ≤ cb_value b → tests (validate_bool_datum b f) (valid_bool p b).
Proof using Hf.
  intros H1. unfold validate_bool_datum, valid_bool. tests_step; [by apply tests_pure, validate_value_spec; [apply Hf|]|].
  tests_step; [apply one_of_spec|]. tests_step. apply one_of_spec.
Qed.
End symbols.

(** ** The arrays and tables of symbols *)

(** A value has a datum exactly if it is a symbol. *)
Definition structs_match {A} (l : list (option A)) (nprim : Z) (S : Z → Prop) : Prop :=
  ∀ v, 1 ≤ v ≤ nprim → S v ↔ ∃ x, l !! Z.to_nat (v - 1) = Some (Some x).

Record valid_arrays (p : policydb) : Prop := {
  va_classes : structs_match (class_val_to_struct p) (s_nprim (p_classes p)) (class_sym p);
  va_roles : structs_match (role_val_to_struct p) (s_nprim (p_roles p)) (role_sym p);
  va_types : type_gaps p = true → structs_match (type_val_to_struct p) (s_nprim (p_types p)) (type_sym p);
  va_users : structs_match (user_val_to_struct p) (s_nprim (p_users p)) (user_sym p);
  va_bools : structs_match (bool_val_to_struct p) (p_bools_nprim p) (bool_sym p)
}.

Record valid_tables (p : policydb) : Prop := {
  vt_commons : all_entries (s_table (p_commons p)) (λ _ d, valid_common p d);
  vt_classes : all_entries (s_table (p_classes p)) (λ _ d, valid_class p d);
  vt_roles : all_entries (s_table (p_roles p)) (λ _ d, valid_role p d);
  vt_types : all_entries (s_table (p_types p)) (λ _ d, valid_type p d);
  vt_users : all_entries (s_table (p_users p)) (λ _ d, valid_user p d);
  vt_levels : mls p ≠ 0 → all_entries (s_table (p_levels p)) (λ _ d, valid_level p (ld_level d));
  vt_cats : all_entries (s_table (p_cats p)) (λ _ d, 1 ≤ cd_value d ≤ s_nprim (p_cats p));
  vt_bools : all_entries (p_bools_table p) (λ _ d, valid_bool p d)
}.

(** What is stored in the tables is of the types of the C structures. *)
Definition table_data {V} (t : option (hashtab string V)) (Q : V → Prop) : Prop :=
  (∀ h, t = Some h → hwf h) ∧ all_entries t (λ _, Q).

Record tables_data (p : policydb) : Prop := {
  tab_commons : table_data (s_table (p_commons p)) common_data;
  tab_classes : table_data (s_table (p_classes p)) class_data;
  tab_roles : table_data (s_table (p_roles p)) role_data;
  tab_types : table_data (s_table (p_types p)) type_data;
  tab_users : table_data (s_table (p_users p)) user_data;
  tab_levels : table_data (s_table (p_levels p)) (λ d, level_data (ld_level d));
  tab_cats : table_data (s_table (p_cats p)) (λ d, 0 ≤ cd_value d);
  tab_bools : table_data (p_bools_table p) (λ d, 0 ≤ cb_value d)
}.

Section tables.
Context (p : policydb) (f : flavors_t) (Hf : flavors_ok p f) (Ha : arrays_data p) (Hk : policy_type p = POLICY_KERN).

Lemma gaps_match_loop {A} (l : list (option A)) gaps todo i :
  0 ≤ i → (Z.to_nat i + todo ≤ length l)%nat →
  tests (gaps_match l gaps todo i)
    (∀ j, i ≤ j < i + Z.of_nat todo → ebitmap_get_bit gaps j = false ↔ ∃ x, l !! Z.to_nat j = Some (Some x)).
Proof.
  revert i. induction todo as [|todo IH]; intros i Hi Hl; cbn [gaps_match].
  { eapply tests_iff; [|apply tests_ok]. split; [|done]. intros _ j Hj. lia. }
  unfold aget. rewrite (proj2 (Z.ltb_ge _ _)) by lia. destruct (lookup_lt_is_Some_2 l (Z.to_nat i)) as [o Ho]; [lia|].
  eapply tests_get; [exact Ho|]. assert (Bool.eqb (bool_decide (is_Some o)) (ebitmap_get_bit gaps i) = false ↔
    (ebitmap_get_bit gaps i = false ↔ ∃ x, l !! Z.to_nat i = Some (Some x))) as Hone.
  { rewrite Ho. destruct o as [x|]; [rewrite bool_decide_true by by exists x|rewrite bool_decide_false by by intros [? ?]].
    - destruct (ebitmap_get_bit gaps i); simpl; naive_solver.
    - destruct (ebitmap_get_bit gaps i); simpl; naive_solver. }
  destruct (Bool.eqb _ _) eqn:E.
  - apply tests_bad. intros H. assert (true = false); [|done]. apply Hone, H. lia.
  - eapply tests_iff; [|apply IH; lia]. split; [|intros H j Hj; apply H; lia].
    intros H j Hj. destruct (decide (j = i)) as [->|]; [by apply Hone|apply H; lia].
Qed.

Lemma gaps_match_spec {A} (l : list (option A)) g S :
  flavor_ok g S → Z.of_nat (length l) = vt_nprim g →
  tests (gaps_match l (vt_gaps g) (Z.to_nat (vt_nprim g)) 0) (structs_match l (vt_nprim g) S).
Proof.
  intros [Hr Hw Hv] Hl. eapply tests_iff; [|apply gaps_match_loop; lia]. split; intros H.
  - intros v Hv'. rewrite Hv, <- H by lia. tauto.
  - intros j Hj. rewrite <- (Z.add_simpl_r j 1). rewrite <- (H (j + 1)), Hv by lia. rewrite Z.add_simpl_r. intuition lia.
Qed.

Lemma validate_gaps_spec : tests (validate_datum_array_gaps p f) (valid_arrays p).
Proof using Hf Ha.
  destruct Ha as [_ _ _ _ _ _ _ _ L1 L2 L3 L4 L5 _ _]. destruct Hf as [_ F1 F2 F3 F4 F5 _ _ N1 N2 N3 N4 N5 _].
  apply (tests_iff _ (structs_match (class_val_to_struct p) (s_nprim (p_classes p)) (class_sym p) ∧
    structs_match (role_val_to_struct p) (s_nprim (p_roles p)) (role_sym p) ∧
    (type_gaps p = true → structs_match (type_val_to_struct p) (s_nprim (p_types p)) (type_sym p)) ∧
    structs_match (user_val_to_struct p) (s_nprim (p_users p)) (user_sym p) ∧
    structs_match (bool_val_to_struct p) (p_bools_nprim p) (bool_sym p))).
  { split; [by intros (? & ? & ? & ? & ?)|by intros []]. }
  unfold validate_datum_array_gaps. rewrite <- N1, <- N2, <- N3, <- N4, <- N5.
  do 2 (tests_step; [apply gaps_match_spec; [done|congruence]|]). tests_step.
  { destruct (type_gaps p); [|by eapply tests_iff; [|apply tests_ok]].
    eapply tests_iff; [|apply gaps_match_spec; [done|congruence]]. tauto. }
  tests_step; [apply gaps_match_spec; [done|congruence]|]. tests_step. apply gaps_match_spec; [done|congruence].
Qed.

Lemma table_spec {V} (t : option (hashtab string V)) (g : V → option Z) (D Q : V → Prop) :
  (∀ d, D d → tests (g d) (Q d)) → table_data t D → tests_m (validate_entries t (λ _ d, g d)) (all_entries t (λ _, Q)).
Proof.
  intros Hg [Hw Hd]. apply validate_entries_spec; [done|]. intros h Hh. eapply Forall_impl; [by apply Hd|]. intros e. apply Hg.
Qed.

Lemma validate_tables_spec : tables_data p → tests_m (validate_datum_array_entries p f) (valid_tables p).
Proof using Hf Ha Hk.
  intros [D1 D2 D3 D4 D5 D6 D7 D8].
  apply (tests_m_iff _ (all_entries (s_table (p_commons p)) (λ _ d, valid_common p d) ∧
    all_entries (s_table (p_classes p)) (λ _ d, valid_class p d) ∧ all_entries (s_table (p_roles p)) (λ _ d, valid_role p d) ∧
    all_entries (s_table (p_types p)) (λ _ d, valid_type p d) ∧ all_entries (s_table (p_users p)) (λ _ d, valid_user p d) ∧
    (mls p ≠ 0 → all_entries (s_table (p_levels p)) (λ _ d, valid_level p (ld_level d))) ∧
    all_entries (s_table (p_cats p)) (λ _ d, 1 ≤ cd_value d ≤ s_nprim (p_cats p)) ∧
    all_entries (p_bools_table p) (λ _ d, valid_bool p d))).
  { split; [by intros (? & ? & ? & ? & ? & ? & ? & ?)|by intros []]. }
  unfold validate_datum_array_entries.
  apply tests_m_then; [by eapply table_spec, D1; apply validate_common_spec|intros _].
  apply tests_m_then; [by eapply table_spec, D2; apply class_datum_spec|intros _].
  apply tests_m_then; [by eapply table_spec, D3; apply validate_role_spec|intros _].
  apply tests_m_then; [by eapply table_spec, D4; apply validate_type_spec|intros _].
  apply tests_m_then; [by eapply table_spec, D5; apply validate_user_spec|intros _].
  apply tests_m_then; [|intros _; apply tests_m_then; [|intros _; apply tests_m_last; by eapply table_spec, D8; apply validate_bool_spec]].
  - unfold nz. destruct (Z.eqb_spec (mls p) 0); simpl.
    + intros h. exists 0. split; [done|]. by left.
    + eapply tests_m_iff; [|eapply table_spec, D6; intros d Hd; by apply tests_pure, validate_mls_level_spec]. tauto.
  - eapply table_spec, D7. intros d Hd. simpl in Hd. apply tests_pure. unfold validate_datum, value_isvalid. rewrite (fs_cats p f Hf), Z.gtb_ltb.
    destruct (Z.eqb_spec (cd_value d) 0), (Z.ltb_spec (s_nprim (p_cats p)) (cd_value d)); simpl; split; lia.
Qed.
End tables.
