(* ===== verification/ValidateRules.v ===== *)
(** * Facts about the validation of rules

    What it means for the rules, conditionals and labels of a policy to be valid,
    and that the validators decide it. *)

From S2P Require Import Prelude Ebitmap EbitmapFacts EbitmapIter EbitmapSpec Hashtab HashtabFacts Avtab AvtabFacts Mls.
From S2P Require Import Policydb MlsPolicy MlsFacts Conditional ConditionalFacts Context Rpn Constraint ConstraintFacts.
From S2P Require Import ConstraintSpec ObjectSid Optimize Validate ValidateFacts.

#[local] Open Scope validate_scope.

(** ** Rules *)

Definition key_data (k : avtab_key) : Prop := 0 ≤ ak_source_type k ∧ 0 ≤ ak_target_type k ∧ 0 ≤ ak_target_class k.

Definition is_type_key (k : avtab_key) : Prop := Z.land (ak_specified k) AVTAB_TYPE ≠ 0.
Definition is_xperms_key (k : avtab_key) : Prop := Z.land (ak_specified k) AVTAB_XPERMS ≠ 0.

Definition rule_data (k : avtab_key) (d : avtab_datum) : Prop :=
  key_data k ∧ 0 ≤ ad_data d ∧ (is_xperms_key k → is_Some (ad_xperms d)).

(** The subject and object of a type rule are types, those of an access rule may
    be attributes; extended permissions are never conditional. *)
Definition valid_key (p : policydb) (conditional : bool) (k : avtab_key) : Prop :=
  type_sym p (ak_source_type k) ∧ type_sym p (ak_target_type k) ∧
  (is_type_key k → simple_type p (ak_source_type k) ∧ simple_type p (ak_target_type k)) ∧
  class_sym p (ak_target_class k) ∧
  (Z.land 0xFFF (ak_specified k) ∈
     [AVTAB_ALLOWED; AVTAB_AUDITALLOW; AVTAB_AUDITDENY; AVTAB_TRANSITION; AVTAB_MEMBER; AVTAB_CHANGE] ∨
   Z.land 0xFFF (ak_specified k) ∈ [AVTAB_XPERMS_ALLOWED; AVTAB_XPERMS_AUDITALLOW; AVTAB_XPERMS_DONTAUDIT] ∧
   conditional = false).

Definition valid_rule (p : policydb) (k : avtab_key) (d : avtab_datum) : Prop :=
  valid_key p false k ∧ (is_type_key k → simple_type p (ad_data d)) ∧
  (is_xperms_key k → ∃ x, ad_xperms d = Some x ∧ xp_specified x ∈ [AVTAB_XPERMS_IOCTLDRIVER; AVTAB_XPERMS_IOCTLFUNCTION]).

Definition every_rule (a : avtab) (Q : avtab_key → avtab_datum → Prop) : Prop :=
  Forall (λ n, Q (an_key n) (an_datum n)) (entries a).

(** ** Conditionals *)

(** An expression over the booleans of the policy that fits the stack of the
    evaluator. *)
Definition valid_cond_expr (p : policydb) (expr : list cond_expr) : Prop :=
  (∃ e, mapM decode expr = Some (rpn e) ∧ (bdepth e ≤ maxdepth)%nat) ∧
  Forall (λ x, ce_type x = COND_BOOL → bool_sym p (ce_bool x)) expr.

(** The keys from a rule to the end of its chain. *)
Definition valid_pointer (p : policydb) (x : Z) : Prop :=
  ∀ c, chain_from (te_cond_avtab p) x = Some c → Forall (λ n, valid_key p true (an_key n)) c.

Record valid_cond (p : policydb) (c : cond_node) : Prop := {
  vc_expr : valid_cond_expr p (cn_cond c);
  vc_true : Forall (valid_pointer p) (cn_true c);
  vc_false : Forall (valid_pointer p) (cn_false c);
  vc_nbools : cn_nbools c < COND_MAX_BOOLS;
  vc_bools : ∀ i b, 0 ≤ i < cn_nbools c → cn_bool_ids c !! Z.to_nat i = Some b → bool_sym p b;
  vc_state : cn_cur_state c ∈ [0; 1];
  vc_flags : cn_flags c ∈ [0; COND_NODE_FLAGS_TUNABLE]
}.

Record cond_data (p : policydb) (c : cond_node) : Prop := {
  cd_expr : Forall (λ x, 0 ≤ ce_bool x) (cn_cond c);
  cd_rules : Forall (λ x, is_Some (chain_from (te_cond_avtab p) x)) (cn_true c ++ cn_false c);
  cd_ids : Z.of_nat (length (cn_bool_ids c)) = COND_MAX_BOOLS ∧ Forall (λ b, 0 ≤ b) (cn_bool_ids c);
  cd_nbools : 0 ≤ cn_nbools c
}.

Section rules.
Context (p : policydb) (f : flavors_t) (Hf : flavors_ok p f) (Ha : arrays_data p) (Hk : policy_type p = POLICY_KERN).

Lemma validate_key_spec k c : key_data k → tests (validate_avtab_key k c p f) (valid_key p c k).
Proof using Hf Ha Hk.
  intros (H1 & H2 & H3). unfold validate_avtab_key.
  apply (tests_iff _ ((type_sym p (ak_source_type k) ∧ type_sym p (ak_target_type k) ∧
    (is_type_key k → simple_type p (ak_source_type k) ∧ simple_type p (ak_target_type k))) ∧ class_sym p (ak_target_class k) ∧
    (Z.land 0xFFF (ak_specified k) ∈ [AVTAB_ALLOWED; AVTAB_AUDITALLOW; AVTAB_AUDITDENY; AVTAB_TRANSITION; AVTAB_MEMBER; AVTAB_CHANGE] ∨
     Z.land 0xFFF (ak_specified k) ∈ [AVTAB_XPERMS_ALLOWED; AVTAB_XPERMS_AUDITALLOW; AVTAB_XPERMS_DONTAUDIT] ∧ c = false)));
    [unfold valid_key; tauto|].
  tests_step; [|tests_step; [by apply tests_pure, validate_value_spec; [apply Hf|]|]].
  - rewrite Hk. cbn [Z.eqb POLICY_KERN andb]. unfold is_type_key. pose proof (nz_spec (Z.land (ak_specified k) AVTAB_TYPE)) as Hn. destruct (nz _).
    + eapply tests_iff; [|apply tests_check; [by apply simpletype_spec|]; intros _; tests_step; by apply simpletype_spec].
      unfold simple_type. intuition congruence.
    + eapply tests_iff; [|apply tests_check; [by apply tests_pure, validate_value_spec; [apply Hf|]|]; intros _; tests_step;
        by apply tests_pure, validate_value_spec; [apply Hf|]]. intuition congruence.
  - cbn zeta. tests_step. rewrite orb_true_iff, andb_true_iff, !one_of_spec, negb_true_iff. done.
Qed.

Lemma validate_rule_spec k d : rule_data k d → tests (validate_avtab_key_and_datum k d p f) (valid_rule p k d).
Proof using Hf Ha Hk.
  intros (H1 & H2 & H3). unfold validate_avtab_key_and_datum, valid_rule, is_type_key, is_xperms_key in *.
  tests_step; [by apply validate_key_spec|]. tests_step; [|tests_step].
  - pose proof (nz_spec (Z.land (ak_specified k) AVTAB_TYPE)) as Hn. destruct (nz _).
    + eapply tests_iff; [|by apply simpletype_spec]. tauto.
    + eapply tests_iff; [|apply tests_ok]. intuition congruence.
  - pose proof (nz_spec (Z.land (ak_specified k) AVTAB_XPERMS)) as Hn. destruct (nz _).
    + destruct H3 as [x Hx]; [by apply Hn|]. eapply tests_get; [exact Hx|]. unfold validate_xperms. apply tests_pure. rewrite Hx.
      pose proof (one_of_spec (xp_specified x) [AVTAB_XPERMS_IOCTLDRIVER; AVTAB_XPERMS_IOCTLFUNCTION]) as Ho. destruct (one_of _ _).
      * split; [|done]. intros _ _. exists x. by split; [|apply Ho].
      * split; [done|]. intros H'. destruct H' as (y & [= <-] & Hy%Ho); [by apply Hn|done].
    + eapply tests_iff; [|apply tests_ok]. intuition congruence.
Qed.

Lemma avtab_chain_run g c (Q : avtab_key → avtab_datum → Prop) h :
  (∀ n, n ∈ c → tests (g (an_key n) (an_datum n)) (Q (an_key n) (an_datum n))) →
  ∃ rc, avtab_map_chain (λ k d s, rc ← get (g k d); mret (rc, s)) c tt h = Some ((rc, tt), h) ∧
    (rc = 0 ∧ Forall (λ n, Q (an_key n) (an_datum n)) c ∨ rc ≠ 0 ∧ ¬ Forall (λ n, Q (an_key n) (an_datum n)) c).
Proof.
  induction c as [|n c IH]; intros Hl; cbn [avtab_map_chain]; [exists 0; split; [done|]; left; by split|].
  destruct (Hl n) as (rc & E & Hrc); [left|]. rewrite E. rewrite !(bind_run _ _ (rc, ()) h h) by done. cbn [fst snd].
  destruct Hrc as [[-> HQ]|[Hne HQ]].
  - cbn [nz Z.eqb negb]. destruct IH as (rc & -> & Hr); [intros e' He'; apply Hl; by right|]. exists rc. split; [done|]. rewrite Forall_cons. tauto.
  - unfold nz. rewrite (proj2 (Z.eqb_neq _ _)) by done. exists rc. split; [done|]. rewrite Forall_cons. tauto.
Qed.

Lemma avtab_slots_run g t (Q : avtab_key → avtab_datum → Prop) todo i h :
  0 ≤ i → (Z.to_nat i + todo = length t)%nat →
  (∀ n, n ∈ concat (drop (Z.to_nat i) t) → tests (g (an_key n) (an_datum n)) (Q (an_key n) (an_datum n))) →
  ∃ rc, avtab_map_slots (λ k d s, rc ← get (g k d); mret (rc, s)) todo i t tt h = Some ((rc, tt), h) ∧
    (rc = 0 ∧ Forall (λ n, Q (an_key n) (an_datum n)) (concat (drop (Z.to_nat i) t)) ∨
     rc ≠ 0 ∧ ¬ Forall (λ n, Q (an_key n) (an_datum n)) (concat (drop (Z.to_nat i) t))).
Proof.
  revert i. induction todo as [|todo IH]; intros i Hi Hl Ht; cbn [avtab_map_slots].
  { exists 0. split; [done|]. left. split; [done|]. rewrite drop_ge by lia. constructor. }
  destruct (lookup_lt_is_Some_2 t (Z.to_nat i)) as [c Hc]; [lia|]. rewrite (drop_S _ _ _ Hc) in *. cbn [concat] in *.
  unfold aget. rewrite (proj2 (Z.ltb_ge _ _)) by lia. rewrite Hc, (bind_run (get (Some c)) _ c h h) by done.
  destruct (avtab_chain_run g c Q h) as (rc & E & Hr); [intros n Hn; apply Ht, elem_of_app; by left|].
  rewrite (bind_run _ _ _ _ _ E). cbn [fst snd]. destruct Hr as [[-> HQ]|[Hne HQ]].
  - cbn [nz Z.eqb negb]. replace (S (Z.to_nat i)) with (Z.to_nat (i + 1)) in * by lia.
    destruct (IH (i + 1)) as (rc & -> & Hr); [lia|lia|intros n Hn; apply Ht, elem_of_app; by right|]. exists rc. split; [done|]. rewrite Forall_app. tauto.
  - unfold nz. rewrite (proj2 (Z.eqb_neq _ _)) by done. exists rc. split; [done|]. rewrite Forall_app. tauto.
Qed.

Lemma validate_avtab_spec a :
  awf a → every_rule a rule_data → tests_m (validate_avtab a p f) (every_rule a (valid_rule p)).
Proof using Hf Ha Hk.
  intros Hw Hd h. unfold every_rule, entries, validate_avtab, avtab_map in *. rewrite Forall_forall in Hd.
  assert (length (default [] (av_htable a)) = Z.to_nat (av_nslot a)) as Hl.
  { unfold awf in Hw. destruct (av_htable a) as [t|]; simpl; [|by rewrite Hw]. destruct Hw as (_ & _ & ? & _). lia. }
  destruct (avtab_slots_run (λ k d, validate_avtab_key_and_datum k d p f) (default [] (av_htable a)) (valid_rule p) (Z.to_nat (av_nslot a)) 0 h)
    as (rc & E & Hr); [done|simpl; lia|intros n Hn; by apply validate_rule_spec, Hd|].
  rewrite (bind_run _ _ _ _ _ E). unfold nz. destruct Hr as [[-> HQ]|[Hne HQ]]; simpl; [exists 0|exists (-1)].
  - split; [done|]. by left.
  - rewrite (proj2 (Z.eqb_neq _ _)) by done. split; [done|]. by right.
Qed.

(** [for (i = 0; i < n; i++)] over an array. *)
Lemma validate_indices {A} (l : list A) n (g : Z → A → option Z) (Q : Z → A → Prop) :
  0 ≤ n ≤ Z.of_nat (length l) →
  (∀ i x, 0 ≤ i < n → l !! Z.to_nat i = Some x → tests (g i x) (Q i x)) →
  tests (validate_all (λ i, x ← aget l i; g i x) (seqZ 0 n)) (∀ i x, 0 ≤ i < n → l !! Z.to_nat i = Some x → Q i x).
Proof.
  intros Hn Hg. eapply tests_iff; [|apply (tests_all _ _ (λ i, ∀ x, l !! Z.to_nat i = Some x → Q i x))].
  - rewrite Forall_forall. setoid_rewrite elem_of_seqZ. split; intros H i; [intros x Hi; apply H; lia|intros Hi x; apply H; lia].
  - intros i Hi%elem_of_seqZ. destruct (lookup_lt_is_Some_2 l (Z.to_nat i)) as [x Hx]; [lia|]. unfold aget. rewrite (proj2 (Z.ltb_ge _ _)) by lia.
    eapply tests_get; [exact Hx|]. eapply tests_iff; [|apply Hg; [lia|done]]. rewrite Hx. naive_solver.
Qed.

Lemma decode_kind x :
  match decode x with
  | Some (TLeaf b) => ce_type x = COND_BOOL ∧ b = ce_bool x
  | Some TNot => ce_type x = COND_NOT
  | Some (TBin _) => ce_type x ∈ [COND_OR; COND_AND; COND_XOR; COND_EQ; COND_NEQ]
  | None => ce_type x ∉ [COND_BOOL; COND_NOT; COND_OR; COND_AND; COND_XOR; COND_EQ; COND_NEQ]
  end.
Proof.
  unfold decode. repeat (match goal with |- context [ce_type x =? ?c] => destruct (Z.eqb_spec (ce_type x) c) end;
    [rewrite ?elem_of_cons; tauto|]).
  rewrite !elem_of_cons, elem_of_nil. tauto.
Qed.

Definition expr_depth (expr : list cond_expr) (n : nat) : option nat :=
  ts ← mapM decode expr; tokens_depth maxdepth ts n.

Lemma expr_depth_cons x expr t n :
  decode x = Some t → expr_depth (x :: expr) n = (n ← token_depth maxdepth t n; expr_depth expr n).
Proof.
  intros Hx. unfold expr_depth. cbn [mapM]. rewrite Hx. cbn [mbind option_bind].
  destruct (mapM decode expr) as [ts|]; [done|]. by destruct (token_depth maxdepth t n).
Qed.

Lemma expr_depth_bad x expr n : decode x = None → expr_depth (x :: expr) n = None.
Proof. intros Hx. unfold expr_depth. cbn [mapM]. by rewrite Hx. Qed.

Lemma cond_depth_spec expr g d :
  flavor_ok g (bool_sym p) → Forall (λ x, 0 ≤ ce_bool x) expr → -1 ≤ d < COND_EXPR_MAXDEPTH →
  tests (cond_expr_depth expr g d)
    (expr_depth expr (Z.to_nat (d + 1)) = Some 1%nat ∧ Forall (λ x, ce_type x = COND_BOOL → bool_sym p (ce_bool x)) expr).
Proof.
  intros Hg Hd. revert d. induction Hd as [|x expr Hx Hd IH]; intros d Hdep; cbn [cond_expr_depth].
  - unfold expr_depth. simpl. destruct (Z.eqb_spec d 0) as [->|Hne]; [by eapply tests_iff; [|apply tests_ok]|].
    apply tests_bad. intros [[= H] _]. lia.
  - pose proof (decode_kind x) as Hkind. unfold COND_EXPR_MAXDEPTH in *.
    destruct (decode x) as [t|] eqn:Ex; [|rewrite !elem_of_cons in Hkind; rewrite !(proj2 (Z.eqb_neq _ _)) by tauto].
    + eapply tests_iff; [rewrite (expr_depth_cons x expr t _ Ex), Forall_cons; reflexivity|].
      destruct t as [b| |o]; cbn [token_depth].
      * destruct Hkind as [-> ->]. cbn [Z.eqb COND_BOOL Pos.eqb].
        apply (tests_iff _ (bool_sym p (ce_bool x) ∧ d ≠ 9 ∧ expr_depth expr (Z.to_nat (d + 1 + 1)) = Some 1%nat ∧
          Forall (λ x, ce_type x = COND_BOOL → bool_sym p (ce_bool x)) expr)).
        { destruct (Nat.ltb_spec (Z.to_nat (d + 1)) maxdepth) as [Hlt|Hlt]; unfold maxdepth, COND_EXPR_MAXDEPTH in Hlt.
          - cbn [mbind option_bind]. replace (S (Z.to_nat (d + 1))) with (Z.to_nat (d + 1 + 1)) by lia.
            split; [tauto|]. intros (? & ? & ?). split; [tauto|]. split; [lia|done].
          - split; [lia|]. by intros [? _]. }
        tests_step; [by apply tests_pure, validate_value_spec|]. tests_step; [rewrite negb_true_iff; apply Z.eqb_neq|]. apply IH. lia.
      * rewrite Hkind. cbn [Z.eqb COND_BOOL COND_NOT Pos.eqb].
        apply (tests_iff _ (0 ≤ d ∧ expr_depth expr (Z.to_nat (d + 1)) = Some 1%nat ∧
          Forall (λ x, ce_type x = COND_BOOL → bool_sym p (ce_bool x)) expr)).
        { destruct (Nat.leb_spec 1 (Z.to_nat (d + 1))); cbn [mbind option_bind].
          - split; [|intuition lia]. intros (? & ? & ?). split; [done|]. by split.
          - split; [lia|]. by intros [? _]. }
        tests_step; [rewrite negb_true_iff; apply Z.ltb_ge|]. by apply IH.
      * assert (ce_type x ≠ COND_BOOL ∧ ce_type x ≠ COND_NOT) as [Hb Hn].
        { rewrite !elem_of_cons, elem_of_nil in Hkind. split; intros E; rewrite E in Hkind; by destruct Hkind as [|[|[|[|[|]]]]]. }
        rewrite !(proj2 (Z.eqb_neq _ _)) by done. rewrite (proj2 (one_of_spec _ _) Hkind).
        apply (tests_iff _ (1 ≤ d ∧ expr_depth expr (Z.to_nat (d - 1 + 1)) = Some 1%nat ∧
          Forall (λ x, ce_type x = COND_BOOL → bool_sym p (ce_bool x)) expr)).
        { destruct (Nat.leb_spec 2 (Z.to_nat (d + 1))); cbn [mbind option_bind].
          - replace (Z.to_nat (d + 1) - 1)%nat with (Z.to_nat (d - 1 + 1)) by lia. split; [|intuition lia]. intros (? & ? & ?). split; [done|]. by split.
          - split; [lia|]. by intros [? _]. }
        tests_step; [rewrite negb_true_iff; apply Z.ltb_ge|]. apply IH. lia.
    + destruct (one_of _ _) eqn:Eo; [apply one_of_spec in Eo; rewrite !elem_of_cons in Eo; tauto|]. apply tests_bad.
      rewrite (expr_depth_bad _ _ _ Ex). by intros [? _].
Qed.

Lemma validate_cond_expr_spec expr :
  Forall (λ x, 0 ≤ ce_bool x) expr → tests (validate_cond_expr expr (f_bools f)) (valid_cond_expr p expr).
Proof using Hf.
  intros Hd. eapply tests_iff; [|unfold validate_cond_expr; apply (tests_require _ _ (expr ≠ []));
    [by destruct expr|intros _; apply cond_depth_spec; [apply Hf|done|done]]].
  unfold valid_cond_expr, expr_depth. change (Z.to_nat (-1 + 1)) with 0%nat. split.
  - intros (_ & Ht & Hb). split; [|done]. destruct (mapM decode expr) as [ts|]; [|done]. cbn [mbind option_bind] in Ht.
    apply depth_expression in Ht as (e & -> & ?). by exists e.
  - intros [(e & Hm & He) Hb]. split; [|split; [|done]].
    + intros ->. cbn in Hm. injection Hm as Hm. apply (f_equal length) in Hm. destruct e; simpl in Hm; rewrite ?length_app in Hm; simpl in Hm; lia.
    + rewrite Hm. cbn [mbind option_bind]. apply depth_expression. by exists e.
Qed.

Lemma validate_pointers_spec l :
  Forall (λ x, is_Some (chain_from (te_cond_avtab p) x)) l →
  (∀ x c n, x ∈ l → chain_from (te_cond_avtab p) x = Some c → n ∈ c → key_data (an_key n)) →
  tests (validate_cond_av_list l p f) (Forall (valid_pointer p) l).
Proof using Hf Ha Hk.
  intros Hl Hd. rewrite Forall_forall in Hl. apply tests_all. intros x Hx. destruct (Hl x Hx) as [c Hc].
  eapply tests_get; [exact Hc|]. eapply tests_iff; [|apply tests_all; intros n Hn; apply validate_key_spec; by eapply Hd].
  unfold valid_pointer. rewrite Hc. naive_solver.
Qed.

(** A rule and those after it in its chain are rules of the table. *)
Lemma chain_from_entries a x c n : chain_from a x = Some c → n ∈ c → n ∈ entries a.
Proof.
  unfold chain_from, entries. destruct (av_htable a) as [t|]; [|done]. cbn [mbind option_bind default]. intros Hc Hn.
  assert (c ∈ omap (suffix_at x) t) as (s & Hs & E)%list_elem_of_omap.
  { destruct (omap (suffix_at x) t); [done|]. injection Hc as ->. left. }
  apply list_elem_of_lookup in Hs as [i Hi]. apply elem_of_concat. exists i, s. split; [done|]. clear Hi Hc. induction s as [|m s IH]; [done|]. cbn [suffix_at] in E.
  destruct (an_addr m =? x); [by injection E as <-|]. right. by apply IH.
Qed.

Lemma validate_cond_spec :
  Forall (cond_data p) (cond_list p) → every_rule (te_cond_avtab p) (λ k _, key_data k) →
  tests (validate_cond_list (cond_list p) p f) (Forall (valid_cond p) (cond_list p)).
Proof using Hf Ha Hk.
  intros Hd Hr. unfold every_rule in Hr. rewrite Forall_forall in Hd. rewrite Forall_forall in Hr. apply tests_all. intros c Hc.
  destruct (Hd c Hc) as [D1 [D2 D3]%Forall_app [D4 D5] D6].
  assert (∀ (l : list Z) x c n, x ∈ l → chain_from (te_cond_avtab p) x = Some c → n ∈ c → key_data (an_key n)) as Hkeys.
  { intros _ x c' n _ Hx Hn. eapply Hr, chain_from_entries; done. }
  apply (tests_iff _ (valid_cond_expr p (cn_cond c) ∧ Forall (valid_pointer p) (cn_true c) ∧ Forall (valid_pointer p) (cn_false c) ∧
    (cn_nbools c < COND_MAX_BOOLS ∧ ∀ i b, 0 ≤ i < cn_nbools c → cn_bool_ids c !! Z.to_nat i = Some b → bool_sym p b) ∧
    cn_cur_state c ∈ [0; 1] ∧ cn_flags c ∈ [0; COND_NODE_FLAGS_TUNABLE])).
  { split; [by intros (? & ? & ? & (? & ?) & ? & ?)|by intros []]. }
  tests_step; [by apply validate_cond_expr_spec|]. do 2 (tests_step; [apply validate_pointers_spec; [done|by apply Hkeys]|]).
  tests_step; [|tests_step; [apply one_of_spec|]; tests_step; apply one_of_spec].
  unfold validate_bool_id_array. tests_step; [rewrite negb_true_iff, Z.geb_leb; apply Z.leb_gt|].
  apply (validate_indices _ _ (λ _ b, Some (validate_value b (f_bools f))) (λ _, bool_sym p)); [lia|].
  intros i b Hi Hb. apply tests_pure, validate_value_spec; [apply Hf|]. rewrite Forall_forall in D5. eapply D5, list_elem_of_lookup_2, Hb.
Qed.
End rules.

(** ** Role rules, labels and the other parts *)

Definition role_trans_data (t : role_trans) : Prop := 0 ≤ rt_role t ∧ 0 ≤ rt_type t ∧ 0 ≤ rt_tclass t ∧ 0 ≤ rt_new_role t.

Definition valid_role_trans (p : policydb) (t : role_trans) : Prop :=
  role_sym p (rt_role t) ∧ type_sym p (rt_type t) ∧ class_sym p (rt_tclass t) ∧ role_sym p (rt_new_role t).

Definition role_allow_data (a : role_allow) : Prop := 0 ≤ ra_role a ∧ 0 ≤ ra_new_role a.

Definition valid_role_allow (p : policydb) (a : role_allow) : Prop := role_sym p (ra_role a) ∧ role_sym p (ra_new_role a).

Definition filename_data (k : filename_trans_key) (d : list filename_trans_datum) : Prop :=
  0 ≤ ft_ttype k ∧ 0 ≤ ft_tclass k ∧ Forall (λ x, wf (ft_stypes x) ∧ 0 ≤ ft_otype x) d.

Definition valid_filename (p : policydb) (k : filename_trans_key) (d : list filename_trans_datum) : Prop :=
  type_sym p (ft_ttype k) ∧ class_sym p (ft_tclass k) ∧ d ≠ [] ∧
  Forall (λ x, set_of (type_sym p) (ft_stypes x) ∧ type_sym p (ft_otype x)) d.

Definition context_data (c : context_struct) : Prop :=
  0 ≤ c_user c ∧ 0 ≤ c_role c ∧ 0 ≤ c_type c ∧ range_data (c_range c).

Definition valid_label (p : policydb) (c : context_struct) : Prop :=
  user_sym p (c_user c) ∧ role_sym p (c_role c) ∧ type_sym p (c_type c) ∧ (mls p ≠ 0 → valid_range p (c_range c)).

Definition ocontext_data (platform i : Z) (o : ocontext) : Prop :=
  context_data (oc_context0 o) ∧ context_data (oc_context1 o) ∧ 0 ≤ oc_v o ∧
  (platform = SEPOL_TARGET_SELINUX → i = OCON_PORT → ∃ proto low high, oc_key o = OPort proto low high).

Definition valid_ocontext (p : policydb) (i : Z) (o : ocontext) : Prop :=
  valid_label p (oc_context0 o) ∧
  (target_platform p = SEPOL_TARGET_SELINUX →
    (i ∈ [OCON_FS; OCON_NETIF] → valid_label p (oc_context1 o)) ∧
    (i = OCON_PORT → ∀ proto low high, oc_key o = OPort proto low high → low ≤ high) ∧
    (i = OCON_FSUSE → oc_v o ∈ [SECURITY_FS_USE_XATTR; SECURITY_FS_USE_TRANS; SECURITY_FS_USE_TASK])).

Definition valid_genfs (p : policydb) (o : ocontext) : Prop :=
  valid_label p (oc_context0 o) ∧ optional (class_sym p) (oc_v o).

Definition range_trans_data (k : range_trans) (r : mls_range) : Prop :=
  0 ≤ rt_source_type k ∧ 0 ≤ rt_target_type k ∧ 0 ≤ rt_target_class k ∧ range_data r.

Definition valid_range_trans (p : policydb) (k : range_trans) (r : mls_range) : Prop :=
  type_sym p (rt_source_type k) ∧ type_sym p (rt_target_type k) ∧ class_sym p (rt_target_class k) ∧ valid_range p r.

Section labels.
Context (p : policydb) (f : flavors_t) (Hf : flavors_ok p f) (Ha : arrays_data p).

(** Check the next value or set. *)
Ltac check_value := tests_step; [by apply tests_pure, validate_value_spec; [apply Hf|]|].
Ltac check_set := tests_step; [by apply tests_pure, validate_ebitmap_spec; [apply Hf|]|].

Lemma validate_role_transes_spec l :
  Forall role_trans_data l → tests (validate_role_transes l f) (Forall (valid_role_trans p) l).
Proof using Hf.
  rewrite Forall_forall. intros Hd. apply tests_all. intros t Ht. destruct (Hd t Ht) as (H1 & H2 & H3 & H4). unfold valid_role_trans.
  do 3 check_value. tests_step. by apply tests_pure, validate_value_spec; [apply Hf|].
Qed.

Lemma validate_role_allows_spec l :
  Forall role_allow_data l → tests (validate_role_allows l f) (Forall (valid_role_allow p) l).
Proof using Hf.
  rewrite Forall_forall. intros Hd. apply tests_all. intros t Ht. destruct (Hd t Ht) as (H1 & H2). unfold valid_role_allow.
  check_value. tests_step. by apply tests_pure, validate_value_spec; [apply Hf|].
Qed.

Lemma validate_filename_spec t :
  (∀ h, t = Some h → hwf h) → all_entries t filename_data →
  tests_m (validate_filename_trans_hashtab t f) (all_entries t (valid_filename p)).
Proof using Hf.
  intros Hw Hd. apply tests_m_norm, validate_entries_spec; [done|]. intros h Hh. eapply Forall_impl; [by apply Hd|].
  intros [k d] (H1 & H2 & H3). cbn [fst snd] in *. rewrite Forall_forall in H3. unfold validate_filename_trans, valid_filename.
  do 2 check_value. tests_step; [by destruct d|]. apply tests_all. intros x Hx. destruct (H3 x Hx). check_set. tests_step.
  by apply tests_pure, validate_value_spec; [apply Hf|].
Qed.

Lemma validate_context_spec c : context_data c → validate_context c f (mls p) = 0 ↔ valid_label p c.
Proof using Hf.
  intros (H1 & H2 & H3 & H4). unfold validate_context, valid_label.
  rewrite <- (validate_value_spec (c_user c) (f_users f)), <- (validate_value_spec (c_role c) (f_roles f)),
    <- (validate_value_spec (c_type c) (f_types f)), <- (validate_mls_range_spec p f Hf (c_range c) H4) by (done || apply Hf).
  unfold nz. repeat (match goal with |- context [validate_value ?v ?g =? 0] => destruct (Z.eqb_spec (validate_value v g) 0) end; simpl;
    [|split; [done|tauto]]).
  destruct (Z.eqb_spec (mls p) 0), (Z.eqb_spec (validate_mls_range (c_range c) (f_levels f) (f_cats f)) 0); simpl; split; tauto || done.
Qed.

Lemma validate_ocontext_spec i o : ocontext_data (target_platform p) i o → tests (validate_ocontext i p f o) (valid_ocontext p i o).
Proof using Hf.
  intros (H1 & H2 & H3 & H4). unfold validate_ocontext, valid_ocontext.
  tests_step; [by apply tests_pure, validate_context_spec|].
  destruct (Z.eqb_spec (target_platform p) SEPOL_TARGET_SELINUX); [|by eapply tests_iff; [|apply tests_ok]].
  destruct (one_of i [OCON_FS; OCON_NETIF]) eqn:Ei.
  { apply one_of_spec in Ei. eapply tests_iff; [|tests_step; by apply tests_pure, validate_context_spec].
    rewrite !elem_of_cons, elem_of_nil in Ei. split.
    - intros ? _. split; [done|]. by destruct Ei as [->|[->|[]]].
    - intros H'. apply H'; [done|]. rewrite !elem_of_cons. tauto. }
  assert (i ∉ [OCON_FS; OCON_NETIF]) by (rewrite <- one_of_spec; congruence).
  destruct (Z.eqb_spec i OCON_PORT) as [->|].
  { destruct H4 as (proto & low & high & E); [done|done|]. rewrite E. eapply tests_iff; [|tests_step; apply at_most].
    split; [|intros H'; by eapply H']. intros ? _. split; [done|]. split; [|done]. by intros _ ? ? ? [= <- <- <-]. }
  destruct (Z.eqb_spec i OCON_FSUSE).
  { eapply tests_iff; [|tests_step; apply one_of_spec]. split; [by intros ? _|]. intros H'. by apply H'. }
  by eapply tests_iff; [|apply tests_ok].
Qed.

Lemma validate_ocontexts_spec :
  (∀ i l, ocontexts p !! Z.to_nat i = Some l → Forall (ocontext_data (target_platform p) i) l) →
  tests (validate_ocontexts p f) (∀ i l, 0 ≤ i < OCON_NUM → ocontexts p !! Z.to_nat i = Some l → Forall (valid_ocontext p i) l).
Proof using Hf Ha.
  intros Hd. apply (validate_indices _ _ (λ i l, validate_all (validate_ocontext i p f) l) (λ i, Forall (valid_ocontext p i))).
  - rewrite (ar_ocontexts p Ha). by unfold OCON_NUM.
  - intros i l Hi Hl. specialize (Hd i l Hl). rewrite Forall_forall in Hd. apply tests_all. intros o Ho. by apply validate_ocontext_spec, Hd.
Qed.

Lemma validate_genfs_spec :
  Forall (λ g, Forall (ocontext_data (target_platform p) (-1)) (gf_head g)) (p_genfs p) →
  tests (validate_genfs p f) (Forall (λ g, Forall (valid_genfs p) (gf_head g)) (p_genfs p)).
Proof using Hf.
  intros Hd. rewrite Forall_forall in Hd. apply tests_all. intros g Hg. specialize (Hd g Hg). simpl in Hd. rewrite Forall_forall in Hd.
  apply tests_all. intros o Ho. destruct (Hd o Ho) as (H1 & _ & H3 & _). unfold valid_genfs.
  tests_step; [by apply tests_pure, validate_context_spec|]. tests_step. by apply tests_pure, optional_spec; [apply Hf|].
Qed.

Lemma validate_permissives_spec :
  wf (permissive_map p) →
  tests (validate_permissives p f) (∀ i, ebitmap_get_bit (permissive_map p) i = true → simple_type p i).
Proof using Hf Ha.
  intros Hw. unfold validate_permissives. destruct (positive_bits_spec _ Hw) as (l & Hl & _ & Hb). eapply tests_get; [exact Hl|].
  eapply tests_iff; [|apply tests_all; intros i Hi%Hb; apply simpletype_spec; [done|done|]].
  - rewrite Forall_forall. by setoid_rewrite Hb.
  - apply wf_bit_range in Hi; [lia|done].
Qed.

Lemma validate_range_transitions_spec :
  (∀ h, range_tr p = Some h → hwf h) → all_entries (range_tr p) range_trans_data →
  tests_m (validate_range_transitions p f) (all_entries (range_tr p) (valid_range_trans p)).
Proof using Hf.
  intros Hw Hd. apply tests_m_norm, validate_entries_spec; [done|]. intros h Hh. eapply Forall_impl; [by apply Hd|].
  intros [k r] (H1 & H2 & H3 & H4). cbn [fst snd] in *. unfold validate_range_transition, valid_range_trans.
  do 3 check_value. tests_step. by apply tests_pure, validate_mls_range_spec.
Qed.

Lemma validate_typeattr_spec :
  Forall wf (type_attr_map p) →
  tests (validate_typeattr_map p f) (∀ i e, 0 ≤ i < s_nprim (p_types p) → type_attr_map p !! Z.to_nat i = Some e → set_of (type_sym p) e).
Proof using Hf Ha.
  intros Hw. rewrite Forall_forall in Hw.
  apply (validate_indices _ _ (λ _ e, Some (validate_ebitmap e (f_types f))) (λ _, set_of (type_sym p))).
  - rewrite (ar_type_maps p Ha). destruct (ar_types p Ha) as [? _]. lia.
  - intros i e Hi He. apply tests_pure, validate_ebitmap_spec; [apply Hf|]. eapply Hw, list_elem_of_lookup_2, He.
Qed.
End labels.
