(* ===== verification/ValidateSpec.v ===== *)
(** * The validation of policies

    [policydb_validate] accepts exactly the valid policies, and what follows for
    the evaluation of their conditionals. *)

From S2P Require Import Prelude Ebitmap EbitmapFacts EbitmapIter EbitmapSpec Hashtab HashtabFacts Avtab AvtabFacts Mls.
From S2P Require Import Policydb MlsPolicy MlsFacts Rpn Conditional ConditionalFacts ConditionalNorm ConditionalSpec Context Constraint.
From S2P Require Import ConstraintFacts ConstraintSpec Services ServicesSpec HashtabSpec AvtabSpec MlsSpec ObjectSid Optimize.
From S2P Require Import Validate ValidateFacts ValidateRules.

#[local] Open Scope validate_scope.

(** ** Valid policies *)

(** The fields hold data of their C types: unsigned values, well-formed bitmaps
    and tables, arrays of the sizes their symbol tables give, and pointers to
    rules. *)
Record policy_data (p : policydb) : Prop := {
  pd_kernel : policy_type p = POLICY_KERN;
  pd_arrays : arrays_data p;
  pd_tables : tables_data p;
  pd_avtab : awf (te_avtab p) ∧ every_rule (te_avtab p) rule_data;
  pd_cond_rules : every_rule (te_cond_avtab p) (λ k _, key_data k);
  pd_conds : Forall (cond_data p) (cond_list p);
  pd_role_tr : Forall role_trans_data (role_tr p);
  pd_role_allow : Forall role_allow_data (p_role_allow p);
  pd_filename : (∀ h, filename_trans p = Some h → hwf h) ∧ all_entries (filename_trans p) filename_data;
  pd_ocontexts : ∀ i l, ocontexts p !! Z.to_nat i = Some l → Forall (ocontext_data (target_platform p) i) l;
  pd_genfs : Forall (λ g, Forall (ocontext_data (target_platform p) (-1)) (gf_head g)) (p_genfs p);
  pd_permissive : wf (permissive_map p);
  pd_range_tr : (∀ h, range_tr p = Some h → hwf h) ∧ all_entries (range_tr p) range_trans_data;
  pd_type_attr : Forall wf (type_attr_map p)
}.

Definition valid_properties (p : policydb) : Prop :=
  POLICYDB_VERSION_MIN ≤ policyvers p ≤ POLICYDB_VERSION_MAX ∧
  target_platform p ∈ [SEPOL_TARGET_SELINUX; SEPOL_TARGET_XEN] ∧ mls p ∈ [0; 1] ∧
  handle_unknown p ∈ [SEPOL_DENY_UNKNOWN; SEPOL_REJECT_UNKNOWN; SEPOL_ALLOW_UNKNOWN].

(** Every symbol mentioned in the policy is one of its symbols, of the right
    kind. *)
Record valid_policy (p : policydb) : Prop := {
  vp_properties : valid_properties p;
  vp_rules : every_rule (te_avtab p) (valid_rule p);
  vp_conds : POLICYDB_VERSION_BOOL ≤ policyvers p → Forall (valid_cond p) (cond_list p);
  vp_role_tr : Forall (valid_role_trans p) (role_tr p);
  vp_role_allow : Forall (valid_role_allow p) (p_role_allow p);
  vp_filename : POLICYDB_VERSION_FILENAME_TRANS ≤ policyvers p → all_entries (filename_trans p) (valid_filename p);
  vp_ocontexts : ∀ i l, 0 ≤ i < OCON_NUM → ocontexts p !! Z.to_nat i = Some l → Forall (valid_ocontext p i) l;
  vp_genfs : Forall (λ g, Forall (valid_genfs p) (gf_head g)) (p_genfs p);
  vp_arrays : valid_arrays p;
  vp_tables : valid_tables p;
  vp_permissive : ∀ i, ebitmap_get_bit (permissive_map p) i = true → simple_type p i;
  vp_range_tr : all_entries (range_tr p) (valid_range_trans p);
  vp_type_attr : POLICYDB_VERSION_AVTAB ≤ policyvers p →
    ∀ i e, 0 ≤ i < s_nprim (p_types p) → type_attr_map p !! Z.to_nat i = Some e → set_of (type_sym p) e
}.

Lemma properties_spec p : validate_properties p = 0 ↔ valid_properties p.
Proof.
  unfold validate_properties, valid_properties. rewrite <- !one_of_spec, Z.gtb_ltb.
  destruct (Z.ltb_spec (policyvers p) POLICYDB_VERSION_MIN); simpl; [split; [done|lia]|].
  destruct (Z.ltb_spec POLICYDB_VERSION_MAX (policyvers p)); [split; [done|lia]|].
  repeat (destruct (one_of _ _); simpl; [|split; [done|by intros (_ & ? & ? & ?)]]). split; [|done]. intros _. split; [lia|done].
Qed.

Lemma since_version p v r (Q : Prop) : tests r Q → tests (if policyvers p >=? v then r else Some 0) (v ≤ policyvers p → Q).
Proof.
  intros H. rewrite Z.geb_leb. destruct (Z.leb_spec v (policyvers p)); [eapply tests_iff; [|exact H]; tauto|].
  eapply tests_iff; [|apply tests_ok]. split; [lia|done].
Qed.

Lemma tests_m_first z k (Q R : Prop) : (z = 0 ↔ Q) → (Q → tests_m k R) → tests_m (if nz z then mret (-1) else k) (Q ∧ R).
Proof. intros Hz Hk. apply (tests_m_then (get (Some z))); [by apply tests_m_get, tests_pure|done]. Qed.

Lemma validate_parts_spec p f : policy_data p → flavors_ok p f → tests_m (validate_parts p f) (valid_policy p).
Proof.
  intros [D0 D1 D2 [D3 D4] D5 D6 D7 D8 [D9 D10] D11 D12 D13 [D14 D15] D16] Hf.
  apply (tests_m_iff _ (valid_properties p ∧ every_rule (te_avtab p) (valid_rule p) ∧
    (POLICYDB_VERSION_BOOL ≤ policyvers p → Forall (valid_cond p) (cond_list p)) ∧
    Forall (valid_role_trans p) (role_tr p) ∧ Forall (valid_role_allow p) (p_role_allow p) ∧
    (POLICYDB_VERSION_FILENAME_TRANS ≤ policyvers p → all_entries (filename_trans p) (valid_filename p)) ∧
    (∀ i l, 0 ≤ i < OCON_NUM → ocontexts p !! Z.to_nat i = Some l → Forall (valid_ocontext p i) l) ∧
    Forall (λ g, Forall (valid_genfs p) (gf_head g)) (p_genfs p) ∧ valid_arrays p ∧ valid_tables p ∧
    (∀ i, ebitmap_get_bit (permissive_map p) i = true → simple_type p i) ∧ all_entries (range_tr p) (valid_range_trans p) ∧
    (POLICYDB_VERSION_AVTAB ≤ policyvers p →
      ∀ i e, 0 ≤ i < s_nprim (p_types p) → type_attr_map p !! Z.to_nat i = Some e → set_of (type_sym p) e))).
  { split; [by intros (? & ? & ? & ? & ? & ? & ? & ? & ? & ? & ? & ? & ?)|by intros []]. }
  unfold validate_parts. apply tests_m_first; [apply properties_spec|intros _].
  apply tests_m_then; [by apply validate_avtab_spec|intros _].
  apply tests_m_then; [by apply tests_m_get, since_version, validate_cond_spec|intros _].
  apply tests_m_then; [by apply tests_m_get, validate_role_transes_spec|intros _].
  apply tests_m_then; [by apply tests_m_get, validate_role_allows_spec|intros _].
  apply tests_m_then; [|intros _].
  { rewrite Z.geb_leb. destruct (Z.leb_spec POLICYDB_VERSION_FILENAME_TRANS (policyvers p)).
    - eapply tests_m_iff; [|by apply validate_filename_spec]. tauto.
    - intros h. exists 0. split; [done|]. left. split; [done|lia]. }
  apply tests_m_then; [by apply tests_m_get, validate_ocontexts_spec|intros _].
  apply tests_m_then; [by apply tests_m_get, validate_genfs_spec|intros _].
  apply tests_m_then; [by apply tests_m_get, validate_gaps_spec|intros _].
  apply tests_m_then; [by apply validate_tables_spec|intros _].
  apply tests_m_then; [by apply tests_m_get, validate_permissives_spec|intros _].
  apply tests_m_then; [by apply validate_range_transitions_spec|intros _].
  apply tests_m_last. by apply tests_m_get, since_version, validate_typeattr_spec.
Qed.

Lemma validate_spec p h :
  policy_data p →
  wp (policydb_validate p) h (λ rc h', heap_le h h' ∧
    (rc = 0 ∧ valid_policy p ∨ rc ≠ 0 ∧ (¬ valid_policy p ∨ hp_oom h ≠ [] ∨ crowded_policy p))).
Proof.
  intros Hd. unfold policydb_validate. apply wp_bind. eapply wp_mono; [apply (validate_array_init_spec p h), Hd|].
  intros [f|] h' [Hle Hf]; [|wp_step; split; [done|]; by right; split; [|right]].
  destruct (validate_parts_spec p f Hd Hf h') as (rc & E & Hr). apply wp_run. exists rc, h'. split; [done|]. split; [done|]. tauto.
Qed.

Lemma validate_valid p h h' : policy_data p → policydb_validate p h = Some (0, h') → valid_policy p.
Proof.
  intros Hd Hv. pose proof (validate_spec p h Hd) as (rc & h1 & E & _ & Hr)%wp_run. rewrite Hv in E. injection E as <- <-.
  by destruct Hr as [[_ ?]|[? _]].
Qed.


(** ** The conditionals of a valid policy *)

(** A setting of the booleans of the policy. *)
Definition setting (p : policydb) (bs : list (option cond_bool_datum)) : Prop :=
  ∀ i d, bool_val_to_struct p !! i = Some (Some d) → ∃ d', bs !! i = Some (Some d') ∧ cb_state d' ∈ [0; 1].

(** The conditional has the value of its expression, and exactly the rules of
    its list are enabled. *)
Definition settled (bs : list (option cond_bool_datum)) (a : avtab) (n n' : cond_node) : Prop :=
  ∃ e, mapM decode (cn_cond n) = Some (rpn e) ∧
    n' = set_rules n (b2z (beval (bool_env bs) e)) (cn_true n) (cn_false n) ∧
    (∀ x, x ∈ cn_true n → ∃ r, node_at a x = Some r ∧ enabled r = beval (bool_env bs) e) ∧
    (∀ x, x ∈ cn_false n → ∃ r, node_at a x = Some r ∧ enabled r = negb (beval (bool_env bs) e)).

Lemma setting_ok p bs b : arrays_data p → valid_arrays p → setting p bs → bool_sym p b → bool_ok bs b.
Proof.
  intros Ha Hv Hs Hb. pose proof Hb as [Hr _]. apply (va_bools p Hv b Hr) in Hb as [d Hd].
  destruct (Hs _ _ Hd) as (d' & Hd' & Hst). pose proof (ar_bools p Ha) as [Hn _].
  unfold bool_ok, bool_state, aget. rewrite u32_id, (proj2 (Z.ltb_ge _ _)), Hd' by lia. simpl.
  rewrite !elem_of_cons, elem_of_nil in Hst. destruct Hst as [->|[->|[]]]; [by exists false|by exists true].
Qed.

Lemma valid_expr_value bs expr e :
  Forall (leaf_ok bs) expr → mapM decode expr = Some (rpn e) → (bdepth e ≤ maxdepth)%nat →
  cond_evaluate_expr bs expr = Some (b2z (beval (bool_env bs) e)).
Proof.
  intros Hl Hm He. rewrite cond_evaluate_spec by done. rewrite Hm. cbn [mbind option_bind].
  by rewrite rpn_value, (proj2 (Nat.leb_le _ _)).
Qed.


(** ** An example *)

(** A boolean decides whether [staff_t] may read files, or [sub_t] may write them. *)
Definition val_te_rules : list (avtab_key * avtab_datum) :=
  [(AvtabKey 4 2 1 AVTAB_ALLOWED, AvtabDatum 3 None); (AvtabKey 3 2 1 AVTAB_TRANSITION, AvtabDatum 2 None)].

Definition val_cond_rules : list (avtab_key * avtab_datum) :=
  [(AvtabKey 1 2 1 AVTAB_ALLOWED, AvtabDatum 1 None); (AvtabKey 3 2 1 (Z.lor AVTAB_ALLOWED AVTAB_ENABLED), AvtabDatum 2 None)].

Definition val_te : avtab := Eval vm_compute in table_of 8 val_te_rules.
Definition val_cond : avtab := Eval vm_compute in table_of 8 val_cond_rules.

Definition val_bools : list (string * cond_bool_datum) := [("secure"%string, BoolDatum 1 0 0)].

Definition val_node : cond_node := CondNode 0 (encoded (BNot (BNot (BLeaf 1)))) [1] [2] 1 [1; 0; 0; 0; 0] 0 0.

Definition val_port : ocontext := OContext (OPort 6 80 443) 0 (Context 1 1 2 mls_range_init) context_init 0 0.

Definition val_policy : policydb :=
  Policydb 0 (Symtab (ht_of 2 [("file"%string, file_class)]) 1) (Symtab (ht_of 2 srv_roles) 2)
    (Symtab (ht_of 2 srv_types) 4) (Symtab (ht_of 2 srv_users) 2) 1 demo_levels demo_cats
    [Some "file"%string] (Some <$> srv_roles.*1) (Some <$> srv_types.*1) (Some <$> srv_users.*1)
    [Some "s0"%string; Some "s1"%string]
    [Some "c0"%string; Some "c1"%string; Some "c2"%string; Some "c3"%string] [Some "secure"%string]
    [Some file_class] (Some <$> srv_roles.*2) (Some <$> srv_users.*2) (Some <$> srv_types.*2)
    val_te (Some <$> val_bools.*2) val_cond [val_node] [RoleTrans 2 1 1 2] [RoleAllow 2 2]
    [[]; []; [val_port]; []; []; []; []; []; []] [] None
    [of_bits [0; 3]; of_bits [1]; of_bits [2; 3]; of_bits [3]] [] ebitmap_init 33 0 2 0 0 0 POLICY_KERN
    (Symtab None 0) (ht_of 2 val_bools) [] None 0 ebitmap_init 0.

Lemma ht_of_data {V} k (l : list (string * V)) (D : V → Prop) :
  0 ≤ k ≤ 31 → Forall (λ e, D e.2) l → table_data (ht_of k l) D.
Proof.
  intros Hk Hl. split; intros h Hh; by apply (ht_of_entries k l (λ _, D) h).
Qed.

Ltac bits_data := first [apply wf_init | bits_wf].
Ltac each :=
  lazymatch goal with |- Forall ?P ?l =>
    lazymatch eval hnf in l with [] => apply Forall_nil_2 | ?x :: ?k => apply (Forall_cons_2 P x k); [|each] end
  end.

Lemma level_init_data : level_data mls_level_init.
Proof. split; [done|apply wf_init]. Qed.

Lemma val_context_data u r t : 0 ≤ u → 0 ≤ r → 0 ≤ t → context_data (Context u r t mls_range_init).
Proof. intros. split_and!; [done..|]. split; apply level_init_data. Qed.

Lemma file_class_data : class_data file_class.
Proof.
  split_and!; [done|done|done| |].
  all: each; split; [vm_compute; by split|each].
  all: (split; [bits_data|eexists; split; [reflexivity|split; bits_data]]).
Qed.

Lemma val_tables : tables_data val_policy.
Proof.
  split.
  - by split.
  - apply ht_of_data; [done|]. each. apply file_class_data.
  - apply ht_of_data; [done|]. each; split_and!; try done; bits_data.
  - apply ht_of_data; [done|]. each; split_and!; try done; bits_data.
  - apply ht_of_data; [done|]. each; (split_and!; [done|bits_data|split; apply level_init_data|apply level_init_data|done]).
  - apply ht_of_data; [done|]. each; (split; [done|bits_data]).
  - apply ht_of_data; [done|]. each; done.
  - apply ht_of_data; [done|]. each; done.
Qed.

Lemma val_te_wf : awf val_te.
Proof.
  assert (val_te = table_of 8 val_te_rules) as -> by (vm_compute; reflexivity).
  apply table_of_wf; [lia|]. each; (split; [discriminate|reflexivity]).
Qed.

Lemma val_data : policy_data val_policy.
Proof.
  split.
  - done.
  - split; done || (split; [vm_compute; by split|done]).
  - apply val_tables.
  - split; [apply val_te_wf|]. unfold every_rule. each; (split; [by split_and!|split; [done|by intros []]]).
  - unfold every_rule. each; by split_and!.
  - each. split; [each; done|each; by eexists|split; [done|each; done]|done].
  - each. by split_and!.
  - each. by split_and!.
  - by split.
  - intros i l Hl. pose proof (lookup_lt_Some _ _ _ Hl) as Hi. change (Z.to_nat i < 9)%nat in Hi.
    destruct (decide (i = 2)) as [->|Hne].
    + injection Hl as <-. each. split_and!; [by apply val_context_data|by apply val_context_data|done|]. intros _ _. by eexists _, _, _.
    + destruct (Z.to_nat i) as [|[|[|n]]] eqn:E; [by injection Hl as <-..|lia|].
      do 6 (destruct n as [|n]; [by injection Hl as <-|]). lia.
  - constructor.
  - apply wf_init.
  - by split.
  - each; bits_data.
Qed.


(** [secure] set. *)
Definition val_setting : list (option cond_bool_datum) := [Some (BoolDatum 1 1 0)].

