(* ===== verification/PolicySetters.v ===== *)
(** * Writing the fields of a policy

    [p->field = x] for the fields that reading and indexing set. *)

From S2P Require Import Prelude Ebitmap Hashtab Avtab Mls Policydb.

Definition set_header (p : policydb) (t : Z) (v : Z) (m : Z) (u : Z) : policydb :=
  Policydb m (p_classes p) (p_roles p) (p_types p) (p_users p) (p_bools_nprim p) (p_levels p) (p_cats p)
    (p_class_val_to_name p) (p_role_val_to_name p) (p_type_val_to_name p) (p_user_val_to_name p)
    (p_sens_val_to_name p) (p_cat_val_to_name p) (p_bool_val_to_name p) (class_val_to_struct p)
    (role_val_to_struct p) (user_val_to_struct p) (type_val_to_struct p) (te_avtab p) (bool_val_to_struct p)
    (te_cond_avtab p) (cond_list p) (role_tr p) (p_role_allow p) (ocontexts p) (p_genfs p) (range_tr p)
    (type_attr_map p) (attr_type_map p) (permissive_map p) v u (process_class p) (process_trans p)
    (process_trans_dyntrans p) (dir_class p) t (p_commons p) (p_bools_table p) (p_common_val_to_name p)
    (filename_trans p) (filename_trans_count p) (policycaps p) (target_platform p).

Definition set_target (p : policydb) (t : Z) : policydb :=
  Policydb (mls p) (p_classes p) (p_roles p) (p_types p) (p_users p) (p_bools_nprim p) (p_levels p)
    (p_cats p) (p_class_val_to_name p) (p_role_val_to_name p) (p_type_val_to_name p) (p_user_val_to_name p)
    (p_sens_val_to_name p) (p_cat_val_to_name p) (p_bool_val_to_name p) (class_val_to_struct p)
    (role_val_to_struct p) (user_val_to_struct p) (type_val_to_struct p) (te_avtab p) (bool_val_to_struct p)
    (te_cond_avtab p) (cond_list p) (role_tr p) (p_role_allow p) (ocontexts p) (p_genfs p) (range_tr p)
    (type_attr_map p) (attr_type_map p) (permissive_map p) (policyvers p) (handle_unknown p)
    (process_class p) (process_trans p) (process_trans_dyntrans p) (dir_class p) (policy_type p)
    (p_commons p) (p_bools_table p) (p_common_val_to_name p) (filename_trans p) (filename_trans_count p)
    (policycaps p) t.

Definition set_caps (p : policydb) (caps : ebitmap) : policydb :=
  Policydb (mls p) (p_classes p) (p_roles p) (p_types p) (p_users p) (p_bools_nprim p) (p_levels p)
    (p_cats p) (p_class_val_to_name p) (p_role_val_to_name p) (p_type_val_to_name p) (p_user_val_to_name p)
    (p_sens_val_to_name p) (p_cat_val_to_name p) (p_bool_val_to_name p) (class_val_to_struct p)
    (role_val_to_struct p) (user_val_to_struct p) (type_val_to_struct p) (te_avtab p) (bool_val_to_struct p)
    (te_cond_avtab p) (cond_list p) (role_tr p) (p_role_allow p) (ocontexts p) (p_genfs p) (range_tr p)
    (type_attr_map p) (attr_type_map p) (permissive_map p) (policyvers p) (handle_unknown p)
    (process_class p) (process_trans p) (process_trans_dyntrans p) (dir_class p) (policy_type p)
    (p_commons p) (p_bools_table p) (p_common_val_to_name p) (filename_trans p) (filename_trans_count p)
    caps (target_platform p).

Definition set_permissive (p : policydb) (e : ebitmap) : policydb :=
  Policydb (mls p) (p_classes p) (p_roles p) (p_types p) (p_users p) (p_bools_nprim p) (p_levels p)
    (p_cats p) (p_class_val_to_name p) (p_role_val_to_name p) (p_type_val_to_name p) (p_user_val_to_name p)
    (p_sens_val_to_name p) (p_cat_val_to_name p) (p_bool_val_to_name p) (class_val_to_struct p)
    (role_val_to_struct p) (user_val_to_struct p) (type_val_to_struct p) (te_avtab p) (bool_val_to_struct p)
    (te_cond_avtab p) (cond_list p) (role_tr p) (p_role_allow p) (ocontexts p) (p_genfs p) (range_tr p)
    (type_attr_map p) (attr_type_map p) e (policyvers p) (handle_unknown p) (process_class p)
    (process_trans p) (process_trans_dyntrans p) (dir_class p) (policy_type p) (p_commons p)
    (p_bools_table p) (p_common_val_to_name p) (filename_trans p) (filename_trans_count p) (policycaps p)
    (target_platform p).

Definition set_commons (p : policydb) (s : symtab common_datum) : policydb :=
  Policydb (mls p) (p_classes p) (p_roles p) (p_types p) (p_users p) (p_bools_nprim p) (p_levels p)
    (p_cats p) (p_class_val_to_name p) (p_role_val_to_name p) (p_type_val_to_name p) (p_user_val_to_name p)
    (p_sens_val_to_name p) (p_cat_val_to_name p) (p_bool_val_to_name p) (class_val_to_struct p)
    (role_val_to_struct p) (user_val_to_struct p) (type_val_to_struct p) (te_avtab p) (bool_val_to_struct p)
    (te_cond_avtab p) (cond_list p) (role_tr p) (p_role_allow p) (ocontexts p) (p_genfs p) (range_tr p)
    (type_attr_map p) (attr_type_map p) (permissive_map p) (policyvers p) (handle_unknown p)
    (process_class p) (process_trans p) (process_trans_dyntrans p) (dir_class p) (policy_type p) s
    (p_bools_table p) (p_common_val_to_name p) (filename_trans p) (filename_trans_count p) (policycaps p)
    (target_platform p).

Definition set_classes (p : policydb) (s : symtab class_datum) : policydb :=
  Policydb (mls p) s (p_roles p) (p_types p) (p_users p) (p_bools_nprim p) (p_levels p) (p_cats p)
    (p_class_val_to_name p) (p_role_val_to_name p) (p_type_val_to_name p) (p_user_val_to_name p)
    (p_sens_val_to_name p) (p_cat_val_to_name p) (p_bool_val_to_name p) (class_val_to_struct p)
    (role_val_to_struct p) (user_val_to_struct p) (type_val_to_struct p) (te_avtab p) (bool_val_to_struct p)
    (te_cond_avtab p) (cond_list p) (role_tr p) (p_role_allow p) (ocontexts p) (p_genfs p) (range_tr p)
    (type_attr_map p) (attr_type_map p) (permissive_map p) (policyvers p) (handle_unknown p)
    (process_class p) (process_trans p) (process_trans_dyntrans p) (dir_class p) (policy_type p)
    (p_commons p) (p_bools_table p) (p_common_val_to_name p) (filename_trans p) (filename_trans_count p)
    (policycaps p) (target_platform p).

Definition set_roles (p : policydb) (s : symtab role_datum) : policydb :=
  Policydb (mls p) (p_classes p) s (p_types p) (p_users p) (p_bools_nprim p) (p_levels p) (p_cats p)
    (p_class_val_to_name p) (p_role_val_to_name p) (p_type_val_to_name p) (p_user_val_to_name p)
    (p_sens_val_to_name p) (p_cat_val_to_name p) (p_bool_val_to_name p) (class_val_to_struct p)
    (role_val_to_struct p) (user_val_to_struct p) (type_val_to_struct p) (te_avtab p) (bool_val_to_struct p)
    (te_cond_avtab p) (cond_list p) (role_tr p) (p_role_allow p) (ocontexts p) (p_genfs p) (range_tr p)
    (type_attr_map p) (attr_type_map p) (permissive_map p) (policyvers p) (handle_unknown p)
    (process_class p) (process_trans p) (process_trans_dyntrans p) (dir_class p) (policy_type p)
    (p_commons p) (p_bools_table p) (p_common_val_to_name p) (filename_trans p) (filename_trans_count p)
    (policycaps p) (target_platform p).

Definition set_types (p : policydb) (s : symtab type_datum) : policydb :=
  Policydb (mls p) (p_classes p) (p_roles p) s (p_users p) (p_bools_nprim p) (p_levels p) (p_cats p)
    (p_class_val_to_name p) (p_role_val_to_name p) (p_type_val_to_name p) (p_user_val_to_name p)
    (p_sens_val_to_name p) (p_cat_val_to_name p) (p_bool_val_to_name p) (class_val_to_struct p)
    (role_val_to_struct p) (user_val_to_struct p) (type_val_to_struct p) (te_avtab p) (bool_val_to_struct p)
    (te_cond_avtab p) (cond_list p) (role_tr p) (p_role_allow p) (ocontexts p) (p_genfs p) (range_tr p)
    (type_attr_map p) (attr_type_map p) (permissive_map p) (policyvers p) (handle_unknown p)
    (process_class p) (process_trans p) (process_trans_dyntrans p) (dir_class p) (policy_type p)
    (p_commons p) (p_bools_table p) (p_common_val_to_name p) (filename_trans p) (filename_trans_count p)
    (policycaps p) (target_platform p).

Definition set_users (p : policydb) (s : symtab user_datum) : policydb :=
  Policydb (mls p) (p_classes p) (p_roles p) (p_types p) s (p_bools_nprim p) (p_levels p) (p_cats p)
    (p_class_val_to_name p) (p_role_val_to_name p) (p_type_val_to_name p) (p_user_val_to_name p)
    (p_sens_val_to_name p) (p_cat_val_to_name p) (p_bool_val_to_name p) (class_val_to_struct p)
    (role_val_to_struct p) (user_val_to_struct p) (type_val_to_struct p) (te_avtab p) (bool_val_to_struct p)
    (te_cond_avtab p) (cond_list p) (role_tr p) (p_role_allow p) (ocontexts p) (p_genfs p) (range_tr p)
    (type_attr_map p) (attr_type_map p) (permissive_map p) (policyvers p) (handle_unknown p)
    (process_class p) (process_trans p) (process_trans_dyntrans p) (dir_class p) (policy_type p)
    (p_commons p) (p_bools_table p) (p_common_val_to_name p) (filename_trans p) (filename_trans_count p)
    (policycaps p) (target_platform p).

Definition set_levels (p : policydb) (s : symtab level_datum) : policydb :=
  Policydb (mls p) (p_classes p) (p_roles p) (p_types p) (p_users p) (p_bools_nprim p) s (p_cats p)
    (p_class_val_to_name p) (p_role_val_to_name p) (p_type_val_to_name p) (p_user_val_to_name p)
    (p_sens_val_to_name p) (p_cat_val_to_name p) (p_bool_val_to_name p) (class_val_to_struct p)
    (role_val_to_struct p) (user_val_to_struct p) (type_val_to_struct p) (te_avtab p) (bool_val_to_struct p)
    (te_cond_avtab p) (cond_list p) (role_tr p) (p_role_allow p) (ocontexts p) (p_genfs p) (range_tr p)
    (type_attr_map p) (attr_type_map p) (permissive_map p) (policyvers p) (handle_unknown p)
    (process_class p) (process_trans p) (process_trans_dyntrans p) (dir_class p) (policy_type p)
    (p_commons p) (p_bools_table p) (p_common_val_to_name p) (filename_trans p) (filename_trans_count p)
    (policycaps p) (target_platform p).

Definition set_cats (p : policydb) (s : symtab cat_datum) : policydb :=
  Policydb (mls p) (p_classes p) (p_roles p) (p_types p) (p_users p) (p_bools_nprim p) (p_levels p) s
    (p_class_val_to_name p) (p_role_val_to_name p) (p_type_val_to_name p) (p_user_val_to_name p)
    (p_sens_val_to_name p) (p_cat_val_to_name p) (p_bool_val_to_name p) (class_val_to_struct p)
    (role_val_to_struct p) (user_val_to_struct p) (type_val_to_struct p) (te_avtab p) (bool_val_to_struct p)
    (te_cond_avtab p) (cond_list p) (role_tr p) (p_role_allow p) (ocontexts p) (p_genfs p) (range_tr p)
    (type_attr_map p) (attr_type_map p) (permissive_map p) (policyvers p) (handle_unknown p)
    (process_class p) (process_trans p) (process_trans_dyntrans p) (dir_class p) (policy_type p)
    (p_commons p) (p_bools_table p) (p_common_val_to_name p) (filename_trans p) (filename_trans_count p)
    (policycaps p) (target_platform p).

Definition set_bools (p : policydb) (h : option (hashtab string cond_bool_datum)) (n : Z) : policydb :=
  Policydb (mls p) (p_classes p) (p_roles p) (p_types p) (p_users p) n (p_levels p) (p_cats p)
    (p_class_val_to_name p) (p_role_val_to_name p) (p_type_val_to_name p) (p_user_val_to_name p)
    (p_sens_val_to_name p) (p_cat_val_to_name p) (p_bool_val_to_name p) (class_val_to_struct p)
    (role_val_to_struct p) (user_val_to_struct p) (type_val_to_struct p) (te_avtab p) (bool_val_to_struct p)
    (te_cond_avtab p) (cond_list p) (role_tr p) (p_role_allow p) (ocontexts p) (p_genfs p) (range_tr p)
    (type_attr_map p) (attr_type_map p) (permissive_map p) (policyvers p) (handle_unknown p)
    (process_class p) (process_trans p) (process_trans_dyntrans p) (dir_class p) (policy_type p)
    (p_commons p) h (p_common_val_to_name p) (filename_trans p) (filename_trans_count p) (policycaps p)
    (target_platform p).

Definition set_process (p : policydb) (proc : Z) (dir : Z) : policydb :=
  Policydb (mls p) (p_classes p) (p_roles p) (p_types p) (p_users p) (p_bools_nprim p) (p_levels p)
    (p_cats p) (p_class_val_to_name p) (p_role_val_to_name p) (p_type_val_to_name p) (p_user_val_to_name p)
    (p_sens_val_to_name p) (p_cat_val_to_name p) (p_bool_val_to_name p) (class_val_to_struct p)
    (role_val_to_struct p) (user_val_to_struct p) (type_val_to_struct p) (te_avtab p) (bool_val_to_struct p)
    (te_cond_avtab p) (cond_list p) (role_tr p) (p_role_allow p) (ocontexts p) (p_genfs p) (range_tr p)
    (type_attr_map p) (attr_type_map p) (permissive_map p) (policyvers p) (handle_unknown p) proc
    (process_trans p) (process_trans_dyntrans p) dir (policy_type p) (p_commons p) (p_bools_table p)
    (p_common_val_to_name p) (filename_trans p) (filename_trans_count p) (policycaps p) (target_platform p).

Definition set_process_trans (p : policydb) (t : Z) (d : Z) : policydb :=
  Policydb (mls p) (p_classes p) (p_roles p) (p_types p) (p_users p) (p_bools_nprim p) (p_levels p)
    (p_cats p) (p_class_val_to_name p) (p_role_val_to_name p) (p_type_val_to_name p) (p_user_val_to_name p)
    (p_sens_val_to_name p) (p_cat_val_to_name p) (p_bool_val_to_name p) (class_val_to_struct p)
    (role_val_to_struct p) (user_val_to_struct p) (type_val_to_struct p) (te_avtab p) (bool_val_to_struct p)
    (te_cond_avtab p) (cond_list p) (role_tr p) (p_role_allow p) (ocontexts p) (p_genfs p) (range_tr p)
    (type_attr_map p) (attr_type_map p) (permissive_map p) (policyvers p) (handle_unknown p)
    (process_class p) t d (dir_class p) (policy_type p) (p_commons p) (p_bools_table p)
    (p_common_val_to_name p) (filename_trans p) (filename_trans_count p) (policycaps p) (target_platform p).

Definition set_role_tr (p : policydb) (l : list role_trans) : policydb :=
  Policydb (mls p) (p_classes p) (p_roles p) (p_types p) (p_users p) (p_bools_nprim p) (p_levels p)
    (p_cats p) (p_class_val_to_name p) (p_role_val_to_name p) (p_type_val_to_name p) (p_user_val_to_name p)
    (p_sens_val_to_name p) (p_cat_val_to_name p) (p_bool_val_to_name p) (class_val_to_struct p)
    (role_val_to_struct p) (user_val_to_struct p) (type_val_to_struct p) (te_avtab p) (bool_val_to_struct p)
    (te_cond_avtab p) (cond_list p) l (p_role_allow p) (ocontexts p) (p_genfs p) (range_tr p)
    (type_attr_map p) (attr_type_map p) (permissive_map p) (policyvers p) (handle_unknown p)
    (process_class p) (process_trans p) (process_trans_dyntrans p) (dir_class p) (policy_type p)
    (p_commons p) (p_bools_table p) (p_common_val_to_name p) (filename_trans p) (filename_trans_count p)
    (policycaps p) (target_platform p).

Definition set_role_allow (p : policydb) (l : list role_allow) : policydb :=
  Policydb (mls p) (p_classes p) (p_roles p) (p_types p) (p_users p) (p_bools_nprim p) (p_levels p)
    (p_cats p) (p_class_val_to_name p) (p_role_val_to_name p) (p_type_val_to_name p) (p_user_val_to_name p)
    (p_sens_val_to_name p) (p_cat_val_to_name p) (p_bool_val_to_name p) (class_val_to_struct p)
    (role_val_to_struct p) (user_val_to_struct p) (type_val_to_struct p) (te_avtab p) (bool_val_to_struct p)
    (te_cond_avtab p) (cond_list p) (role_tr p) l (ocontexts p) (p_genfs p) (range_tr p) (type_attr_map p)
    (attr_type_map p) (permissive_map p) (policyvers p) (handle_unknown p) (process_class p)
    (process_trans p) (process_trans_dyntrans p) (dir_class p) (policy_type p) (p_commons p)
    (p_bools_table p) (p_common_val_to_name p) (filename_trans p) (filename_trans_count p) (policycaps p)
    (target_platform p).

Definition set_filename_trans (p : policydb) (h : option (hashtab filename_trans_key (list filename_trans_datum))) (n : Z) : policydb :=
  Policydb (mls p) (p_classes p) (p_roles p) (p_types p) (p_users p) (p_bools_nprim p) (p_levels p)
    (p_cats p) (p_class_val_to_name p) (p_role_val_to_name p) (p_type_val_to_name p) (p_user_val_to_name p)
    (p_sens_val_to_name p) (p_cat_val_to_name p) (p_bool_val_to_name p) (class_val_to_struct p)
    (role_val_to_struct p) (user_val_to_struct p) (type_val_to_struct p) (te_avtab p) (bool_val_to_struct p)
    (te_cond_avtab p) (cond_list p) (role_tr p) (p_role_allow p) (ocontexts p) (p_genfs p) (range_tr p)
    (type_attr_map p) (attr_type_map p) (permissive_map p) (policyvers p) (handle_unknown p)
    (process_class p) (process_trans p) (process_trans_dyntrans p) (dir_class p) (policy_type p)
    (p_commons p) (p_bools_table p) (p_common_val_to_name p) h n (policycaps p) (target_platform p).

Definition set_class_index (p : policydb) (commons : list (option string)) (classes : list (option string)) (structs : list (option class_datum)) : policydb :=
  Policydb (mls p) (p_classes p) (p_roles p) (p_types p) (p_users p) (p_bools_nprim p) (p_levels p)
    (p_cats p) classes (p_role_val_to_name p) (p_type_val_to_name p) (p_user_val_to_name p)
    (p_sens_val_to_name p) (p_cat_val_to_name p) (p_bool_val_to_name p) structs (role_val_to_struct p)
    (user_val_to_struct p) (type_val_to_struct p) (te_avtab p) (bool_val_to_struct p) (te_cond_avtab p)
    (cond_list p) (role_tr p) (p_role_allow p) (ocontexts p) (p_genfs p) (range_tr p) (type_attr_map p)
    (attr_type_map p) (permissive_map p) (policyvers p) (handle_unknown p) (process_class p)
    (process_trans p) (process_trans_dyntrans p) (dir_class p) (policy_type p) (p_commons p)
    (p_bools_table p) commons (filename_trans p) (filename_trans_count p) (policycaps p) (target_platform p).

Definition set_role_index (p : policydb) (l : list (option string)) (structs : list (option role_datum)) : policydb :=
  Policydb (mls p) (p_classes p) (p_roles p) (p_types p) (p_users p) (p_bools_nprim p) (p_levels p)
    (p_cats p) (p_class_val_to_name p) l (p_type_val_to_name p) (p_user_val_to_name p)
    (p_sens_val_to_name p) (p_cat_val_to_name p) (p_bool_val_to_name p) (class_val_to_struct p) structs
    (user_val_to_struct p) (type_val_to_struct p) (te_avtab p) (bool_val_to_struct p) (te_cond_avtab p)
    (cond_list p) (role_tr p) (p_role_allow p) (ocontexts p) (p_genfs p) (range_tr p) (type_attr_map p)
    (attr_type_map p) (permissive_map p) (policyvers p) (handle_unknown p) (process_class p)
    (process_trans p) (process_trans_dyntrans p) (dir_class p) (policy_type p) (p_commons p)
    (p_bools_table p) (p_common_val_to_name p) (filename_trans p) (filename_trans_count p) (policycaps p)
    (target_platform p).

Definition set_type_index (p : policydb) (l : list (option string)) (structs : list (option type_datum)) : policydb :=
  Policydb (mls p) (p_classes p) (p_roles p) (p_types p) (p_users p) (p_bools_nprim p) (p_levels p)
    (p_cats p) (p_class_val_to_name p) (p_role_val_to_name p) l (p_user_val_to_name p)
    (p_sens_val_to_name p) (p_cat_val_to_name p) (p_bool_val_to_name p) (class_val_to_struct p)
    (role_val_to_struct p) (user_val_to_struct p) structs (te_avtab p) (bool_val_to_struct p)
    (te_cond_avtab p) (cond_list p) (role_tr p) (p_role_allow p) (ocontexts p) (p_genfs p) (range_tr p)
    (type_attr_map p) (attr_type_map p) (permissive_map p) (policyvers p) (handle_unknown p)
    (process_class p) (process_trans p) (process_trans_dyntrans p) (dir_class p) (policy_type p)
    (p_commons p) (p_bools_table p) (p_common_val_to_name p) (filename_trans p) (filename_trans_count p)
    (policycaps p) (target_platform p).

Definition set_user_index (p : policydb) (l : list (option string)) (structs : list (option user_datum)) : policydb :=
  Policydb (mls p) (p_classes p) (p_roles p) (p_types p) (p_users p) (p_bools_nprim p) (p_levels p)
    (p_cats p) (p_class_val_to_name p) (p_role_val_to_name p) (p_type_val_to_name p) l
    (p_sens_val_to_name p) (p_cat_val_to_name p) (p_bool_val_to_name p) (class_val_to_struct p)
    (role_val_to_struct p) structs (type_val_to_struct p) (te_avtab p) (bool_val_to_struct p)
    (te_cond_avtab p) (cond_list p) (role_tr p) (p_role_allow p) (ocontexts p) (p_genfs p) (range_tr p)
    (type_attr_map p) (attr_type_map p) (permissive_map p) (policyvers p) (handle_unknown p)
    (process_class p) (process_trans p) (process_trans_dyntrans p) (dir_class p) (policy_type p)
    (p_commons p) (p_bools_table p) (p_common_val_to_name p) (filename_trans p) (filename_trans_count p)
    (policycaps p) (target_platform p).

Definition set_mls_names (p : policydb) (s : list (option string)) (c : list (option string)) : policydb :=
  Policydb (mls p) (p_classes p) (p_roles p) (p_types p) (p_users p) (p_bools_nprim p) (p_levels p)
    (p_cats p) (p_class_val_to_name p) (p_role_val_to_name p) (p_type_val_to_name p) (p_user_val_to_name p)
    s c (p_bool_val_to_name p) (class_val_to_struct p) (role_val_to_struct p) (user_val_to_struct p)
    (type_val_to_struct p) (te_avtab p) (bool_val_to_struct p) (te_cond_avtab p) (cond_list p) (role_tr p)
    (p_role_allow p) (ocontexts p) (p_genfs p) (range_tr p) (type_attr_map p) (attr_type_map p)
    (permissive_map p) (policyvers p) (handle_unknown p) (process_class p) (process_trans p)
    (process_trans_dyntrans p) (dir_class p) (policy_type p) (p_commons p) (p_bools_table p)
    (p_common_val_to_name p) (filename_trans p) (filename_trans_count p) (policycaps p) (target_platform p).

Definition set_range_tr (p : policydb) (h : option (hashtab range_trans mls_range)) : policydb :=
  Policydb (mls p) (p_classes p) (p_roles p) (p_types p) (p_users p) (p_bools_nprim p) (p_levels p)
    (p_cats p) (p_class_val_to_name p) (p_role_val_to_name p) (p_type_val_to_name p) (p_user_val_to_name p)
    (p_sens_val_to_name p) (p_cat_val_to_name p) (p_bool_val_to_name p) (class_val_to_struct p)
    (role_val_to_struct p) (user_val_to_struct p) (type_val_to_struct p) (te_avtab p) (bool_val_to_struct p)
    (te_cond_avtab p) (cond_list p) (role_tr p) (p_role_allow p) (ocontexts p) (p_genfs p) h
    (type_attr_map p) (attr_type_map p) (permissive_map p) (policyvers p) (handle_unknown p)
    (process_class p) (process_trans p) (process_trans_dyntrans p) (dir_class p) (policy_type p)
    (p_commons p) (p_bools_table p) (p_common_val_to_name p) (filename_trans p) (filename_trans_count p)
    (policycaps p) (target_platform p).

Definition set_type_maps (p : policydb) (t : list ebitmap) (a : list ebitmap) : policydb :=
  Policydb (mls p) (p_classes p) (p_roles p) (p_types p) (p_users p) (p_bools_nprim p) (p_levels p)
    (p_cats p) (p_class_val_to_name p) (p_role_val_to_name p) (p_type_val_to_name p) (p_user_val_to_name p)
    (p_sens_val_to_name p) (p_cat_val_to_name p) (p_bool_val_to_name p) (class_val_to_struct p)
    (role_val_to_struct p) (user_val_to_struct p) (type_val_to_struct p) (te_avtab p) (bool_val_to_struct p)
    (te_cond_avtab p) (cond_list p) (role_tr p) (p_role_allow p) (ocontexts p) (p_genfs p) (range_tr p) t a
    (permissive_map p) (policyvers p) (handle_unknown p) (process_class p) (process_trans p)
    (process_trans_dyntrans p) (dir_class p) (policy_type p) (p_commons p) (p_bools_table p)
    (p_common_val_to_name p) (filename_trans p) (filename_trans_count p) (policycaps p) (target_platform p).
