(* ===== verification/ReadPolicy.v ===== *)
(** * Reading the parts of a policy

    The readers of [src/policydb.c] for a kernel policy: symbols, contexts, rules
    on roles, file names and ranges, object contexts.  [policydb_read] is in
    [PolicydbRead]. *)

From S2P Require Import Prelude PolicyFile Ebitmap Hashtab Avtab Mls Policydb MlsPolicy Conditional Context Constraint ObjectSid.
From S2P Require Import Validate PolicySetters.

(** ** Readers

    A reader consumes part of the file and gives a value, or fails, where the
    code returns a negative value after destroying what it built: the caller of
    [policydb_read] destroys the policy then. *)

Definition reader (A : Type) : Type := policy_file → M (option A * policy_file).

Declare Scope reader_scope.
Delimit Scope reader_scope with reader.

Definition rret {A} (x : A) : reader A := λ fp, mret (Some x, fp).
Definition rfail {A} : reader A := λ fp, mret (None, fp).
Definition rbind {A B} (m : reader A) (k : A → reader B) : reader B := λ fp,
  '(r, fp) ← m fp;
  match r with None => mret (None, fp) | Some x => k x fp end.
Definition lift {A} (m : M A) : reader A := λ fp, x ← m; mret (Some x, fp).

Notation "x <~ y ;; z" := (rbind y (λ x : _, z)) (at level 20, y at level 99, z at level 200, only parsing) : reader_scope.
Notation "' x1 <~ y ;; z" := (rbind y (λ x : _, let ' x1 := x in z))
  (at level 20, x1 pattern, y at level 99, z at level 200, only parsing) : reader_scope.
Notation "'guard' b ;; k" := (if (b : bool) then k else rfail) (at level 100, b at level 99, k at level 200) : reader_scope.

#[local] Open Scope reader_scope.

(** [malloc] or [calloc], failing for a null pointer. *)
Definition alloc : reader unit := λ fp,
  p ← malloc;
  mret (match p with None => None | Some _ => Some tt end, fp).

(** [for (i = 0; i < n; i++)]. *)
Fixpoint repeated {A} (n : nat) (f : A → reader A) (s : A) : reader A :=
  match n with
  | O => rret s
  | S n => s <~ f s ;; repeated n f s
  end.

Definition entry (bytes : Z) : reader (list Z) := λ fp, next_entry fp bytes.

(** [le32_to_cpu(buf[i])]. *)
Definition le32_at (buf : list Z) (i : nat) : Z := le_val (take 4 (drop (4 * i) buf)).

Definition entry1 : reader Z := buf <~ entry 4 ;; rret (le32_at buf 0).
Definition entry2 : reader (Z * Z) := buf <~ entry 8 ;; rret (le32_at buf 0, le32_at buf 1).
Definition entry3 : reader (Z * Z * Z) := buf <~ entry 12 ;; rret (le32_at buf 0, le32_at buf 1, le32_at buf 2).
Definition entry4 : reader (Z * Z * Z * Z) := buf <~ entry 16 ;; rret (le32_at buf 0, le32_at buf 1, le32_at buf 2, le32_at buf 3).

(** [key = malloc(len + 1); next_entry(key, fp, len); key[len] = 0;] *)
Definition read_key (len : Z) : reader string :=
  _ <~ alloc ;;
  buf <~ entry len ;;
  rret (cstring buf).

(** [zero_or_saturated] of a [uint32_t]; a [size_t] with a 32-bit value is never
    saturated. *)
Definition zero_or_saturated32 (len : Z) : bool := (len =? 0) || (len =? 2 ^ 32 - 1).

Definition rstr (len : Z) : reader string := λ fp,
  '(rc, str, fp) ← str_read fp len;
  mret (if nz rc then None else cstring <$> str, fp).

Definition rebitmap : reader ebitmap := λ fp,
  '(rc, e, fp) ← ebitmap_read fp;
  mret (if nz rc then None else Some e, fp).

Definition rinsert {K V} `{HashKey K} (h : option (hashtab K V)) (key : K) (datum : V) : reader (option (hashtab K V)) := λ fp,
  '(rc, h) ← hashtab_insert h key datum;
  mret (if nz rc then None else Some h, fp).

Definition rsymtab {V} (size : Z) : reader (symtab V) := λ fp,
  '(rc, s) ← symtab_init (Symtab None 0) size;
  mret (if nz rc then None else Some s, fp).

(** ** MLS fields and contexts *)

Definition type_set_read : reader type_set :=
  types <~ rebitmap ;;
  negset <~ rebitmap ;;
  flags <~ entry1 ;;
  rret (TypeSet types negset flags).

(** Without items [buf[0]] still holds their number. *)
Definition mls_read_range_helper : reader mls_range :=
  items <~ entry1 ;;
  guard negb (items >? 2) ;;
  buf <~ entry (4 * items) ;;
  let sens0 := if items =? 0 then items else le32_at buf 0 in
  let sens1 := if items >? 1 then le32_at buf 1 else sens0 in
  cat0 <~ rebitmap ;;
  if items >? 1 then
    cat1 <~ rebitmap ;;
    rret (MlsRange (MlsLevel sens0 cat0) (MlsLevel sens1 cat1))
  else
    '(rc, cat1) <~ lift (ebitmap_cpy cat0) ;;
    guard negb (nz rc) ;;
    rret (MlsRange (MlsLevel sens0 cat0) (MlsLevel sens1 cat1)).

Definition mls_read_level : reader mls_level :=
  sens <~ entry1 ;;
  cat <~ rebitmap ;;
  rret (MlsLevel sens cat).

Definition POLICYDB_VERSION_MLS : Z := 19.

(** The range is zero in the versions without MLS. *)
Definition context_read_and_validate (p : policydb) : reader context_struct :=
  '(user, role, type) <~ entry3 ;;
  range <~ (if policyvers p >=? POLICYDB_VERSION_MLS then mls_read_range_helper else rret mls_range_init) ;;
  let c := Context user role type range in
  valid <~ lift (get (policydb_context_isvalid p c)) ;;
  guard valid ;;
  rret c.

(** ** Symbols *)

Definition perm_read (nprim : Z) (h : option (hashtab string Z)) : reader (option (hashtab string Z)) :=
  _ <~ alloc ;;
  '(len, value) <~ entry2 ;;
  key <~ rstr len ;;
  guard value_isvalid value nprim ;;
  rinsert h key value.

Definition common_read (h : option (hashtab string common_datum)) : reader (option (hashtab string common_datum)) :=
  _ <~ alloc ;;
  '(len, value, nprim, nel) <~ entry4 ;;
  guard negb (len =? 0) ;;
  permissions <~ rsymtab PERM_SYMTAB_SIZE ;;
  guard negb (nprim >? PERM_SYMTAB_SIZE) ;;
  key <~ read_key len ;;
  t <~ repeated (Z.to_nat nel) (perm_read nprim) (s_table permissions) ;;
  rinsert h key (CommonDatum value (Symtab t nprim)).


(** One element of a constraint expression: the expression so far and [depth]. *)
Definition read_cexpr (p : policydb) (allowxtarget : bool) (s : list constraint_expr * Z) :
    reader (list constraint_expr * Z) :=
  let '(le, depth) := s in
  _ <~ alloc ;;
  _ <~ alloc ;;
  '(expr_type, attr, op) <~ entry3 ;;
  let next depth names tn := rret (le ++ [CExpr expr_type attr op names (Some tn)], depth) in
  if expr_type =? CEXPR_NOT then
    guard negb (depth <? 0) ;; next depth ebitmap_init type_set_init
  else if one_of expr_type [CEXPR_AND; CEXPR_OR] then
    guard negb (depth <? 1) ;; next (depth - 1) ebitmap_init type_set_init
  else if expr_type =? CEXPR_ATTR then
    guard negb (depth =? CEXPR_MAXDEPTH - 1) ;; next (depth + 1) ebitmap_init type_set_init
  else if expr_type =? CEXPR_NAMES then
    guard negb (negb allowxtarget && nz (Z.land attr CEXPR_XTARGET)) ;;
    guard negb (depth =? CEXPR_MAXDEPTH - 1) ;;
    names <~ rebitmap ;;
    tn <~ (if policyvers p >=? POLICYDB_VERSION_CONSTRAINT_NAMES then type_set_read else rret type_set_init) ;;
    next (depth + 1) names tn
  else rfail.

Definition read_cons (p : policydb) (allowxtarget : bool) (l : list constraint_node) : reader (list constraint_node) :=
  _ <~ alloc ;;
  '(permissions, nexpr) <~ entry2 ;;
  '(expr, depth) <~ repeated (Z.to_nat nexpr) (read_cexpr p allowxtarget) ([], -1) ;;
  guard depth =? 0 ;;
  rret (l ++ [CNode permissions expr]).

Definition read_cons_helper (p : policydb) (ncons : Z) (allowxtarget : bool) : reader (list constraint_node) :=
  repeated (Z.to_nat ncons) (read_cons p allowxtarget) [].

Definition POLICYDB_VERSION_VALIDATETRANS : Z := 19.
Definition POLICYDB_VERSION_NEW_OBJECT_DEFAULTS : Z := 27.
Definition POLICYDB_VERSION_DEFAULT_TYPE : Z := 28.

(** [comdatum] is the datum of the table of commons. *)
Definition class_common (p : policydb) (len2 : Z) : reader (option common_datum) :=
  if nz len2 then
    comkey <~ read_key len2 ;;
    comdatum <~ lift (get (hashtab_search (s_table (p_commons p)) comkey)) ;;
    match comdatum with None => rfail | Some _ => rret comdatum end
  else rret None.

Definition class_read (p : policydb) (h : option (hashtab string class_datum)) : reader (option (hashtab string class_datum)) :=
  _ <~ alloc ;;
  '(len, len2, value, nprim, nel, ncons) <~
    (buf <~ entry 24 ;; rret (le32_at buf 0, le32_at buf 1, le32_at buf 2, le32_at buf 3, le32_at buf 4, le32_at buf 5)) ;;
  guard negb (len =? 0) ;;
  permissions <~ rsymtab PERM_SYMTAB_SIZE ;;
  guard negb (nprim >? PERM_SYMTAB_SIZE) ;;
  key <~ read_key len ;;
  comdatum <~ class_common p len2 ;;
  t <~ repeated (Z.to_nat nel) (perm_read nprim) (s_table permissions) ;;
  constraints <~ read_cons_helper p ncons false ;;
  validatetrans <~
    (if policyvers p >=? POLICYDB_VERSION_VALIDATETRANS then
       ncons <~ entry1 ;; read_cons_helper p ncons true
     else rret []) ;;
  '(default_user, default_role, default_range) <~
    (if policyvers p >=? POLICYDB_VERSION_NEW_OBJECT_DEFAULTS then entry3 else rret (0, 0, 0)) ;;
  default_type <~ (if policyvers p >=? POLICYDB_VERSION_DEFAULT_TYPE then entry1 else rret 0) ;;
  rinsert h key
    (ClassDatum value comdatum (Symtab t nprim) constraints validatetrans default_user default_role default_type
       default_range).

Definition POLICYDB_VERSION_BOUNDARY : Z := 24.
Definition policydb_has_boundary_feature (p : policydb) : bool := policyvers p >=? POLICYDB_VERSION_BOUNDARY.

Definition OBJECT_R : string := "object_r".

Definition role_read (p : policydb) (h : option (hashtab string role_datum)) : reader (option (hashtab string role_datum)) :=
  _ <~ alloc ;;
  '(len, value, bounds) <~
    (if policydb_has_boundary_feature p then entry3 else '(len, value) <~ entry2 ;; rret (len, value, 0)) ;;
  guard negb (len =? 0) ;;
  key <~ read_key len ;;
  dominates <~ rebitmap ;;
  types <~ rebitmap ;;
  if strcmp key OBJECT_R =? 0 then guard value =? OBJECT_R_VAL ;; rret h
  else rinsert h key (RoleDatum value dominates types ebitmap_init bounds).

Definition TYPEDATUM_PROPERTY_PRIMARY : Z := 1.
Definition TYPEDATUM_PROPERTY_ATTRIBUTE : Z := 2.

Definition type_read (p : policydb) (h : option (hashtab string type_datum)) : reader (option (hashtab string type_datum)) :=
  _ <~ alloc ;;
  '(len, typdatum) <~
    (if policydb_has_boundary_feature p then
       '(len, value, properties, bounds) <~ entry4 ;;
       rret (len, TypeDatum value (if nz (Z.land properties TYPEDATUM_PROPERTY_PRIMARY) then 1 else 0)
                    (if nz (Z.land properties TYPEDATUM_PROPERTY_ATTRIBUTE) then TYPE_ATTRIB else TYPE_TYPE)
                    ebitmap_init 0 bounds)
     else
       '(len, value, primary) <~ entry3 ;;
       rret (len, TypeDatum value primary TYPE_TYPE ebitmap_init 0 0)) ;;
  guard negb (len =? 0) ;;
  key <~ read_key len ;;
  rinsert h key typdatum.

Definition user_read (p : policydb) (h : option (hashtab string user_datum)) : reader (option (hashtab string user_datum)) :=
  _ <~ alloc ;;
  '(len, value, bounds) <~
    (if policydb_has_boundary_feature p then entry3 else '(len, value) <~ entry2 ;; rret (len, value, 0)) ;;
  guard negb (len =? 0) ;;
  key <~ read_key len ;;
  roles <~ rebitmap ;;
  '(exp_range, exp_dfltlevel) <~
    (if policyvers p >=? POLICYDB_VERSION_MLS then
       range <~ mls_read_range_helper ;; level <~ mls_read_level ;; rret (range, level)
     else rret (mls_range_init, mls_level_init)) ;;
  rinsert h key (UserDatum value roles ebitmap_init exp_range exp_dfltlevel bounds).

(** [isalias] is an [unsigned char]. *)
Definition sens_read (h : option (hashtab string level_datum)) : reader (option (hashtab string level_datum)) :=
  _ <~ alloc ;;
  '(len, isalias) <~ entry2 ;;
  guard negb (zero_or_saturated32 len) ;;
  key <~ read_key len ;;
  _ <~ alloc ;;
  level <~ mls_read_level ;;
  rinsert h key (LevelDatum level (nz (u8 isalias))).

Definition cat_read (h : option (hashtab string cat_datum)) : reader (option (hashtab string cat_datum)) :=
  _ <~ alloc ;;
  '(len, value, isalias) <~ entry3 ;;
  guard negb (zero_or_saturated32 len) ;;
  key <~ read_key len ;;
  rinsert h key (CatDatum value (nz (u8 isalias))).

Definition bool_read (h : option (hashtab string cond_bool_datum)) : reader (option (hashtab string cond_bool_datum)) := λ fp,
  '(rc, h, fp) ← cond_read_bool h fp;
  mret (if nz rc then None else Some h, fp).

(** ** Role rules *)

Definition POLICYDB_VERSION_ROLETRANS : Z := 26.

Definition role_trans_read_one (p : policydb) (l : list role_trans) : reader (list role_trans) :=
  _ <~ alloc ;;
  '(role, type, new_role) <~ entry3 ;;
  tclass <~ (if policyvers p >=? POLICYDB_VERSION_ROLETRANS then entry1 else rret (process_class p)) ;;
  rret (l ++ [RoleTrans role type tclass new_role]).

Definition role_trans_read (p : policydb) : reader (list role_trans) :=
  nel <~ entry1 ;;
  repeated (Z.to_nat nel) (role_trans_read_one p) [].

Definition role_allow_read_one (l : list role_allow) : reader (list role_allow) :=
  _ <~ alloc ;;
  '(role, new_role) <~ entry2 ;;
  rret (l ++ [RoleAllow role new_role]).

Definition role_allow_read : reader (list role_allow) :=
  nel <~ entry1 ;;
  repeated (Z.to_nat nel) role_allow_read_one [].

(** ** File name transitions *)

Notation filename_table := (option (hashtab filename_trans_key (list filename_trans_datum))).

(** A write through the datum that [hashtab_search] found. *)
Definition hashtab_write {K V} `{HashKey K} (h : option (hashtab K V)) (key : K) (f : V → V) : option (hashtab K V) :=
  (λ h, Hashtab (map (map (λ e, if keycmp key e.1 =? 0 then (e.1, f e.2) else e)) (ht_table h)) (ht_size h) (ht_nel h)) <$> h.

(** The place of [stype] in the data of a key: [inl otype] when it is there
    already, else the position of the datum with the type, or behind the last. *)
Fixpoint filetrans_seek (d : list filename_trans_datum) (stype otype : Z) (i : nat) : Z + nat :=
  match d with
  | [] => inr i
  | datum :: next =>
     if ebitmap_get_bit (ft_stypes datum) (u32 (stype - 1)) then inl (ft_otype datum)
     else if ft_otype datum =? otype then inr i
     else filetrans_seek next stype otype (S i)
  end.

(** [ebitmap_set_bit(&datum->stypes, stype - 1, 1)] for the datum at [i]. *)
Definition filetrans_set (h : filename_table) (count : Z) (key : filename_trans_key) (d : list filename_trans_datum)
    (i : nat) (stype : Z) : M (Z * filename_table * Z) :=
  datum ← get (d !! i);
  '(rc, e) ← ebitmap_set_bit (ft_stypes datum) (u32 (stype - 1)) true;
  mret (rc, hashtab_write h key (λ _, <[i := FilenameTransDatum e (ft_otype datum)]> d), u32 (count + 1)).

(** The return code, the table, the count, and [*present_otype]. *)
Definition policydb_filetrans_insert (h : filename_table) (count stype ttype tclass : Z) (name : string)
    (name_alloc : bool) (otype : Z) : M (Z * filename_table * Z * option Z) :=
  let key := FilenameTransKey ttype tclass name in
  found ← get (hashtab_search h key);
  let d := default [] found in
  match filetrans_seek d stype otype 0 with
  | inl present => mret (SEPOL_EEXIST, h, count, Some present)
  | inr i =>
     if (i <? length d)%nat then
       '(rc, h, count) ← filetrans_set h count key d i stype;
       mret (rc, h, count, None)
     else
       datum ← malloc;
       match datum with
       | None => mret (SEPOL_ENOMEM, h, count, None)
       | Some _ =>
          let d' := d ++ [FilenameTransDatum ebitmap_init otype] in
          '(rc, h) ←
            match found with
            | Some (_ :: _) => mret (0, hashtab_write h key (λ _, d'))
            | _ =>
               name_dup ← (if name_alloc then mret (Some name) else strdup name);
               match name_dup with
               | None => mret (SEPOL_ENOMEM, h)
               | Some _ =>
                  ft ← malloc;
                  match ft with
                  | None => mret (SEPOL_ENOMEM, h)
                  | Some _ =>
                     '(rc, h) ← hashtab_insert h key d';
                     mret (if nz rc then SEPOL_ENOMEM else 0, h)
                  end
               end
            end;
          if nz rc then mret (rc, h, count, None)
          else
            '(rc, h, count) ← filetrans_set h count key d' i stype;
            mret (rc, h, count, None)
       end
  end.

(** A duplicate is ignored. *)
Definition filename_trans_read_one_compat (s : filename_table * Z) : reader (filename_table * Z) :=
  let '(h, count) := s in
  len <~ entry1 ;;
  guard negb (zero_or_saturated32 len) ;;
  name <~ read_key len ;;
  '(stype, ttype, tclass, otype) <~ entry4 ;;
  guard negb (stype =? 0) ;;
  '(rc, h, count, _) <~ lift (policydb_filetrans_insert h count stype ttype tclass name true otype) ;;
  guard negb (nz rc && negb (rc =? SEPOL_EEXIST)) ;;
  rret (h, count).

Fixpoint filename_trans_check_datum (d : list filename_trans_datum) (stypes otypes : ebitmap) : M Z :=
  match d with
  | [] => mret 0
  | datum :: next =>
     if ebitmap_get_bit otypes (ft_otype datum) then mret (-1)
     else
       '(rc, otypes) ← ebitmap_set_bit otypes (ft_otype datum) true;
       if nz rc then mret (-1)
       else if ebitmap_match_any stypes (ft_stypes datum) then mret (-1)
       else
         '(rc, stypes) ← ebitmap_union stypes (ft_stypes datum);
         if nz rc then mret (-1) else filename_trans_check_datum next stypes otypes
  end.

Definition filename_trans_datum_read (s : list filename_trans_datum * Z) : reader (list filename_trans_datum * Z) :=
  let '(d, count) := s in
  _ <~ alloc ;;
  stypes <~ rebitmap ;;
  otype <~ entry1 ;;
  rret (d ++ [FilenameTransDatum stypes otype], u32 (count + ebitmap_cardinality stypes)).

Definition filename_trans_read_one (s : filename_table * Z) : reader (filename_table * Z) :=
  let '(h, count) := s in
  len <~ entry1 ;;
  guard negb (zero_or_saturated32 len) ;;
  name <~ read_key len ;;
  '(ttype, tclass, ndatum) <~ entry3 ;;
  guard negb (ndatum =? 0) ;;
  '(first, count) <~ repeated (Z.to_nat ndatum) filename_trans_datum_read ([], count) ;;
  rc <~ (if ndatum >? 1 then lift (filename_trans_check_datum first ebitmap_init ebitmap_init) else rret 0) ;;
  guard negb (nz rc) ;;
  _ <~ alloc ;;
  h <~ rinsert h (FilenameTransKey ttype tclass name) first ;;
  rret (h, count).

Definition POLICYDB_VERSION_COMP_FTRANS : Z := 33.

Definition filename_trans_read (p : policydb) : reader policydb :=
  nel <~ entry1 ;;
  '(h, count) <~
    repeated (Z.to_nat nel)
      (if policyvers p <? POLICYDB_VERSION_COMP_FTRANS then filename_trans_read_one_compat else filename_trans_read_one)
      (filename_trans p, filename_trans_count p) ;;
  rret (set_filename_trans p h count).

(** ** Object contexts *)

Definition OCON_ISID : Z := 0.
Definition OCON_XEN_ISID : Z := 0.
Definition OCON_XEN_PIRQ : Z := 1.
Definition OCON_XEN_IOPORT : Z := 2.
Definition OCON_XEN_IOMEM : Z := 3.
Definition OCON_XEN_PCIDEVICE : Z := 4.
Definition OCON_XEN_DEVICETREE : Z := 5.
Definition POLICYDB_VERSION_XEN_DEVICETREE : Z := 30.
Definition IB_DEVICE_NAME_MAX : Z := 64.

(** [c] with its first context; the union of an initial identifier is zero. *)
Definition one_context (p : policydb) (key : ocontext_key) (v sid : Z) : reader ocontext :=
  context0 <~ context_read_and_validate p ;;
  rret (OContext key v context0 context_init sid 0).

Definition ocontext_read_xen_one (p : policydb) (i : Z) : reader ocontext :=
  _ <~ alloc ;;
  if i =? OCON_XEN_ISID then
    sid <~ entry1 ;;
    guard negb (sid =? 2 ^ 32 - 1) ;;
    one_context p (OName "") 0 sid
  else if i =? OCON_XEN_PIRQ then
    pirq <~ entry1 ;;
    one_context p (OPirq (u16 pirq)) 0 0
  else if i =? OCON_XEN_IOPORT then
    '(low, high) <~ entry2 ;;
    one_context p (OIoport low high) 0 0
  else if i =? OCON_XEN_IOMEM then
    '(low, high) <~
      (if policyvers p >=? POLICYDB_VERSION_XEN_DEVICETREE then
         b64 <~ entry 16 ;; rret (le_val (take 8 b64), le_val (take 8 (drop 8 b64)))
       else entry2) ;;
    one_context p (OIomem low high) 0 0
  else if i =? OCON_XEN_PCIDEVICE then
    device <~ entry1 ;;
    one_context p (ODevice device) 0 0
  else if i =? OCON_XEN_DEVICETREE then
    len <~ entry1 ;;
    guard negb (len =? 0) ;;
    name <~ read_key len ;;
    one_context p (OName name) 0 0
  else rfail.

(** Fields in network order are copied; the host is little-endian. *)
Definition ocontext_read_selinux_one (p : policydb) (i : Z) : reader ocontext :=
  _ <~ alloc ;;
  if i =? OCON_ISID then
    sid <~ entry1 ;;
    guard negb (sid =? 2 ^ 32 - 1) ;;
    one_context p (OName "") 0 sid
  else if one_of i [OCON_FS; OCON_NETIF] then
    len <~ entry1 ;;
    guard negb ((len =? 0) || (len >? 63)) ;;
    name <~ read_key len ;;
    context0 <~ context_read_and_validate p ;;
    context1 <~ context_read_and_validate p ;;
    rret (OContext (OName name) 0 context0 context1 0 0)
  else if i =? OCON_IBPKEY then
    buf <~ entry 16 ;;
    let pkey_lo := le32_at buf 2 in
    let pkey_hi := le32_at buf 3 in
    guard negb ((pkey_lo >? 2 ^ 16 - 1) || (pkey_hi >? 2 ^ 16 - 1)) ;;
    one_context p (OIbpkey (le_val (take 8 buf)) pkey_lo pkey_hi) 0 0
  else if i =? OCON_IBENDPORT then
    '(len, port) <~ entry2 ;;
    guard negb ((len =? 0) || (len >? IB_DEVICE_NAME_MAX - 1)) ;;
    guard negb ((port >? 2 ^ 8 - 1) || (port =? 0)) ;;
    name <~ read_key len ;;
    one_context p (OIbendport name port) 0 0
  else if i =? OCON_PORT then
    '(protocol, low, high) <~ entry3 ;;
    one_context p (OPort (u8 protocol) (u16 low) (u16 high)) 0 0
  else if i =? OCON_NODE then
    '(addr, mask) <~ entry2 ;;
    one_context p (ONode addr mask) 0 0
  else if i =? OCON_FSUSE then
    '(behavior, len) <~ entry2 ;;
    guard negb (len =? 0) ;;
    name <~ read_key len ;;
    one_context p (OName name) behavior 0
  else if i =? OCON_NODE6 then
    buf <~ entry 32 ;;
    one_context p (ONode6 (le32_at buf <$> [0; 1; 2; 3]%nat) (le32_at buf <$> [4; 5; 6; 7]%nat)) 0 0
  else rfail.

(** The lists 0 to [ocon_num - 1]. *)
Definition ocontext_read_list (one : Z → reader ocontext) (s : list (list ocontext) * Z) : reader (list (list ocontext) * Z) :=
  let '(lists, i) := s in
  nel <~ entry1 ;;
  l <~ repeated (Z.to_nat nel) (λ l, c <~ one i ;; rret (l ++ [c])) [] ;;
  lists <~ lift (get (aset lists i l)) ;;
  rret (lists, i + 1).

Definition ocontext_read_xen (ocon_num : Z) (p : policydb) : reader policydb :=
  '(lists, _) <~ repeated (Z.to_nat ocon_num) (ocontext_read_list (ocontext_read_xen_one p)) (ocontexts p, 0) ;;
  rret (set_ocontexts p lists).

Definition ocontext_read_selinux (ocon_num : Z) (p : policydb) : reader policydb :=
  '(lists, _) <~ repeated (Z.to_nat ocon_num) (ocontext_read_list (ocontext_read_selinux_one p)) (ocontexts p, 0) ;;
  rret (set_ocontexts p lists).

Definition ocontext_read (ocon_num : Z) (p : policydb) : reader policydb :=
  if target_platform p =? SEPOL_TARGET_SELINUX then ocontext_read_selinux ocon_num p
  else if target_platform p =? SEPOL_TARGET_XEN then ocontext_read_xen ocon_num p
  else rfail.

(** Where a file system goes in the list sorted by name; [None] if it is there. *)
Fixpoint genfs_split (fstype : string) (l : list genfs) : option (list genfs * list genfs) :=
  match l with
  | [] => Some ([], [])
  | g :: next =>
     if strcmp fstype (gf_fstype g) =? 0 then None
     else if strcmp fstype (gf_fstype g) <? 0 then Some ([], l)
     else '(before, after) ← genfs_split fstype next; Some (g :: before, after)
  end.

Definition oc_name (c : ocontext) : option string := match oc_key c with OName name => Some name | _ => None end.

(** Where a path goes: behind the longer ones.  [None] if a path for the same
    class is met before; a key that is no name is undefined. *)
Fixpoint path_split (name : string) (sclass : Z) (l : list ocontext) : option (option (list ocontext * list ocontext)) :=
  match l with
  | [] => Some (Some ([], []))
  | c :: next =>
     n ← oc_name c;
     if (strcmp name n =? 0) && (negb (nz (oc_v c)) || negb (nz sclass) || (sclass =? oc_v c)) then Some None
     else if strlen name >? strlen n then Some (Some ([], l))
     else
       r ← path_split name sclass next;
       Some ('(before, after) ← r; Some (c :: before, after))
  end.

Definition genfs_context_read (p : policydb) (l : list ocontext) : reader (list ocontext) :=
  _ <~ alloc ;;
  len <~ entry1 ;;
  guard negb (len =? 0) ;;
  name <~ read_key len ;;
  sclass <~ entry1 ;;
  newc <~ one_context p (OName name) sclass 0 ;;
  place <~ lift (get (path_split name sclass l)) ;;
  match place with
  | None => rfail
  | Some (before, after) => rret (before ++ newc :: after)
  end.

Definition genfs_read_one (p : policydb) (l : list genfs) : reader (list genfs) :=
  len <~ entry1 ;;
  guard negb (len =? 0) ;;
  _ <~ alloc ;;
  fstype <~ read_key len ;;
  match genfs_split fstype l with
  | None => rfail
  | Some (before, after) =>
     nel2 <~ entry1 ;;
     head <~ repeated (Z.to_nat nel2) (genfs_context_read p) [] ;;
     rret (before ++ Genfs fstype head :: after)
  end.

Definition genfs_read (p : policydb) : reader policydb :=
  nel <~ entry1 ;;
  l <~ repeated (Z.to_nat nel) (genfs_read_one p) (p_genfs p) ;;
  rret (set_genfs p l).

(** ** Range transitions *)

Definition POLICYDB_VERSION_RANGETRANS : Z := 21.

Definition range_read_one (p : policydb) (h : option (hashtab range_trans mls_range)) :
    reader (option (hashtab range_trans mls_range)) :=
  _ <~ alloc ;;
  '(source_type, target_type) <~ entry2 ;;
  guard value_isvalid source_type (s_nprim (p_types p)) ;;
  guard value_isvalid target_type (s_nprim (p_types p)) ;;
  target_class <~
    (if policyvers p >=? POLICYDB_VERSION_RANGETRANS then
       c <~ entry1 ;;
       guard value_isvalid c (s_nprim (p_classes p)) ;; rret c
     else rret (process_class p)) ;;
  _ <~ alloc ;;
  r <~ mls_read_range_helper ;;
  rinsert h (RangeTrans source_type target_type target_class) r.

Definition range_read (p : policydb) : reader policydb :=
  nel <~ entry1 ;;
  h <~ repeated (Z.to_nat nel) (range_read_one p) (range_tr p) ;;
  rret (set_range_tr p h).
