(* ===== verification/IndexPolicy.v ===== *)
(** * Indexing a policy

    The functions of [src/policydb.c] that fill the [*_val_to_name] and
    [*_val_to_struct] arrays from the symbol tables, and the expansion of type and
    role sets of [src/expand.c] that fills the caches of roles and users. *)

From S2P Require Import Prelude Ebitmap Hashtab Avtab Mls Policydb Conditional Validate PolicySetters ReadPolicy.

(** ** Expansion of sets *)

(** The loop over the types of a set: attributes stand for their types. *)
Fixpoint expand_types (p : policydb) (expand : bool) (bits : list Z) (types : ebitmap) : M (Z * ebitmap) :=
  match bits with
  | [] => mret (0, types)
  | i :: bits =>
     if i >=? s_nprim (p_types p) then mret (-1, types)
     else
       type ← get (aget (type_val_to_struct p) i);
       match type with
       | None => mret (-1, types)
       | Some type =>
          '(rc, types) ←
            (if (td_flavor type =? TYPE_ATTRIB) && (expand || nz (Z.land (td_flags type) TYPE_FLAGS_EXPAND_ATTR_TRUE))
             then ebitmap_union types (td_types type) else ebitmap_set_bit types i true);
          if nz rc then mret (-1, types) else expand_types p expand bits types
       end
  end.

(** The loop over the negated types does not test [i]. *)
Fixpoint expand_negset (p : policydb) (bits : list Z) (neg_types : ebitmap) : M (Z * ebitmap) :=
  match bits with
  | [] => mret (0, neg_types)
  | i :: bits =>
     type ← get (aget (type_val_to_struct p) i);
     '(rc, neg_types) ←
       match type with
       | Some type => if td_flavor type =? TYPE_ATTRIB then ebitmap_union neg_types (td_types type)
                      else ebitmap_set_bit neg_types i true
       | None => ebitmap_set_bit neg_types i true
       end;
     if nz rc then mret (-1, neg_types) else expand_negset p bits neg_types
  end.

Definition is_attrib (type : option type_datum) : bool :=
  match type with Some type => td_flavor type =? TYPE_ATTRIB | None => false end.

(** [TYPE_STAR]: all types not in [neg_types]. *)
Fixpoint expand_star (p : policydb) (neg_types : ebitmap) (l : list Z) (t : ebitmap) : M (Z * ebitmap) :=
  match l with
  | [] => mret (0, t)
  | i :: l =>
     if ebitmap_get_bit neg_types i then expand_star p neg_types l t
     else
       type ← get (aget (type_val_to_struct p) i);
       if is_attrib type then expand_star p neg_types l t
       else
         '(rc, t) ← ebitmap_set_bit t i true;
         if nz rc then mret (-1, t) else expand_star p neg_types l t
  end.

Fixpoint expand_subtract (neg_types : ebitmap) (bits : list Z) (t : ebitmap) : M (Z * ebitmap) :=
  match bits with
  | [] => mret (0, t)
  | i :: bits =>
     if ebitmap_get_bit neg_types i then expand_subtract neg_types bits t
     else
       '(rc, t) ← ebitmap_set_bit t i true;
       if nz rc then mret (-1, t) else expand_subtract neg_types bits t
  end.

(** [TYPE_COMP]: the complement among the types; an attribute in [t] fails the
    assertion. *)
Fixpoint expand_comp (p : policydb) (l : list Z) (t : ebitmap) : M (Z * ebitmap) :=
  match l with
  | [] => mret (0, t)
  | i :: l =>
     type ← get (aget (type_val_to_struct p) i);
     if is_attrib type then (if ebitmap_get_bit t i then ub else expand_comp p l t)
     else
       '(rc, t) ← ebitmap_set_bit t i (negb (ebitmap_get_bit t i));
       if nz rc then mret (-1, t) else expand_comp p l t
  end.

Definition type_set_expand (set : type_set) (p : policydb) (alwaysexpand : bool) : M (Z * ebitmap) :=
  let expand := alwaysexpand || negb (ebitmap_is_empty (ts_negset set)) || nz (ts_flags set) in
  bits ← get (ebitmap_for_each_positive_bit (ts_types set));
  '(rc, types) ← expand_types p expand bits ebitmap_init;
  if nz rc then mret (-1, ebitmap_init)
  else
    bits ← get (ebitmap_for_each_positive_bit (ts_negset set));
    '(rc, neg_types) ← expand_negset p bits ebitmap_init;
    if nz rc then mret (-1, ebitmap_init)
    else if nz (Z.land (ts_flags set) TYPE_STAR) then
      expand_star p neg_types (seqZ 0 (s_nprim (p_types p))) ebitmap_init
    else
      bits ← get (ebitmap_for_each_positive_bit types);
      '(rc, t) ← expand_subtract neg_types bits ebitmap_init;
      if nz rc then mret (-1, t)
      else if nz (Z.land (ts_flags set) TYPE_COMP) then expand_comp p (seqZ 0 (s_nprim (p_types p))) t
      else mret (0, t).

Definition ROLE_STAR : Z := 1.
Definition ROLE_COMP : Z := 2.

Fixpoint set_all (l : list Z) (r : ebitmap) : M (Z * ebitmap) :=
  match l with
  | [] => mret (0, r)
  | i :: l =>
     '(rc, r) ← ebitmap_set_bit r i true;
     if nz rc then mret (-1, r) else set_all l r
  end.

Fixpoint flip_all (l : list Z) (r : ebitmap) : M (Z * ebitmap) :=
  match l with
  | [] => mret (0, r)
  | i :: l =>
     '(rc, r) ← ebitmap_set_bit r i (negb (ebitmap_get_bit r i));
     if nz rc then mret (-1, r) else flip_all l r
  end.

(** [role_set_expand] without a role map. *)
Definition role_set_expand (roles : ebitmap) (flags : Z) (p : policydb) : M (Z * ebitmap) :=
  if nz (Z.land flags ROLE_STAR) then set_all (seqZ 0 (s_nprim (p_roles p))) ebitmap_init
  else
    '(rc, mapped_roles) ← ebitmap_cpy roles;
    if nz rc then mret (-1, ebitmap_init)
    else
      bits ← get (ebitmap_for_each_positive_bit mapped_roles);
      '(rc, r) ← set_all bits ebitmap_init;
      if nz rc then mret (-1, r)
      else if nz (Z.land flags ROLE_COMP) then flip_all (seqZ 0 (s_nprim (p_roles p))) r
      else mret (0, r).

(** ** Caches *)

Definition set_role_cache (r : role_datum) (cache : ebitmap) : role_datum :=
  RoleDatum (rd_value r) (rd_dominates r) (rd_types r) cache (rd_bounds r).

Definition set_user_cache (u : user_datum) (cache : ebitmap) : user_datum :=
  UserDatum (ud_value u) (ud_roles u) cache (ud_exp_range u) (ud_exp_dfltlevel u) (ud_bounds u).

(** A write to the datum of [key], which the array of data by value shares with
    the table. *)
Definition write_datum_of {V} (value : V → Z) (key : string) (f : V → V) (t : option (hashtab string V)) (structs : list (option V)) :
    option (hashtab string V) * list (option V) :=
  (hashtab_write t key f,
   match hashtab_search t key with
   | Some (Some d) =>
      if value_isvalid (value d) (Z.of_nat (length structs)) then <[Z.to_nat (value d - 1) := Some (f d)]> structs else structs
   | _ => structs
   end).

(** The types of a role of a kernel policy are a plain set. *)
Definition policydb_role_cache (key : string) (role : role_datum) (p : policydb) : M (Z * policydb) :=
  '(rc, cache) ← type_set_expand (TypeSet (rd_types role) ebitmap_init 0) p true;
  let '(t, structs) := write_datum_of rd_value key (λ r, set_role_cache r cache) (s_table (p_roles p)) (role_val_to_struct p) in
  mret (if nz rc then -1 else 0,
        set_role_index (set_roles p (Symtab t (s_nprim (p_roles p)))) (p_role_val_to_name p) structs).

Definition policydb_user_cache (key : string) (user : user_datum) (p : policydb) : M (Z * policydb) :=
  '(rc, cache) ← role_set_expand (ud_roles user) 0 p;
  let '(t, structs) := write_datum_of ud_value key (λ u, set_user_cache u cache) (s_table (p_users p)) (user_val_to_struct p) in
  mret (if nz rc then -1 else 0,
        set_user_index (set_users p (Symtab t (s_nprim (p_users p)))) (p_user_val_to_name p) structs).

(** ** Index functions *)

(** The two tests and the write of a name; [None] for [-EINVAL]. *)
Definition name_index (value nprim : Z) (key : string) (names : list (option string)) : option (option (list (option string))) :=
  if negb (value_isvalid value nprim) then Some None
  else
    name ← aget names (value - 1);
    match name with
    | Some _ => Some None
    | None => names ← aset names (value - 1) (Some key); Some (Some names)
    end.

Definition common_index (key : string) (d : common_datum) (p : policydb) : option (Z * policydb) :=
  r ← name_index (cm_value d) (s_nprim (p_commons p)) key (p_common_val_to_name p);
  match r with
  | None => Some (- EINVAL, p)
  | Some names => Some (0, set_class_index p names (p_class_val_to_name p) (class_val_to_struct p))
  end.

Definition class_index (key : string) (d : class_datum) (p : policydb) : option (Z * policydb) :=
  r ← name_index (cl_value d) (s_nprim (p_classes p)) key (p_class_val_to_name p);
  match r with
  | None => Some (- EINVAL, p)
  | Some names =>
     structs ← aset (class_val_to_struct p) (cl_value d - 1) (Some d);
     Some (0, set_class_index p (p_common_val_to_name p) names structs)
  end.

Definition role_index (key : string) (d : role_datum) (p : policydb) : option (Z * policydb) :=
  r ← name_index (rd_value d) (s_nprim (p_roles p)) key (p_role_val_to_name p);
  match r with
  | None => Some (- EINVAL, p)
  | Some names =>
     structs ← aset (role_val_to_struct p) (rd_value d - 1) (Some d);
     Some (0, set_role_index p names structs)
  end.

Definition type_index (key : string) (d : type_datum) (p : policydb) : option (Z * policydb) :=
  if nz (td_primary d) then
    r ← name_index (td_value d) (s_nprim (p_types p)) key (p_type_val_to_name p);
    match r with
    | None => Some (- EINVAL, p)
    | Some names =>
       structs ← aset (type_val_to_struct p) (td_value d - 1) (Some d);
       Some (0, set_type_index p names structs)
    end
  else Some (0, p).

Definition user_index (key : string) (d : user_datum) (p : policydb) : option (Z * policydb) :=
  r ← name_index (ud_value d) (s_nprim (p_users p)) key (p_user_val_to_name p);
  match r with
  | None => Some (- EINVAL, p)
  | Some names =>
     structs ← aset (user_val_to_struct p) (ud_value d - 1) (Some d);
     Some (0, set_user_index p names structs)
  end.

Definition sens_index (key : string) (d : level_datum) (p : policydb) : option (Z * policydb) :=
  if ld_isalias d then Some (0, p)
  else
    r ← name_index (sens (ld_level d)) (s_nprim (p_levels p)) key (p_sens_val_to_name p);
    match r with
    | None => Some (- EINVAL, p)
    | Some names => Some (0, set_mls_names p names (p_cat_val_to_name p))
    end.

Definition cat_index (key : string) (d : cat_datum) (p : policydb) : option (Z * policydb) :=
  if cd_isalias d then Some (0, p)
  else
    r ← name_index (cd_value d) (s_nprim (p_cats p)) key (p_cat_val_to_name p);
    match r with
    | None => Some (- EINVAL, p)
    | Some names => Some (0, set_mls_names p (p_sens_val_to_name p) names)
    end.

(** An index function as a callback of [hashtab_map]. *)
Definition index_map {V} (t : option (hashtab string V)) (f : string → V → policydb → option (Z * policydb)) (p : policydb) :
    M (Z * policydb) :=
  hashtab_map t (λ k d p, get (f k d p)) p.

Notation nulls n := (replicate (Z.to_nat n) None).

Definition policydb_index_classes (p : policydb) : M (Z * policydb) :=
  r ← malloc;
  match r with None => mret (-1, p) | Some _ =>
  let p := set_class_index p (nulls (s_nprim (p_commons p))) (p_class_val_to_name p) (class_val_to_struct p) in
  '(rc, p) ← index_map (s_table (p_commons p)) common_index p;
  if nz rc then mret (-1, p) else
  r ← malloc;
  match r with None => mret (-1, p) | Some _ =>
  let p := set_class_index p (p_common_val_to_name p) (p_class_val_to_name p) (nulls (s_nprim (p_classes p))) in
  r ← malloc;
  match r with None => mret (-1, p) | Some _ =>
  let p := set_class_index p (p_common_val_to_name p) (nulls (s_nprim (p_classes p))) (class_val_to_struct p) in
  '(rc, p) ← index_map (s_table (p_classes p)) class_index p;
  mret (if nz rc then -1 else 0, p)
  end end end.

(** One round of the loop over the symbol tables: [clear] gives the names. *)
Definition index_symbols {V} (nprim : Z) (t : option (hashtab string V)) (f : string → V → policydb → option (Z * policydb))
    (clear : list (option string) → policydb → policydb) (p : policydb) : M (Z * policydb) :=
  let p := clear [] p in
  if nz nprim then
    r ← malloc;
    match r with
    | None => mret (-1, p)
    | Some _ =>
       '(rc, p) ← index_map t f (clear (nulls nprim) p);
       mret (if nz rc then -1 else 0, p)
    end
  else mret (0, p).

Definition index_all_symbols (p : policydb) : M (Z * policydb) :=
  '(rc, p) ← index_symbols (s_nprim (p_roles p)) (s_table (p_roles p)) role_index
               (λ l p, set_role_index p l (role_val_to_struct p)) p;
  if nz rc then mret (-1, p) else
  '(rc, p) ← index_symbols (s_nprim (p_types p)) (s_table (p_types p)) type_index
               (λ l p, set_type_index p l (type_val_to_struct p)) p;
  if nz rc then mret (-1, p) else
  '(rc, p) ← index_symbols (s_nprim (p_users p)) (s_table (p_users p)) user_index
               (λ l p, set_user_index p l (user_val_to_struct p)) p;
  if nz rc then mret (-1, p) else
  '(rc, p) ← index_symbols (p_bools_nprim p) (p_bools_table p) cond_index_bool (λ l p, set_bool_names p l) p;
  if nz rc then mret (-1, p) else
  '(rc, p) ← index_symbols (s_nprim (p_levels p)) (s_table (p_levels p)) sens_index
               (λ l p, set_mls_names p l (p_cat_val_to_name p)) p;
  if nz rc then mret (-1, p) else
  index_symbols (s_nprim (p_cats p)) (s_table (p_cats p)) cat_index (λ l p, set_mls_names p (p_sens_val_to_name p) l) p.

Definition policydb_index_others (p : policydb) : M (Z * policydb) :=
  r ← malloc;
  match r with None => mret (-1, p) | Some _ =>
  let p := set_role_index p (p_role_val_to_name p) (nulls (s_nprim (p_roles p))) in
  r ← malloc;
  match r with None => mret (-1, p) | Some _ =>
  let p := set_user_index p (p_user_val_to_name p) (nulls (s_nprim (p_users p))) in
  r ← malloc;
  match r with None => mret (-1, p) | Some _ =>
  let p := set_type_index p (p_type_val_to_name p) (nulls (s_nprim (p_types p))) in
  '(rc, p) ← cond_init_bool_indexes p;
  if nz rc then mret (-1, p) else
  '(rc, p) ← index_all_symbols p;
  if nz rc then mret (-1, p) else
  '(rc, p) ← hashtab_map (s_table (p_roles p)) policydb_role_cache p;
  if nz rc then mret (-1, p) else
  '(rc, p) ← hashtab_map (s_table (p_users p)) policydb_user_cache p;
  mret (if nz rc then -1 else 0, p)
  end end end.

Definition policydb_index_bools (p : policydb) : M (Z * policydb) :=
  '(rc, p) ← cond_init_bool_indexes p;
  if rc =? -1 then mret (-1, p)
  else
    r ← malloc;
    match r with
    | None => mret (-1, p)
    | Some _ =>
       '(rc, p) ← index_map (p_bools_table p) cond_index_bool (set_bool_names p (nulls (p_bools_nprim p)));
       mret (if nz rc then -1 else 0, p)
    end.
