(* ===== verification/PolicydbRead.v ===== *)
(** * Reading a policy

    [policydb_read] of [src/policydb.c] for a kernel policy, with its
    compatibility table. *)

From S2P Require Import Prelude PolicyFile Ebitmap Hashtab Avtab Mls Policydb Conditional Constraint ObjectSid Optimize Services Validate.
From S2P Require Import PolicySetters ReadPolicy IndexPolicy.

#[local] Open Scope reader_scope.

(** ** Compatibility *)

(** [struct policydb_compat_info], for kernel policies. *)
Record policydb_compat_info := CompatInfo {
  ci_version : Z;
  ci_sym_num : Z;
  ci_ocon_num : Z;
  ci_target_platform : Z
}.

Definition POLICYDB_VERSION_BASE : Z := 15.
Definition POLICYDB_VERSION_IPV6 : Z := 17.
Definition POLICYDB_VERSION_NLCLASS : Z := 18.
Definition POLICYDB_VERSION_POLCAP : Z := 22.
Definition POLICYDB_VERSION_INFINIBAND : Z := 31.
Definition POLICYDB_VERSION_GLBLUB : Z := 32.
Definition SYM_NUM : Z := 8.

(** The kernel entries of [policydb_compat]. *)
Definition policydb_compat : list policydb_compat_info :=
  [ CompatInfo POLICYDB_VERSION_BOUNDARY SYM_NUM (OCON_XEN_PCIDEVICE + 1) SEPOL_TARGET_XEN;
    CompatInfo POLICYDB_VERSION_XEN_DEVICETREE SYM_NUM (OCON_XEN_DEVICETREE + 1) SEPOL_TARGET_XEN;
    CompatInfo POLICYDB_VERSION_BASE (SYM_NUM - 3) (OCON_FSUSE + 1) SEPOL_TARGET_SELINUX;
    CompatInfo POLICYDB_VERSION_BOOL (SYM_NUM - 2) (OCON_FSUSE + 1) SEPOL_TARGET_SELINUX;
    CompatInfo POLICYDB_VERSION_IPV6 (SYM_NUM - 2) (OCON_NODE6 + 1) SEPOL_TARGET_SELINUX;
    CompatInfo POLICYDB_VERSION_NLCLASS (SYM_NUM - 2) (OCON_NODE6 + 1) SEPOL_TARGET_SELINUX;
    CompatInfo POLICYDB_VERSION_MLS SYM_NUM (OCON_NODE6 + 1) SEPOL_TARGET_SELINUX;
    CompatInfo POLICYDB_VERSION_AVTAB SYM_NUM (OCON_NODE6 + 1) SEPOL_TARGET_SELINUX;
    CompatInfo POLICYDB_VERSION_RANGETRANS SYM_NUM (OCON_NODE6 + 1) SEPOL_TARGET_SELINUX;
    CompatInfo POLICYDB_VERSION_POLCAP SYM_NUM (OCON_NODE6 + 1) SEPOL_TARGET_SELINUX;
    CompatInfo POLICYDB_VERSION_PERMISSIVE SYM_NUM (OCON_NODE6 + 1) SEPOL_TARGET_SELINUX;
    CompatInfo POLICYDB_VERSION_BOUNDARY SYM_NUM (OCON_NODE6 + 1) SEPOL_TARGET_SELINUX;
    CompatInfo POLICYDB_VERSION_FILENAME_TRANS SYM_NUM (OCON_NODE6 + 1) SEPOL_TARGET_SELINUX;
    CompatInfo POLICYDB_VERSION_ROLETRANS SYM_NUM (OCON_NODE6 + 1) SEPOL_TARGET_SELINUX;
    CompatInfo POLICYDB_VERSION_NEW_OBJECT_DEFAULTS SYM_NUM (OCON_NODE6 + 1) SEPOL_TARGET_SELINUX;
    CompatInfo POLICYDB_VERSION_DEFAULT_TYPE SYM_NUM (OCON_NODE6 + 1) SEPOL_TARGET_SELINUX;
    CompatInfo POLICYDB_VERSION_CONSTRAINT_NAMES SYM_NUM (OCON_NODE6 + 1) SEPOL_TARGET_SELINUX;
    CompatInfo POLICYDB_VERSION_XPERMS_IOCTL SYM_NUM (OCON_NODE6 + 1) SEPOL_TARGET_SELINUX;
    CompatInfo POLICYDB_VERSION_INFINIBAND SYM_NUM (OCON_IBENDPORT + 1) SEPOL_TARGET_SELINUX;
    CompatInfo POLICYDB_VERSION_GLBLUB SYM_NUM (OCON_IBENDPORT + 1) SEPOL_TARGET_SELINUX;
    CompatInfo POLICYDB_VERSION_COMP_FTRANS SYM_NUM (OCON_IBENDPORT + 1) SEPOL_TARGET_SELINUX ].

Fixpoint lookup_compat (l : list policydb_compat_info) (version target_platform : Z) : option policydb_compat_info :=
  match l with
  | [] => None
  | info :: l =>
     if (ci_version info =? version) && (ci_target_platform info =? target_platform) then Some info
     else lookup_compat l version target_platform
  end.

Definition policydb_lookup_compat (version target_platform : Z) : option policydb_compat_info :=
  lookup_compat policydb_compat version target_platform.

(** ** Classes and permissions by name *)

(** [sepol_security_class_t] is a [uint16_t]. *)
Definition policydb_string_to_security_class (p : policydb) (class_name : string) : option Z :=
  tclass_datum ← hashtab_search (s_table (p_classes p)) class_name;
  Some (match tclass_datum with None => 0 | Some d => u16 (cl_value d) end).

Definition policydb_string_to_av_perm (p : policydb) (tclass : Z) (perm_name : string) : option Z :=
  if (tclass =? 0) || (tclass >? s_nprim (p_classes p)) then Some 0
  else
    tclass_datum ← aget (class_val_to_struct p) (tclass - 1);
    d ← tclass_datum;
    perm ← hashtab_search (s_table (cl_permissions d)) perm_name;
    match perm with
    | Some value => perm_bit value
    | None =>
       match cl_comdatum d with
       | None => Some 0
       | Some com =>
          perm ← hashtab_search (s_table (cm_permissions com)) perm_name;
          match perm with Some value => perm_bit value | None => Some 0 end
       end
    end.

(** ** The parts of the file *)

Definition POLICYDB_MAGIC : Z := 0xf97cff8c.
Definition POLICYDB_MOD_MAGIC : Z := 0xf97cff8d.
Definition POLICYDB_STRING : string := "SE Linux".
Definition POLICYDB_XEN_STRING : string := "XenFlask".
Definition POLICYDB_STRING_MAX_LENGTH : Z := 32.
Definition POLICYDB_CONFIG_MLS : Z := 1.
Definition POLICYDB_CONFIG_UNKNOWN_MASK : Z := 6.

(** The magic number, the target, the version and the configuration.  A module
    is outside the model. *)
Definition read_header (p : policydb) : reader (policydb * policydb_compat_info) :=
  '(magic, len) <~ entry2 ;;
  if magic =? POLICYDB_MOD_MAGIC then lift ub else
  guard magic =? POLICYDB_MAGIC ;;
  guard negb ((len =? 0) || (len >? POLICYDB_STRING_MAX_LENGTH)) ;;
  policydb_str <~ read_key len ;;
  p <~ (if strcmp policydb_str POLICYDB_STRING =? 0 then rret (set_target p SEPOL_TARGET_SELINUX)
        else if strcmp policydb_str POLICYDB_XEN_STRING =? 0 then rret (set_target p SEPOL_TARGET_XEN)
        else rfail) ;;
  '(r_policyvers, config, sym_num, ocon_num) <~ entry4 ;;
  guard negb ((r_policyvers <? POLICYDB_VERSION_MIN) || (r_policyvers >? POLICYDB_VERSION_MAX)) ;;
  let p := set_header p POLICY_KERN r_policyvers (if nz (Z.land config POLICYDB_CONFIG_MLS) then 1 else 0)
             (Z.land config POLICYDB_CONFIG_UNKNOWN_MASK) in
  match policydb_lookup_compat r_policyvers (target_platform p) with
  | None => rfail
  | Some info => guard negb (negb (sym_num =? ci_sym_num info) || negb (ocon_num =? ci_ocon_num info)) ;; rret (p, info)
  end.

Definition read_capabilities (p : policydb) : reader policydb :=
  p <~ (if policyvers p >=? POLICYDB_VERSION_POLCAP then e <~ rebitmap ;; rret (set_caps p e) else rret p) ;;
  if policyvers p >=? POLICYDB_VERSION_PERMISSIVE then e <~ rebitmap ;; rret (set_permissive p e) else rret p.

(** One round of the loop over the symbol tables.  [nprim] is a [size_t] with a
    32-bit value: [is_saturated] does not hold of it. *)
Definition read_symbols {V} (table : option (hashtab string V)) (read_f : option (hashtab string V) → reader (option (hashtab string V))) :
    reader (symtab V) :=
  '(nprim, nel) <~ entry2 ;;
  guard negb (nz nel && negb (nz nprim)) ;;
  t <~ repeated (Z.to_nat nel) read_f table ;;
  rret (Symtab t nprim).

Definition read_symtabs (sym_num : Z) (p : policydb) : reader policydb :=
  s <~ read_symbols (s_table (p_commons p)) common_read ;;
  let p := set_commons p s in
  s <~ read_symbols (s_table (p_classes p)) (class_read p) ;;
  let p := set_classes p s in
  s <~ read_symbols (s_table (p_roles p)) (role_read p) ;;
  let p := set_roles p s in
  s <~ read_symbols (s_table (p_types p)) (type_read p) ;;
  let p := set_types p s in
  s <~ read_symbols (s_table (p_users p)) (user_read p) ;;
  let p := set_users p s in
  p <~ (if sym_num >? 5 then s <~ read_symbols (p_bools_table p) bool_read ;; rret (set_bools p (s_table s) (s_nprim s))
        else rret p) ;;
  p <~ (if sym_num >? 6 then s <~ read_symbols (s_table (p_levels p)) sens_read ;; rret (set_levels p s) else rret p) ;;
  if sym_num >? 7 then s <~ read_symbols (s_table (p_cats p)) cat_read ;; rret (set_cats p s) else rret p.

Definition find_classes (p : policydb) : option policydb :=
  if target_platform p =? SEPOL_TARGET_SELINUX then
    process ← policydb_string_to_security_class p "process";
    dir ← policydb_string_to_security_class p "dir";
    Some (set_process p process dir)
  else
    domain ← policydb_string_to_security_class p "domain";
    Some (set_process p domain (dir_class p)).

Definition read_rules (p : policydb) : reader policydb :=
  p <~ (λ fp, '(rc, a, fp) ← avtab_read (te_avtab p) fp (policyvers p);
              mret (if nz rc then None else Some (set_te p a), fp)) ;;
  p <~ (if policyvers p >=? POLICYDB_VERSION_BOOL then
          λ fp, '(rc, p, fp) ← cond_read_list p fp; mret (if nz rc then None else Some p, fp)
        else rret p) ;;
  l <~ role_trans_read p ;;
  let p := set_role_tr p l in
  l <~ role_allow_read ;;
  let p := set_role_allow p l in
  if policyvers p >=? POLICYDB_VERSION_FILENAME_TRANS then filename_trans_read p else rret p.

Definition find_transitions (p : policydb) : option policydb :=
  trans ← policydb_string_to_av_perm p (process_class p) "transition";
  dyntrans ← policydb_string_to_av_perm p (process_class p) "dyntransition";
  Some (set_process_trans p trans (Z.lor trans dyntrans)).

(** A step of indexing that fails the read for a non-zero code. *)
Definition rstep (f : policydb → M (Z * policydb)) (p : policydb) : reader policydb :=
  '(rc, p) <~ lift (f p) ;;
  guard negb (nz rc) ;;
  rret p.

(** ** The maps between types and attributes *)

(** For each attribute [j] of type [i], [i] is one of the types of [j]. *)
Fixpoint invert_attrs (nprim i : Z) (bits : list Z) (amap : list ebitmap) : M (option (list ebitmap)) :=
  match bits with
  | [] => mret (Some amap)
  | j :: bits =>
     if i =? j then invert_attrs nprim i bits amap
     else if j >=? nprim then mret None
     else
       e ← get (aget amap j);
       '(rc, e) ← ebitmap_set_bit e i true;
       if nz rc then mret None
       else amap ← get (aset amap j e); invert_attrs nprim i bits amap
  end.

Definition read_type_map (p : policydb) (s : list ebitmap * list ebitmap * Z) : reader (list ebitmap * list ebitmap * Z) :=
  let '(tmap, amap, i) := s in
  '(e, amap) <~
    (if policyvers p >=? POLICYDB_VERSION_AVTAB then
       e <~ rebitmap ;;
       bits <~ lift (get (ebitmap_for_each_positive_bit e)) ;;
       r <~ lift (invert_attrs (s_nprim (p_types p)) i bits amap) ;;
       match r with None => rfail | Some amap => rret (e, amap) end
     else e <~ lift (get (aget tmap i)) ;; rret (e, amap)) ;;
  '(rc, e) <~ lift (ebitmap_set_bit e i true) ;;
  guard negb (nz rc) ;;
  tmap <~ lift (get (aset tmap i e)) ;;
  type <~ lift (get (aget (type_val_to_struct p) i)) ;;
  if match type with Some type => negb (td_flavor type =? TYPE_ATTRIB) | None => false end then
    e <~ lift (get (aget amap i)) ;;
    '(rc, e) <~ lift (ebitmap_set_bit e i true) ;;
    guard negb (nz rc) ;;
    amap <~ lift (get (aset amap i e)) ;;
    rret (tmap, amap, i + 1)
  else rret (tmap, amap, i + 1).

Definition read_type_maps (p : policydb) : reader policydb :=
  let n := Z.to_nat (s_nprim (p_types p)) in
  _ <~ alloc ;;
  _ <~ alloc ;;
  '(tmap, amap, _) <~ repeated n (read_type_map p) (replicate n ebitmap_init, replicate n ebitmap_init, 0) ;;
  rret (set_type_maps p tmap amap).

(** ** [policydb_read] *)

(** Up to the symbol tables. *)
Definition read_front (p : policydb) : reader (policydb * policydb_compat_info) :=
  '(p, info) <~ read_header p ;;
  p <~ read_capabilities p ;;
  p <~ read_symtabs (ci_sym_num info) p ;;
  rret (p, info).

(** The rest.  [policydb_index_decls] of a kernel policy allocates the array of the
    one declaration [policydb_init] made. *)
Definition read_rest (info : policydb_compat_info) (p : policydb) : reader policydb :=
  p <~ lift (get (find_classes p)) ;;
  p <~ read_rules p ;;
  _ <~ alloc ;;
  p <~ rstep policydb_index_classes p ;;
  p <~ lift (get (find_transitions p)) ;;
  p <~ rstep policydb_index_others p ;;
  p <~ ocontext_read (ci_ocon_num info) p ;;
  p <~ genfs_read p ;;
  p <~ (if policyvers p >=? POLICYDB_VERSION_MLS then range_read p else rret p) ;;
  p <~ read_type_maps p ;;
  rc <~ lift (policydb_validate p) ;;
  guard negb (nz rc) ;;
  rret p.

Definition policydb_read (p : policydb) : reader policydb :=
  '(p, info) <~ read_front p ;;
  read_rest info p.
