(* ===== verification/PolicydbInit.v ===== *)
(** * The initial policy

    [policydb_init] of [libsepol/src/policydb.c] with [roles_init] and
    [symtab_insert], and the entry points [sepol_policydb_create] of
    [policydb_public.c] and [policydb_from_image] of [policydb_convert.c].  The
    scopes and the block of declarations are for modules: they are made, and not
    kept. *)

From S2P Require Import Prelude PolicyFile Ebitmap Hashtab Avtab Mls Policydb MlsPolicy Conditional Context ObjectSid Optimize Validate.
From S2P Require Import PolicySetters ReadPolicy PolicydbRead.

(** ** Symbols of modules *)

Definition SCOPE_REQ : Z := 1.
Definition SCOPE_DECL : Z := 2.
Definition SYM_ROLES : Z := 2.
Definition SYM_USERS : Z := 4.
Definition ROLE_ROLE : Z := 0.

(** [decl_ids_len] is the length of [sc_decl_ids]. *)
Record scope_datum := ScopeDatum { sc_scope : Z; sc_decl_ids : list Z }.

Definition add_i_to_a (i : Z) (a : list Z) : M (option (list Z)) :=
  new ← malloc;
  mret (match new with None => None | Some _ => Some (a ++ [i]) end).

(** The new scope of a symbol that has none. *)
Definition scope_create (scopes : option (hashtab string scope_datum)) (key : string) (scope : Z) :
    M (Z * option (hashtab string scope_datum)) :=
  key2 ← strdup key;
  match key2 with
  | None => mret (- ENOMEM, scopes)
  | Some key2 =>
     r ← malloc;
     match r with
     | None => mret (- ENOMEM, scopes)
     | Some _ => hashtab_insert scopes key2 (ScopeDatum scope [])
     end
  end.

(** The order of the last two, for a requirement of a declared symbol. *)
Definition decl_last (ids : list Z) : option (list Z) :=
  let len := length ids in
  if (len <? 2)%nat then None
  else
    a ← ids !! (len - 2)%nat;
    b ← ids !! (len - 1)%nat;
    Some (<[(len - 1)%nat := a]> (<[(len - 2)%nat := b]> ids)).

(** The declaration joins those of the symbol. *)
Definition scope_add (scopes : option (hashtab string scope_datum)) (key : string) (sd : scope_datum) (scope avrule_decl_id retval : Z) :
    M (Z * option (hashtab string scope_datum)) :=
  let write sd := hashtab_write scopes key (λ _, sd) in
  if bool_decide (avrule_decl_id ∈ sc_decl_ids sd) then mret (retval, write sd)
  else
    ids ← add_i_to_a avrule_decl_id (sc_decl_ids sd);
    match ids with
    | None => mret (- ENOMEM, write sd)
    | Some ids =>
       if (sc_scope sd =? SCOPE_DECL) && (scope =? SCOPE_REQ) then
         match decl_last ids with
         | None => mret (-1, write (ScopeDatum (sc_scope sd) ids))
         | Some ids => mret (retval, write (ScopeDatum (sc_scope sd) ids))
         end
       else mret (retval, write (ScopeDatum (sc_scope sd) ids))
    end.

(** [symtab_insert] for a symbol with a value: [set_value] writes through the
    pointer [value] into the datum. *)
Definition symtab_insert {V} (sym : Z) (flavor : V → Z) (set_value : V → Z → V) (s : symtab V)
    (scopes : option (hashtab string scope_datum)) (key : string) (datum : V) (scope avrule_decl_id : Z) :
    M (Z * symtab V * option (hashtab string scope_datum)) :=
  '(rc, t) ← hashtab_insert (s_table s) key datum;
  if negb (rc =? SEPOL_OK) && negb (rc =? SEPOL_EEXIST) then mret (rc, Symtab t (s_nprim s), scopes)
  else
    let nprim := u32 (s_nprim s + 1) in
    let s := if rc =? SEPOL_OK then Symtab (hashtab_write t key (λ d, set_value d nprim)) nprim else Symtab t (s_nprim s) in
    let retval := if rc =? SEPOL_OK then 0 else 1 in
    found ← get (hashtab_search scopes key);
    match found with
    | None =>
       '(rc, scopes) ← scope_create scopes key scope;
       if nz rc then mret (rc, s, scopes)
       else '(rc, scopes) ← scope_add scopes key (ScopeDatum scope []) scope avrule_decl_id retval; mret (rc, s, scopes)
    | Some sd =>
       if (sc_scope sd =? SCOPE_DECL) && (scope =? SCOPE_DECL) then
         if negb (sym =? SYM_ROLES) && negb (sym =? SYM_USERS) then mret (-2, s, scopes)
         else
           same ← (if sym =? SYM_ROLES then
                     base_role ← get (hashtab_search (s_table s) key);
                     match base_role with
                     | None => ub
                     | Some base_role => mret ((flavor base_role =? ROLE_ROLE) && (flavor datum =? ROLE_ROLE))
                     end
                   else mret true);
           if negb same then mret (-2, s, scopes)
           else '(rc, scopes) ← scope_add scopes key sd scope avrule_decl_id retval; mret (rc, s, scopes)
       else
         let sd := if (sc_scope sd =? SCOPE_REQ) && (scope =? SCOPE_DECL) then ScopeDatum SCOPE_DECL (sc_decl_ids sd) else sd in
         '(rc, scopes) ← scope_add scopes key sd scope avrule_decl_id retval; mret (rc, s, scopes)
    end.

(** ** Roles *)

Definition role_init : role_datum := RoleDatum 0 ebitmap_init ebitmap_init ebitmap_init 0.

Definition set_role_value (r : role_datum) (v : Z) : role_datum :=
  RoleDatum v (rd_dominates r) (rd_types r) (rd_cache r) (rd_bounds r).

(** Every role of a kernel policy is a [ROLE_ROLE]. *)
Definition roles_init (p : policydb) (scopes : option (hashtab string scope_datum)) : M (Z * policydb) :=
  role ← malloc;
  match role with None => mret (- ENOMEM, p) | Some _ =>
  key ← strdup OBJECT_R;
  match key with None => mret (- ENOMEM, p) | Some key =>
  '(rc, s, _) ← symtab_insert SYM_ROLES (λ _, ROLE_ROLE) set_role_value (p_roles p) scopes key role_init
                  (if policy_type p =? POLICY_MOD then SCOPE_REQ else SCOPE_DECL) 1;
  let p := set_roles p s in
  if nz rc then mret (rc, p)
  else
    role ← get (hashtab_search (s_table s) key);
    match role with
    | None => ub
    | Some role => mret (if negb (rd_value role =? OBJECT_R_VAL) then - EINVAL else 0, p)
    end
  end end.

(** ** [policydb_init] *)

Definition symtab_sizes : list Z := [2; 32; 16; 512; 128; 16; 16; 16].

(** Tables of the sizes given, or [None] when one could not be made. *)
Fixpoint symtabs_init {V} (sizes : list Z) : M (option (list (symtab V))) :=
  match sizes with
  | [] => mret (Some [])
  | size :: sizes =>
     '(rc, s) ← symtab_init (Symtab None 0) size;
     if nz rc then mret None
     else
       l ← symtabs_init sizes;
       mret (match l with None => None | Some l => Some (s :: l) end)
  end.

Definition avrule_decl_create : M (option (list (symtab unit))) :=
  decl ← malloc;
  match decl with
  | None => mret None
  | Some _ => symtabs_init symtab_sizes
  end.

(** [memset] to 0. *)
Definition policydb_zero : policydb :=
  Policydb 0 (Symtab None 0) (Symtab None 0) (Symtab None 0) (Symtab None 0) 0 (Symtab None 0) (Symtab None 0)
    [] [] [] [] [] [] [] [] [] [] [] (Avtab None 0 0 0) [] (Avtab None 0 0 0) [] [] [] (replicate (Z.to_nat OCON_NUM) []) [] None
    [] [] ebitmap_init 0 0 0 0 0 0 0 (Symtab None 0) None [] None 0 ebitmap_init 0.

(** The symbol tables. *)
Definition policydb_symtabs (p : policydb) : M (Z * policydb) :=
  '(rc, commons) ← symtab_init (Symtab None 0) 2;
  if nz rc then mret (rc, p) else
  '(rc, classes) ← symtab_init (Symtab None 0) 32;
  if nz rc then mret (rc, p) else
  '(rc, roles) ← symtab_init (Symtab None 0) 16;
  if nz rc then mret (rc, p) else
  '(rc, types) ← symtab_init (Symtab None 0) 512;
  if nz rc then mret (rc, p) else
  '(rc, users) ← symtab_init (Symtab None 0) 128;
  if nz rc then mret (rc, p) else
  '(rc, bools) ← symtab_init (Symtab None 0) 16;
  if nz rc then mret (rc, p) else
  '(rc, levels) ← symtab_init (Symtab None 0) 16;
  if nz rc then mret (rc, p) else
  '(rc, cats) ← symtab_init (Symtab None 0) 16;
  if nz rc then mret (rc, p) else
  mret (0, set_cats (set_levels (set_bools (set_users (set_types (set_roles (set_classes (set_commons p commons) classes) roles) types) users)
             (s_table bools) (s_nprim bools)) levels) cats).

(** The code, and the policy unless the tables were destroyed.  Where the scopes or
    the block of declarations could not be made, [rc] is still that of the last
    symbol table, which is 0. *)
Definition policydb_init : M (Z * option policydb) :=
  '(rc, p) ← policydb_symtabs policydb_zero;
  if nz rc then mret (rc, None) else
  scopes ← symtabs_init symtab_sizes;
  match scopes with None => mret (rc, None) | Some scopes =>
  global ← malloc;
  match global with None => mret (rc, None) | Some _ =>
  decl ← avrule_decl_create;
  match decl with None => mret (rc, None) | Some _ =>
  let p := set_te p (avtab_init (te_avtab p)) in
  scope ← get (scopes !! Z.to_nat SYM_ROLES);
  '(rc, p) ← roles_init p (s_table scope);
  if nz rc then mret (rc, None) else
  let '(rc, p) := cond_policydb_init p in
  if nz rc then mret (rc, None) else
  filename_trans ← hashtab_create (2 ^ 10);
  match filename_trans with None => mret (- ENOMEM, None) | Some filename_trans =>
  range_tr ← hashtab_create 256;
  match range_tr with None => mret (- ENOMEM, None) | Some range_tr =>
  let p := set_range_tr (set_filename_trans p (Some filename_trans) (filename_trans_count p)) (Some range_tr) in
  mret (0, Some (set_permissive (set_caps p ebitmap_init) ebitmap_init))
  end end end end end.

(** ** Entry points *)

(** The code, and the policy: [Some None] is one whose tables were destroyed. *)
Definition sepol_policydb_create : M (Z * option (option policydb)) :=
  sp ← malloc;
  match sp with
  | None => mret (-1, None)
  | Some _ =>
     '(rc, p) ← policydb_init;
     if nz rc then mret (-1, None) else mret (0, Some p)
  end.

(** [policydb_from_image] of [data], into a policy that was created.  Reading into
    destroyed tables is undefined. *)
Definition policydb_from_image (data : list Z) (p : option policydb) : M (Z * option policydb) :=
  match p with
  | None => ub
  | Some p =>
     '(r, _) ← policydb_read p (PolicyFile PF_USE_MEMORY data (Z.of_nat (length data)) []);
     match r with
     | None => mret (STATUS_ERR, None)
     | Some p => mret (STATUS_SUCCESS, Some p)
     end
  end.
