(* ===== verification/ReadFacts.v ===== *)
(** * The parts of a policy are read safely

    A logic for readers, and what the readers of [ReadPolicy] deliver on
    arbitrary bytes. *)

From S2P Require Import Prelude PolicyFile Ebitmap EbitmapFacts EbitmapIter EbitmapIO Hashtab HashtabFacts HashtabSpec Avtab AvtabFacts.
From S2P Require Import Mls Policydb MlsPolicy MlsFacts Conditional ConditionalFacts Context Constraint ObjectSid Optimize.
From S2P Require Import Validate ValidateFacts ValidateRules PolicySetters ReadPolicy.

#[local] Open Scope reader_scope.

(** ** A logic for readers *)

(** From any file the reader terminates without undefined behaviour; if it does
    not fail, the value is in [Q] and the rest of the file is in order. *)
Definition reads {A} (m : reader A) (Q : A → Prop) : Prop :=
  ∀ fp h, file_ok fp → wp (m fp) h (λ r _, match r.1 with Some x => Q x ∧ file_ok r.2 | None => True end).

Section logic.
Context {A B : Type}.
Implicit Types (m : reader A) (Q : A → Prop).

Lemma reads_ret x Q : Q x → reads (rret x) Q.
Proof. intros HQ fp h Hf. by split. Qed.

Lemma reads_fail Q : reads rfail Q.
Proof. by intros fp h Hf. Qed.

Lemma reads_bind m (k : A → reader B) P (Q : B → Prop) :
  reads m P → (∀ x, P x → reads (k x) Q) → reads (rbind m k) Q.
Proof.
  intros Hm Hk fp h Hf. unfold rbind. apply wp_bind. eapply wp_mono; [by apply Hm|].
  intros [[x|] fp'] h' Hx; [|done]. destruct Hx. by apply Hk.
Qed.

Lemma reads_mono m P Q : reads m P → (∀ x, P x → Q x) → reads m Q.
Proof.
  intros Hm HPQ fp h Hf. eapply wp_mono; [by apply Hm|]. intros [[x|] fp'] h' Hx; [|done]. destruct Hx. split; auto.
Qed.

Lemma reads_if (b : bool) m1 m2 Q : (b = true → reads m1 Q) → (b = false → reads m2 Q) → reads (if b then m1 else m2) Q.
Proof. destruct b; auto. Qed.

Lemma reads_guard (b : bool) m Q : (b = true → reads m Q) → reads (guard b ;; m) Q.
Proof. intros H. apply reads_if; [done|]. intros _. apply reads_fail. Qed.

Lemma reads_lift (m : M A) Q : (∀ h, wp m h (λ x _, Q x)) → reads (lift m) Q.
Proof. intros H fp h Hf. unfold lift. apply wp_bind. eapply wp_mono; [apply H|]. intros x h' HQ. by split. Qed.

Lemma reads_get (m : option A) x Q : m = Some x → Q x → reads (lift (get m)) Q.
Proof. intros -> HQ. apply reads_lift. by intros h. Qed.

Lemma reads_alloc : reads alloc (λ _, True).
Proof. intros fp h Hf. unfold alloc. wp_step. apply wp_any_malloc. intros [x|] h'; wp_step; [by split|done]. Qed.

(** Running a reader that consumes the file by hand. *)
Lemma reads_code (m : policy_file → M (Z * A * policy_file)) (Q : A → Prop) :
  (∀ fp h, file_ok fp → wp (m fp) h (λ r _, r.1.1 = 0 → Q r.1.2 ∧ file_ok r.2)) →
  reads (λ fp, '(rc, x, fp) ← m fp; mret (if nz rc then None else Some x, fp)) Q.
Proof.
  intros H fp h Hf. apply wp_bind. eapply wp_mono; [by apply H|]. intros [[rc x] fp'] h' Hr. simpl in *. wp_step.
  unfold nz. destruct (Z.eqb_spec rc 0) as [->|]; [by apply Hr|done].
Qed.

End logic.

Lemma reads_repeated {A} n (f : A → reader A) s (I : A → Prop) :
  I s → (∀ s, I s → reads (f s) I) → reads (repeated n f s) I.
Proof.
  intros Hs Hf. revert s Hs. induction n as [|n IH]; intros s Hs; cbn [repeated]; [by apply reads_ret|].
  eapply reads_bind; [by apply Hf|]. done.
Qed.

Lemma reads_counted {A} n (f : A → reader A) s (I : nat → A → Prop) :
  I n s → (∀ k s, I (S k) s → reads (f s) (I k)) → reads (repeated n f s) (I 0%nat).
Proof.
  intros Hs Hf. revert s Hs. induction n as [|n IH]; intros s Hs; cbn [repeated]; [by apply reads_ret|].
  eapply reads_bind; [by apply Hf|]. done.
Qed.

Create HintDb reads.
#[export] Hint Resolve reads_fail reads_alloc : reads.

Lemma reads_entry n : 0 ≤ n → reads (entry n) (λ b, Forall is_byte b ∧ Z.of_nat (length b) = n).
Proof.
  intros Hn fp h Hf. unfold entry. destruct (decide (n = 0)) as [->|Hne].
  - destruct Hf as [[Ht|[Ht Hl]] Hb]; unfold next_entry; rewrite Ht; [done|]. rewrite Hl, Z.gtb_ltb.
    rewrite (proj2 (Z.ltb_ge _ _)), (proj2 (Z.leb_le _ _)) by lia. change (Z.to_nat 0) with 0%nat. rewrite take_0, drop_0.
    split; [by split|]. split; [|done]. right. split; [done|]. simpl. lia.
  - apply wp_next_ok; [done|lia| |done]. intros b fp' Hb Hl Hf' _. by split.
Qed.

Definition is_u32 (x : Z) : Prop := 0 ≤ x < 2 ^ 32.

Lemma le32_at_u32 buf i : Forall is_byte buf → is_u32 (le32_at buf i).
Proof. intros Hb. apply (le_val_take 4). by apply Forall_drop. Qed.

Lemma reads_entry1 : reads entry1 is_u32.
Proof. eapply reads_bind; [by apply reads_entry|]. intros b [Hb _]. apply reads_ret. by apply le32_at_u32. Qed.

Lemma reads_entry2 : reads entry2 (λ '(a, b), is_u32 a ∧ is_u32 b).
Proof. eapply reads_bind; [by apply reads_entry|]. intros b [Hb _]. apply reads_ret. by split; apply le32_at_u32. Qed.

Lemma reads_entry3 : reads entry3 (λ '(a, b, c), is_u32 a ∧ is_u32 b ∧ is_u32 c).
Proof. eapply reads_bind; [by apply reads_entry|]. intros b [Hb _]. apply reads_ret. by split_and!; apply le32_at_u32. Qed.

Lemma reads_entry4 : reads entry4 (λ '(a, b, c, d), is_u32 a ∧ is_u32 b ∧ is_u32 c ∧ is_u32 d).
Proof. eapply reads_bind; [by apply reads_entry|]. intros b [Hb _]. apply reads_ret. by split_and!; apply le32_at_u32. Qed.

Lemma reads_key len : is_u32 len → reads (read_key len) (λ _, True).
Proof.
  intros Hl. eapply reads_bind; [apply reads_alloc|]. intros _ _. eapply reads_bind; [apply reads_entry, Hl|].
  intros b _. by apply reads_ret.
Qed.

Lemma reads_str len : is_u32 len → reads (rstr len) (λ _, True).
Proof.
  intros Hl fp h Hf. unfold rstr, str_read. destruct (Z.eqb_spec len 0); [done|]. cbn [orb].
  destruct (Z.eqb_spec len (2 ^ 64 - 1)); [done|]. do 2 wp_step. apply wp_any_malloc. intros [x|] h'; [|done].
  wp_step. apply wp_next_ok; [done|unfold is_u32 in Hl; lia| |done]. intros b fp' Hb _ Hf' _. by split.
Qed.

Lemma reads_ebitmap : reads rebitmap wf.
Proof.
  apply reads_code. intros fp h [Hr Hb]. eapply wp_mono; [by apply read_spec|]. intros r h' [(? & ? & ?)|[? _]]; [done|lia].
Qed.

#[export] Hint Resolve reads_entry1 reads_entry2 reads_entry3 reads_entry4 reads_ebitmap reads_key reads_str : reads.

(** ** Tables *)

(** A table with entries in [D]. *)
Definition filled {K V} `{HashKey K} (D : K → V → Prop) (t : option (hashtab K V)) : Prop :=
  ∃ h, t = Some h ∧ hwf h ∧ Forall (λ e, D e.1 e.2) (concat (ht_table h)).

Section tables.
Context {K V : Type} `{HashKeyLaws K, !EqDecision K, !Countable K}.
Implicit Types (D : K → V → Prop).

Lemma entries_dict D h : hwf h → Forall (λ e, D e.1 e.2) (concat (ht_table h)) ↔ map_Forall D (dict h).
Proof.
  intros Hw. rewrite Forall_forall. split.
  - intros HD k v Hv. apply (HD (k, v)). by apply dict_lookup.
  - intros HD [k v] Hv. apply HD. by apply dict_lookup.
Qed.

Lemma insert_filled D t k (v : V) hp : filled D t → D k v → wp (hashtab_insert t k v) hp (λ r _, filled D r.2).
Proof.
  intros (h & -> & Hw & HD) Hv. eapply wp_mono; [by apply insert_spec|].
  intros [rc t'] hp' [_ (h' & Ht & Hw' & Hr)]. simpl in *. subst t'. exists h'. split_and!; [done..|].
  apply entries_dict; [done|]. apply entries_dict in HD; [|done].
  destruct Hr as [(_ & _ & ->)|[(_ & _ & ->)|(_ & _ & -> & _)]]; [by apply map_Forall_insert_2|done..].
Qed.

Lemma reads_insert D t k (v : V) : filled D t → D k v → reads (rinsert t k v) (filled D).
Proof.
  intros Ht Hv fp hp Hf. unfold rinsert. apply wp_bind. eapply wp_mono; [by apply insert_filled|].
  intros [rc t'] hp' Ht'. wp_step. by destruct (nz rc).
Qed.

Lemma filled_search D t k : filled D t → ∃ v, hashtab_search t k = Some v ∧ ∀ d, v = Some d → D k d.
Proof.
  intros (h & -> & Hw & HD). exists (dict h !! k). split; [by apply search_spec|]. apply entries_dict in HD; [|done].
  intros d Hd. by apply HD.
Qed.

Lemma filled_mono D D' t : (∀ k v, D k v → D' k v) → filled D t → filled D' t.
Proof. intros HD (h & -> & Hw & Hall). exists h. split_and!; [done..|]. eapply Forall_impl; [exact Hall|]. naive_solver. Qed.

Lemma filled_entries D t : filled D t → (∀ h, t = Some h → hwf h) ∧ all_entries t D.
Proof. intros (h & -> & Hw & HD). split; by intros h' [= <-]. Qed.

(** Writing through a found datum. *)
Lemma write_filled D t k f : (∀ v, D k v → D k (f v)) → filled D t → filled D (hashtab_write t k f).
Proof.
  intros Hf (h & -> & [(Hl & Hp & Hc) Hn] & HD). eexists. split; [done|]. cbn [ht_table ht_size ht_nel].
  set (w := λ e : K * V, if keycmp k e.1 =? 0 then (e.1, f e.2) else e).
  assert (∀ e, (w e).1 = e.1) as Hw1 by (intros e; unfold w; by destruct (_ =? 0)).
  rewrite <- concat_map. split; [split|].
  - cbn [ht_size ht_table]. split_and!; [by rewrite length_map|done|]. intros i c Hi.
    change (map (map w) (ht_table h)) with (map w <$> ht_table h) in Hi.
    rewrite list_lookup_fmap in Hi. apply fmap_Some in Hi as (c0 & Hi & ->). destruct (Hc i c0 Hi) as [Hs Hh]. split.
    + clear Hi Hh. change (map w c0) with (w <$> c0). induction Hs as [|n c _ IH Hn']; [constructor|]. cbn [fmap list_fmap]. constructor; [done|].
      apply Forall_fmap. eapply Forall_impl; [exact Hn'|]. intros e He. unfold node_lt, compose in *. by rewrite !Hw1.
    + apply Forall_fmap. eapply Forall_impl; [exact Hh|]. intros e He. unfold compose. by rewrite Hw1.
  - cbn [ht_table ht_nel]. rewrite <- concat_map, length_map. done.
  - apply Forall_fmap. eapply Forall_impl; [exact HD|]. intros [k' v] He. unfold compose, w. cbn [fst snd] in *.
    destruct (Z.eqb_spec (keycmp k k') 0) as [->%keycmp_eq|]; cbn [fst snd]; auto.
Qed.

End tables.

Lemma reads_symtab {V} size k : 0 ≤ k ≤ 31 → size = 2 ^ k → reads (rsymtab size) (λ s, filled (λ _ (_ : V), False) (s_table s)).
Proof.
  intros Hk -> fp h Hf. unfold rsymtab, symtab_init, hashtab_create. do 4 wp_step; [done|].
  do 2 wp_step; [done|]. split; [|done]. eexists. split; [done|]. split; [|cbn [ht_table]; rewrite concat_replicate_nil; constructor].
  split; [by apply table_empty|]. cbn [ht_table ht_nel]. by rewrite concat_replicate_nil.
Qed.

(** ** MLS fields *)

(** Read the next part, with the lemma for it from the database. *)
Ltac rd := eapply reads_bind; [solve [auto with reads]|].
Ltac rd_alloc := eapply reads_bind; [apply reads_alloc|intros _ _].
Ltac rd_guard := apply reads_guard; let E := fresh "E" in intros E.

Lemma reads_type_set : reads type_set_read type_set_data.
Proof.
  unfold type_set_read. rd. intros types Ht. rd. intros negset Hn. rd. intros flags _. by apply reads_ret.
Qed.

Lemma reads_cpy e : wf e → reads (lift (ebitmap_cpy e)) (λ r, wf r.2).
Proof.
  intros He. apply reads_lift. intros h. eapply wp_mono; [apply cpy_spec|].
  intros r h' [_ [->|[-> _]]]; [done|apply wf_init].
Qed.

Lemma reads_range : reads mls_read_range_helper range_wf.
Proof.
  unfold mls_read_range_helper. rd. intros items Hi. rd_guard. eapply reads_bind; [apply reads_entry; unfold is_u32 in Hi; lia|].
  intros buf [Hb _]. cbn zeta. set (sens0 := if items =? 0 then _ else _). set (sens1 := if items >? 1 then _ else _).
  assert (is_u32 sens0) as H0 by (unfold sens0; case_match; [done|by apply le32_at_u32]).
  assert (is_u32 sens1) as H1 by (unfold sens1; case_match; [by apply le32_at_u32|done]).
  rd. intros cat0 Hc0. apply reads_if; intros _.
  - rd. intros cat1 Hc1. by apply reads_ret.
  - eapply reads_bind; [by apply reads_cpy|]. intros [rc cat1] Hc1. rd_guard. by apply reads_ret.
Qed.

Lemma reads_level : reads mls_read_level (λ l, is_u32 (sens l) ∧ wf (cat l)).
Proof. unfold mls_read_level. rd. intros sens Hs. rd. intros cat Hc. by apply reads_ret. Qed.

#[export] Hint Resolve reads_type_set reads_range reads_level : reads.

Lemma range_init_wf : range_wf mls_range_init.
Proof. split; (split; [done|apply wf_init]). Qed.

Lemma range_wf_data r : range_wf r → range_data r.
Proof. intros [[[? _] ?] [[? _] ?]]. by split. Qed.

(** ** Symbols *)

Lemma isvalid_range value nprim : 0 ≤ value → value_isvalid value nprim = true ↔ 1 ≤ value ≤ nprim.
Proof.
  intros Hv. unfold value_isvalid. rewrite negb_true_iff, orb_false_iff, Z.eqb_neq, Z.gtb_ltb, Z.ltb_ge. lia.
Qed.

(** A table of permissions: values of bits of an access vector. *)
Definition perms_ok (s : symtab Z) : Prop := filled (λ _ v, 1 ≤ v ≤ 32) (s_table s) ∧ 0 ≤ s_nprim s.

Lemma reads_perm nprim h : nprim ≤ 32 → filled (λ _ v, 1 ≤ v ≤ 32) h → reads (perm_read nprim h) (filled (λ _ v, 1 ≤ v ≤ 32)).
Proof.
  intros Hn Hh. unfold perm_read. rd_alloc. rd. intros [len value] [Hl Hv]. rd. intros key _. rd_guard.
  apply reads_insert; [done|]. apply isvalid_range in E; [lia|apply Hv].
Qed.

Lemma reads_perms nel nprim s :
  nprim ≤ 32 → filled (λ _ (_ : Z), False) s → reads (repeated (Z.to_nat nel) (perm_read nprim) s) (filled (λ _ v, 1 ≤ v ≤ 32)).
Proof.
  intros Hn Hs. apply reads_repeated; [by eapply filled_mono; [|exact Hs]|]. intros t Ht. by apply reads_perm.
Qed.

Lemma reads_perm_table : reads (rsymtab PERM_SYMTAB_SIZE) (λ s, filled (λ _ (_ : Z), False) (s_table s)).
Proof. by apply (reads_symtab _ 5). Qed.

Definition common_in (c : common_datum) : Prop := is_u32 (cm_value c) ∧ perms_ok (cm_permissions c).

Lemma reads_common h : filled (λ _, common_in) h → reads (common_read h) (filled (λ _, common_in)).
Proof.
  intros Hh. unfold common_read. rd_alloc. rd. intros [[[len value] nprim] nel] (Hl & Hv & Hp & _). rd_guard.
  eapply reads_bind; [apply reads_perm_table|]. intros s Hs. rd_guard. rd. intros key _.
  apply negb_true_iff in E0. rewrite Z.gtb_ltb in E0. apply Z.ltb_ge in E0.
  eapply reads_bind; [by apply reads_perms|]. intros t Ht. apply reads_insert; [done|]. split; [done|]. split; [done|apply Hp].
Qed.

(** Constraints. *)
Lemma type_set_init_data : type_set_data type_set_init.
Proof. split; apply wf_init. Qed.

Lemma reads_cexpr p x s : Forall cexpr_data s.1 → reads (read_cexpr p x s) (λ s, Forall cexpr_data s.1).
Proof.
  destruct s as [le depth]. cbn [fst]. intros Hle. unfold read_cexpr. rd_alloc. rd_alloc. rd.
  intros [[ty attr] op] _. cbn zeta.
  assert (∀ (d : Z) names tn, wf names → type_set_data tn →
    reads (rret (le ++ [CExpr ty attr op names (Some tn)], d)) (λ s, Forall cexpr_data s.1)) as Hnext.
  { intros d names tn Hn Ht. apply reads_ret. cbn [fst]. apply Forall_app. split; [done|]. apply Forall_singleton.
    split; [done|]. by exists tn. }
  pose proof wf_init. pose proof type_set_init_data.
  apply reads_if; intros _; [rd_guard; by apply Hnext|]. apply reads_if; intros _; [rd_guard; by apply Hnext|].
  apply reads_if; intros _; [rd_guard; by apply Hnext|]. apply reads_if; intros _; [|apply reads_fail].
  rd_guard. rd_guard. rd. intros names Hn. eapply reads_bind; [|intros tn Ht; by apply Hnext].
  apply reads_if; intros _; [auto with reads|by apply reads_ret].
Qed.

Lemma reads_cons p x l : Forall cnode_data l → reads (read_cons p x l) (Forall cnode_data).
Proof.
  intros Hl. unfold read_cons. rd_alloc. rd. intros [perms nexpr] [Hp _].
  eapply reads_bind; [apply (reads_repeated _ _ _ (λ s, Forall cexpr_data s.1)); [constructor|intros s Hs; by apply reads_cexpr]|].
  intros [expr depth] He. rd_guard. apply reads_ret. apply Forall_app. split; [done|]. by apply Forall_singleton.
Qed.

Lemma reads_cons_helper p n x : reads (read_cons_helper p n x) (Forall cnode_data).
Proof. apply reads_repeated; [constructor|]. intros l Hl. by apply reads_cons. Qed.

#[export] Hint Resolve reads_cons_helper : reads.

Definition class_in (c : class_datum) : Prop :=
  is_u32 (cl_value c) ∧ (∀ cm, cl_comdatum c = Some cm → common_in cm) ∧ perms_ok (cl_permissions c) ∧
  Forall cnode_data (cl_constraints c) ∧ Forall cnode_data (cl_validatetrans c).

Lemma reads_class_common p len2 :
  filled (λ _, common_in) (s_table (p_commons p)) → is_u32 len2 →
  reads (class_common p len2) (λ c, ∀ cm, c = Some cm → common_in cm).
Proof.
  intros Hc Hl. unfold class_common. apply reads_if; intros _; [|by apply reads_ret]. rd. intros key _.
  destruct (filled_search _ _ key Hc) as (v & Hs & Hv). eapply reads_bind; [by apply (reads_get _ v (λ x, x = v))|].
  intros ? ->. destruct v as [cm|]; [|apply reads_fail]. apply reads_ret. intros ? [= <-]. by apply Hv.
Qed.

Lemma reads_class p h :
  filled (λ _, common_in) (s_table (p_commons p)) → filled (λ _, class_in) h →
  reads (class_read p h) (filled (λ _, class_in)).
Proof.
  intros Hc Hh. unfold class_read. rd_alloc.
  eapply (reads_bind _ _ (λ '(len, len2, value, nprim, nel, ncons), is_u32 len ∧ is_u32 len2 ∧ is_u32 value ∧ is_u32 nprim)).
  { eapply reads_bind; [by apply reads_entry|]. intros buf [Hb _]. apply reads_ret. by split_and!; apply le32_at_u32. }
  intros [[[[[len len2] value] nprim] nel] ncons] (Hl & Hl2 & Hv & Hp). rd_guard.
  eapply reads_bind; [apply reads_perm_table|]. intros s Hs. rd_guard. rd. intros key _.
  apply negb_true_iff in E0. rewrite Z.gtb_ltb in E0. apply Z.ltb_ge in E0.
  eapply reads_bind; [by apply reads_class_common|]. intros com Hcom.
  eapply reads_bind; [by apply reads_perms|]. intros t Ht. rd. intros cons Hcons.
  eapply (reads_bind _ _ (Forall cnode_data)).
  { apply reads_if; intros _; [|by apply reads_ret]. rd. intros n _. auto with reads. }
  intros vt Hvt. eapply (reads_bind _ _ (λ _, True)).
  { apply reads_if; intros _; [|by apply reads_ret]. by eapply reads_mono; [apply reads_entry3|]. }
  intros [[du dr] dg] _. eapply (reads_bind _ _ (λ _, True)).
  { apply reads_if; intros _; [|by apply reads_ret]. by eapply reads_mono; [apply reads_entry1|]. }
  intros dt _. apply reads_insert; [done|]. split_and!; [done|done|split; [done|apply Hp]|done|done].
Qed.

Definition role_in (r : role_datum) : Prop := role_data r ∧ is_u32 (rd_value r).

Lemma reads_bounded p :
  reads (if policydb_has_boundary_feature p then entry3 else '(len, value) <~ entry2 ;; rret (len, value, 0))
    (λ '(len, value, bounds), is_u32 len ∧ is_u32 value ∧ is_u32 bounds).
Proof. apply reads_if; intros _; [auto with reads|]. rd. intros [len value] [? ?]. by apply reads_ret. Qed.

Lemma reads_role p h : filled (λ _, role_in) h → reads (role_read p h) (filled (λ _, role_in)).
Proof.
  intros Hh. unfold role_read. rd_alloc. eapply reads_bind; [apply reads_bounded|]. intros [[len value] bounds] (Hl & Hv & Hb).
  rd_guard. rd. intros key _. rd. intros dom Hd. rd. intros types Ht. apply reads_if; intros _.
  - rd_guard. by apply reads_ret.
  - apply reads_insert; [done|]. split; [|done]. split_and!; [apply Hv|done..|apply Hb].
Qed.

Definition type_in (t : type_datum) : Prop := type_data t ∧ is_u32 (td_value t).

Lemma reads_type p h : filled (λ _, type_in) h → reads (type_read p h) (filled (λ _, type_in)).
Proof.
  intros Hh. unfold type_read. rd_alloc. eapply (reads_bind _ _ (λ '(len, d), is_u32 len ∧ type_in d)).
  - apply reads_if; intros _.
    + rd. intros [[[len value] properties] bounds] (Hl & Hv & Hp & Hb). apply reads_ret. split; [done|]. split; [|done].
      split_and!; [apply Hv| |apply wf_init|apply Hb]. cbn [td_primary]. by case_match.
    + rd. intros [[len value] primary] (Hl & Hv & Hp). apply reads_ret. split; [done|]. split; [|done].
      split_and!; [apply Hv|apply Hp|apply wf_init|done].
  - intros [len d] [Hl Hd]. rd_guard. rd. intros key _. by apply reads_insert.
Qed.

Definition user_in (u : user_datum) : Prop := user_data u ∧ is_u32 (ud_value u).

Lemma reads_user p h : filled (λ _, user_in) h → reads (user_read p h) (filled (λ _, user_in)).
Proof.
  intros Hh. unfold user_read. rd_alloc. eapply reads_bind; [apply reads_bounded|]. intros [[len value] bounds] (Hl & Hv & Hb).
  rd_guard. rd. intros key _. rd. intros roles Hr. eapply (reads_bind _ _ (λ '(r, l), range_data r ∧ level_data l)).
  - apply reads_if; intros _; [|apply reads_ret; split; [apply range_wf_data, range_init_wf|split; [done|apply wf_init]]].
    rd. intros r Hrange%range_wf_data. rd. intros l [Hs Hc]. apply reads_ret. split; [done|]. by split; [apply Hs|].
  - intros [r l] [Hrange Hlev]. apply reads_insert; [done|]. split; [|done]. split_and!; [apply Hv|done..|apply Hb].
Qed.

Definition sens_in (d : level_datum) : Prop := level_data (ld_level d) ∧ is_u32 (sens (ld_level d)).

Lemma reads_sens h : filled (λ _, sens_in) h → reads (sens_read h) (filled (λ _, sens_in)).
Proof.
  intros Hh. unfold sens_read. rd_alloc. rd. intros [len isalias] [Hl _]. rd_guard. rd. intros key _. rd_alloc. rd.
  intros level [Hs Hc]. apply reads_insert; [done|]. split; [|done]. by split; [apply Hs|].
Qed.

Definition cat_in (d : cat_datum) : Prop := is_u32 (cd_value d).

Lemma reads_cat h : filled (λ _, cat_in) h → reads (cat_read h) (filled (λ _, cat_in)).
Proof.
  intros Hh. unfold cat_read. rd_alloc. rd. intros [[len value] isalias] (Hl & Hv & _). rd_guard. rd. intros key _.
  by apply reads_insert.
Qed.

Definition bool_in (d : cond_bool_datum) : Prop := 0 ≤ cb_value d.

Lemma reads_bool h : filled (λ _, bool_in) h → reads (bool_read h) (filled (λ _, bool_in)).
Proof.
  intros Hh. apply (reads_code (cond_read_bool h)). intros fp hp Hf. unfold cond_read_bool. wp_step. apply wp_any_malloc. intros [x|] h1; [|done].
  wp_step. apply wp_next_ok; [done|lia| |done]. intros b fp1 Hb Hl Hf1 Hl1. cbn beta iota zeta.
  change (aget (le32s 3 b) 0) with (Some (le_val (take 4 b))).
  change (aget (le32s 3 b) 1) with (Some (le_val (take 4 (drop 4 b)))).
  change (aget (le32s 3 b) 2) with (Some (le_val (take 4 (drop 4 (drop 4 b))))).
  set (len := le_val (take 4 (drop 4 (drop 4 b)))). assert (is_u32 len) as Hlen.
  { apply (le_val_take 4). by do 2 apply Forall_drop. }
  do 6 wp_step. wp_step; [done|]. wp_step. unfold str_read. destruct (Z.eqb_spec len 0) as [|Hne]; [done|]. cbn [orb].
  destruct (Z.eqb_spec len (2 ^ 64 - 1)); [done|]. wp_step. apply wp_any_malloc. intros [y|] h2; [|done].
  wp_step. apply wp_next_ok; [done|unfold is_u32 in Hlen; lia| |done]. intros key fp2 _ _ Hf2 _. wp_step. cbn [nz Z.eqb negb].
  wp_step. eapply wp_mono; [apply (insert_filled (λ _, bool_in)); [done|by apply (le_val_take 4)]|].
  intros [rc t] h3 Ht. wp_step. intros _. by split.
Qed.
