(* ===== verification/ReadRulesFacts.v ===== *)
(** * Rules and labels are read safely

    What the readers of [ReadPolicy] for rules on roles, file names and ranges and
    for object contexts deliver on arbitrary bytes. *)

From S2P Require Import Prelude PolicyFile Ebitmap EbitmapFacts EbitmapIter EbitmapIO Hashtab HashtabFacts HashtabSpec Avtab AvtabFacts.
From S2P Require Import Mls Policydb MlsPolicy Conditional ConditionalFacts ConditionalSpec Context MlsFacts ContextSpec Constraint ObjectSid Optimize.
From S2P Require Import Validate ValidateFacts ValidateRules PolicySetters ReadPolicy ReadFacts.

#[local] Open Scope reader_scope.

(** ** Rules on roles *)

Lemma reads_role_trans p : 0 ≤ process_class p → reads (role_trans_read p) (Forall role_trans_data).
Proof.
  intros Hp. unfold role_trans_read. rd. intros nel _. apply reads_repeated; [constructor|]. intros l Hl.
  unfold role_trans_read_one. rd_alloc. rd. intros [[role type] new_role] (Hr & Ht & Hn).
  eapply (reads_bind _ _ (λ c, 0 ≤ c)).
  { apply reads_if; intros _; [|by apply reads_ret]. eapply reads_mono; [apply reads_entry1|]. by intros c []. }
  intros tclass Hc. apply reads_ret, Forall_app. split; [done|]. apply Forall_singleton. split_and!; [apply Hr|apply Ht|done|apply Hn].
Qed.

Lemma reads_role_allow : reads role_allow_read (Forall role_allow_data).
Proof.
  unfold role_allow_read. rd. intros nel _. apply reads_repeated; [constructor|]. intros l Hl.
  unfold role_allow_read_one. rd_alloc. rd. intros [role new_role] [Hr Hn].
  apply reads_ret, Forall_app. split; [done|]. apply Forall_singleton. split; [apply Hr|apply Hn].
Qed.

(** ** File name transitions *)

Definition ft_datum_ok (d : filename_trans_datum) : Prop := wf (ft_stypes d) ∧ is_u32 (ft_otype d).

Definition filename_ok (k : filename_trans_key) (d : list filename_trans_datum) : Prop :=
  0 ≤ ft_ttype k ∧ 0 ≤ ft_tclass k ∧ Forall ft_datum_ok d.

Lemma u32_is x : is_u32 (u32 x).
Proof. apply Z.mod_pos_bound. lia. Qed.

Lemma seek_bound d stype otype i j : filetrans_seek d stype otype i = inr j → (j ≤ i + length d)%nat.
Proof.
  revert i. induction d as [|x d IH]; intros i; cbn [filetrans_seek length]; [intros [= <-]; lia|].
  repeat (case_match; [done|]). case_match; [intros [= <-]; lia|]. intros Hj%IH. lia.
Qed.

Lemma set_bit_wf e b v h : wf e → is_u32 b → wp (ebitmap_set_bit e b v) h (λ r _, wf r.2).
Proof. intros He Hb. eapply wp_mono; [by apply set_bit_spec|]. by intros r h' (_ & ? & _). Qed.

Lemma union_wf e1 e2 h : wf e1 → wf e2 → wp (ebitmap_union e1 e2) h (λ r _, wf r.2).
Proof. intros H1 H2. eapply wp_mono; [by apply union_spec|]. by intros r h' (_ & ? & _). Qed.

Lemma filetrans_set_ok h count k d i stype hp :
  filled filename_ok h → filename_ok k d → (i < length d)%nat →
  wp (filetrans_set h count k d i stype) hp (λ r _, filled filename_ok r.1.2).
Proof.
  intros Hh (H1 & H2 & Hd) Hi. unfold filetrans_set. destruct (lookup_lt_is_Some_2 d i Hi) as [x Hx]. rewrite Hx.
  destruct (Forall_lookup_1 _ _ _ _ Hd Hx) as [Hw Ho]. do 3 wp_step. eapply wp_mono; [apply set_bit_wf; [done|apply u32_is]|].
  intros [rc e] h' He. wp_step. cbn [fst snd]. apply write_filled; [|done]. intros _ _. split_and!; [done..|].
  apply Forall_insert; [done|]. by split.
Qed.

Lemma filetrans_insert_ok h count stype ttype tclass name alloc otype hp :
  filled filename_ok h → 0 ≤ ttype → 0 ≤ tclass → is_u32 otype →
  wp (policydb_filetrans_insert h count stype ttype tclass name alloc otype) hp (λ r _, filled filename_ok r.1.1.2).
Proof.
  intros Hh Ht Hc Ho. unfold policydb_filetrans_insert. set (k := FilenameTransKey ttype tclass name).
  destruct (filled_search _ _ k Hh) as (found & Hs & Hf). rewrite Hs. do 2 wp_step. cbn zeta. set (d := default [] found).
  assert (filename_ok k d) as Hd by (unfold d; destruct found; [by apply Hf|by split_and!]).
  destruct (filetrans_seek d stype otype 0) as [present|i] eqn:Es; [by wp_step|]. apply seek_bound in Es. simpl in Es.
  destruct (Nat.ltb_spec i (length d)).
  - wp_step. eapply wp_mono; [by apply filetrans_set_ok|]. intros [[rc h'] c'] hp' H'. by wp_step.
  - wp_step. apply wp_any_malloc. intros [x|] hp1; [|by wp_step]. set (d' := d ++ _).
    assert (filename_ok k d') as Hd'.
    { destruct Hd as (? & ? & ?). split_and!; [done..|]. apply Forall_app. split; [done|]. apply Forall_singleton.
      split; [apply wf_init|done]. }
    wp_step. eapply (wp_mono _ _ (λ r _, filled filename_ok r.2)).
    + assert (wp (name_dup ← (if alloc then mret (Some name) else strdup name);
        match name_dup with
        | None => mret (SEPOL_ENOMEM, h)
        | Some _ =>
           ft ← malloc;
           match ft with
           | None => mret (SEPOL_ENOMEM, h)
           | Some _ => '(rc, h) ← hashtab_insert h k d'; mret (if nz rc then SEPOL_ENOMEM else 0, h)
           end
        end) hp1 (λ r _, filled filename_ok r.2)) as Hnew.
      { wp_step. eapply (wp_mono _ _ (λ _ _, True)); [destruct alloc; [by wp_step|by eapply wp_mono; [apply strdup_any|]]|].
        intros [n|] hp2 _; [|by wp_step]. wp_step. apply wp_any_malloc. intros [y|] hp3; [|by wp_step].
        wp_step. eapply wp_mono; [by apply (insert_filled filename_ok)|]. intros [rc t] hp4 Ht'. by wp_step. }
      destruct found as [[|y ds]|]; [done| |done]. wp_step. by apply write_filled.
    + intros [rc h1] hp2 H1. wp_step; [by wp_step|]. wp_step. eapply wp_mono.
      { apply filetrans_set_ok; [done|done|]. unfold d'. rewrite length_app. simpl. lia. }
      intros [[rc2 h2] c2] hp3 H2. by wp_step.
Qed.

Lemma reads_compat s : filled filename_ok s.1 → reads (filename_trans_read_one_compat s) (λ s, filled filename_ok s.1).
Proof.
  destruct s as [h count]. cbn [fst]. intros Hh. unfold filename_trans_read_one_compat. rd. intros len Hl. rd_guard. rd.
  intros name _. rd. intros [[[stype ttype] tclass] otype] (Hs & Ht & Hc & Ho). rd_guard.
  eapply (reads_bind _ _ (λ r, filled filename_ok r.1.1.2)).
  { apply reads_lift. intros hp. apply filetrans_insert_ok; [done|apply Ht|apply Hc|done]. }
  intros [[[rc h'] c'] o] Hh'. rd_guard. by apply reads_ret.
Qed.

Lemma check_datum_safe d stypes otypes h :
  Forall ft_datum_ok d → wf stypes → wf otypes → wp (filename_trans_check_datum d stypes otypes) h (λ _ _, True).
Proof.
  intros Hd. revert stypes otypes h. induction Hd as [|x d [Hw Ho] _ IH]; intros stypes otypes h Hs Hot;
    cbn [filename_trans_check_datum]; [by wp_step|].
  wp_step; [by wp_step|]. wp_step. eapply wp_mono; [by apply set_bit_wf|]. intros [rc o'] h1 Ho'. simpl in Ho'.
  do 2 (wp_step; [by wp_step|]). wp_step. eapply wp_mono; [by apply union_wf|]. intros [rc2 s'] h2 Hs'. wp_step; [by wp_step|]. by apply IH.
Qed.

Lemma reads_datum s : Forall ft_datum_ok s.1 → reads (filename_trans_datum_read s) (λ s, Forall ft_datum_ok s.1).
Proof.
  destruct s as [d count]. cbn [fst]. intros Hd. unfold filename_trans_datum_read. rd_alloc. rd. intros stypes Hs. rd. intros otype Ho.
  apply reads_ret. cbn [fst]. apply Forall_app. split; [done|]. by apply Forall_singleton.
Qed.

Lemma reads_filename s : filled filename_ok s.1 → reads (filename_trans_read_one s) (λ s, filled filename_ok s.1).
Proof.
  destruct s as [h count]. cbn [fst]. intros Hh. unfold filename_trans_read_one. rd. intros len Hl. rd_guard. rd.
  intros name _. rd. intros [[ttype tclass] ndatum] (Ht & Hc & _). rd_guard.
  eapply (reads_bind _ _ (λ s, Forall ft_datum_ok s.1)); [apply reads_repeated; [constructor|]; intros s; apply reads_datum|].
  intros [first c'] Hd. cbn [fst] in Hd. eapply (reads_bind _ _ (λ _, True)).
  { apply reads_if; intros _; [|by apply reads_ret]. apply reads_lift. intros hp. apply check_datum_safe; [done|apply wf_init..]. }
  intros rc _. rd_guard. rd_alloc. eapply reads_bind; [apply (reads_insert filename_ok); [done|]|].
  - split_and!; [apply Ht|apply Hc|done].
  - intros h' Hh'. by apply reads_ret.
Qed.

Lemma reads_filename_trans p :
  filled filename_ok (filename_trans p) →
  reads (filename_trans_read p) (λ p', ∃ h c, p' = set_filename_trans p h c ∧ filled filename_ok h).
Proof.
  intros Hp. unfold filename_trans_read. rd. intros nel _. eapply (reads_bind _ _ (λ s, filled filename_ok s.1)).
  - apply reads_repeated; [done|]. intros s Hs. destruct (policyvers p <? _); [by apply reads_compat|by apply reads_filename].
  - intros [h c] Hh. apply reads_ret. by exists h, c.
Qed.

Lemma filename_ok_data k d : filename_ok k d → filename_data k d.
Proof. intros (? & ? & Hd). split_and!; [done..|]. eapply Forall_impl; [exact Hd|]. intros x [? [? _]]. done. Qed.

(** ** Object contexts *)

Section contexts.
Context (p : policydb) (Hp : symbols_ok p).

Lemma reads_context : reads (context_read_and_validate p) context_data.
Proof using Hp.
  unfold context_read_and_validate. rd. intros [[user role] type] (Hu & Hr & Ht).
  eapply (reads_bind _ _ range_wf).
  { apply reads_if; intros _; [auto with reads|]. apply reads_ret, range_init_wf. }
  intros range Hrg. cbn zeta. assert (context_data (Context user role type range)) as Hd.
  { apply range_wf_data in Hrg. split_and!; [apply Hu|apply Hr|apply Ht|apply Hrg..]. }
  destruct (is_valid_spec p (Context user role type range) Hp) as (b & Hb & _).
  { split_and!; [apply Hu|apply Hr|apply Ht|apply Hrg..]. }
  eapply reads_bind; [by apply (reads_get _ b (λ x, x = b))|]. intros ? ->. rd_guard. by apply reads_ret.
Qed.

Lemma context_init_data : context_data context_init.
Proof. split_and!; [done..|apply range_wf_data, range_init_wf]. Qed.

Lemma reads_one platform i key v sid :
  0 ≤ v → (platform = SEPOL_TARGET_SELINUX → i = OCON_PORT → ∃ proto low high, key = OPort proto low high) →
  reads (one_context p key v sid) (ocontext_data platform i).
Proof using Hp.
  intros Hv Hk. unfold one_context. eapply reads_bind; [apply reads_context|]. intros c Hc. apply reads_ret.
  split_and!; [done|apply context_init_data|done|done].
Qed.

Lemma reads_xen_one i : reads (ocontext_read_xen_one p i) (ocontext_data SEPOL_TARGET_XEN i).
Proof using Hp.
  assert (∀ key sid, reads (one_context p key 0 sid) (ocontext_data SEPOL_TARGET_XEN i)) as Hone by (intros; by apply reads_one).
  unfold ocontext_read_xen_one. rd_alloc.
  apply reads_if; intros _; [rd; intros sid _; rd_guard; apply Hone|].
  apply reads_if; intros _; [rd; intros pirq _; apply Hone|].
  apply reads_if; intros _; [rd; intros [low high] _; apply Hone|].
  apply reads_if; intros _.
  { eapply (reads_bind _ _ (λ _, True)); [|intros [low high] _; apply Hone].
    apply reads_if; intros _; [|by eapply reads_mono; [apply reads_entry2|]].
    eapply reads_bind; [by apply reads_entry|]. intros b _. by apply reads_ret. }
  apply reads_if; intros _; [rd; intros device _; apply Hone|].
  apply reads_if; intros _; [|apply reads_fail]. rd. intros len Hl. rd_guard. rd. intros name _. apply Hone.
Qed.

Lemma reads_selinux_one i : reads (ocontext_read_selinux_one p i) (ocontext_data SEPOL_TARGET_SELINUX i).
Proof using Hp.
  assert (∀ key v sid, 0 ≤ v → (i = OCON_PORT → ∃ proto low high, key = OPort proto low high) →
    reads (one_context p key v sid) (ocontext_data SEPOL_TARGET_SELINUX i)) as Hone by (intros; apply reads_one; auto).
  unfold ocontext_read_selinux_one. rd_alloc.
  apply reads_if; intros E0; [apply Z.eqb_eq in E0; rd; intros sid _; rd_guard; by apply Hone; [|rewrite E0]|].
  apply reads_if; intros E1.
  { rd. intros len Hl. rd_guard. rd. intros name _. eapply reads_bind; [apply reads_context|]. intros c0 H0.
    eapply reads_bind; [apply reads_context|]. intros c1 H1. apply reads_ret. split_and!; [done..|]. intros _ ->. done. }
  apply reads_if; intros E2.
  { apply Z.eqb_eq in E2. eapply reads_bind; [by apply reads_entry|]. intros buf _. cbn zeta. rd_guard. by apply Hone; [|rewrite E2]. }
  apply reads_if; intros E3.
  { apply Z.eqb_eq in E3. rd. intros [len port] [Hl _]. do 2 rd_guard. rd. intros name _. by apply Hone; [|rewrite E3]. }
  apply reads_if; intros E4; [rd; intros [[protocol low] high] _; apply Hone; [done|eauto]|]. apply Z.eqb_neq in E4.
  apply reads_if; intros E5; [rd; intros [addr mask] _; by apply Hone|].
  apply reads_if; intros E6; [rd; intros [behavior len] [Hb Hl]; rd_guard; rd; intros name _; apply Hone; [apply Hb|done]|].
  apply reads_if; intros E7; [|apply reads_fail]. eapply reads_bind; [by apply reads_entry|]. intros buf _. by apply Hone.
Qed.

(** The lists read so far, with room for [k] more. *)
Definition lists_ok (platform : Z) (k : nat) (s : list (list ocontext) * Z) : Prop :=
  length s.1 = 9%nat ∧ 0 ≤ s.2 ∧ s.2 + Z.of_nat k ≤ 9 ∧
  ∀ j l, s.1 !! j = Some l → Forall (ocontext_data platform (Z.of_nat j)) l.

Lemma reads_list platform one k s :
  (∀ i, reads (one i) (ocontext_data platform i)) → lists_ok platform (S k) s →
  reads (ocontext_read_list one s) (lists_ok platform k).
Proof.
  intros Hone. destruct s as [lists i]. intros (Hlen & Hi & Hk & Hl). cbn [fst snd] in *. unfold ocontext_read_list.
  rd. intros nel _. eapply (reads_bind _ _ (Forall (ocontext_data platform i))).
  { apply reads_repeated; [constructor|]. intros l Hc. eapply reads_bind; [apply Hone|]. intros c Hc'. apply reads_ret, Forall_app.
    split; [done|]. by apply Forall_singleton. }
  intros l Hc. eapply (reads_bind _ _ (λ x, x = <[Z.to_nat i := l]> lists)).
  { apply (reads_get _ (<[Z.to_nat i := l]> lists)); [|done]. unfold aset. rewrite (proj2 (Z.leb_le _ _)), (proj2 (Z.ltb_lt _ _)) by lia. done. }
  intros ? ->. apply reads_ret. split_and!; cbn [fst snd]; [by rewrite length_insert|lia|lia|].
  intros j l' [(<- & <- & _)|[_ Hj]]%list_lookup_insert_Some; [by rewrite Z2Nat.id by lia|by apply Hl].
Qed.

Definition ocontexts_ok (platform : Z) (lists : list (list ocontext)) : Prop :=
  Z.of_nat (length lists) = OCON_NUM ∧ ∀ j l, lists !! j = Some l → Forall (ocontext_data platform (Z.of_nat j)) l.

Lemma reads_ocontexts n :
  ocontexts p = replicate 9 [] → target_platform p ∈ [SEPOL_TARGET_SELINUX; SEPOL_TARGET_XEN] → 0 ≤ n ≤ 9 →
  reads (ocontext_read n p) (λ p', ∃ l, p' = set_ocontexts p l ∧ ocontexts_ok (target_platform p) l).
Proof using Hp.
  intros Ho Ht Hn. assert (∀ one platform, (∀ i, reads (one i) (ocontext_data platform i)) →
    reads ('(lists, _) <~ repeated (Z.to_nat n) (ocontext_read_list one) (ocontexts p, 0) ;; rret (set_ocontexts p lists))
      (λ p', ∃ l, p' = set_ocontexts p l ∧ ocontexts_ok platform l)) as Hgo.
  { intros one platform Hone. eapply reads_bind.
    - apply (reads_counted _ _ _ (lists_ok platform)); [|intros k s Hs; by apply reads_list]. rewrite Ho. split_and!; cbn [fst snd]; [done..|lia|].
      intros j l [-> _]%lookup_replicate. constructor.
    - intros [lists i] (Hlen & _ & _ & Hl). apply reads_ret. exists lists. split; [done|]. split; [by cbn [fst] in Hlen; rewrite Hlen|done]. }
  unfold ocontext_read. rewrite !elem_of_cons, elem_of_nil in Ht. destruct Ht as [E|[E|[]]]; rewrite E; cbn -[ocontext_read_selinux ocontext_read_xen].
  - apply Hgo, reads_selinux_one.
  - apply Hgo, reads_xen_one.
Qed.

(** ** File systems *)

Definition path_ok (o : ocontext) : Prop := is_Some (oc_name o) ∧ ocontext_data (target_platform p) (-1) o.

Lemma path_split_ok name sclass l :
  Forall path_ok l → ∃ r, path_split name sclass l = Some r ∧
    ∀ before after, r = Some (before, after) → Forall path_ok before ∧ Forall path_ok after.
Proof.
  induction 1 as [|c l Hc Hl IH]; cbn [path_split].
  { eexists. split; [done|]. by intros ? ? [= <- <-]. }
  pose proof Hc as [[n Hn] _]. rewrite Hn. cbn [mbind option_bind]. case_match; [by eexists|]. case_match.
  { eexists. split; [done|]. intros ? ? [= <- <-]. split; [constructor|by constructor]. }
  destruct IH as (r & -> & Hr). cbn [mbind option_bind]. eexists. split; [done|]. destruct r as [[b a]|]; [|done].
  intros ? ? [= <- <-]. destruct (Hr b a eq_refl). split; [by constructor|done].
Qed.

Lemma reads_genfs_context l : Forall path_ok l → reads (genfs_context_read p l) (Forall path_ok).
Proof using Hp.
  intros Hl. unfold genfs_context_read. rd_alloc. rd. intros len Hlen. rd_guard. rd. intros name _. rd. intros sclass Hs.
  eapply (reads_bind _ _ path_ok).
  { unfold one_context. eapply reads_bind; [apply reads_context|]. intros c Hc. apply reads_ret. split; [by eexists|].
    split_and!; [done|apply context_init_data|apply Hs|done]. }
  intros newc Hc. destruct (path_split_ok name sclass l Hl) as (r & Hr & Hsplit).
  eapply reads_bind; [by apply (reads_get _ r (λ x, x = r))|]. intros ? ->. destruct r as [[before after]|]; [|apply reads_fail].
  destruct (Hsplit before after eq_refl). apply reads_ret, Forall_app. split; [done|]. by constructor.
Qed.

Definition genfs_ok (g : genfs) : Prop := Forall path_ok (gf_head g).

Lemma genfs_split_ok fstype l before after :
  Forall genfs_ok l → genfs_split fstype l = Some (before, after) → Forall genfs_ok before ∧ Forall genfs_ok after.
Proof.
  intros Hl. revert before after. induction Hl as [|g l Hg Hl IH]; intros before after; cbn [genfs_split]; [by intros [= <- <-]|].
  case_match; [done|]. case_match; [intros [= <- <-]; split; [constructor|by constructor]|].
  destruct (genfs_split fstype l) as [[b a]|] eqn:E; [|done]. intros [= <- <-]. destruct (IH b a eq_refl). split; [by constructor|done].
Qed.

Lemma reads_genfs : Forall genfs_ok (p_genfs p) → reads (genfs_read p) (λ p', ∃ l, p' = set_genfs p l ∧ Forall genfs_ok l).
Proof using Hp.
  intros Hg. unfold genfs_read. rd. intros nel _. eapply reads_bind.
  - apply (reads_repeated _ _ _ (Forall genfs_ok) Hg). intros l Hl. unfold genfs_read_one. rd. intros len Hlen. rd_guard. rd_alloc. rd.
    intros fstype _. destruct (genfs_split fstype l) as [[before after]|] eqn:Es; [|apply reads_fail].
    apply genfs_split_ok in Es as [Hb Ha]; [|done]. rd. intros nel2 _.
    eapply reads_bind; [apply (reads_repeated _ _ _ (Forall path_ok)); [constructor|by apply reads_genfs_context]|].
    intros head Hh. apply reads_ret, Forall_app. split; [done|]. by constructor.
  - intros l Hl. apply reads_ret. by exists l.
Qed.

(** ** Range transitions *)

Lemma reads_ranges :
  0 ≤ process_class p → filled range_trans_data (range_tr p) →
  reads (range_read p) (λ p', ∃ h, p' = set_range_tr p h ∧ filled range_trans_data h).
Proof.
  intros Hc Hr. unfold range_read. rd. intros nel _. eapply reads_bind.
  - apply (reads_repeated _ _ _ _ Hr). intros h Hh. unfold range_read_one. rd_alloc. rd. intros [source target] [Hs Ht].
    do 2 rd_guard. eapply (reads_bind _ _ (λ c, 0 ≤ c)).
    { apply reads_if; intros _; [|by apply reads_ret]. rd. intros c [Hcl _]. rd_guard. by apply reads_ret. }
    intros class Hcl. rd_alloc. rd. intros r Hrg%range_wf_data. apply reads_insert; [done|]. split_and!; [apply Hs|apply Ht|done|apply Hrg..].
  - intros h Hh. apply reads_ret. by exists h.
Qed.
End contexts.
