(* ===== verification/ExpandFacts.v ===== *)
(** * The expansion of type and role sets

    [type_set_expand] and [role_set_expand] compute the sets their arguments
    denote. *)

From S2P Require Import Prelude Ebitmap EbitmapFacts EbitmapIter EbitmapIO EbitmapSpec Hashtab Avtab Mls Policydb MlsFacts Conditional Validate.
From S2P Require Import ValidateFacts PolicySetters ReadPolicy IndexPolicy.

(** Bits are 32-bit values. *)
Definition bits_ok (l : list Z) : Prop := Forall (λ i, 0 ≤ i < 2 ^ 32) l.

Lemma word_node ns s : word ns s ≠ 0 → ∃ n, n ∈ ns ∧ startbit n = s.
Proof.
  induction ns as [|n ns IH]; cbn [word]; [done|]. destruct (Z.eqb_spec (startbit n) s) as [<-|].
  - intros _. exists n. split; [left|done].
  - intros (m & ? & ?)%IH. exists m. split; [by right|done].
Qed.

(** A set bit is in front of the last word. *)
Lemma wf_bit_low e i : wf e → ebitmap_get_bit e i = true → 0 ≤ i < 2 ^ 32 - 64.
Proof.
  intros Hw Hi. pose proof (wf_bit_range e i Hw Hi) as Hr. rewrite (get_bit_word _ _ Hw) in Hi.
  assert (word (e_node e) (align i) ≠ 0) as Hz by (intros Hz; by rewrite Hz, Z.bits_0 in Hi).
  apply word_node in Hz as (n & Hn & Hs). destruct Hw as [Hok _]. apply nodes_ok_forall in Hok. rewrite Forall_forall in Hok.
  destruct (Hok n Hn) as (_ & Hmod & Hlt & _). pose proof (align_le i).
  assert (startbit n ≠ 2 ^ 32 - 128 + 64) by (change (2 ^ 32) with (64 * 67108864) in *; intros E; lia).
  pose proof (Z.div_mod (startbit n) 64). lia.
Qed.

(** A program that adds the set [S] to a bitmap; it fails when memory runs out, for
    a member beyond the last word of a bitmap, or for [F]. *)
Definition adds_set (h : heap) (e : ebitmap) (S : Z → Prop) (F : Prop) (r : Z * ebitmap) (h' : heap) : Prop :=
  heap_le h h' ∧ wf r.2 ∧
  ((r.1 = 0 ∧ ∀ j, 0 ≤ j < 2 ^ 32 → ebitmap_get_bit r.2 j = true ↔ ebitmap_get_bit e j = true ∨ S j) ∨
   (r.1 ≠ 0 ∧ (hp_oom h ≠ [] ∨ (∃ j, S j ∧ 2 ^ 32 - 64 ≤ j) ∨ F))).

Lemma adds_set_bit e i h F : wf e → 0 ≤ i < 2 ^ 32 → wp (ebitmap_set_bit e i true) h (adds_set h e (eq i) F).
Proof.
  intros He Hi. eapply wp_mono; [by apply set_bit_spec|]. intros r h' (Hle & Hw & Hr). split_and!; [done..|].
  destruct Hr as [(H0 & _ & Hb)|[[-> Hbig]|[-> [_ Ho]]]]; [left; split; [done|]|right; split; [done|]; right; left; by eauto|right; split; [done|by left]].
  intros j Hj. rewrite Hb by done. destruct (Z.eqb_spec j i); naive_solver.
Qed.

Lemma adds_union e e1 h F : wf e → wf e1 → wp (ebitmap_union e e1) h (adds_set h e (λ j, ebitmap_get_bit e1 j = true) F).
Proof.
  intros He H1. eapply wp_mono; [by apply union_spec|]. intros r h' (Hle & Hw & Hr). split_and!; [done..|].
  destruct Hr as [(H0 & Hb)|[-> Ho]]; [left; split; [done|]|right; split; [done|by left]]. intros j Hj. rewrite Hb by done. apply orb_true_iff.
Qed.

(** [if (part) return -1; rest]. *)
Lemma adds_then h e e1 rc h1 (S S' T : Z → Prop) (F F' G : Prop) (m : ebitmap → M (Z * ebitmap)) :
  adds_set h e S F (rc, e1) h1 → (rc = 0 → wf e1 → wp (m e1) h1 (adds_set h1 e1 S' F')) →
  (∀ j, T j ↔ S j ∨ S' j) → (F → G) → (F' → G) →
  wp (if nz rc then mret (-1, e1) else m e1) h1 (adds_set h e T G).
Proof.
  intros (Hle & Hw & Hr) Hm HT HF HF'. cbn [fst snd] in *. unfold nz. destruct (Z.eqb_spec rc 0) as [->|Hne]; cbn [negb].
  - destruct Hr as [[_ Hb]|[? _]]; [|done]. eapply wp_mono; [by apply Hm|]. intros r h2 (Hle2 & Hw2 & Hr2).
    split; [by etrans|]. split; [done|]. destruct Hr2 as [[H0 Hb2]|[H0 Hf]]; [left|right]; (split; [done|]).
    + intros j Hj. rewrite (Hb2 j Hj), (Hb j Hj), HT. tauto.
    + destruct Hf as [Ho|[(j & Hs & Hj)|Hf]]; [left; by eapply heap_le_oom|right; left; exists j; rewrite HT; tauto|tauto].
  - wp_step. split_and!; [done..|]. right. split; [done|]. destruct Hr as [[? _]|[_ Hf]]; [done|].
    destruct Hf as [Ho|[(j & Hs & Hj)|Hf]]; [by left|right; left; exists j; rewrite HT; tauto|tauto].
Qed.

Lemma adds_nothing h e (S : Z → Prop) F : wf e → (∀ j, ¬ S j) → adds_set h e S F (0, e) h.
Proof. intros He HS. split_and!; [done..|]. left. split; [done|]. intros j _. simpl. specialize (HS j). tauto. Qed.

Section expand.
Context (p : policydb).

Definition struct_at (i : Z) : option type_datum :=
  match type_val_to_struct p !! Z.to_nat i with Some o => o | None => None end.

(** The types that the element [i] of a set stands for. *)
Definition stands_for (expand : bool) (i j : Z) : Prop :=
  match struct_at i with
  | Some d =>
     if (td_flavor d =? TYPE_ATTRIB) && (expand || nz (Z.land (td_flags d) TYPE_FLAGS_EXPAND_ATTR_TRUE))
     then ebitmap_get_bit (td_types d) j = true else i = j
  | None => i = j
  end.

Record types_there : Prop := {
  tt_length : Z.of_nat (length (type_val_to_struct p)) = s_nprim (p_types p);
  tt_wf : Forall (λ o, ∀ d, o = Some d → wf (td_types d)) (type_val_to_struct p)
}.
Context (Ht : types_there).

Lemma struct_get i :
  0 ≤ i < s_nprim (p_types p) →
  aget (type_val_to_struct p) i = Some (struct_at i) ∧ ∀ d, struct_at i = Some d → wf (td_types d).
Proof using Ht.
  intros Hi. destruct Ht as [Hl Hw]. unfold aget, struct_at. rewrite (proj2 (Z.ltb_ge _ _)) by lia.
  destruct (lookup_lt_is_Some_2 (type_val_to_struct p) (Z.to_nat i)) as [o Ho]; [lia|]. rewrite Ho. split; [done|].
  by apply (Forall_lookup_1 _ _ _ _ Hw Ho).
Qed.

Definition known_type (i : Z) : Prop := i < s_nprim (p_types p) ∧ is_Some (struct_at i).

Lemma expand_types_spec expand bits types h :
  bits_ok bits → wf types →
  wp (expand_types p expand bits types) h
    (adds_set h types (λ j, ∃ i, i ∈ bits ∧ stands_for expand i j) (∃ i, i ∈ bits ∧ ¬ known_type i)).
Proof using Ht.
  intros Hb. revert types h. induction Hb as [|i bits Hi _ IH]; intros types h Hw; cbn [expand_types].
  { wp_step. apply adds_nothing; [done|]. intros j (? & ?%elem_of_nil & _). done. }
  assert (¬ known_type i → wp (mret (-1, types)) h
    (adds_set h types (λ j, ∃ k, k ∈ i :: bits ∧ stands_for expand k j) (∃ k, k ∈ i :: bits ∧ ¬ known_type k))) as Hbad.
  { intros Hk. wp_step. split_and!; [done..|]. right. split; [done|]. right. right. exists i. split; [left|done]. }
  destruct (i >=? s_nprim (p_types p)) eqn:Ei; rewrite Z.geb_leb in Ei; [apply Hbad; intros [? _]; apply Z.leb_le in Ei; lia|].
  apply Z.leb_gt in Ei. destruct (struct_get i) as [Hg Hwd]; [lia|]. rewrite Hg. do 2 wp_step.
  destruct (struct_at i) as [d|] eqn:Ed; [|apply Hbad; intros [_ [? ?]]; congruence].
  wp_step. eapply wp_mono; [instantiate (1 := adds_set h types (stands_for expand i) False)|].
  - unfold stands_for. rewrite Ed. destruct ((td_flavor d =? TYPE_ATTRIB) && _); [by apply adds_union; [|apply Hwd]|by apply adds_set_bit].
  - intros [rc e1] h1 Ha. eapply adds_then; [exact Ha|intros _ Hw1; by apply IH| |done|].
    + intros j. setoid_rewrite elem_of_cons. naive_solver.
    + intros (k & Hk & Hn). exists k. split; [by right|done].
Qed.

Lemma expand_negset_spec bits e h :
  Forall (λ i, 0 ≤ i < s_nprim (p_types p)) bits → bits_ok bits → wf e →
  wp (expand_negset p bits e) h (adds_set h e (λ j, ∃ i, i ∈ bits ∧ stands_for true i j) False).
Proof using Ht.
  intros Hr. revert e h. induction Hr as [|i bits Hi _ IH]; intros e h Hb Hw; cbn [expand_negset].
  { wp_step. apply adds_nothing; [done|]. intros j (? & ?%elem_of_nil & _). done. }
  apply Forall_cons in Hb as [Hi32 Hb]. destruct (struct_get i Hi) as [Hg Hwd]. rewrite Hg. do 3 wp_step.
  eapply wp_mono; [instantiate (1 := adds_set h e (stands_for true i) False)|].
  - unfold stands_for. destruct (struct_at i) as [d|]; [|by apply adds_set_bit]. cbn [orb]. rewrite andb_true_r.
    destruct (td_flavor d =? TYPE_ATTRIB); [by apply adds_union; [|apply Hwd]|by apply adds_set_bit].
  - intros [rc e1] h1 Ha. eapply adds_then; [exact Ha|intros _ Hw1; by apply IH| |done|done].
    intros j. setoid_rewrite elem_of_cons. naive_solver.
Qed.

Lemma expand_star_spec neg l t h :
  Forall (λ i, 0 ≤ i < s_nprim (p_types p)) l → bits_ok l → wf t →
  wp (expand_star p neg l t) h
    (adds_set h t (λ j, j ∈ l ∧ ebitmap_get_bit neg j = false ∧ is_attrib (struct_at j) = false) False).
Proof using Ht.
  intros Hr. revert t h. induction Hr as [|i l Hi _ IH]; intros t h Hb Hw; cbn [expand_star].
  { wp_step. apply adds_nothing; [done|]. by intros j [?%elem_of_nil _]. }
  apply Forall_cons in Hb as [Hi32 Hb].
  assert (∀ h, ¬ (ebitmap_get_bit neg i = false ∧ is_attrib (struct_at i) = false) →
    wp (expand_star p neg l t) h (adds_set h t (λ j, j ∈ i :: l ∧ ebitmap_get_bit neg j = false ∧ is_attrib (struct_at j) = false) False)) as Hskip.
  { intros h0 Hn. eapply wp_mono; [by apply IH|]. intros r h' (Hle & Hw' & Hc). split_and!; [done..|].
    destruct Hc as [[H0 Hbits]|[H0 Hf]]; [left|right]; (split; [done|]).
    - intros j Hj. rewrite (Hbits j Hj), elem_of_cons. split; [tauto|]. intros [?|[[->|?] ?]]; tauto.
    - destruct Hf as [?|[(j & (? & ?) & ?)|[]]]; [by left|]. right. left. exists j. rewrite elem_of_cons. tauto. }
  destruct (ebitmap_get_bit neg i) eqn:En; [apply Hskip; by intros []|].
  destruct (struct_get i Hi) as [Hg _]. rewrite Hg. do 2 wp_step. destruct (is_attrib (struct_at i)) eqn:Ea; [apply Hskip; by intros []|].
  wp_step. eapply wp_mono; [by apply adds_set_bit|]. intros [rc e1] h1 Ha.
  eapply adds_then; [exact Ha|intros _ Hw1; by apply IH| |done|done]. intros j. rewrite elem_of_cons. naive_solver.
Qed.

Lemma expand_subtract_spec neg bits t h :
  bits_ok bits → wf t →
  wp (expand_subtract neg bits t) h (adds_set h t (λ j, j ∈ bits ∧ ebitmap_get_bit neg j = false) False).
Proof.
  intros Hb. revert t h. induction Hb as [|i bits Hi _ IH]; intros t h Hw; cbn [expand_subtract].
  { wp_step. apply adds_nothing; [done|]. by intros j [?%elem_of_nil _]. }
  destruct (ebitmap_get_bit neg i) eqn:En.
  - eapply wp_mono; [by apply IH|]. intros r h' (Hle & Hw' & Hc). split_and!; [done..|].
    destruct Hc as [[H0 Hbits]|[H0 Hf]]; [left|right]; (split; [done|]).
    + intros j Hj. rewrite (Hbits j Hj), elem_of_cons. split; [tauto|]. intros [?|[[->|?] ?]]; [tauto|congruence|tauto].
    + destruct Hf as [?|[(j & (? & ?) & ?)|[]]]; [by left|]. right. left. exists j. rewrite elem_of_cons. tauto.
  - wp_step. eapply wp_mono; [by apply adds_set_bit|]. intros [rc e1] h1 Ha.
    eapply adds_then; [exact Ha|intros _ Hw1; by apply IH| |done|done]. intros j. rewrite elem_of_cons. naive_solver.
Qed.

(** A program that flips the bits of [l] in [S]. *)
Definition flips (h : heap) (t : ebitmap) (l : list Z) (S : Z → bool) (r : Z * ebitmap) (h' : heap) : Prop :=
  heap_le h h' ∧ wf r.2 ∧
  ((r.1 = 0 ∧ ∀ j, 0 ≤ j < 2 ^ 32 → ebitmap_get_bit r.2 j = xorb (ebitmap_get_bit t j) (bool_decide (j ∈ l) && S j)) ∨
   (r.1 ≠ 0 ∧ (hp_oom h ≠ [] ∨ ∃ j, j ∈ l ∧ 2 ^ 32 - 64 ≤ j))).

Lemma flips_nothing h t S : wf t → flips h t [] S (0, t) h.
Proof. intros Hw. split_and!; [done..|]. left. split; [done|]. intros j _. simpl. by rewrite xorb_false_r. Qed.

Lemma flips_skip h t i l S r h' : S i = false → flips h t l S r h' → flips h t (i :: l) S r h'.
Proof.
  intros Hi (Hle & Hw & Hr). split_and!; [done..|]. destruct Hr as [[H0 Hb]|[H0 Hf]]; [left|right]; (split; [done|]).
  - intros j Hj. rewrite (Hb j Hj). f_equal. destruct (decide (j = i)) as [->|Hne]; [by rewrite Hi, !andb_false_r|].
    f_equal. apply bool_decide_ext. rewrite elem_of_cons. tauto.
  - destruct Hf as [?|(j & ? & ?)]; [by left|right]. exists j. split; [by right|done].
Qed.

Lemma flips_cons h t i l S (m : ebitmap → M (Z * ebitmap)) :
  wf t → 0 ≤ i < 2 ^ 32 → S i = true → i ∉ l →
  (∀ t1 h1, wf t1 → (∀ j, 0 ≤ j < 2 ^ 32 → ebitmap_get_bit t1 j = xorb (ebitmap_get_bit t j) (j =? i)) → wp (m t1) h1 (flips h1 t1 l S)) →
  wp ('(rc, t) ← ebitmap_set_bit t i (negb (ebitmap_get_bit t i)); if nz rc then mret (-1, t) else m t) h (flips h t (i :: l) S).
Proof.
  intros Hw Hi HS Hl Hm. wp_step. eapply wp_mono; [by apply set_bit_spec|]. intros [rc t1] h1 (Hle & Hw1 & Hr). cbn [fst snd] in *.
  destruct Hr as [(-> & _ & Hb)|[[[= -> ->] Hbig]|([= -> ->] & _ & Ho)]].
  - cbn [nz Z.eqb negb]. eapply wp_mono; [apply Hm; [done|]|].
    + intros j Hj. rewrite Hb by done. destruct (Z.eqb_spec j i) as [->|]; [by destruct (ebitmap_get_bit t i)|by rewrite xorb_false_r].
    + intros r h2 (Hle2 & Hw2 & Hc). split; [by etrans|]. split; [done|].
      destruct Hc as [[H0 Hb2]|[H0 Hf]]; [left|right]; (split; [done|]).
      * intros j Hj. rewrite (Hb2 j Hj), Hb by done. destruct (Z.eqb_spec j i) as [->|Hne].
        -- rewrite (bool_decide_eq_false_2 (i ∈ l)), (bool_decide_eq_true_2 (i ∈ i :: l)), HS by (done || left).
           by destruct (ebitmap_get_bit t i).
        -- f_equal. f_equal. apply bool_decide_ext. rewrite elem_of_cons. tauto.
      * destruct Hf as [?|(j & ? & ?)]; [left; by eapply heap_le_oom|right]. exists j. split; [by right|done].
  - change (nz (- EINVAL)) with true. cbn iota. wp_step. split_and!; [done..|]. right. split; [done|]. right. exists i. split; [left|done].
  - change (nz (- ENOMEM)) with true. cbn iota. wp_step. split_and!; [done..|]. right. split; [done|]. by left.
Qed.

Lemma expand_comp_spec l t h :
  Forall (λ i, 0 ≤ i < s_nprim (p_types p)) l → bits_ok l → NoDup l → wf t →
  (∀ i, i ∈ l → is_attrib (struct_at i) = true → ebitmap_get_bit t i = false) →
  wp (expand_comp p l t) h (flips h t l (λ j, negb (is_attrib (struct_at j)))).
Proof using Ht.
  intros Hr. revert t h. induction Hr as [|i l Hi _ IH]; intros t h Hb Hnd Hw Ha; cbn [expand_comp]; [wp_step; by apply flips_nothing|].
  apply Forall_cons in Hb as [Hi32 Hb]. apply NoDup_cons in Hnd as [Hni Hnd].
  destruct (struct_get i Hi) as [Hg _]. rewrite Hg. do 2 wp_step. destruct (is_attrib (struct_at i)) eqn:Ea.
  - rewrite (Ha i); [|left|done]. eapply wp_mono; [apply IH; [done..|]; intros k Hk; apply Ha; by right|].
    intros r h' Hf. apply flips_skip; [by rewrite Ea|done].
  - apply flips_cons; [done|done|by rewrite Ea|done|]. intros t1 h1 Hw1 Hb1. apply IH; [done..|]. intros k Hk Hak.
    assert (0 ≤ k < 2 ^ 32) as Hk32 by (unfold bits_ok in Hb; rewrite Forall_forall in Hb; by apply Hb).
    rewrite (Hb1 k Hk32), (Ha k) by (done || by right). destruct (Z.eqb_spec k i); [by subst|done].
Qed.

(** ** The set a type set denotes *)

Section set.
Context (set : type_set) (always : bool).

Let expand : bool := always || negb (ebitmap_is_empty (ts_negset set)) || nz (ts_flags set).

Definition included (j : Z) : Prop := ∃ i, ebitmap_get_bit (ts_types set) i = true ∧ stands_for expand i j.
Definition excluded (j : Z) : Prop := ∃ i, ebitmap_get_bit (ts_negset set) i = true ∧ stands_for true i j.
Definition a_type (j : Z) : Prop := 0 ≤ j < s_nprim (p_types p) ∧ is_attrib (struct_at j) = false.

Definition denotes (j : Z) : Prop :=
  if nz (Z.land (ts_flags set) TYPE_STAR) then a_type j ∧ ¬ excluded j
  else if nz (Z.land (ts_flags set) TYPE_COMP)
       then a_type j ∧ ¬ (included j ∧ ¬ excluded j) ∨ ¬ a_type j ∧ included j ∧ ¬ excluded j
       else included j ∧ ¬ excluded j.

(** What [type_set_expand] relies on: the negated elements are types of the policy,
    and a complement is not of a set with attributes left in it. *)
Record expandable : Prop := {
  ex_types : wf (ts_types set);
  ex_negset : wf (ts_negset set);
  ex_range i : ebitmap_get_bit (ts_negset set) i = true → i < s_nprim (p_types p);
  ex_comp j : nz (Z.land (ts_flags set) TYPE_COMP) = true → included j → 0 ≤ j < s_nprim (p_types p) → is_attrib (struct_at j) = false;
  ex_count : 0 ≤ s_nprim (p_types p) < 2 ^ 32
}.

(** The set is of known types, and none is beyond the bits of a bitmap. *)
Definition fits : Prop :=
  s_nprim (p_types p) ≤ 2 ^ 32 - 64 ∧ (∀ i, ebitmap_get_bit (ts_types set) i = true → known_type i).

Lemma bits_of_set e bits : wf e → (∀ i, i ∈ bits ↔ ebitmap_get_bit e i = true) → bits_ok bits.
Proof. intros He Hb. apply Forall_forall. intros i Hi%Hb. by apply (wf_bit_range e). Qed.

Lemma not_true b : b = false ↔ ¬ b = true.
Proof. by destruct b. Qed.

(** The outcome: the set, or -1 when it does not fit or memory ran out. *)
Definition expanded (h : heap) (r : Z * ebitmap) : Prop :=
  wf r.2 ∧ ((r.1 = 0 ∧ ∀ j, 0 ≤ j < 2 ^ 32 → ebitmap_get_bit r.2 j = true ↔ denotes j) ∨ (r.1 ≠ 0 ∧ (hp_oom h ≠ [] ∨ ¬ fits))).

Lemma init_bit j : ebitmap_get_bit ebitmap_init j = true ↔ False.
Proof. unfold ebitmap_get_bit. simpl. by case_match. Qed.

(** The types added to an empty bitmap. *)
Lemma adds_init h S F r h' :
  adds_set h ebitmap_init S F r h' →
  heap_le h h' ∧ wf r.2 ∧
  ((r.1 = 0 ∧ ∀ j, 0 ≤ j < 2 ^ 32 → ebitmap_get_bit r.2 j = true ↔ S j) ∨
   (r.1 ≠ 0 ∧ (hp_oom h ≠ [] ∨ (∃ j, S j ∧ 2 ^ 32 - 64 ≤ j) ∨ F))).
Proof.
  intros (Hle & Hw & Hr). split_and!; [done..|]. destruct Hr as [[H0 Hb]|?]; [left|by right]. split; [done|]. intros j Hj.
  rewrite (Hb j Hj), init_bit. tauto.
Qed.

(** An element stands for bits of bitmaps. *)
Lemma stands_low e b i j :
  wf e → ebitmap_get_bit e i = true → 0 ≤ i < s_nprim (p_types p) → stands_for b i j → 0 ≤ j < 2 ^ 32 - 64.
Proof using Ht.
  intros He Hi Hr. destruct (struct_get i Hr) as [_ Hwd]. unfold stands_for. destruct (struct_at i) as [d|].
  - destruct (_ && _); [apply wf_bit_low; by apply Hwd|]. intros <-. by apply (wf_bit_low e).
  - intros <-. by apply (wf_bit_low e).
Qed.

Lemma seqZ_bits n : 0 ≤ n < 2 ^ 32 → bits_ok (seqZ 0 n) ∧ Forall (λ i, 0 ≤ i < n) (seqZ 0 n).
Proof. intros Hn. split; apply Forall_forall; intros i Hi%elem_of_seqZ; lia. Qed.

(** The part behind the two loops that resolve attributes. *)
Lemma expand_finish_spec types neg h :
  expandable → wf types → wf neg → (∀ j, 0 ≤ j < 2 ^ 32 → ebitmap_get_bit types j = true ↔ included j) →
  (∀ j, 0 ≤ j < 2 ^ 32 → ebitmap_get_bit neg j = true ↔ excluded j) →
  wp (if nz (Z.land (ts_flags set) TYPE_STAR) then expand_star p neg (seqZ 0 (s_nprim (p_types p))) ebitmap_init
      else
        bits ← get (ebitmap_for_each_positive_bit types);
        '(rc, t) ← expand_subtract neg bits ebitmap_init;
        if nz rc then mret (-1, t)
        else if nz (Z.land (ts_flags set) TYPE_COMP) then expand_comp p (seqZ 0 (s_nprim (p_types p))) t
        else mret (0, t)) h (λ r _, expanded h r).
Proof using Ht.
  intros [_ _ _ Hcomp Hcount] Hwt Hwn Hin Hex. destruct (seqZ_bits _ Hcount) as [Hsq Hsr]. unfold expanded, denotes.
  destruct (nz (Z.land (ts_flags set) TYPE_STAR)).
  { eapply wp_mono; [apply expand_star_spec; [done|done|apply wf_init]|]. intros r h' (Hle & Hw & Hr)%adds_init. split; [done|].
    destruct Hr as [[H0 Hb]|[H0 Hf]]; [left|right]; (split; [done|]).
    - intros j Hj. rewrite (Hb j Hj), elem_of_seqZ, not_true, (Hex j Hj). unfold a_type. rewrite Z.add_0_l. tauto.
    - destruct Hf as [?|[(j & (Hj & _) & Hbig)|[]]]; [by left|right]. apply elem_of_seqZ in Hj. intros [? _]. lia. }
  destruct (positive_bits_spec _ Hwt) as (bits & -> & _ & Hbits). do 3 wp_step.
  eapply wp_mono; [apply expand_subtract_spec; [by apply (bits_of_set types)|apply wf_init]|].
  intros [rc t] h1 (Hle & Hw & Hr)%adds_init. cbn [fst snd] in *. unfold nz at 1. destruct (Z.eqb_spec rc 0) as [->|Hne]; cbn [negb].
  2:{ wp_step. split; [done|]. right. split; [done|]. destruct Hr as [[? _]|[_ Hf]]; [done|].
      destruct Hf as [?|[(j & (Hj%Hbits & _) & Hbig)|[]]]; [by left|]. apply (wf_bit_low _ _ Hwt) in Hj. lia. }
  destruct Hr as [[_ Hb]|[? _]]; [|done].
  assert (∀ j, 0 ≤ j < 2 ^ 32 → ebitmap_get_bit t j = true ↔ included j ∧ ¬ excluded j) as Ht'.
  { intros j Hj. by rewrite (Hb j Hj), Hbits, not_true, (Hin j Hj), (Hex j Hj). }
  destruct (nz (Z.land (ts_flags set) TYPE_COMP)) eqn:Ec; [|wp_step; split; [done|]; by left].
  eapply wp_mono; [apply expand_comp_spec; [done|done|apply NoDup_seqZ|done|]|].
  - intros i Hi%elem_of_seqZ Ha. apply not_true. rewrite (Ht' i) by lia. intros [Hi' _]. rewrite (Hcomp i) in Ha; [done|done|done|lia].
  - intros r h2 (Hle2 & Hw2 & Hr2). split; [done|]. destruct Hr2 as [[H0 Hb2]|[H0 Hf]]; [left|right]; (split; [done|]).
    + intros j Hj. rewrite (Hb2 j Hj). specialize (Ht' j Hj). unfold a_type.
      case_bool_decide as Hd; rewrite elem_of_seqZ in Hd; destruct (ebitmap_get_bit t j), (is_attrib (struct_at j)); simpl; intuition (done || lia).
    + destruct Hf as [?|(j & Hj%elem_of_seqZ & Hbig)]; [left; by eapply heap_le_oom|right]. intros [? _]. lia.
Qed.

Lemma expand_set_spec h : expandable → wp (type_set_expand set p always) h (λ r _, expanded h r).
Proof using Ht.
  intros [Hwt Hwn Hrange Hcomp Hcount]. unfold type_set_expand. cbn zeta. fold expand.
  destruct (positive_bits_spec _ Hwt) as (bits & -> & _ & Hbits). do 3 wp_step.
  eapply wp_mono; [apply expand_types_spec; [by apply (bits_of_set (ts_types set))|apply wf_init]|].
  intros [rc types] h1 (Hle1 & Hw1 & Hr1)%adds_init. cbn [fst snd] in *.
  unfold nz at 1. destruct (Z.eqb_spec rc 0) as [->|Hne]; cbn [negb].
  2:{ wp_step. split; [apply wf_init|]. right. split; [done|]. destruct Hr1 as [[? _]|[_ Hf]]; [done|].
      destruct Hf as [?|[(j & (i & Hi & Hs) & Hj)|(i & Hi & Hk)]]; [by left|right..].
      - intros [_ Hall]. apply Hbits in Hi. destruct (Hall i Hi) as [Hlt _]. apply (stands_low _ _ _ _ Hwt Hi) in Hs; [lia|].
        apply (wf_bit_low _ _ Hwt) in Hi. lia.
      - intros [_ Hall]. by apply Hk, Hall, Hbits. }
  destruct Hr1 as [[_ Hinc]|[? _]]; [|done].
  assert (∀ j, 0 ≤ j < 2 ^ 32 → ebitmap_get_bit types j = true ↔ included j) as Hin.
  { intros j Hj. rewrite (Hinc j Hj). unfold included. by setoid_rewrite Hbits. }
  clear Hinc. destruct (positive_bits_spec _ Hwn) as (nbits & -> & _ & Hnbits). do 3 wp_step.
  assert (Forall (λ i, 0 ≤ i < s_nprim (p_types p)) nbits) as Hnr.
  { apply Forall_forall. intros i Hi%Hnbits. pose proof (wf_bit_low _ _ Hwn Hi). specialize (Hrange i Hi). lia. }
  eapply wp_mono; [apply expand_negset_spec; [done|by apply (bits_of_set (ts_negset set))|apply wf_init]|].
  intros [rc neg] h2 (Hle2 & Hw2 & Hr2)%adds_init. cbn [fst snd] in *.
  unfold nz at 1. destruct (Z.eqb_spec rc 0) as [->|Hne]; cbn [negb].
  2:{ wp_step. split; [apply wf_init|]. right. split; [done|]. destruct Hr2 as [[? _]|[_ Hf]]; [done|].
      destruct Hf as [?|[(j & (i & Hi & Hs) & Hj)|[]]]; [left; by eapply heap_le_oom|]. pose proof Hi as Hi'. apply Hnbits in Hi'.
      rewrite Forall_forall in Hnr. apply (stands_low _ _ _ _ Hwn Hi') in Hs; [lia|by apply Hnr]. }
  destruct Hr2 as [[_ Hexc]|[? _]]; [|done].
  assert (∀ j, 0 ≤ j < 2 ^ 32 → ebitmap_get_bit neg j = true ↔ excluded j) as Hex.
  { intros j Hj. rewrite (Hexc j Hj). unfold excluded. by setoid_rewrite Hnbits. }
  eapply wp_mono; [by apply expand_finish_spec|]. intros r h3 [Hw Hr]. split; [done|]. destruct Hr as [?|[H0 Hf]]; [by left|right].
  split; [done|]. destruct Hf as [Ho|?]; [left|by right]. by do 2 (eapply heap_le_oom; [done|]).
Qed.

End set.
End expand.

(** ** Role sets *)

Lemma set_all_spec l r h : bits_ok l → wf r → wp (set_all l r) h (adds_set h r (λ j, j ∈ l) False).
Proof.
  intros Hl. revert r h. induction Hl as [|i l Hi _ IH]; intros r h Hw; cbn [set_all].
  { wp_step. apply adds_nothing; [done|]. by intros j ?%elem_of_nil. }
  wp_step. eapply wp_mono; [by apply adds_set_bit|]. intros [rc e1] h1 Ha.
  eapply adds_then; [exact Ha|intros _ Hw1; by apply IH| |done|done]. intros j. rewrite elem_of_cons. naive_solver.
Qed.

Lemma flip_all_spec l r h : bits_ok l → NoDup l → wf r → wp (flip_all l r) h (flips h r l (λ _, true)).
Proof.
  intros Hl. revert r h. induction Hl as [|i l Hi _ IH]; intros r h Hnd Hw; cbn [flip_all]; [wp_step; by apply flips_nothing|].
  apply NoDup_cons in Hnd as [Hni Hnd]. apply flips_cons; [done..|]. intros r1 h1 Hw1 _. by apply IH.
Qed.

(** The roles a role set denotes in a policy with [n] roles. *)
Definition role_denotes (n : Z) (roles : ebitmap) (flags j : Z) : Prop :=
  if nz (Z.land flags ROLE_STAR) then 0 ≤ j < n
  else if nz (Z.land flags ROLE_COMP)
       then 0 ≤ j < n ∧ ebitmap_get_bit roles j = false ∨ n ≤ j ∧ ebitmap_get_bit roles j = true
       else ebitmap_get_bit roles j = true.

Lemma role_set_spec p roles flags h :
  wf roles → 0 ≤ s_nprim (p_roles p) < 2 ^ 32 →
  wp (role_set_expand roles flags p) h (λ r _, wf r.2 ∧
    ((r.1 = 0 ∧ ∀ j, 0 ≤ j < 2 ^ 32 → ebitmap_get_bit r.2 j = true ↔ role_denotes (s_nprim (p_roles p)) roles flags j) ∨
     (r.1 ≠ 0 ∧ (hp_oom h ≠ [] ∨ 2 ^ 32 - 64 < s_nprim (p_roles p))))).
Proof.
  intros Hw Hn. destruct (seqZ_bits _ Hn) as [Hsq _]. unfold role_set_expand, role_denotes.
  destruct (nz (Z.land flags ROLE_STAR)).
  { eapply wp_mono; [apply set_all_spec; [done|apply wf_init]|]. intros r h' (_ & Hwr & Hr)%adds_init. split; [done|].
    destruct Hr as [[H0 Hb]|[H0 Hf]]; [left|right]; (split; [done|]).
    - intros j Hj. rewrite (Hb j Hj), elem_of_seqZ. lia.
    - destruct Hf as [?|[(j & Hj%elem_of_seqZ & ?)|[]]]; [by left|right; lia]. }
  wp_step. eapply wp_mono; [apply cpy_spec|]. intros ? h1 [Hle [->|[-> Ho]]]; cbn [nz Z.eqb negb].
  2:{ change (nz (- ENOMEM)) with true. cbn iota. wp_step. split; [apply wf_init|]. right. split; [done|]. by left. }
  destruct (positive_bits_spec _ Hw) as (bits & -> & _ & Hbits). do 3 wp_step.
  eapply wp_mono; [apply set_all_spec; [by apply (bits_of_set roles)|apply wf_init]|].
  intros [rc r] h2 (Hle2 & Hwr & Hr)%adds_init. cbn [fst snd] in *. unfold nz at 1. destruct (Z.eqb_spec rc 0) as [->|Hne]; cbn [negb].
  2:{ wp_step. split; [done|]. right. split; [done|]. destruct Hr as [[? _]|[_ Hf]]; [done|].
      destruct Hf as [?|[(j & Hj%Hbits & Hbig)|[]]]; [left; by eapply heap_le_oom|]. apply (wf_bit_low _ _ Hw) in Hj. lia. }
  destruct Hr as [[_ Hb]|[? _]]; [|done]. setoid_rewrite Hbits in Hb.
  destruct (nz (Z.land flags ROLE_COMP)); [|wp_step; split; [done|]; by left].
  eapply wp_mono; [apply flip_all_spec; [done|apply NoDup_seqZ|done]|].
  intros r' h3 (_ & Hw' & Hr'). split; [done|]. destruct Hr' as [[H0 Hb']|[H0 Hf]]; [left|right]; (split; [done|]).
  - intros j Hj. rewrite (Hb' j Hj), andb_true_r. specialize (Hb j Hj).
    case_bool_decide as Hd; rewrite elem_of_seqZ in Hd; destruct (ebitmap_get_bit r j), (ebitmap_get_bit roles j); simpl; intuition (done || lia).
  - destruct Hf as [?|(j & Hj%elem_of_seqZ & ?)]; [left|right; lia]. by do 2 (eapply heap_le_oom; [done|]).
Qed.
