(* ===== verification/IndexFacts.v ===== *)
(** * Indexing is safe

    The arrays [policydb_index_classes] and [policydb_index_others] build, and the
    caches of roles and users. *)

From S2P Require Import Prelude PolicyFile Ebitmap EbitmapFacts EbitmapIter Hashtab HashtabFacts HashtabSpec Avtab AvtabFacts.
From S2P Require Import Mls Policydb MlsPolicy MlsFacts Conditional ConditionalFacts Context Constraint ObjectSid Optimize.
From S2P Require Import Validate ValidateFacts ValidateRules PolicySetters ReadPolicy IndexPolicy ReadFacts ReadRulesFacts ExpandFacts.

(** ** Walks over a table *)

(** After a walk that returns 0, every entry was visited. *)
Lemma map_chain_wp {V St} (apply : string → V → St → M (Z * St)) l l0 s h (I : list (string * V) → St → Prop) :
  I l0 s →
  (∀ seen e s h, e ∈ l → I seen s → wp (apply e.1 e.2 s) h (λ r _, r.1 = 0 → I (seen ++ [e]) r.2)) →
  wp (map_chain apply l s) h (λ r _, r.1 = 0 → I (l0 ++ l) r.2).
Proof.
  revert l0 s h. induction l as [|e l IH]; intros l0 s h Hs Ha; cbn [map_chain]; [wp_step; by rewrite app_nil_r|].
  wp_step. eapply wp_mono; [apply (Ha l0 e); [left|done]|]. intros [rc s'] h' Hr. cbn [fst snd] in *.
  unfold nz. destruct (Z.eqb_spec rc 0) as [->|Hne]; cbn [negb]; [|by wp_step]. specialize (Hr eq_refl).
  eapply wp_mono; [apply (IH (l0 ++ [e]) s' h' Hr); intros seen e' s1 h1 He'; apply Ha; by right|].
  intros r h2 Hfin H0. rewrite <- app_assoc in Hfin. by apply Hfin.
Qed.

Lemma map_wp {V St} (apply : string → V → St → M (Z * St)) t s h (I : list (string * V) → St → Prop) :
  hwf t → I [] s →
  (∀ seen e s h, e ∈ concat (ht_table t) → I seen s → wp (apply e.1 e.2 s) h (λ r _, r.1 = 0 → I (seen ++ [e]) r.2)) →
  wp (hashtab_map (Some t) apply s) h (λ r _, r.1 = 0 → I (concat (ht_table t)) r.2).
Proof.
  intros Hw Hs Ha. unfold wp. rewrite map_spec by done. by apply (map_chain_wp _ _ [] _ _ I).
Qed.

(** The invariant of a walk over data in [D]. *)
Lemma filled_map {V St} (apply : string → V → St → M (Z * St)) t s h (D : string → V → Prop) (J : St → Prop) :
  filled D t → J s →
  (∀ k d s h, D k d → J s → wp (apply k d s) h (λ r _, r.1 = 0 → J r.2)) →
  wp (hashtab_map t apply s) h (λ r _, r.1 = 0 → J r.2).
Proof.
  intros (t' & -> & Hw & HD) Hs Ha. apply (map_wp _ _ _ _ (λ _, J)); [done..|]. intros _ [k d] s' h' He Hs'.
  rewrite Forall_forall in HD. specialize (HD _ He). by apply Ha.
Qed.

(** ** Names *)

Lemma name_index_ok value nprim key names :
  0 ≤ value → Z.of_nat (length names) = nprim →
  ∃ r, name_index value nprim key names = Some r ∧
    ∀ l, r = Some l → 1 ≤ value ≤ nprim ∧ names !! Z.to_nat (value - 1) = Some None ∧
      l = <[Z.to_nat (value - 1) := Some key]> names.
Proof.
  intros Hv Hl. unfold name_index. destruct (value_isvalid value nprim) eqn:E; cbn [negb]; [|by eexists].
  apply isvalid_range in E; [|done]. unfold aget. rewrite (proj2 (Z.ltb_ge _ _)) by lia.
  destruct (lookup_lt_is_Some_2 names (Z.to_nat (value - 1))) as [o Ho]; [lia|]. rewrite Ho. cbn [mbind option_bind].
  destruct o; [by eexists|]. unfold aset. rewrite (proj2 (Z.leb_le _ _)), (proj2 (Z.ltb_lt _ _)) by lia. cbn [andb mbind option_bind].
  eexists. split; [done|]. by intros l [= <-].
Qed.

Lemma aset_inside {A} (l : list A) i x : 0 ≤ i < Z.of_nat (length l) → aset l i x = Some (<[Z.to_nat i := x]> l).
Proof. intros Hi. unfold aset. by rewrite (proj2 (Z.leb_le _ _)), (proj2 (Z.ltb_lt _ _)) by lia. Qed.

(** A walk of an index function over the names and an array [w]. *)
Lemma index_map_ok {V W} t (f : string → V → policydb → option (Z * policydb))
    (put : list (option string) → W → policydb) names (w : W) (D : string → V → Prop) J h :
  filled D t → J names w →
  (∀ k d names w, D k d → J names w →
     ∃ rc p', f k d (put names w) = Some (rc, p') ∧ (rc = 0 → ∃ names' w', p' = put names' w' ∧ J names' w')) →
  wp (index_map t f (put names w)) h (λ r _, r.1 = 0 → ∃ names' w', r.2 = put names' w' ∧ J names' w').
Proof.
  intros Ht Hj Hf. apply (filled_map _ _ _ _ D (λ p', ∃ names' w', p' = put names' w' ∧ J names' w')); [done|eauto|].
  intros k d s h' Hd (n1 & w1 & -> & Hj1). destruct (Hf k d n1 w1 Hd Hj1) as (rc & p' & -> & Hr). wp_step. done.
Qed.

Definition struct_in {A} (D : A → Prop) (o : option A) : Prop := ∀ d, o = Some d → D d.

Definition arrays_of {A} (D : A → Prop) (n : Z) (names : list (option string)) (structs : list (option A)) : Prop :=
  Z.of_nat (length names) = n ∧ Z.of_nat (length structs) = n ∧ Forall (struct_in D) structs.

Lemma nulls_of {A} (D : A → Prop) n : 0 ≤ n → Forall (struct_in D) (nulls n).
Proof. intros Hn. apply Forall_replicate. by intros d. Qed.

Lemma length_nulls {A} n : 0 ≤ n → Z.of_nat (length (nulls n : list (option A))) = n.
Proof. intros Hn. rewrite length_replicate. lia. Qed.

(** The step most index functions make. *)
Lemma index_step {A} (D : A → Prop) n names structs value key d :
  arrays_of D n names structs → 0 ≤ value → D d →
  ∃ r, name_index value n key names = Some r ∧
    ∀ l, r = Some l → aset structs (value - 1) (Some d) = Some (<[Z.to_nat (value - 1) := Some d]> structs) ∧
      arrays_of D n l (<[Z.to_nat (value - 1) := Some d]> structs).
Proof.
  intros (Hn & Hs & Hf) Hv Hd. destruct (name_index_ok value n key names Hv Hn) as (r & -> & Hr). exists r. split; [done|].
  intros l Hl. destruct (Hr l Hl) as (Hrange & _ & ->). split; [apply aset_inside; lia|]. split_and!; [by rewrite length_insert..|].
  apply Forall_insert; [done|]. by intros ? [= <-].
Qed.

(** ** Classes *)

(** The classes seen are in the arrays. *)
Definition class_arrays (n : Z) (seen : list (string * class_datum)) names (structs : list (option class_datum)) : Prop :=
  arrays_of class_in n names structs ∧
  ∀ e, e ∈ seen → ∃ s, names !! Z.to_nat (cl_value e.2 - 1) = Some (Some s) ∧
    structs !! Z.to_nat (cl_value e.2 - 1) = Some (Some e.2).

Lemma class_index_ok n seen names structs cn p key d :
  s_nprim (p_classes p) = n → class_arrays n seen names structs → class_in d →
  ∃ rc p', class_index key d (set_class_index p cn names structs) = Some (rc, p') ∧
    (rc = 0 → ∃ names' structs', p' = set_class_index p cn names' structs' ∧ class_arrays n (seen ++ [(key, d)]) names' structs').
Proof.
  intros Hn [Ha Hseen] Hd. assert (0 ≤ cl_value d) as Hv by apply Hd. destruct Ha as (Hln & Hls & Hf).
  unfold class_index. cbn [set_class_index p_classes p_class_val_to_name class_val_to_struct p_common_val_to_name]. rewrite Hn.
  destruct (name_index_ok (cl_value d) n key names Hv Hln) as (r & -> & Hr). cbn [mbind option_bind].
  destruct r as [l|]; [|by eexists _, _]. destruct (Hr l eq_refl) as (Hrange & Hnone & ->).
  rewrite aset_inside by lia. cbn [mbind option_bind]. eexists _, _. split; [done|]. intros _. eexists _, _. split; [done|]. split.
  - split_and!; [by rewrite length_insert..|]. apply Forall_insert; [done|]. by intros ? [= <-].
  - intros e [He| ->%list_elem_of_singleton]%elem_of_app; cbn [fst snd].
    + destruct (Hseen e He) as (s & Hs1 & Hs2). assert (Z.to_nat (cl_value d - 1) ≠ Z.to_nat (cl_value e.2 - 1)) by congruence.
      rewrite !list_lookup_insert_ne by done. eauto.
    + rewrite !list_lookup_insert_eq by lia. eauto.
Qed.

(** What [policydb_index_classes] leaves. *)
Definition classes_indexed (p p' : policydb) : Prop :=
  ∃ cn names structs, p' = set_class_index p cn names structs ∧ Z.of_nat (length cn) = s_nprim (p_commons p) ∧
    arrays_of class_in (s_nprim (p_classes p)) names structs ∧
    ∀ k d, hashtab_search (s_table (p_classes p)) k = Some (Some d) → structs !! Z.to_nat (cl_value d - 1) = Some (Some d).

Lemma index_classes_ok p h :
  filled (λ _, common_in) (s_table (p_commons p)) → filled (λ _, class_in) (s_table (p_classes p)) →
  0 ≤ s_nprim (p_commons p) → 0 ≤ s_nprim (p_classes p) →
  wp (policydb_index_classes p) h (λ r _, r.1 = 0 → classes_indexed p r.2).
Proof.
  intros Hco Hcl Hnc Hn. unfold policydb_index_classes. wp_step. apply wp_any_malloc. intros [x|] h1; [|by wp_step]. cbn zeta.
  wp_step. cbn [set_class_index p_commons s_table].
  eapply wp_mono; [apply (index_map_ok _ _ (λ names (_ : unit), set_class_index p names (p_class_val_to_name p) (class_val_to_struct p))
    (nulls (s_nprim (p_commons p))) tt _ (λ names _, Z.of_nat (length names) = s_nprim (p_commons p)) _ Hco)|].
  { by apply length_nulls. }
  { intros k d names [] Hd Hl. unfold common_index. cbn [set_class_index p_commons p_common_val_to_name].
    destruct (name_index_ok (cm_value d) _ k names (proj1 (proj1 Hd)) Hl) as (r & Hi & Hr). rewrite Hi. cbn [mbind option_bind].
    destruct r as [l|]; [|by eexists _, _]. destruct (Hr l eq_refl) as (_ & _ & ->). eexists _, _. split; [done|]. intros _.
    eexists _, tt. split; [done|]. by rewrite length_insert. }
  intros [rc p1] h2 Hr. cbn [fst snd] in Hr. unfold nz at 1. destruct (Z.eqb_spec rc 0) as [->|]; cbn [negb]; [|by wp_step].
  destruct (Hr eq_refl) as (cn & [] & -> & Hcn). clear Hr.
  wp_step. apply wp_any_malloc. intros [y|] h3; [|by wp_step]. wp_step. apply wp_any_malloc. intros [z|] h4; [|by wp_step]. cbn zeta.
  cbn [set_class_index p_classes s_table s_nprim p_common_val_to_name class_val_to_struct p_class_val_to_name].
  wp_step. pose proof Hcl as (t & Ht & Hw & HD). rewrite Ht.
  eapply wp_mono; [apply (map_wp _ t _ _ (λ seen p', ∃ names structs, p' = set_class_index p cn names structs ∧
    class_arrays (s_nprim (p_classes p)) seen names structs) Hw)|].
  - eexists _, _. split; [done|]. split; [|by intros e ?%elem_of_nil].
    split_and!; [by apply length_nulls..|by apply nulls_of].
  - intros seen [k d] s' h' He (names & structs & -> & Ha). rewrite Forall_forall in HD. specialize (HD _ He).
    destruct (class_index_ok _ seen names structs cn p k d eq_refl Ha HD) as (rc & p' & Hi & Hr). cbn [fst snd]. rewrite Hi.
    wp_step. intros H0. destruct (Hr H0) as (n' & s'' & -> & Ha'). eauto.
  - intros [rc p2] h5 Hr. cbn [fst snd] in *. wp_step. cbn [fst snd]. unfold nz. destruct (Z.eqb_spec rc 0) as [->|]; [|done].
    intros _. destruct (Hr eq_refl) as (names & structs & -> & Ha & Hseen). exists cn, names, structs. split_and!; [done..|].
    intros k d Hs. rewrite Ht, search_spec in Hs by done. injection Hs as Hs. apply dict_lookup in Hs; [|done].
    by destruct (Hseen _ Hs) as (_ & _ & ?).
Qed.

(** ** The other symbols *)

Record other_arrays := OtherArrays {
  oa_role_names : list (option string); oa_roles : list (option role_datum);
  oa_type_names : list (option string); oa_types : list (option type_datum);
  oa_user_names : list (option string); oa_users : list (option user_datum);
  oa_bool_names : list (option string); oa_bools : list (option cond_bool_datum);
  oa_sens_names : list (option string); oa_cat_names : list (option string)
}.

Definition with_arrays (p : policydb) (a : other_arrays) : policydb :=
  set_mls_names (set_cond (set_bool_names (set_user_index (set_type_index (set_role_index p (oa_role_names a) (oa_roles a))
    (oa_type_names a) (oa_types a)) (oa_user_names a) (oa_users a)) (oa_bool_names a)) (oa_bools a) (te_cond_avtab p) (cond_list p))
    (oa_sens_names a) (oa_cat_names a).

Lemma set_mls_twice p s c s' c' : set_mls_names (set_mls_names p s c) s' c' = set_mls_names p s' c'.
Proof. reflexivity. Qed.

Lemma with_arrays_mls p a s c :
  set_mls_names (with_arrays p a) s c =
  with_arrays p (OtherArrays (oa_role_names a) (oa_roles a) (oa_type_names a) (oa_types a) (oa_user_names a) (oa_users a)
                   (oa_bool_names a) (oa_bools a) s c).
Proof. unfold with_arrays. apply set_mls_twice. Qed.

Lemma with_arrays_sens p a : p_sens_val_to_name (with_arrays p a) = oa_sens_names a.
Proof. reflexivity. Qed.

Lemma with_arrays_cats p a : p_cat_val_to_name (with_arrays p a) = oa_cat_names a.
Proof. reflexivity. Qed.

(** The symbol tables of a policy that was read. *)
Record tables_in (p : policydb) : Prop := {
  ti_commons : filled (λ _, common_in) (s_table (p_commons p));
  ti_classes : filled (λ _, class_in) (s_table (p_classes p));
  ti_roles : filled (λ _, role_in) (s_table (p_roles p));
  ti_types : filled (λ _, type_in) (s_table (p_types p));
  ti_users : filled (λ _, user_in) (s_table (p_users p));
  ti_bools : filled (λ _, bool_in) (p_bools_table p);
  ti_levels : filled (λ _, sens_in) (s_table (p_levels p));
  ti_cats : filled (λ _, cat_in) (s_table (p_cats p));
  ti_counts : Forall is_u32 [s_nprim (p_commons p); s_nprim (p_classes p); s_nprim (p_roles p); s_nprim (p_types p);
                s_nprim (p_users p); p_bools_nprim p; s_nprim (p_levels p); s_nprim (p_cats p)]
}.

(** The arrays after [k] rounds of the loop over the symbol tables. *)
Definition arrays_after (p : policydb) (k : nat) (a : other_arrays) : Prop :=
  Z.of_nat (length (oa_roles a)) = s_nprim (p_roles p) ∧
  (Z.of_nat (length (oa_types a)) = s_nprim (p_types p) ∧ Forall (struct_in type_in) (oa_types a)) ∧
  Z.of_nat (length (oa_users a)) = s_nprim (p_users p) ∧
  Z.of_nat (length (oa_bools a)) = p_bools_nprim p ∧
  (0 < k → Z.of_nat (length (oa_role_names a)) = s_nprim (p_roles p))%nat ∧
  (1 < k → Z.of_nat (length (oa_type_names a)) = s_nprim (p_types p))%nat ∧
  (2 < k → Z.of_nat (length (oa_user_names a)) = s_nprim (p_users p))%nat ∧
  (3 < k → Z.of_nat (length (oa_bool_names a)) = p_bools_nprim p)%nat ∧
  (4 < k → Z.of_nat (length (oa_sens_names a)) = s_nprim (p_levels p))%nat ∧
  (5 < k → Z.of_nat (length (oa_cat_names a)) = s_nprim (p_cats p))%nat.

(** Writing the tables and arrays of roles and users again. *)
Section twice.
Context (p : policydb) (rt rt' : symtab role_datum) (ut ut' : symtab user_datum) (rn un : list (option string)).
Context (rs rs' : list (option role_datum)) (us us' : list (option user_datum)).

Let twice : policydb := set_user_index (set_users (set_role_index (set_roles p rt) rn rs) ut) un us.

Lemma set_roles_twice :
  set_role_index (set_roles twice rt') (p_role_val_to_name twice) rs' =
  set_user_index (set_users (set_role_index (set_roles p rt') rn rs') ut) un us.
Proof. by destruct p. Qed.

Lemma set_users_twice :
  set_user_index (set_users twice ut') (p_user_val_to_name twice) us' =
  set_user_index (set_users (set_role_index (set_roles p rt) rn rs) ut') un us'.
Proof. by destruct p. Qed.
End twice.

Lemma set_tables_same q :
  set_user_index (set_users (set_role_index (set_roles q (Symtab (s_table (p_roles q)) (s_nprim (p_roles q))))
    (p_role_val_to_name q) (role_val_to_struct q)) (Symtab (s_table (p_users q)) (s_nprim (p_users q))))
    (p_user_val_to_name q) (user_val_to_struct q) = q.
Proof. destruct q as [? ? [] ? []]. reflexivity. Qed.

Section others.
Context (p : policydb) (Hp : tables_in p).

(** A round of the loop: [get] the names of the round, [clear] writes them. *)
Lemma index_symbols_ok {V} k nprim t (f : string → V → policydb → option (Z * policydb)) (D : string → V → Prop)
    (clear : list (option string) → policydb → policydb) (write : list (option string) → other_arrays → other_arrays)
    (names : other_arrays → list (option string)) a h :
  filled D t → 0 ≤ nprim → arrays_after p k a →
  (∀ l a, clear l (with_arrays p a) = with_arrays p (write l a)) → (∀ l a, names (write l a) = l) →
  (∀ l l' a, write l (write l' a) = write l a) →
  (∀ l a, Z.of_nat (length l) = nprim → arrays_after p k a → arrays_after p k (write l a)) →
  (∀ a, arrays_after p k a → Z.of_nat (length (names a)) = nprim → arrays_after p (S k) a) →
  (∀ key d a, D key d → arrays_after p k a → Z.of_nat (length (names a)) = nprim →
     ∃ rc p', f key d (with_arrays p a) = Some (rc, p') ∧
       (rc = 0 → ∃ a', p' = with_arrays p a' ∧ arrays_after p k a' ∧ Z.of_nat (length (names a')) = nprim)) →
  wp (index_symbols nprim t f clear (with_arrays p a)) h (λ r _, r.1 = 0 → ∃ a', r.2 = with_arrays p a' ∧ arrays_after p (S k) a').
Proof.
  intros Ht Hn Ha Hclear Hnames Hww Hwrite Hdone Hf. unfold index_symbols. cbn zeta. rewrite !Hclear.
  unfold nz at 1. destruct (Z.eqb_spec nprim 0) as [->|Hne]; cbn [negb].
  { wp_step. intros _. eexists. split; [done|]. apply Hdone; [by apply Hwrite|by rewrite Hnames]. }
  wp_step. apply wp_any_malloc. intros [x|] h1; [|by wp_step]. wp_step.
  eapply wp_mono; [apply (filled_map _ _ _ _ D (λ p', ∃ a', p' = with_arrays p a' ∧ arrays_after p k a' ∧
    Z.of_nat (length (names a')) = nprim) Ht)|].
  - rewrite Hww. eexists. split; [done|]. rewrite Hnames. split; [|by apply length_nulls].
    apply Hwrite; [by apply length_nulls|done].
  - intros key d s h2 Hd (a1 & -> & Ha1 & Hl1). destruct (Hf key d a1 Hd Ha1 Hl1) as (rc & p' & -> & Hr). by wp_step.
  - intros [rc p'] h2 Hr. cbn [fst snd] in Hr. wp_step. cbn [fst snd]. unfold nz. destruct (Z.eqb_spec rc 0) as [->|]; [|done].
    intros _. destruct (Hr eq_refl) as (a' & -> & Ha' & Hl'). eexists. split; [done|]. by apply Hdone.
Qed.

Ltac see_arrays :=
  cbn [with_arrays set_mls_names set_cond set_bool_names set_user_index set_type_index set_role_index p_roles p_role_val_to_name
       role_val_to_struct p_types p_type_val_to_name type_val_to_struct p_users p_user_val_to_name user_val_to_struct p_bools_nprim
       p_bool_val_to_name bool_val_to_struct p_levels p_sens_val_to_name p_cats p_cat_val_to_name te_cond_avtab cond_list].

(** The arrays with one entry written still have their lengths. *)
Ltac arrays_written :=
  split; [done|]; cbn [oa_role_names oa_roles oa_type_names oa_types oa_user_names oa_users oa_bool_names oa_bools oa_sens_names oa_cat_names] in *;
  rewrite length_insert; (split; [|done]);
  lazymatch goal with Ha : arrays_after _ _ _ |- _ => destruct Ha as (? & [? ?] & ? & ? & ? & ? & ? & ? & ? & ?) end;
  unfold arrays_after;
  cbn [oa_role_names oa_roles oa_type_names oa_types oa_user_names oa_users oa_bool_names oa_bools oa_sens_names oa_cat_names];
  rewrite ?length_insert; split_and!; done || lia.

(** The return code and the arrays after an index function. *)
Definition indexed_to (k : nat) (names : other_arrays → list (option string)) (nprim : Z) (r : option (Z * policydb)) : Prop :=
  ∃ rc p', r = Some (rc, p') ∧
    (rc = 0 → ∃ a', p' = with_arrays p a' ∧ arrays_after p k a' ∧ Z.of_nat (length (names a')) = nprim).

Lemma role_index_ok key d a :
  role_in d → arrays_after p 0 a → Z.of_nat (length (oa_role_names a)) = s_nprim (p_roles p) →
  indexed_to 0 oa_role_names (s_nprim (p_roles p)) (role_index key d (with_arrays p a)).
Proof.
  intros Hd Ha Hl. unfold role_index. see_arrays.
  destruct (name_index_ok (rd_value d) _ key _ (proj1 (proj2 Hd)) Hl) as (r & -> & Hr). cbn [mbind option_bind].
  destruct r as [l|]; [|by eexists _, _]. destruct (Hr l eq_refl) as (Hrange & _ & ->).
  pose proof Ha as (Hs & _). rewrite aset_inside by lia. cbn [mbind option_bind]. eexists _, _. split; [done|]. intros _.
  destruct a as [rn rs tn ts un us bn bs sn cn].
  exists (OtherArrays (<[Z.to_nat (rd_value d - 1) := Some key]> rn) (<[Z.to_nat (rd_value d - 1) := Some d]> rs) tn ts un us bn bs sn cn).
  arrays_written.
Qed.

Lemma type_index_ok key d a :
  type_in d → arrays_after p 1 a → Z.of_nat (length (oa_type_names a)) = s_nprim (p_types p) →
  indexed_to 1 oa_type_names (s_nprim (p_types p)) (type_index key d (with_arrays p a)).
Proof.
  intros Hd Ha Hl. unfold type_index. destruct (nz (td_primary d)); [|eexists _, _; split; [done|]; intros _; by exists a]. see_arrays.
  destruct (name_index_ok (td_value d) _ key _ (proj1 (proj2 Hd)) Hl) as (r & -> & Hr). cbn [mbind option_bind].
  destruct r as [l|]; [|by eexists _, _]. destruct (Hr l eq_refl) as (Hrange & _ & ->).
  pose proof Ha as (_ & [Hs Hf] & _). rewrite aset_inside by lia. cbn [mbind option_bind]. eexists _, _. split; [done|]. intros _.
  destruct a as [rn rs tn ts un us bn bs sn cn].
  exists (OtherArrays rn rs (<[Z.to_nat (td_value d - 1) := Some key]> tn) (<[Z.to_nat (td_value d - 1) := Some d]> ts) un us bn bs sn cn).
  assert (Forall (struct_in type_in) (<[Z.to_nat (td_value d - 1) := Some d]> ts)) as Hf'.
  { apply Forall_insert; [done|]. by intros ? [= <-]. }
  arrays_written.
Qed.

Lemma user_index_ok key d a :
  user_in d → arrays_after p 2 a → Z.of_nat (length (oa_user_names a)) = s_nprim (p_users p) →
  indexed_to 2 oa_user_names (s_nprim (p_users p)) (user_index key d (with_arrays p a)).
Proof.
  intros Hd Ha Hl. unfold user_index. see_arrays.
  destruct (name_index_ok (ud_value d) _ key _ (proj1 (proj2 Hd)) Hl) as (r & -> & Hr). cbn [mbind option_bind].
  destruct r as [l|]; [|by eexists _, _]. destruct (Hr l eq_refl) as (Hrange & _ & ->).
  pose proof Ha as (_ & _ & Hs & _). rewrite aset_inside by lia. cbn [mbind option_bind]. eexists _, _. split; [done|]. intros _.
  destruct a as [rn rs tn ts un us bn bs sn cn].
  exists (OtherArrays rn rs tn ts (<[Z.to_nat (ud_value d - 1) := Some key]> un) (<[Z.to_nat (ud_value d - 1) := Some d]> us) bn bs sn cn).
  arrays_written.
Qed.

Lemma bool_index_ok key d a :
  bool_in d → arrays_after p 3 a → Z.of_nat (length (oa_bool_names a)) = p_bools_nprim p →
  indexed_to 3 oa_bool_names (p_bools_nprim p) (cond_index_bool key d (with_arrays p a)).
Proof.
  intros Hd Ha Hl. unfold cond_index_bool. see_arrays. fold (value_isvalid (cb_value d) (p_bools_nprim p)).
  destruct ((cb_value d =? 0) || (cb_value d >? p_bools_nprim p)) eqn:E; [by eexists _, _|].
  assert (1 ≤ cb_value d ≤ p_bools_nprim p) as Hr.
  { apply isvalid_range; [apply Hd|]. unfold value_isvalid. by rewrite E. }
  unfold aget. rewrite (proj2 (Z.ltb_ge _ _)) by lia.
  destruct (lookup_lt_is_Some_2 (oa_bool_names a) (Z.to_nat (cb_value d - 1))) as [o Ho]; [lia|]. rewrite Ho. cbn [mbind option_bind].
  destruct o; [by eexists _, _|]. pose proof Ha as (_ & _ & _ & Hs & _). rewrite !aset_inside by lia. cbn [mbind option_bind].
  eexists _, _. split; [done|]. intros _. destruct a as [rn rs tn ts un us bn bs sn cn].
  exists (OtherArrays rn rs tn ts un us (<[Z.to_nat (cb_value d - 1) := Some key]> bn) (<[Z.to_nat (cb_value d - 1) := Some d]> bs) sn cn).
  arrays_written.
Qed.

Lemma sens_index_ok key d a :
  sens_in d → arrays_after p 4 a → Z.of_nat (length (oa_sens_names a)) = s_nprim (p_levels p) →
  indexed_to 4 oa_sens_names (s_nprim (p_levels p)) (sens_index key d (with_arrays p a)).
Proof.
  intros Hd Ha Hl. unfold sens_index. destruct (ld_isalias d); [eexists _, _; split; [done|]; intros _; by exists a|].
  rewrite with_arrays_sens, with_arrays_cats.
  change (p_levels (with_arrays p a)) with (p_levels p).
  destruct (name_index_ok (sens (ld_level d)) _ key _ (proj1 (proj2 Hd)) Hl) as (r & -> & Hr). cbn [mbind option_bind].
  destruct r as [l|]; [|by eexists _, _]. destruct (Hr l eq_refl) as (Hrange & _ & ->). eexists _, _. split; [done|]. intros _.
  rewrite with_arrays_mls. destruct a as [rn rs tn ts un us bn bs sn cn].
  exists (OtherArrays rn rs tn ts un us bn bs (<[Z.to_nat (sens (ld_level d) - 1) := Some key]> sn) cn). arrays_written.
Qed.

Lemma cat_index_ok key d a :
  cat_in d → arrays_after p 5 a → Z.of_nat (length (oa_cat_names a)) = s_nprim (p_cats p) →
  indexed_to 5 oa_cat_names (s_nprim (p_cats p)) (cat_index key d (with_arrays p a)).
Proof.
  intros Hd Ha Hl. unfold cat_index. destruct (cd_isalias d); [eexists _, _; split; [done|]; intros _; by exists a|].
  rewrite with_arrays_sens, with_arrays_cats.
  change (p_cats (with_arrays p a)) with (p_cats p).
  destruct (name_index_ok (cd_value d) _ key _ (proj1 Hd) Hl) as (r & -> & Hr). cbn [mbind option_bind].
  destruct r as [l|]; [|by eexists _, _]. destruct (Hr l eq_refl) as (Hrange & _ & ->). eexists _, _. split; [done|]. intros _.
  rewrite with_arrays_mls. destruct a as [rn rs tn ts un us bn bs sn cn].
  exists (OtherArrays rn rs tn ts un us bn bs sn (<[Z.to_nat (cd_value d - 1) := Some key]> cn)). arrays_written.
Qed.

Definition write_role_names l a :=
  OtherArrays l (oa_roles a) (oa_type_names a) (oa_types a) (oa_user_names a) (oa_users a) (oa_bool_names a) (oa_bools a) (oa_sens_names a) (oa_cat_names a).
Definition write_type_names l a :=
  OtherArrays (oa_role_names a) (oa_roles a) l (oa_types a) (oa_user_names a) (oa_users a) (oa_bool_names a) (oa_bools a) (oa_sens_names a) (oa_cat_names a).
Definition write_user_names l a :=
  OtherArrays (oa_role_names a) (oa_roles a) (oa_type_names a) (oa_types a) l (oa_users a) (oa_bool_names a) (oa_bools a) (oa_sens_names a) (oa_cat_names a).
Definition write_bool_names l a :=
  OtherArrays (oa_role_names a) (oa_roles a) (oa_type_names a) (oa_types a) (oa_user_names a) (oa_users a) l (oa_bools a) (oa_sens_names a) (oa_cat_names a).
Definition write_sens_names l a :=
  OtherArrays (oa_role_names a) (oa_roles a) (oa_type_names a) (oa_types a) (oa_user_names a) (oa_users a) (oa_bool_names a) (oa_bools a) l (oa_cat_names a).
Definition write_cat_names l a :=
  OtherArrays (oa_role_names a) (oa_roles a) (oa_type_names a) (oa_types a) (oa_user_names a) (oa_users a) (oa_bool_names a) (oa_bools a) (oa_sens_names a) l.

Lemma counts_nonneg : 0 ≤ s_nprim (p_commons p) ∧ 0 ≤ s_nprim (p_classes p) ∧ 0 ≤ s_nprim (p_roles p) ∧ 0 ≤ s_nprim (p_types p) ∧
  0 ≤ s_nprim (p_users p) ∧ 0 ≤ p_bools_nprim p ∧ 0 ≤ s_nprim (p_levels p) ∧ 0 ≤ s_nprim (p_cats p).
Proof using Hp. pose proof (ti_counts p Hp) as Hc. rewrite !Forall_cons in Hc. unfold is_u32 in Hc. intuition lia. Qed.

(** The side conditions of a round. *)
Ltac round_side :=
  intros;
  lazymatch goal with Ha : arrays_after _ _ _ |- _ => destruct Ha as (? & [? ?] & ? & ? & ? & ? & ? & ? & ? & ?) end;
  unfold arrays_after;
  cbn [write_role_names write_type_names write_user_names write_bool_names write_sens_names write_cat_names
       oa_role_names oa_roles oa_type_names oa_types oa_user_names oa_users oa_bool_names oa_bools oa_sens_names oa_cat_names];
  split_and!; first [done | lia | intros; assumption].

(** The round failed, or left arrays. *)
Ltac next_round a Ha :=
  let rc := fresh "rc" in let p' := fresh "p'" in let Hr := fresh "Hr" in
  intros [rc p'] ? Hr; cbn [fst snd] in Hr; unfold nz at 1; destruct (Z.eqb_spec rc 0); subst; cbn [negb]; [|by wp_step];
  destruct (Hr eq_refl) as (a & -> & Ha); clear Hr.

Lemma index_all_ok a h :
  arrays_after p 0 a → wp (index_all_symbols (with_arrays p a)) h (λ r _, r.1 = 0 → ∃ a', r.2 = with_arrays p a' ∧ arrays_after p 6 a').
Proof using Hp.
  intros Ha. pose proof counts_nonneg as (_ & _ & N1 & N2 & N3 & N4 & N5 & N6). unfold index_all_symbols.
  wp_step. eapply wp_mono; [apply (index_symbols_ok 0 _ _ _ (λ _, role_in) _ write_role_names oa_role_names a);
    [apply Hp|done|done|done|done|done|round_side|round_side|intros; by apply role_index_ok]|]. next_round a1 Ha1.
  wp_step. eapply wp_mono; [apply (index_symbols_ok 1 _ _ _ (λ _, type_in) _ write_type_names oa_type_names a1);
    [apply Hp|done|done|done|done|done|round_side|round_side|intros; by apply type_index_ok]|]. next_round a2 Ha2.
  wp_step. eapply wp_mono; [apply (index_symbols_ok 2 _ _ _ (λ _, user_in) _ write_user_names oa_user_names a2);
    [apply Hp|done|done|done|done|done|round_side|round_side|intros; by apply user_index_ok]|]. next_round a3 Ha3.
  wp_step. eapply wp_mono; [apply (index_symbols_ok 3 _ _ _ (λ _, bool_in) _ write_bool_names oa_bool_names a3);
    [apply Hp|done|done|done|done|done|round_side|round_side|intros; by apply bool_index_ok]|]. next_round a4 Ha4.
  wp_step. eapply wp_mono; [apply (index_symbols_ok 4 _ _ _ (λ _, sens_in) _ write_sens_names oa_sens_names a4);
    [apply Hp|done|done|intros; apply with_arrays_mls|done|done|round_side|round_side|intros; by apply sens_index_ok]|]. next_round a5 Ha5.
  apply (index_symbols_ok 5 _ _ _ (λ _, cat_in) _ write_cat_names oa_cat_names a5);
    [apply Hp|done|done|intros; apply with_arrays_mls|done|done|round_side|round_side|intros; by apply cat_index_ok].
Qed.

(** ** Caches *)

Lemma write_datum_ok {V} (D : V → Prop) value key f t (structs : list (option V)) :
  (∀ d, D d → D (f d)) → filled (λ _, D) t →
  filled (λ _, D) (write_datum_of value key f t structs).1 ∧ length (write_datum_of value key f t structs).2 = length structs.
Proof.
  intros Hf Ht. unfold write_datum_of. cbn [fst snd]. split; [by apply write_filled|].
  repeat (case_match; try done). by rewrite length_insert.
Qed.

(** The arrays are complete, the tables of roles and users are [rt] and [ut]. *)
Definition with_caches (a : other_arrays) rt rs ut us : policydb :=
  set_user_index (set_users (set_role_index (set_roles (with_arrays p a) (Symtab rt (s_nprim (p_roles p)))) (oa_role_names a) rs)
    (Symtab ut (s_nprim (p_users p)))) (oa_user_names a) us.

Definition caches_ok (rt : option (hashtab string role_datum)) (rs : list (option role_datum))
    (ut : option (hashtab string user_datum)) (us : list (option user_datum)) : Prop :=
  filled (λ _, role_in) rt ∧ Z.of_nat (length rs) = s_nprim (p_roles p) ∧
  filled (λ _, user_in) ut ∧ Z.of_nat (length us) = s_nprim (p_users p).

Definition cached (a : other_arrays) (q : policydb) : Prop :=
  ∃ rt rs ut us, q = with_caches a rt rs ut us ∧ caches_ok rt rs ut us.

Lemma role_cache_ok a key role q h :
  arrays_after p 6 a → role_in role → cached a q →
  wp (policydb_role_cache key role q) h (λ r _, r.1 = 0 → cached a r.2).
Proof using Hp.
  intros Ha Hr (rt & rs & ut & us & -> & Hrt & Hrs & Hut & Hus). pose proof Ha as (_ & [Hlt Htt] & _). pose proof (ti_counts p Hp) as Hc.
  rewrite !Forall_cons in Hc. unfold policydb_role_cache. wp_step.
  eapply wp_mono; [apply (expand_set_spec (with_caches a rt rs ut us))|].
  - split; [done|]. eapply Forall_impl; [exact Htt|]. intros o Ho d Hd. apply (Ho d Hd).
  - split; [apply Hr|apply wf_init| |done|apply Hc]. by intros i ?%init_bit.
  - intros [rc cache] h' _. destruct (write_datum_ok role_in rd_value key (λ r, set_role_cache r cache) rt rs (λ d Hd, Hd) Hrt) as [Hrt' Hrs'].
    change (s_table (p_roles (with_caches a rt rs ut us))) with rt.
    change (role_val_to_struct (with_caches a rt rs ut us)) with rs.
    destruct (write_datum_of _ _ _ rt rs) as [rt' rs']. cbn [fst snd] in *. wp_step. intros _. exists rt', rs', ut, us. split; [apply set_roles_twice|].
    split_and!; [done|by rewrite Hrs'|done|done].
Qed.

Lemma user_cache_ok a key user q h :
  user_in user → cached a q → wp (policydb_user_cache key user q) h (λ r _, r.1 = 0 → cached a r.2).
Proof using Hp.
  intros Hu (rt & rs & ut & us & -> & Hrt & Hrs & Hut & Hus). pose proof (ti_counts p Hp) as Hc.
  rewrite !Forall_cons in Hc. unfold policydb_user_cache. wp_step.
  eapply wp_mono; [apply (role_set_spec (with_caches a rt rs ut us)); [apply Hu|apply Hc]|].
  intros [rc cache] h' _. destruct (write_datum_ok user_in ud_value key (λ r, set_user_cache r cache) ut us (λ d Hd, Hd) Hut) as [Hut' Hus'].
  change (s_table (p_users (with_caches a rt rs ut us))) with ut.
  change (user_val_to_struct (with_caches a rt rs ut us)) with us.
  destruct (write_datum_of _ _ _ ut us) as [ut' us']. cbn [fst snd] in *. wp_step. intros _. exists rt, rs, ut', us'. split; [apply set_users_twice|].
  split_and!; [done|done|done|by rewrite Hus'].
Qed.

(** What [policydb_index_others] leaves. *)
Lemma index_others_ok h :
  wp (policydb_index_others p) h (λ r _, r.1 = 0 → ∃ a, arrays_after p 6 a ∧ cached a r.2).
Proof using Hp.
  pose proof counts_nonneg as (_ & _ & N1 & N2 & N3 & N4 & _). unfold policydb_index_others, cond_init_bool_indexes.
  wp_step. apply wp_any_malloc. intros [x1|] h1; [|by wp_step]. cbn zeta.
  wp_step. apply wp_any_malloc. intros [x2|] h2; [|by wp_step]. wp_step. apply wp_any_malloc. intros [x3|] h3; [|by wp_step].
  wp_step. wp_step. apply wp_any_malloc. intros [x4|] h4; [|wp_step; by wp_step]. wp_step. cbn [nz Z.eqb negb].
  set (a0 := OtherArrays (p_role_val_to_name p) (nulls (s_nprim (p_roles p))) (p_type_val_to_name p) (nulls (s_nprim (p_types p)))
    (p_user_val_to_name p) (nulls (s_nprim (p_users p))) (p_bool_val_to_name p) (nulls (p_bools_nprim p)) (p_sens_val_to_name p)
    (p_cat_val_to_name p)).
  wp_step. change (wp (index_all_symbols (with_arrays p a0)) h4 (λ r h',
    wp (let '(rc, p0) := r in if nz rc then mret (-1, p0) else
        '(rc, p0) ← hashtab_map (s_table (p_roles p0)) policydb_role_cache p0;
        if nz rc then mret (-1, p0) else
        '(rc, p0) ← hashtab_map (s_table (p_users p0)) policydb_user_cache p0;
        mret (if nz rc then -1 else 0, p0)) h' (λ r _, r.1 = 0 → ∃ a, arrays_after p 6 a ∧ cached a r.2))).
  eapply wp_mono; [apply index_all_ok|].
  { unfold arrays_after. cbn [oa_roles oa_types oa_users oa_bools a0]. rewrite !length_nulls by done.
    split_and!; [done|done|by apply nulls_of|done|done|lia..]. }
  intros [rc p1] h5 Hr. cbn [fst snd] in Hr. unfold nz at 1. destruct (Z.eqb_spec rc 0) as [->|]; cbn [negb]; [|by wp_step].
  destruct (Hr eq_refl) as (a & -> & Ha). clear Hr.
  assert (cached a (with_arrays p a)) as Hc0.
  { exists (s_table (p_roles p)), (oa_roles a), (s_table (p_users p)), (oa_users a). split; [symmetry; apply (set_tables_same (with_arrays p a))|].
    split_and!; [apply Hp|apply Ha|apply Hp|apply Ha]. }
  wp_step. eapply wp_mono; [apply (filled_map _ _ _ _ (λ _, role_in) (cached a)); [apply Hp|done|]|].
  { intros k d s h' Hd Hs. by apply role_cache_ok. }
  intros [rc p2] h6 Hr. cbn [fst snd] in Hr. unfold nz at 1. destruct (Z.eqb_spec rc 0) as [->|]; cbn [negb]; [|by wp_step].
  specialize (Hr eq_refl). wp_step. assert (filled (λ _, user_in) (s_table (p_users p2))) as Hut.
  { destruct Hr as (rt & rs & ut & us & -> & _ & _ & ? & _). done. }
  eapply wp_mono; [apply (filled_map _ _ _ _ (λ _, user_in) (cached a) Hut Hr)|].
  { intros k d s h' Hd Hs. by apply user_cache_ok. }
  intros [rc p3] h7 Hr3. cbn [fst snd] in Hr3. wp_step. cbn [fst snd]. unfold nz. destruct (Z.eqb_spec rc 0) as [->|]; [|done].
  intros _. exists a. split; [done|]. by apply Hr3.
Qed.
End others.
