(* ===== verification/PolicyReadFacts.v ===== *)
(** * Reading a policy keeps it in order

    What is known of the policy during [policydb_read]. *)

From S2P Require Import Prelude PolicyFile Ebitmap EbitmapFacts EbitmapIter Hashtab HashtabFacts HashtabSpec Avtab AvtabFacts AvtabSpec.
From S2P Require Import Mls Policydb MlsPolicy MlsFacts Conditional ConditionalFacts ConditionalSpec Context ContextSpec Constraint ObjectSid Optimize Services.
From S2P Require Import Validate ValidateFacts ValidateRules ValidateSpec PolicySetters ReadPolicy IndexPolicy PolicydbRead.
From S2P Require Import ReadFacts ReadRulesFacts ExpandFacts IndexFacts.

#[local] Open Scope reader_scope.

(** ** The policy so far *)

(** A conditional of the file. *)
Definition cond_in (a : avtab) (n : cond_node) : Prop :=
  Forall (λ e, 0 ≤ ce_bool e) (cn_cond n) ∧ (∀ x, x ∈ cn_true n ++ cn_false n → is_Some (node_at a x)) ∧
  cn_nbools n = 0 ∧ cn_bool_ids n = replicate (Z.to_nat COND_MAX_BOOLS) 0.

Record in_progress (p : policydb) : Prop := {
  ip_tables : tables_in p;
  ip_te : awf (te_avtab p) ∧ fields_ok (te_avtab p);
  ip_cond : awf (te_cond_avtab p) ∧ fields_ok (te_cond_avtab p);
  ip_conds : Forall (cond_in (te_cond_avtab p)) (cond_list p);
  ip_role_tr : Forall role_trans_data (role_tr p);
  ip_role_allow : Forall role_allow_data (p_role_allow p);
  ip_filename : filled filename_ok (filename_trans p);
  ip_range : filled range_trans_data (range_tr p);
  ip_permissive : wf (permissive_map p);
  ip_process : 0 ≤ process_class p
}.

(** What is still to be read is empty. *)
Record unread (p : policydb) : Prop := {
  un_te : av_htable (te_avtab p) = None;
  un_cond : av_htable (te_cond_avtab p) = None;
  un_conds : cond_list p = [];
  un_ocontexts : ocontexts p = replicate 9 [];
  un_genfs : p_genfs p = []
}.

(** What [policydb_init] leaves. *)
Definition initialised (p : policydb) : Prop := in_progress p ∧ unread p.

(** The fields the header sets. *)
Definition headed (p : policydb) : Prop :=
  policy_type p = POLICY_KERN ∧ target_platform p ∈ [SEPOL_TARGET_SELINUX; SEPOL_TARGET_XEN].

Definition info_ok (info : policydb_compat_info) : Prop := 0 ≤ ci_ocon_num info ≤ 9.

(** [m] changes a policy in [I] to one in [I]. *)
Definition keeps (I : policydb → Prop) (f : policydb → reader policydb) : Prop := ∀ p, I p → reads (f p) I.

(** Facts about fields that a write did not touch. *)
Ltac kept :=
  repeat match goal with
    | H : in_progress _ |- _ => destruct H
    | H : tables_in _ |- _ => destruct H
    | H : unread _ |- _ => destruct H
    | H : headed _ |- _ => destruct H
    end;
  repeat first [assumption | split].

(** The policy in progress, but for the field written. *)
Ltac wrote :=
  lazymatch goal with H : in_progress _ |- _ => destruct H as [[]] end;
  split; [split; assumption|..]; try assumption.

(** ** The header *)

Lemma lookup_compat_ok l v t info :
  Forall info_ok l → lookup_compat l v t = Some info → info_ok info.
Proof.
  induction 1 as [|x l Hx _ IH]; cbn [lookup_compat]; [done|]. case_match; [by intros [= <-]|done].
Qed.

Lemma compat_ok v t info : policydb_lookup_compat v t = Some info → info_ok info.
Proof. apply lookup_compat_ok. by repeat (apply Forall_cons_2; [vm_compute; split; discriminate|]). Qed.

(** The file is not a policy module. *)
Definition not_module (fp : policy_file) : Prop := le_val (take 4 (pf_data fp)) ≠ POLICYDB_MOD_MAGIC.

Lemma entry2_magic fp h :
  file_ok fp → wp (entry2 fp) h (λ r _,
    match r.1 with
    | Some x => (x.1 = le_val (take 4 (pf_data fp)) ∧ is_u32 x.2) ∧ file_ok r.2
    | None => True
    end).
Proof.
  intros Hf. unfold entry2, rbind, entry. apply wp_bind. destruct Hf as [Hr Hb]. apply wp_next_entry; [done|lia| |done].
  intros Hl. split; [split|].
  - cbn [fst]. unfold le32_at. change (4 * 0)%nat with 0%nat. rewrite drop_0, take_take. done.
  - apply le32_at_u32. by apply Forall_take.
  - split; [apply readable_advance; [done|lia]|]. by apply Forall_drop.
Qed.

(** The policy with its header. *)
Definition front_ok (r : policydb * policydb_compat_info) : Prop := in_progress r.1 ∧ unread r.1 ∧ headed r.1 ∧ info_ok r.2.

Lemma header_ok p fp h :
  initialised p → file_ok fp → not_module fp →
  wp (read_header p fp) h (λ r _, match r.1 with Some x => front_ok x ∧ file_ok r.2 | None => True end).
Proof.
  intros [Hp Hu] Hf Hm. unfold read_header, rbind at 1. apply wp_bind. eapply wp_mono; [by apply entry2_magic|].
  intros [[[magic len]|] fp'] h' Hx; [|done]. cbn [fst snd] in Hx. destruct Hx as [[-> Hlen] Hf'].
  rewrite (proj2 (Z.eqb_neq _ _)) by done. revert fp' h' Hf'.
  change (reads (guard le_val (take 4 (pf_data fp)) =? POLICYDB_MAGIC ;; guard negb ((len =? 0) || (len >? POLICYDB_STRING_MAX_LENGTH)) ;;
    policydb_str <~ read_key len ;;
    p <~ (if strcmp policydb_str POLICYDB_STRING =? 0 then rret (set_target p SEPOL_TARGET_SELINUX)
          else if strcmp policydb_str POLICYDB_XEN_STRING =? 0 then rret (set_target p SEPOL_TARGET_XEN) else rfail) ;;
    '(r_policyvers, config, sym_num, ocon_num) <~ entry4 ;;
    guard negb ((r_policyvers <? POLICYDB_VERSION_MIN) || (r_policyvers >? POLICYDB_VERSION_MAX)) ;;
    let p := set_header p POLICY_KERN r_policyvers (if nz (Z.land config POLICYDB_CONFIG_MLS) then 1 else 0)
               (Z.land config POLICYDB_CONFIG_UNKNOWN_MASK) in
    match policydb_lookup_compat r_policyvers (target_platform p) with
    | None => rfail
    | Some info => guard negb (negb (sym_num =? ci_sym_num info) || negb (ocon_num =? ci_ocon_num info)) ;; rret (p, info)
    end) front_ok).
  do 2 rd_guard. rd. intros str _. eapply (reads_bind _ _ (λ q, in_progress q ∧ unread q ∧ target_platform q ∈ [SEPOL_TARGET_SELINUX; SEPOL_TARGET_XEN])).
  { apply reads_if; intros _; [|apply reads_if; intros _; [|apply reads_fail]]; apply reads_ret.
    - split_and!; [kept|kept|left].
    - split_and!; [kept|kept|right; left]. }
  intros q (Hq & Huq & Ht). rd. intros [[[v config] sym_num] ocon_num] _. rd_guard. cbn zeta.
  destruct (policydb_lookup_compat _ _) as [info|] eqn:Ei; [|apply reads_fail]. apply compat_ok in Ei. rd_guard. apply reads_ret.
  split_and!; [kept|kept|by split|done].
Qed.

(** ** Capabilities and symbols *)

Definition front_policy (p : policydb) : Prop := in_progress p ∧ unread p ∧ headed p.

Lemma reads_capabilities : keeps front_policy read_capabilities.
Proof.
  intros p (Hp & Hu & Hh). unfold read_capabilities. eapply (reads_bind _ _ front_policy).
  - apply reads_if; intros _; [|by apply reads_ret]. rd. intros e _. apply reads_ret. kept.
  - intros q (Hq & Huq & Hhq). apply reads_if; intros _; [|by apply reads_ret]. rd. intros e He. apply reads_ret. kept.
Qed.

Lemma reads_symbols {V} t (read_f : option (hashtab string V) → reader (option (hashtab string V))) D :
  filled (λ _, D) t → (∀ t, filled (λ _, D) t → reads (read_f t) (filled (λ _, D))) →
  reads (read_symbols t read_f) (λ s, filled (λ _, D) (s_table s) ∧ is_u32 (s_nprim s)).
Proof.
  intros Ht Hf. unfold read_symbols. rd. intros [nprim nel] [Hn _]. rd_guard. eapply reads_bind; [by apply reads_repeated|].
  intros t' Ht'. by apply reads_ret.
Qed.

(** A count of the tables. *)
Ltac counts := repeat (apply Forall_cons_2; [assumption|]); apply Forall_nil_2.

(** The first five tables are in every version. *)
Lemma five_tables p s1 s2 s3 s4 s5 :
  front_policy p → filled (λ _, common_in) (s_table s1) → filled (λ _, class_in) (s_table s2) → filled (λ _, role_in) (s_table s3) →
  filled (λ _, type_in) (s_table s4) → filled (λ _, user_in) (s_table s5) →
  Forall is_u32 [s_nprim s1; s_nprim s2; s_nprim s3; s_nprim s4; s_nprim s5] →
  front_policy (set_users (set_types (set_roles (set_classes (set_commons p s1) s2) s3) s4) s5).
Proof.
  intros (Hp & Hu & Hh) S1 S2 S3 S4 S5 HN. rewrite !Forall_cons in HN. destruct HN as (N1 & N2 & N3 & N4 & N5 & _).
  split; [|kept]. destruct Hp as [[_ _ _ _ _ ? ? ? Hc]]. rewrite !Forall_cons in Hc. destruct Hc as (_ & _ & _ & _ & _ & ? & ? & ? & _).
  split; try assumption. split; try assumption. counts.
Qed.

Lemma reads_symtabs n p : front_policy p → reads (read_symtabs n p) front_policy.
Proof.
  intros Hf. pose proof Hf as (Hp & _ & _). pose proof (ip_tables p Hp) as [T1 T2 T3 T4 T5 _ _ _ _]. unfold read_symtabs.
  eapply reads_bind; [apply (reads_symbols _ _ common_in); [done|apply reads_common]|]. intros s1 [S1 N1]. cbn zeta.
  eapply reads_bind; [apply (reads_symbols _ _ class_in); [done|intros t; by apply reads_class]|]. intros s2 [S2 N2].
  eapply reads_bind; [apply (reads_symbols _ _ role_in); [done|intros t; by apply reads_role]|]. intros s3 [S3 N3].
  eapply reads_bind; [apply (reads_symbols _ _ type_in); [done|intros t; by apply reads_type]|]. intros s4 [S4 N4].
  eapply reads_bind; [apply (reads_symbols _ _ user_in); [done|intros t; by apply reads_user]|]. intros s5 [S5 N5].
  eapply (reads_bind _ _ front_policy).
  { pose proof (five_tables p s1 s2 s3 s4 s5 Hf S1 S2 S3 S4 S5 ltac:(counts)) as H5. revert H5.
    generalize (set_users (set_types (set_roles (set_classes (set_commons p s1) s2) s3) s4) s5). clear. intros p (Hp & Hu & Hh).
    apply reads_if; intros _; [|by apply reads_ret]. destruct Hp as [[? ? ? ? ? T6 ? ? Hc]].
    rewrite !Forall_cons in Hc. destruct Hc as (? & ? & ? & ? & ? & _ & ? & ? & _).
    eapply reads_bind; [apply (reads_symbols _ _ bool_in); [done|apply reads_bool]|]. intros s6 [S6 N6]. apply reads_ret.
    split; [|kept]. split; try assumption. split; try assumption. counts. }
  clear. intros p H6. eapply (reads_bind _ _ front_policy).
  { destruct H6 as (Hp & Hu & Hh). apply reads_if; intros _; [|by apply reads_ret]. destruct Hp as [[? ? ? ? ? ? T7 ? Hc]].
    rewrite !Forall_cons in Hc. destruct Hc as (? & ? & ? & ? & ? & ? & _ & ? & _).
    eapply reads_bind; [apply (reads_symbols _ _ sens_in); [done|apply reads_sens]|]. intros s7 [S7 N7]. apply reads_ret.
    split; [|kept]. split; try assumption. split; try assumption. counts. }
  clear. intros p (Hp & Hu & Hh). apply reads_if; intros _; [|by apply reads_ret]. destruct Hp as [[? ? ? ? ? ? ? T8 Hc]].
  rewrite !Forall_cons in Hc. destruct Hc as (? & ? & ? & ? & ? & ? & ? & _ & _).
  eapply reads_bind; [apply (reads_symbols _ _ cat_in); [done|apply reads_cat]|]. intros s8 [S8 N8]. apply reads_ret.
  split; [|kept]. split; try assumption. split; try assumption. counts.
Qed.

Lemma front_spec p fp h :
  initialised p → file_ok fp → not_module fp →
  wp (read_front p fp) h (λ r _, match r.1 with Some x => (front_policy x.1 ∧ info_ok x.2) ∧ file_ok r.2 | None => True end).
Proof.
  intros Hp Hf Hm. unfold read_front, rbind at 1. apply wp_bind. eapply wp_mono; [by apply header_ok|].
  intros [[[p1 info]|] fp1] h1 Hx; [|done]. destruct Hx as [(Hp1 & Hu1 & Hh1 & Hi) Hf1]. cbn [fst snd] in *. revert fp1 h1 Hf1.
  change (reads (p <~ read_capabilities p1 ;; p <~ read_symtabs (ci_sym_num info) p ;; rret (p, info))
    (λ x, front_policy x.1 ∧ info_ok x.2)).
  eapply reads_bind; [by apply reads_capabilities|]. intros p2 H2. eapply reads_bind; [by apply reads_symtabs|]. intros p3 H3.
  by apply reads_ret.
Qed.

(** ** Rules *)

(** The name of the class of processes. *)
Definition process_name (p : policydb) : string :=
  if target_platform p =? SEPOL_TARGET_SELINUX then "process"%string else "domain"%string.

(** The value of that class fits the 16 bits of a class in an access vector. *)
Definition narrow_process (p : policydb) : Prop :=
  ∀ d, hashtab_search (s_table (p_classes p)) (process_name p) = Some (Some d) → cl_value d < 2 ^ 16.

(** [process_class] is the value of a class of the policy, or 0. *)
Definition process_known (p : policydb) : Prop :=
  process_class p = 0 ∨
  ∃ name d, hashtab_search (s_table (p_classes p)) name = Some (Some d) ∧ cl_value d = process_class p.

Definition found_process (p : policydb) : Prop := front_policy p ∧ process_known p.

Lemma string_to_class p name :
  tables_in p → ∃ v, policydb_string_to_security_class p name = Some v ∧ 0 ≤ v ∧
    (v = 0 ∨ ∃ d, hashtab_search (s_table (p_classes p)) name = Some (Some d) ∧ v = u16 (cl_value d) ∧ 0 ≤ cl_value d).
Proof.
  intros Ht. unfold policydb_string_to_security_class. destruct (filled_search _ _ name (ti_classes p Ht)) as (o & -> & Ho).
  cbn [mbind option_bind]. eexists. split; [done|]. destruct o as [d|]; [|split; [done|by left]].
  assert (0 ≤ u16 (cl_value d)) by (apply Z.mod_pos_bound; lia). split; [done|]. right. exists d. split_and!; [done..|]. apply (Ho d eq_refl).
Qed.

Lemma find_classes_ok p :
  front_policy p → narrow_process p → ∃ p', find_classes p = Some p' ∧ found_process p'.
Proof.
  intros (Hp & Hu & Hh) Hn. unfold find_classes, narrow_process, process_name in *.
  assert (∀ name v dir, 0 ≤ v → (∀ d, hashtab_search (s_table (p_classes p)) name = Some (Some d) → cl_value d < 2 ^ 16) →
    (v = 0 ∨ ∃ d, hashtab_search (s_table (p_classes p)) name = Some (Some d) ∧ v = u16 (cl_value d) ∧ 0 ≤ cl_value d) →
    found_process (set_process p v dir)) as Hfound.
  { intros name v dir Hv Hw Ho. split; [kept|]. destruct Ho as [->|(d & Hs & -> & Hd)]; [by left|right]. exists name, d.
    split; [exact Hs|]. specialize (Hw d Hs). cbn [set_process process_class]. symmetry. apply Z.mod_small. lia. }
  pose proof (ip_tables p Hp) as Ht. destruct (target_platform p =? _).
  - destruct (string_to_class p "process" Ht) as (v & -> & Hv & Ho), (string_to_class p "dir" Ht) as (d & -> & _).
    cbn [mbind option_bind]. eexists. split; [done|]. eauto.
  - destruct (string_to_class p "domain" Ht) as (v & -> & Hv & Ho). cbn [mbind option_bind]. eexists. split; [done|]. eauto.
Qed.

(** The rules are read, the contexts are not. *)
Definition ruled (p : policydb) : Prop :=
  in_progress p ∧ headed p ∧ ocontexts p = replicate 9 [] ∧ p_genfs p = [] ∧ process_known p.

Definition te_ruled (p : policydb) : Prop :=
  ruled p ∧ 0 ≤ av_nel (te_avtab p) < 2 ^ 32 ∧ av_htable (te_cond_avtab p) = None ∧ cond_list p = [].

Lemma reads_te p :
  found_process p →
  reads (λ fp, '(rc, a, fp) ← avtab_read (te_avtab p) fp (policyvers p); mret (if nz rc then None else Some (set_te p a), fp)) te_ruled.
Proof.
  intros ((Hp & Hu & Hh) & Hk) fp h Hf. apply wp_bind.
  eapply wp_mono; [apply avtab_read_spec; [done|apply Hp|apply Hu]|].
  intros [[rc a] fp'] h' (_ & Ha & [(H0 & _ & Hfi & Hn & Hf')|[H0 _]]); cbn [fst snd] in *; subst rc; [|by wp_step].
  wp_step. split; [|done]. pose proof (nel_range a Ha Hn). split; [|by destruct Hu].
  split; [|split_and!; [kept..|done]]. wrote. by split.
Qed.

Lemma reads_conds p :
  te_ruled p →
  reads (if policyvers p >=? POLICYDB_VERSION_BOOL then
           λ fp, '(rc, p, fp) ← cond_read_list p fp; mret (if nz rc then None else Some p, fp)
         else rret p) ruled.
Proof.
  intros (Hr & Hn & Hno & Hnil). apply reads_if; intros _; [|by apply reads_ret]. destruct Hr as (Hp & Hh & Ho & Hg & Hk).
  apply reads_code. intros fp h Hf. eapply wp_mono; [apply cond_read_list_spec; [done|apply Hp|done|apply Hp|done|done]|].
  intros [[rc p'] fp'] h' [Hrc (a & l & -> & Ha & Hfi & _ & Hat & Hl)]. cbn [fst snd] in *. intros ->.
  destruct Hrc as [[_ Hf']|?]; [|done]. split; [|done]. split; [|split_and!; [kept..|done]].
  wrote; [by split|]. apply Forall_forall. intros n Hin. cbn [set_cond te_cond_avtab].
  destruct (proj1 (Forall_forall _ _) Hl n Hin) as (He & Hnb & Hids). split_and!; [|intros x Hx|done..].
  - eapply Forall_impl; [exact He|]. by intros e [_ ?].
  - apply Hat. apply list_elem_of_In, in_concat. exists (rules n). split; [|by apply list_elem_of_In].
    apply list_elem_of_In, list_elem_of_fmap. eauto.
Qed.

Lemma reads_rules p : found_process p → reads (read_rules p) ruled.
Proof.
  intros Hp. unfold read_rules. eapply reads_bind; [by apply reads_te|]. intros p1 H1. eapply reads_bind; [by apply reads_conds|].
  clear. intros p (Hp & Hh & Ho & Hg & Hk). eapply reads_bind; [apply reads_role_trans, (ip_process p Hp)|]. intros l Hl. cbn zeta.
  eapply reads_bind; [apply reads_role_allow|]. intros l' Hl'.
  assert (ruled (set_role_allow (set_role_tr p l) l')) as Hr.
  { split; [|split_and!; [kept..|done]]. wrote. }
  revert Hr. generalize (set_role_allow (set_role_tr p l) l'). clear. intros p Hr.
  apply reads_if; intros _; [|by apply reads_ret]. destruct Hr as (Hp & Hh & Ho & Hg & Hk).
  eapply reads_mono; [apply reads_filename_trans, Hp|]. intros p' (h & c & -> & Hf).
  split; [|split_and!; [kept..|done]]. wrote.
Qed.

(** ** Indexing *)

Lemma reads_rstep f p Q : (∀ h, wp (f p) h (λ r _, r.1 = 0 → Q r.2)) → reads (rstep f p) Q.
Proof.
  intros Hf. unfold rstep. eapply (reads_bind _ _ (λ r : Z * policydb, r.1 = 0 → Q r.2)); [by apply reads_lift|].
  intros [rc p'] Hr. rd_guard. apply reads_ret. apply Hr. cbn [fst]. unfold nz in E. by apply negb_true_iff, negb_false_iff, Z.eqb_eq in E.
Qed.

(** The classes are indexed. *)
Definition classed (p : policydb) : Prop :=
  ruled p ∧ Z.of_nat (length (p_common_val_to_name p)) = s_nprim (p_commons p) ∧
  arrays_of class_in (s_nprim (p_classes p)) (p_class_val_to_name p) (class_val_to_struct p).

Definition process_at (p : policydb) : Prop :=
  process_class p = 0 ∨ ∃ d, class_val_to_struct p !! Z.to_nat (process_class p - 1) = Some (Some d).

Lemma reads_classes p : ruled p → reads (rstep policydb_index_classes p) (λ p, classed p ∧ process_at p).
Proof.
  intros Hr. pose proof Hr as (Hp & Hh & Ho & Hg & Hk). pose proof (ip_tables p Hp) as Ht.
  pose proof (counts_nonneg p Ht) as (Hn1 & Hn2 & _). apply reads_rstep. intros h.
  eapply wp_mono; [apply index_classes_ok; [apply Ht|apply Ht|done..]|]. intros [rc p'] h' Hc H0. cbn [fst snd] in *.
  destruct (Hc H0) as (cn & names & structs & -> & Hcn & Ha & Hs). split.
  - split; [|split; [exact Hcn|exact Ha]]. split; [|split_and!; [kept..|done]]. wrote.
  - destruct Hk as [Hk|(name & d & Hd & Hv)]; [by left|right]. exists d. cbn [set_class_index process_class class_val_to_struct].
    rewrite <- Hv. by eapply Hs.
Qed.

Lemma perm_bit_read v : 1 ≤ v ≤ 32 → ∃ b, perm_bit v = Some b.
Proof.
  intros Hv. unfold perm_bit. rewrite u32_id by lia. cbn zeta. rewrite (proj2 (Z.leb_gt _ _)) by lia. by eexists.
Qed.

Lemma perm_search s name :
  perms_ok s → ∃ o, hashtab_search (s_table s) name = Some o ∧ ∀ v, o = Some v → ∃ b, perm_bit v = Some b.
Proof.
  intros [Hs _]. destruct (filled_search _ _ name Hs) as (o & -> & Ho). exists o. split; [done|]. intros v Hv. apply perm_bit_read. by apply Ho.
Qed.

Lemma string_to_perm p name :
  classed p → process_at p → ∃ b, policydb_string_to_av_perm p (process_class p) name = Some b.
Proof.
  intros ((Hp & _) & _ & Hn & Hs & Hf) Ha. unfold policydb_string_to_av_perm. pose proof (ip_process p Hp) as H0.
  destruct (Z.eqb_spec (process_class p) 0) as [|Hne]; cbn [orb]; [by eexists|]. rewrite Z.gtb_ltb.
  destruct (Z.ltb_spec (s_nprim (p_classes p)) (process_class p)); [by eexists|]. destruct Ha as [?|[d Hd]]; [done|].
  unfold aget. rewrite (proj2 (Z.ltb_ge _ _)), Hd by lia. cbn [mbind option_bind].
  destruct (Forall_lookup_1 _ _ _ _ Hf Hd d eq_refl) as (_ & Hc & Hperms & _).
  destruct (perm_search _ name Hperms) as (o & -> & Ho). cbn [mbind option_bind]. destruct o as [v|]; [by apply Ho|].
  destruct (cl_comdatum d) as [cm|] eqn:Ec; [|by eexists]. destruct (perm_search _ name (proj2 (Hc cm eq_refl))) as (o & -> & Ho').
  cbn [mbind option_bind]. destruct o as [v|]; [by apply Ho'|by eexists].
Qed.

Lemma find_transitions_ok p : classed p → process_at p → ∃ p', find_transitions p = Some p' ∧ classed p'.
Proof.
  intros Hc Hp. unfold find_transitions. destruct (string_to_perm p "transition" Hc Hp) as [t ->], (string_to_perm p "dyntransition" Hc Hp) as [d ->].
  cbn [mbind option_bind]. eexists. split; [done|]. destruct Hc as ((Hip & Hh & Ho & Hg & Hk) & Hcn & Ha).
  split; [|split; [exact Hcn|exact Ha]]. split; [|split_and!; [kept..|done]]. wrote.
Qed.

(** All arrays are there. *)
Record arrays_read (p : policydb) : Prop := {
  rd_commons : Z.of_nat (length (p_common_val_to_name p)) = s_nprim (p_commons p);
  rd_classes : Z.of_nat (length (p_class_val_to_name p)) = s_nprim (p_classes p);
  rd_roles : Z.of_nat (length (p_role_val_to_name p)) = s_nprim (p_roles p);
  rd_type_names : Z.of_nat (length (p_type_val_to_name p)) = s_nprim (p_types p);
  rd_users : Z.of_nat (length (p_user_val_to_name p)) = s_nprim (p_users p);
  rd_bools : Z.of_nat (length (p_bool_val_to_name p)) = p_bools_nprim p;
  rd_sens : Z.of_nat (length (p_sens_val_to_name p)) = s_nprim (p_levels p);
  rd_cats : Z.of_nat (length (p_cat_val_to_name p)) = s_nprim (p_cats p);
  rd_class_structs : Z.of_nat (length (class_val_to_struct p)) = s_nprim (p_classes p);
  rd_role_structs : Z.of_nat (length (role_val_to_struct p)) = s_nprim (p_roles p);
  rd_type_structs : Z.of_nat (length (type_val_to_struct p)) = s_nprim (p_types p);
  rd_user_structs : Z.of_nat (length (user_val_to_struct p)) = s_nprim (p_users p);
  rd_bool_structs : Z.of_nat (length (bool_val_to_struct p)) = p_bools_nprim p
}.

Definition indexed (p : policydb) : Prop := in_progress p ∧ headed p ∧ arrays_read p.

Lemma reads_others p :
  classed p → reads (rstep policydb_index_others p) (λ p, indexed p ∧ ocontexts p = replicate 9 [] ∧ p_genfs p = []).
Proof.
  intros ((Hp & Hh & Ho & Hg & Hk) & Hcn & Hn & Hs & _). apply reads_rstep. intros h.
  eapply wp_mono; [apply index_others_ok, Hp|]. intros [rc p'] h' Hr H0. cbn [fst snd] in *. destruct (Hr H0) as (a & Ha & Hc).
  clear Hr H0. destruct Hc as (rt & rs & ut & us & -> & Hrt & Hrs & Hut & Hus).
  destruct Ha as (L1 & [L2 _] & L3 & L4 & L5 & L6 & L7 & L8 & L9 & L10).
  destruct p. cbn in Hcn, Hn, Hs, Ho, Hg. split; [|by split]. split; [|split; [by destruct Hh|]].
  - destruct Hp as [[]]. split; [split|..]; try assumption.
  - split; cbn; try assumption; [apply L5|apply L6|apply L7|apply L8|apply L9|apply L10]; lia.
Qed.

Lemma filled_sym {V} (s : symtab V) (P Q : V → Prop) : (∀ d, P d → Q d) → filled (λ _, P) (s_table s) → sym_ok s Q.
Proof.
  intros HPQ (h & Hs & Hw & HP). exists h. split_and!; [done..|]. intros k d Hd. apply HPQ. apply (entries_dict (λ _, P)) in HP; [|done].
  by eapply HP.
Qed.

Lemma indexed_symbols p : indexed p → symbols_ok p.
Proof.
  intros ([[] _ _ _ _ _ _ _ _ _] & _ & []). split; try assumption; (eapply filled_sym; [|eassumption]).
  - intros d [_ ?]. apply H.
  - intros d [_ ?]. apply H.
  - intros d [_ ?]. apply H.
  - intros d [_ ?]. apply H.
  - done.
Qed.

(** ** Contexts, ranges and maps *)

Definition paths_ok (platform : Z) (g : genfs) : Prop := Forall (ocontext_data platform (-1)) (gf_head g).

(** Everything but the maps of types is read. *)
Definition contexts_labelled (p : policydb) : Prop :=
  indexed p ∧ ocontexts_ok (target_platform p) (ocontexts p) ∧ Forall (paths_ok (target_platform p)) (p_genfs p).

Definition contexts_read (p : policydb) : Prop :=
  indexed p ∧ ocontexts_ok (target_platform p) (ocontexts p) ∧ p_genfs p = [].

Lemma reads_contexts info p :
  info_ok info → indexed p → ocontexts p = replicate 9 [] → p_genfs p = [] → reads (ocontext_read (ci_ocon_num info) p) contexts_read.
Proof.
  intros Hi Hp Ho Hg. eapply reads_mono; [apply reads_ocontexts; [by apply indexed_symbols|done|apply Hp|done]|].
  intros p1 (l & -> & Hl). destruct Hp as (Hp & Hh & []). split; [|by split]. split; [wrote|]. split; [kept|by split].
Qed.

Lemma reads_paths p : contexts_read p → reads (genfs_read p) contexts_labelled.
Proof.
  intros (Hp & Ho & Hg). eapply reads_mono; [apply reads_genfs; [by apply indexed_symbols|rewrite Hg; constructor]|].
  intros p1 (g & -> & Hgs). destruct Hp as (Hp & Hh & []). split; [split; [wrote|split; [kept|by split]]|]. split; [exact Ho|].
  eapply Forall_impl; [exact Hgs|]. intros x Hx. eapply Forall_impl; [exact Hx|]. by intros c [_ ?].
Qed.

Lemma reads_mls p : contexts_labelled p → reads (if policyvers p >=? POLICYDB_VERSION_MLS then range_read p else rret p) contexts_labelled.
Proof.
  intros Hlab. apply reads_if; intros _; [|by apply reads_ret]. destruct Hlab as ((Hp & Hh & Ha) & Ho & Hg).
  eapply reads_mono; [apply reads_ranges; apply Hp|]. intros p' (h & -> & Hr). split; [|by split].
  split; [wrote|]. split; [kept|]. destruct Ha. by split.
Qed.

Lemma invert_attrs_ok nprim i bits amap h :
  Forall (λ j, 0 ≤ j) bits → is_u32 i → Z.of_nat (length amap) = nprim → Forall wf amap →
  wp (invert_attrs nprim i bits amap) h (λ r _, ∀ l, r = Some l → Z.of_nat (length l) = nprim ∧ Forall wf l).
Proof.
  intros Hb Hi. revert amap h. induction Hb as [|j bits Hj _ IH]; intros amap h Hl Hw; cbn [invert_attrs].
  { wp_step. by intros l [= <-]. }
  destruct (i =? j); [by apply IH|]. rewrite Z.geb_leb. destruct (Z.leb_spec nprim j); [by wp_step|].
  unfold aget. rewrite (proj2 (Z.ltb_ge _ _)) by lia. destruct (lookup_lt_is_Some_2 amap (Z.to_nat j)) as [e He]; [lia|]. rewrite He.
  do 3 wp_step. eapply wp_mono; [apply set_bit_wf; [|done]|]; [by eapply Forall_lookup_1|].
  intros [rc e'] h' He'. cbn [snd] in He'. destruct (nz rc); [by wp_step|]. rewrite aset_inside by lia. do 2 wp_step.
  apply IH; [by rewrite length_insert|by apply Forall_insert].
Qed.

(** The maps with [k] types to go. *)
Definition type_maps_ok (n : Z) (k : nat) (s : list ebitmap * list ebitmap * Z) : Prop :=
  (Z.of_nat (length s.1.1) = n ∧ Forall wf s.1.1) ∧ (Z.of_nat (length s.1.2) = n ∧ Forall wf s.1.2) ∧ 0 ≤ s.2 ∧ s.2 + Z.of_nat k = n.

(** Setting the bit [i] in the map of [i]. *)
Lemma reads_set_bit {B} e i (l : list ebitmap) n (k : list ebitmap → reader B) Q :
  wf e → 0 ≤ i < n → n < 2 ^ 32 → Z.of_nat (length l) = n → Forall wf l →
  (∀ l', Z.of_nat (length l') = n → Forall wf l' → reads (k l') Q) →
  reads ('(rc, e) <~ lift (ebitmap_set_bit e i true) ;; guard negb (nz rc) ;; l <~ lift (get (aset l i e)) ;; k l) Q.
Proof.
  intros He Hi Hn Hl Hw Hk. eapply (reads_bind _ _ (λ r : Z * ebitmap, wf r.2)).
  { apply reads_lift. intros h. apply set_bit_wf; [done|]. split; lia. }
  intros [rc e'] He'. rd_guard. eapply (reads_bind _ _ (λ l', l' = <[Z.to_nat i := e']> l)).
  { apply (reads_get _ (<[Z.to_nat i := e']> l)); [apply aset_inside; lia|done]. }
  intros ? ->. apply Hk; [by rewrite length_insert|by apply Forall_insert].
Qed.

Lemma reads_aget {A} (l : list A) i (P : A → Prop) :
  0 ≤ i < Z.of_nat (length l) → Forall P l → reads (lift (get (aget l i))) P.
Proof.
  intros Hi Hl. destruct (lookup_lt_is_Some_2 l (Z.to_nat i)) as [x Hx]; [lia|]. apply (reads_get _ x).
  - unfold aget. by rewrite (proj2 (Z.ltb_ge _ _)) by lia.
  - by eapply Forall_lookup_1.
Qed.

Lemma positive_bits_run e : wf e → ∃ bits, ebitmap_for_each_positive_bit e = Some bits ∧ Forall (λ j, 0 ≤ j) bits.
Proof.
  intros He. exists (set_bits (e_node e)). split; [by apply positive_bits_set_bits|]. apply Forall_forall. intros j Hj.
  destruct He as [Hok _]. by eapply set_bits_lower.
Qed.

Lemma reads_type_map p k s :
  indexed p → type_maps_ok (s_nprim (p_types p)) (S k) s → reads (read_type_map p s) (type_maps_ok (s_nprim (p_types p)) k).
Proof.
  intros (Hp & _ & Ha). destruct s as [[tmap amap] i]. intros ([Ht Hwt] & [Hm Hwm] & Hi & Hk). cbn [fst snd] in *.
  pose proof (ti_counts p (ip_tables p Hp)) as Hc. rewrite !Forall_cons in Hc. destruct Hc as (_ & _ & _ & Hn & _).
  set (n := s_nprim (p_types p)) in *. unfold read_type_map.
  eapply (reads_bind _ _ (λ r, wf r.1 ∧ Z.of_nat (length r.2) = n ∧ Forall wf r.2)).
  { apply reads_if; intros _.
    - rd. intros e He. destruct (positive_bits_run e He) as (bits & Hb & Hbits).
      eapply reads_bind; [by apply (reads_get _ bits (λ x, x = bits))|]. intros ? ->.
      eapply (reads_bind _ _ (λ r, ∀ l, r = Some l → Z.of_nat (length l) = n ∧ Forall wf l)).
      { apply reads_lift. intros h. apply invert_attrs_ok; [done|split; unfold is_u32 in Hn; lia|done..]. }
      intros [l|] Hl; [|apply reads_fail]. apply reads_ret. split; [done|]. by apply Hl.
    - eapply reads_bind; [apply (reads_aget _ _ wf); [lia|done]|]. intros e He. by apply reads_ret. }
  intros [e amap'] (He & Hm' & Hwm'). cbn [fst snd] in *. unfold is_u32 in Hn.
  apply (reads_set_bit _ _ _ n); [done|lia|lia|done..|]. intros tmap' Ht' Hwt'.
  eapply reads_bind; [apply (reads_aget _ _ (λ _, True)); [rewrite (rd_type_structs p Ha); fold n; lia|by apply Forall_true]|].
  intros type _. apply reads_if; intros _.
  - eapply reads_bind; [apply (reads_aget _ _ wf); [lia|done]|]. intros e' He'.
    apply (reads_set_bit _ _ _ n); [done|lia|lia|done..|]. intros amap2 Hm2 Hwm2. apply reads_ret. split_and!; cbn [fst snd]; done || lia.
  - apply reads_ret. split_and!; cbn [fst snd]; done || lia.
Qed.

(** The policy before validation. *)
Definition read_through (p : policydb) : Prop :=
  contexts_labelled p ∧ Z.of_nat (length (type_attr_map p)) = s_nprim (p_types p) ∧ Forall wf (type_attr_map p).

Lemma reads_type_maps p : contexts_labelled p → reads (read_type_maps p) read_through.
Proof.
  intros Hl. pose proof Hl as (Hx & _). pose proof (counts_nonneg p (ip_tables p (proj1 Hx))) as (_ & _ & _ & Hn & _).
  unfold read_type_maps. cbn zeta. do 2 rd_alloc.
  eapply reads_bind; [apply (reads_counted _ _ _ (type_maps_ok (s_nprim (p_types p)))); [|intros k s; by apply reads_type_map]|].
  - split_and!; cbn [fst snd]; try (rewrite length_replicate; lia); try (apply Forall_replicate, wf_init); lia.
  - intros [[tmap amap] i] ([Ht Hwt] & _). apply reads_ret. destruct Hl as ((Hp & Hh & []) & Ho & Hg).
    split; [|by split]. split; [|by split]. split; [wrote|]. split; [kept|by split].
Qed.

(** ** The data of the policy *)

Lemma suffix_at_addr x c : x ∈ an_addr <$> c → is_Some (suffix_at x c).
Proof.
  induction c as [|n c IH]; [by intros ?%elem_of_nil|]. cbn [fmap list_fmap suffix_at]. destruct (Z.eqb_spec (an_addr n) x); [by eexists|].
  intros [?|?]%elem_of_cons; [congruence|]. by apply IH.
Qed.

Lemma node_at_chain a x : is_Some (node_at a x) → is_Some (chain_from a x).
Proof.
  unfold node_at, chain_from. intros [n Hn]. apply fmap_Some in Hn as ([i m] & Hf & _). apply list_find_Some in Hf as (Hm & Hx & _).
  apply list_elem_of_lookup_2 in Hm. destruct (av_htable a) as [t|]; [|by apply elem_of_nil in Hm]. cbn [default mbind option_bind] in *.
  apply list_elem_of_In, in_concat in Hm as (c & Hc%list_elem_of_In & Hmc%list_elem_of_In).
  destruct (suffix_at_addr x c) as [s Hs]; [apply list_elem_of_fmap; eauto|].
  assert (s ∈ omap (suffix_at x) t) as Hin by (apply list_elem_of_omap; eauto). destruct (omap (suffix_at x) t); [by apply elem_of_nil in Hin|by eexists].
Qed.

Lemma cond_in_data p c : cond_in (te_cond_avtab p) c → cond_data p c.
Proof.
  intros (He & Hr & Hn & Hi). split; [done| | |lia].
  - apply Forall_forall. intros x Hx. by apply node_at_chain, Hr.
  - rewrite Hi. split; [done|]. by apply Forall_replicate.
Qed.

Lemma fields_rules a : fields_ok a → every_rule a rule_data.
Proof.
  intros H. eapply Forall_impl; [exact H|]. intros n (Hk & Hd & Hx). split_and!; [apply Hk..|done|]. intros Hxk. apply Hx.
  unfold is_xperms_key in Hxk. unfold nz. by destruct (Z.eqb_spec (Z.land (ak_specified (an_key n)) AVTAB_XPERMS) 0).
Qed.

Lemma filled_data {V} t (P Q : V → Prop) : (∀ d, P d → Q d) → filled (λ _, P) t → table_data t Q.
Proof. intros HPQ Ht. apply filled_entries. eapply filled_mono; [|exact Ht]. cbn beta. eauto. Qed.

Lemma tables_in_data p : tables_in p → tables_data p.
Proof.
  assert (∀ c, common_in c → common_data c) as Hcm by (intros c ([? _] & _ & ?); by split).
  intros []. split; (eapply filled_data; [|eassumption]); [done| |by intros ? []..|by intros ? []|done].
  intros c ([? _] & Hc & [_ ?] & ? & ?). split_and!; [done| |done..]. intros cm E. by apply Hcm, Hc.
Qed.

Lemma read_arrays p : tables_in p → arrays_read p → Z.of_nat (length (type_attr_map p)) = s_nprim (p_types p) →
  Z.of_nat (length (ocontexts p)) = OCON_NUM → arrays_data p.
Proof.
  intros Ht [] Hm Ho. pose proof (ti_counts p Ht) as Hc. rewrite !Forall_cons in Hc.
  destruct Hc as (? & ? & ? & ? & ? & ? & ? & ? & _). split; try assumption; by split.
Qed.

Lemma read_through_data p : read_through p → policy_data p.
Proof.
  intros (((Hp & Hh & Ha) & [Ho1 Ho2] & Hg) & Hm & Hw). pose proof (ip_tables p Hp) as Ht. split; try assumption.
  - apply Hh.
  - by apply read_arrays.
  - by apply tables_in_data.
  - split; [apply Hp|]. apply fields_rules, Hp.
  - eapply Forall_impl; [apply fields_rules, Hp|]. by intros n [? _].
  - eapply Forall_impl; [apply Hp|]. intros c. apply cond_in_data.
  - apply Hp.
  - apply Hp.
  - apply filled_entries. eapply filled_mono; [|apply Hp]. apply filename_ok_data.
  - intros i l Hl. pose proof (lookup_lt_Some _ _ _ Hl) as Hlt. destruct (decide (0 ≤ i)) as [Hi|Hi].
    + rewrite <- (Z2Nat.id i) by done. by apply Ho2.
    + eapply Forall_impl; [by apply Ho2|]. intros o. destruct (Z.to_nat i) eqn:E; [|lia]. intros (? & ? & ? & Hport). split_and!; try done.
      intros ? ->. done.
  - apply Hp.
  - apply filled_entries, Hp.
Qed.
