(* ===== verification/PolicyInitFacts.v ===== *)
(** * The initial policy is in order

    What [policydb_init] leaves, and when it fails. *)

From S2P Require Import Prelude PolicyFile Ebitmap EbitmapFacts EbitmapIter Hashtab HashtabFacts HashtabSpec Avtab AvtabFacts.
From S2P Require Import Mls Policydb MlsPolicy MlsFacts Conditional ConditionalFacts ConditionalSpec Context ContextSpec Constraint ObjectSid Optimize.
From S2P Require Import Validate ValidateFacts ValidateRules PolicySetters ReadPolicy IndexPolicy PolicydbRead PolicydbInit.
From S2P Require Import ReadFacts ReadRulesFacts IndexFacts PolicyReadFacts.

(** [m] gives a result with code 0 in [Q], or memory ran out. *)
Definition makes {A} (m : M (Z * A)) (h : heap) (Q : A → Prop) : Prop :=
  wp m h (λ r h', heap_le h h' ∧ (r.1 = 0 ∧ Q r.2 ∨ r.1 ≠ 0 ∧ hp_oom h ≠ [])).

Lemma makes_bind {A B} (m : M (Z * A)) (k : A → M (Z * B)) h (err : Z → A → Z * B) Q R :
  makes m h Q → (∀ x h', Q x → makes (k x) h' R) → (∀ rc x, rc ≠ 0 → (err rc x).1 ≠ 0) →
  makes ('(rc, x) ← m; if nz rc then mret (err rc x) else k x) h R.
Proof.
  intros Hm Hk He. unfold makes in *. apply wp_bind. eapply wp_mono; [exact Hm|]. intros [rc x] h1 [Hle Hx]. cbn [fst snd] in Hx.
  destruct Hx as [[-> Hq]|[Hne Ho]].
  - change (nz 0) with false. cbn iota. eapply wp_mono; [by apply Hk|]. intros r h2 [Hle2 Hr]. split; [by etrans|].
    destruct Hr as [?|[? ?]]; [by left|right]. split; [done|]. by eapply heap_le_oom.
  - unfold nz. rewrite (proj2 (Z.eqb_neq _ _)) by done. cbn [negb]. wp_step. split; [done|]. right. by split; [apply He|].
Qed.

Definition empty_table {V} (s : symtab V) : Prop := filled (λ _ (_ : V), False) (s_table s) ∧ s_nprim s = 0.

Lemma create_empty {K V} `{HashKeyLaws K, !EqDecision K, !Countable K} size k h (Q : option (hashtab K V) → heap → Prop) :
  0 ≤ k ≤ 31 → size = 2 ^ k →
  (∀ t h', heap_le h h' → filled (λ _ _, False) (Some t) → Q (Some t) h') → (∀ h', heap_le h h' → hp_oom h ≠ [] → Q None h') →
  wp (hashtab_create size) h Q.
Proof.
  intros Hk -> HS HN. eapply wp_mono; [by apply create_spec|]. intros [t|] h' [Hle Ht]; [apply HS|by apply HN]; [done|].
  destruct Ht as (Hw & Hd & _). exists t. split_and!; [done..|]. apply (entries_dict (λ _ _, False)); [done|]. rewrite Hd. apply map_Forall_empty.
Qed.

Lemma symtab_init_empty {V} size k h : 0 ≤ k ≤ 31 → size = 2 ^ k → makes (symtab_init (Symtab None 0) size) h (empty_table (V := V)).
Proof.
  intros Hk Hs. unfold makes, symtab_init. wp_step. apply (create_empty _ k); [done..| |].
  - intros t h' Hle Ht. wp_step. split; [done|]. by left.
  - intros h' Hle Ho. wp_step. split; [done|]. by right.
Qed.

Lemma empty_filled {V} (s : symtab V) D : empty_table s → filled (λ _, D) (s_table s).
Proof. intros [Hs _]. by eapply filled_mono; [|exact Hs]. Qed.

(** Made of tables of the given sizes. *)
Lemma symtabs_init_empty {V} sizes h :
  Forall (λ s, ∃ k, 0 ≤ k ≤ 31 ∧ s = 2 ^ k) sizes →
  gives_or_fails (symtabs_init (V := V) sizes) h False (λ l, length l = length sizes ∧ Forall empty_table l).
Proof.
  unfold gives_or_fails. intros Hs. revert h. induction Hs as [|size sizes (k & Hk & ->) _ IH]; intros h; cbn [symtabs_init]; [by wp_step|].
  wp_step. eapply wp_mono; [by apply (symtab_init_empty _ k)|]. intros [rc s] h1 [Hle Hx]. cbn [fst snd] in Hx.
  destruct Hx as [[-> Hq]|[Hne Ho]].
  - change (nz 0) with false. cbn iota. wp_step. eapply wp_mono; [apply IH|]. intros [l|] h2 [Hle2 Hl]; wp_step; (split; [by etrans|]).
    + cbn [length]. destruct Hl as [-> Hl]. split; [done|]. by constructor.
    + left. destruct Hl as [Hl|[]]. by eapply heap_le_oom.
  - unfold nz. rewrite (proj2 (Z.eqb_neq _ _)) by done. cbn [negb]. wp_step. split; [done|]. by left.
Qed.

(** Reading what was written through a found datum. *)
Lemma search_written {V} (t : hashtab string V) k v f :
  hwf t → dict t !! k = Some v → hashtab_search (hashtab_write (Some t) k f) k = Some (Some (f v)).
Proof.
  intros Hw Hv. destruct (write_filled (λ _ _, True) (Some t) k f) as (t' & Ht' & Hw' & _); [done|exists t; split_and!; [done..|by apply Forall_true]|].
  rewrite Ht', search_spec by done. f_equal. apply dict_lookup; [done|]. injection Ht' as <-. cbn [ht_table]. rewrite <- concat_map.
  apply dict_lookup in Hv; [|done]. apply list_elem_of_In, in_map_iff. exists (k, v). split; [|by apply list_elem_of_In].
  cbn [fst snd]. change (symcmp k k) with (keycmp k k). by rewrite (proj2 (keycmp_eq k k) eq_refl).
Qed.

(** ** The implicit role *)

(** The scope of a symbol that is declared for the first time. *)
Lemma scope_create_ok scopes key h :
  filled (λ _ (_ : scope_datum), False) scopes → makes (scope_create scopes key SCOPE_DECL) h (λ _, True).
Proof.
  intros (t & -> & Hw & Ht). unfold makes, scope_create, strdup. do 4 wp_step; [split; [done|]; by right|]. do 2 wp_step.
  { split; [by etrans|]. right. split; [done|]. by eapply heap_le_oom. }
  eapply wp_mono; [by apply insert_spec|]. intros [rc t'] h2 [Hle2 (t1 & _ & _ & Hr)]. cbn [fst snd] in *. split; [by repeat (etrans; [eassumption|])|].
  apply (entries_dict (λ _ _, False)) in Ht; [|done]. destruct Hr as [(-> & _)|[(_ & [d Hd] & _)|(-> & _ & _ & Ho)]].
  - by left.
  - by destruct (Ht _ _ Hd).
  - right. split; [done|]. by eapply heap_le_oom; [|eapply heap_le_oom].
Qed.

Lemma scope_add_ok scopes key h : makes (scope_add scopes key (ScopeDatum SCOPE_DECL []) SCOPE_DECL 1 0) h (λ _, True).
Proof.
  unfold makes, scope_add, add_i_to_a. cbn [sc_decl_ids]. rewrite bool_decide_false by by intros ?%elem_of_nil. do 4 wp_step.
  - split; [done|]. by right.
  - split; [done|]. by left.
Qed.

Lemma wp_makes {A} (m : M (Z * A)) h0 h (Q : A → Prop) (R : Z * A → heap → Prop) :
  heap_le h0 h → makes m h Q →
  (∀ x h', heap_le h0 h' → Q x → R (0, x) h') → (∀ rc x h', heap_le h0 h' → rc ≠ 0 → hp_oom h0 ≠ [] → R (rc, x) h') →
  wp m h R.
Proof.
  intros Hle Hm H0 H1. eapply wp_mono; [exact Hm|]. intros [rc x] h' [Hle' Hx]. cbn [fst snd] in Hx.
  destruct Hx as [[-> Hq]|[Hne Ho]]; [apply H0|apply H1]; try done; [by etrans..|]. by eapply heap_le_oom.
Qed.

(** The role is in the table, with its value. *)
Definition object_r_in (s : symtab role_datum) : Prop :=
  filled (λ _, role_in) (s_table s) ∧ s_nprim s = 1 ∧ hashtab_search (s_table s) OBJECT_R = Some (Some (set_role_value role_init 1)).

Lemma object_r_inserted t1 :
  hwf t1 → dict t1 = {[OBJECT_R := role_init]} → object_r_in (Symtab (hashtab_write (Some t1) OBJECT_R (λ d, set_role_value d 1)) 1).
Proof.
  intros Hw Hd. assert (role_in role_init) as Hr by (split; [split_and!; done || apply wf_init|done]).
  split_and!; [|done|]; cbn [s_table].
  - apply write_filled; [intros v [(? & ? & ? & ?) ?]; by split|]. exists t1. split_and!; [done..|]. apply (entries_dict (λ _, role_in)); [done|].
    rewrite Hd. by apply map_Forall_singleton.
  - apply (search_written t1 OBJECT_R role_init (λ d, set_role_value d 1)); [done|]. rewrite Hd. apply lookup_singleton_eq.
Qed.

Lemma object_r_insert s scopes h :
  empty_table s → filled (λ _ (_ : scope_datum), False) scopes →
  wp (symtab_insert SYM_ROLES (λ _, ROLE_ROLE) set_role_value s scopes OBJECT_R role_init SCOPE_DECL 1) h
    (λ '(rc, s', _) h', heap_le h h' ∧ (rc = 0 ∧ object_r_in s' ∨ rc ≠ 0 ∧ hp_oom h ≠ [])).
Proof.
  intros [(t & Ht & Hw & Hd) Hn] Hs. unfold symtab_insert. rewrite Hn, Ht. wp_step.
  eapply wp_mono; [by apply insert_spec|]. intros [rc t'] h1 [Hle (t1 & Ht1 & Hw1 & Hr)]. cbn [fst snd] in *. subst t'.
  apply (entries_dict (λ _ _, False)) in Hd; [|done].
  destruct Hr as [(-> & _ & Hd1)|[(_ & [d Hdd] & _)|(-> & _ & _ & Ho)]]; [|by destruct (Hd _ _ Hdd)|].
  2:{ change (negb (SEPOL_ENOMEM =? SEPOL_OK) && negb (SEPOL_ENOMEM =? SEPOL_EEXIST)) with true. cbn iota. wp_step.
      split; [done|]. by right. }
  change (negb (SEPOL_OK =? SEPOL_OK) && negb (SEPOL_OK =? SEPOL_EEXIST)) with false. cbn iota zeta. change (SEPOL_OK =? SEPOL_OK) with true. cbn iota.
  assert (dict t = ∅) as He by (apply map_empty; intros k; destruct (dict t !! k) eqn:E; [by destruct (Hd _ _ E)|done]).
  rewrite He in Hd1. change (u32 (0 + 1)) with 1. pose proof (object_r_inserted t1 Hw1 Hd1) as Hobj.
  set (s' := Symtab _ 1) in *. clearbody s'.
  destruct (filled_search _ _ OBJECT_R Hs) as (o & Hso & Ho). rewrite Hso. destruct o as [sd|]; [by destruct (Ho sd)|]. do 3 wp_step.
  apply (wp_makes _ h _ (λ _, True)); [done|by apply scope_create_ok|..].
  - intros scopes' h2 Hle2 _. change (nz 0) with false. cbn iota. wp_step.
    apply (wp_makes _ h _ (λ _, True)); [done|apply scope_add_ok|..].
    + intros x h3 Hle3 _. wp_step. split; [done|]. by left.
    + intros rc x h3 Hle3 Hne Hoom. wp_step. split; [done|]. by right.
  - intros rc x h2 Hle2 Hne Hoom. unfold nz. rewrite (proj2 (Z.eqb_neq _ _)) by done. cbn [negb]. wp_step. split; [done|]. by right.
Qed.

Lemma roles_init_ok p scopes h :
  empty_table (p_roles p) → policy_type p = POLICY_KERN → filled (λ _ (_ : scope_datum), False) scopes →
  makes (roles_init p scopes) h (λ p', ∃ s, p' = set_roles p s ∧ filled (λ _, role_in) (s_table s) ∧ s_nprim s = 1).
Proof.
  intros Hr Hk Hs. unfold makes, roles_init, strdup. rewrite Hk. change (POLICY_KERN =? POLICY_MOD) with false. cbn iota.
  do 2 wp_step; [split; [done|]; by right|]. rename h' into h1. do 4 wp_step; [split; [by etrans|]; right; split; [done|by eapply heap_le_oom]|].
  rename h' into h2. assert (heap_le h h2) as Hle2 by by etrans. wp_step. eapply wp_mono; [by apply object_r_insert|]. intros [[rc s] scopes'] h3 [Hle Hx].
  assert (heap_le h h3) as Hle3 by by etrans. cbn zeta.
  destruct Hx as [[-> (Hf & Hn & Hsearch)]|[Hne Ho]].
  - change (nz 0) with false. cbn iota. rewrite Hsearch. do 2 wp_step. cbn iota. wp_step. split; [done|]. left. eauto.
  - unfold nz. rewrite (proj2 (Z.eqb_neq _ _)) by done. cbn [negb]. wp_step. split; [done|]. right. split; [done|].
    eapply heap_le_oom; [|exact Ho]. done.
Qed.

(** ** [policydb_init] *)

(** The policy with empty tables, but for the role. *)
Definition with_tables (p : policydb) : Prop :=
  empty_table (p_commons p) ∧ empty_table (p_classes p) ∧ empty_table (p_roles p) ∧ empty_table (p_types p) ∧ empty_table (p_users p) ∧
  empty_table (Symtab (p_bools_table p) (p_bools_nprim p)) ∧ empty_table (p_levels p) ∧ empty_table (p_cats p).

Lemma policydb_symtabs_ok p h :
  makes (policydb_symtabs p) h (λ p', with_tables p' ∧ ∃ s1 s2 s3 s4 s5 t n s7 s8,
    p' = set_cats (set_levels (set_bools (set_users (set_types (set_roles (set_classes (set_commons p s1) s2) s3) s4) s5) t n) s7) s8).
Proof.
  unfold policydb_symtabs.
  eapply makes_bind; [by apply (symtab_init_empty _ 1)|intros s1 h1 H1|done].
  eapply makes_bind; [by apply (symtab_init_empty _ 5)|intros s2 h2 H2|done].
  eapply makes_bind; [by apply (symtab_init_empty _ 4)|intros s3 h3 H3|done].
  eapply makes_bind; [by apply (symtab_init_empty _ 9)|intros s4 h4 H4|done].
  eapply makes_bind; [by apply (symtab_init_empty _ 7)|intros s5 h5 H5|done].
  eapply makes_bind; [by apply (symtab_init_empty _ 4)|intros s6 h6 H6|done].
  eapply makes_bind; [by apply (symtab_init_empty _ 4)|intros s7 h7 H7|done].
  eapply makes_bind; [by apply (symtab_init_empty _ 4)|intros s8 h8 H8|done].
  unfold makes. wp_step. split; [done|]. left. split; [done|]. split; [|by eexists _, _, _, _, _, _, _, _, _].
  destruct s6. by split_and!.
Qed.

(** The fields that are not tables of symbols. *)
Definition zero_fields (p : policydb) : Prop :=
  te_avtab p = Avtab None 0 0 0 ∧ te_cond_avtab p = Avtab None 0 0 0 ∧ cond_list p = [] ∧ role_tr p = [] ∧ p_role_allow p = [] ∧
  process_class p = 0 ∧ ocontexts p = replicate 9 [] ∧ p_genfs p = [] ∧ policy_type p = POLICY_KERN.

Lemma empty_in_progress p s f n r :
  with_tables p → zero_fields p → filled (λ _, role_in) (s_table s) → s_nprim s = 1 →
  filled (λ _ _, False) f → filled (λ _ _, False) r →
  initialised (set_permissive (set_caps (set_range_tr (set_filename_trans (set_cond (set_roles p s) [] (Avtab None 0 0 0) []) f n) r)
    ebitmap_init) ebitmap_init).
Proof.
  intros (T1 & T2 & _ & T4 & T5 & T6 & T7 & T8) (Z1 & _ & _ & Z4 & Z5 & Z6 & Z7 & Z8 & _) Hs Hn Hf Hr.
  assert (∀ x, x = 0 → is_u32 x) as Hz by (intros x ->; done). destruct p. cbn in *. subst. split; [split|by split].
  - pose proof T6 as [_ Hb]. split; cbn; try (by apply empty_filled); [done|by apply (empty_filled _ bool_in) in T6|].
    repeat (apply Forall_cons_2; [by first [apply Hz, T1|apply Hz, T2|rewrite Hn|apply Hz, T4|apply Hz, T5|apply Hz, Hb|apply Hz, T7|apply Hz, T8]|]).
    apply Forall_nil_2.
  - split; [done|]. constructor.
  - split; [done|]. constructor.
  - constructor.
  - constructor.
  - constructor.
  - eapply filled_mono; [|exact Hf]. done.
  - eapply filled_mono; [|exact Hr]. done.
  - apply wf_init.
  - done.
Qed.

Lemma symtab_sizes_ok : Forall (λ s, ∃ k, 0 ≤ k ≤ 31 ∧ s = 2 ^ k) symtab_sizes.
Proof.
  unfold symtab_sizes. repeat (apply Forall_cons_2; [first [by exists 1|by exists 5|by exists 4|by exists 9|by exists 7]|]). apply Forall_nil_2.
Qed.

(** A policy, or memory ran out. *)
Definition made (h0 : heap) (r : Z * option policydb) (h : heap) : Prop :=
  heap_le h0 h ∧ match r.2 with Some p => r.1 = 0 ∧ initialised p | None => hp_oom h0 ≠ [] end.

Lemma lost h0 h rc : heap_le h0 h → hp_oom h0 ≠ [] → wp (mret (rc, None)) h (made h0).
Proof. intros. wp_step. by split. Qed.

Lemma wp_gives {A} (m : M (option A)) h0 h (Q : A → Prop) (R : option A → heap → Prop) :
  heap_le h0 h → gives_or_fails m h False Q →
  (∀ x h', heap_le h0 h' → Q x → R (Some x) h') → (∀ h', heap_le h0 h' → hp_oom h0 ≠ [] → R None h') → wp m h R.
Proof.
  intros Hle Hm H0 H1. eapply wp_mono; [exact Hm|]. intros [x|] h' [Hle' Hx]; [apply H0|apply H1]; try done; [by etrans..|].
  destruct Hx as [Hx|[]]. by eapply heap_le_oom.
Qed.

Lemma malloc_gives h : gives_or_fails malloc h False (λ _, True).
Proof. unfold gives_or_fails. wp_step; (split; [done|]); [by left|done]. Qed.

Lemma decl_created h : gives_or_fails avrule_decl_create h False (λ _, True).
Proof.
  unfold avrule_decl_create. apply (gives_bind_or_fail _ _ _ False False (λ _, True)); [apply malloc_gives|done|]. intros _ h' _.
  eapply wp_mono; [apply symtabs_init_empty, symtab_sizes_ok|]. intros [l|] h'' [? ?]; by split.
Qed.

Lemma create_gives {K V} `{HashKeyLaws K, !EqDecision K, !Countable K} size k h :
  0 ≤ k ≤ 31 → size = 2 ^ k → gives_or_fails (hashtab_create (K := K) (V := V) size) h False (λ t, filled (λ _ _, False) (Some t)).
Proof. intros Hk Hs. unfold gives_or_fails. apply (create_empty _ k); [done..| |]; intros; (split; [done|]); [done|by left]. Qed.

Lemma policydb_init_made h : wp policydb_init h (made h).
Proof.
  unfold policydb_init. wp_step. apply (wp_makes _ h _ _ _ (reflexivity h) (policydb_symtabs_ok policydb_zero h)); cycle 1.
  { intros rc x h1 Hle Hne Ho. unfold nz. rewrite (proj2 (Z.eqb_neq _ _)) by done. cbn [negb]. by apply lost. }
  intros p h1 Hle1 [Ht (s1 & s2 & s3 & s4 & s5 & t & n & s7 & s8 & Hp)]. change (nz 0) with false. cbn iota.
  assert (zero_fields p) as Hz by by rewrite Hp. clear Hp. wp_step.
  apply (wp_gives _ h _ _ _ Hle1 (symtabs_init_empty symtab_sizes h1 symtab_sizes_ok)); [|intros; by apply lost].
  intros scopes h2 Hle2 [Hl Hs]. wp_step. apply (wp_gives _ h _ _ _ Hle2 (malloc_gives h2)); [|intros; by apply lost].
  intros _ h3 Hle3 _. wp_step. apply (wp_gives _ h _ _ _ Hle3 (decl_created h3)); [|intros; by apply lost].
  intros _ h4 Hle4 _. cbn zeta. destruct (lookup_lt_is_Some_2 scopes (Z.to_nat SYM_ROLES)) as [scope Hsc]; [rewrite Hl; apply Nat.ltb_lt; reflexivity|].
  rewrite Hsc. do 2 wp_step. pose proof (Forall_lookup_1 _ _ _ _ Hs Hsc) as [Hfs _].
  assert (set_te p (avtab_init (te_avtab p)) = p) as ->.
  { destruct Hz as (Hz & _). destruct p. cbn in *. by subst. }
  wp_step. apply (wp_makes _ h _ _ _ Hle4 (roles_init_ok p (s_table scope) h4 ltac:(apply Ht) ltac:(apply Hz) Hfs)); cycle 1.
  { intros rc x h5 Hle Hne Ho. unfold nz. rewrite (proj2 (Z.eqb_neq _ _)) by done. cbn [negb]. by apply lost. }
  intros p' h5 Hle5 (s & -> & Hr & Hn). change (nz 0) with false. cbn iota. unfold cond_policydb_init. change (nz 0) with false. cbn iota.
  wp_step. apply (wp_gives _ h _ _ _ Hle5 (create_gives (2 ^ 10) 10 h5 ltac:(done) eq_refl)); [|intros; by apply lost].
  intros f h6 Hle6 Hf. wp_step. apply (wp_gives _ h _ _ _ Hle6 (create_gives (K := range_trans) (V := mls_range) 256 8 h6 ltac:(done) eq_refl)); [|intros; by apply lost].
  intros r h7 Hle7 Hrt. cbn zeta. wp_step. split; [done|]. split; [done|].
  assert (avtab_init (te_cond_avtab (set_roles p s)) = Avtab None 0 0 0) as ->.
  { destruct Hz as (_ & Hz & _). cbn [set_roles te_cond_avtab]. by rewrite Hz. }
  by apply empty_in_progress.
Qed.
