(* ===== verification/PolicyReadSpec.v ===== *)
(** * Policies from arbitrary bytes

    What [policydb_init], [policydb_read] and the entry points over them guarantee. *)

From S2P Require Import Prelude PolicyFile Ebitmap EbitmapFacts EbitmapIter EbitmapSpec Hashtab HashtabFacts HashtabSpec Avtab AvtabFacts AvtabSpec.
From S2P Require Import Mls Policydb MlsPolicy MlsFacts Conditional ConditionalFacts ConditionalSpec Context ContextSpec Constraint ObjectSid Optimize Services.
From S2P Require Import Sidtab SidtabSpec ConstraintSpec LoadPolicySpec.
From S2P Require Import Validate ValidateFacts ValidateRules ValidateSpec PolicySetters ReadPolicy IndexPolicy PolicydbRead PolicydbInit.
From S2P Require Import ReadFacts ReadRulesFacts ExpandFacts IndexFacts PolicyReadFacts PolicyInitFacts.

#[local] Open Scope reader_scope.

(** ** Reading *)

(** The data are of their C types, the tables are in order, and every symbol that
    is mentioned is one of the policy. *)
Definition accepted (p : policydb) : Prop := policy_data p ∧ symbols_ok p ∧ classes_wf p ∧ valid_policy p.

Lemma filled_wf {V} (D : string → V → Prop) t : filled D t → table_wf t.
Proof. intros (h & -> & Hw & _) h0. by intros [= <-]. Qed.

Lemma classes_in_wf p : tables_in p → classes_wf p.
Proof.
  intros Ht. pose proof (ti_classes p Ht) as Hc. split; [by eapply filled_wf|]. intros name d Hd. destruct Hc as (h & Es & Hw & Hall).
  rewrite Es in Hd. apply (entries_dict (λ _, class_in)) in Hall; [|done]. destruct (Hall _ _ Hd) as (_ & Hcm & [Hp _] & _).
  split; [by eapply filled_wf|]. intros com E. destruct (Hcm com E) as [_ [Hcp _]]. by eapply filled_wf.
Qed.

Lemma reads_validated p : read_through p →
  reads (rc <~ lift (policydb_validate p) ;; guard negb (nz rc) ;; rret p) accepted.
Proof.
  intros Hp. pose proof (read_through_data p Hp) as Hd. eapply (reads_bind _ _ (λ rc, rc = 0 → valid_policy p)).
  { apply reads_lift. intros h. eapply wp_mono; [by apply validate_spec|]. by intros rc h' [_ [[_ ?]|[? _]]]. }
  intros rc Hv. rd_guard. apply reads_ret. split_and!; [done|apply indexed_symbols, Hp|apply classes_in_wf, Hp|].
  apply Hv. by apply negb_true_iff, negb_false_iff, Z.eqb_eq in E.
Qed.

Lemma reads_rest info p : front_policy p → narrow_process p → info_ok info → reads (read_rest info p) accepted.
Proof.
  intros Hp Hn Hi. unfold read_rest. destruct (find_classes_ok p Hp Hn) as (p1 & Hf & H1).
  eapply reads_bind; [by apply (reads_get _ p1 (λ x, x = p1))|]. intros ? ->.
  eapply reads_bind; [by apply reads_rules|]. clear - Hi. intros p Hp. rd_alloc.
  eapply reads_bind; [by apply reads_classes|]. clear - Hi. intros p [Hp Ha]. destruct (find_transitions_ok p Hp Ha) as (p1 & Hf & H1).
  eapply reads_bind; [by apply (reads_get _ p1 (λ x, x = p1))|]. intros ? ->.
  eapply reads_bind; [by apply reads_others|]. clear - Hi. intros p (Hp & Ho & Hg).
  eapply reads_bind; [by apply reads_contexts|]. clear. intros p Hp. eapply reads_bind; [by apply reads_paths|]. clear. intros p Hp.
  eapply reads_bind; [by apply reads_mls|]. clear. intros p Hp. eapply reads_bind; [by apply reads_type_maps|]. clear. intros p Hp.
  by apply reads_validated.
Qed.

(** The class of processes has a value of more than 16 bits. *)
Definition wide_process (p : policydb) : Prop :=
  ∃ d, hashtab_search (s_table (p_classes p)) (process_name p) = Some (Some d) ∧ 2 ^ 16 ≤ cl_value d.

(** The policy of the symbol tables of [fp], when they could be read. *)
Definition read_symbols_of (p : policydb) (fp : policy_file) (h : heap) (p1 : policydb) : Prop :=
  ∃ info fp1 h1, read_front p fp h = Some ((Some (p1, info), fp1), h1).

Lemma narrow_or_wide p : narrow_process p ∨ wide_process p.
Proof.
  unfold narrow_process, wide_process. destruct (hashtab_search (s_table (p_classes p)) (process_name p)) as [[d|]|]; [|by left..].
  destruct (decide (cl_value d < 2 ^ 16)); [left|right].
  - by intros ? [= <-].
  - exists d. split; [done|lia].
Qed.

Lemma policydb_read_spec p fp h :
  initialised p → file_ok fp → not_module fp →
  wp (policydb_read p fp) h (λ r _, ∀ p', r.1 = Some p' → accepted p') ∨ ∃ p1, read_symbols_of p fp h p1 ∧ wide_process p1.
Proof.
  intros Hp Hf Hm. pose proof (front_spec p fp h Hp Hf Hm) as ([o fp1] & h1 & E & Hr)%wp_run. cbn [fst snd] in Hr.
  destruct o as [[p1 info]|]; cycle 1.
  { left. unfold policydb_read, rbind. apply wp_bind, wp_run. eexists _, _. split; [exact E|]. cbn beta iota. by wp_step. }
  destruct Hr as [[H1 Hi] Hf1]. cbn [fst snd] in *. destruct (narrow_or_wide p1) as [Hn|Hw]; [left|right; exists p1; split; [by eexists _, _, _|done]].
  unfold policydb_read, rbind at 1. apply wp_bind, wp_run. eexists _, _. split; [exact E|].
  eapply wp_mono; [by apply (reads_rest info p1 H1 Hn Hi)|]. intros [[p'|] fp'] h' Hx p2; [|done]. intros [= <-]. apply Hx.
Qed.

(** ** Creation *)

Lemma create_initialised h0 h1 p : sepol_policydb_create h0 = Some ((0, Some (Some p)), h1) → initialised p.
Proof.
  intros Hc. assert (wp sepol_policydb_create h0 (λ r _, ∀ p, r.2 = Some (Some p) → initialised p)) as Hw.
  { unfold sepol_policydb_create. wp_step. apply wp_any_malloc. intros [x|] h; [|by wp_step]. wp_step.
    eapply wp_mono; [apply policydb_init_made|]. intros [rc [q|]] h' [_ Hq]; destruct (nz rc); wp_step; intros p'; try done.
    intros [= <-]. apply Hq. }
  apply wp_run in Hw as (r & h & E & Hr). rewrite Hc in E. injection E as <- <-. by apply Hr.
Qed.

(** ** Theorems *)



(** ** Examples *)

Definition words (l : list Z) : list Z := concat (le_bytes 4 <$> l).

Fixpoint text (s : string) : list Z :=
  match s with EmptyString => [] | String c s => Z.of_nat (Ascii.nat_of_ascii c) :: text s end.

Definition no_bits : list Z := words [64; 0; 0].
Definition low_bits (w : Z) : list Z := words [64; 64; 1; 0] ++ le_bytes 8 w.
Definition one_level : list Z := words [1; 1] ++ no_bits.

(** A policy with one class, [process], of the given value, one role besides
    [object_r], a type, a user, a level and a rule. *)
Definition image (class_value nclasses : Z) : list Z :=
  words [POLICYDB_MAGIC; 8] ++ text "SE Linux" ++ words [33; 1; 8; 9] ++ no_bits ++ no_bits ++
  words [0; 0] ++
  words [nclasses; 1] ++ words [7; 0; class_value; 2; 2; 0] ++ text "process" ++ words [10; 1] ++ text "transition" ++
    words [13; 2] ++ text "dyntransition" ++ words [0; 0; 0; 0; 0] ++
  words [2; 2] ++ words [8; 1; 0] ++ text "object_r" ++ low_bits 1 ++ no_bits ++ words [1; 2; 0] ++ text "r" ++ low_bits 2 ++ low_bits 1 ++
  words [1; 1] ++ words [1; 1; 1; 0] ++ text "t" ++
  words [1; 1] ++ words [1; 1; 0] ++ text "u" ++ low_bits 2 ++ one_level ++ words [1] ++ no_bits ++
  words [0; 0] ++
  words [1; 1] ++ words [2; 0] ++ text "s0" ++ words [1] ++ no_bits ++
  words [0; 0] ++
  words [1] ++ le_bytes 2 1 ++ le_bytes 2 1 ++ le_bytes 2 1 ++ le_bytes 2 1 ++ words [3] ++
  words [0] ++ words [0] ++ words [0] ++ words [0] ++
  words [1; 1; 1; 2; 1] ++ one_level ++ words [0; 0; 0; 0; 0; 0; 0; 0] ++
  words [0] ++ words [0] ++ low_bits 1.

Definition new_policy_of (r : option (Z * option (option policydb) * heap)) : policydb :=
  match r with Some ((_, Some (Some p)), _) => p | _ => policydb_zero end.

Definition created : policydb := Eval vm_compute in new_policy_of (sepol_policydb_create (Heap 0 [])).

Definition created_heap : heap :=
  Eval vm_compute in match sepol_policydb_create (Heap 0 []) with Some (_, h) => h | None => Heap 0 [] end.




(** Two types and their attribute; the attribute without the second type. *)
Definition expand_policy : policydb :=
  set_type_index (set_types policydb_zero (Symtab None 3)) []
    [Some (TypeDatum 1 1 TYPE_TYPE ebitmap_init 0 0); Some (TypeDatum 2 1 TYPE_TYPE ebitmap_init 0 0);
     Some (TypeDatum 3 1 TYPE_ATTRIB (of_bits [0; 1]) 0 0)].

Definition expand_set : type_set := TypeSet (of_bits [2]) (of_bits [1]) 0.

